(* ===== verification/_CoqProject ===== *)
-Q . S2P
Prelude.v
RustStd.v
RustText.v
RustNet.v
Axum.v
Core.v
Shutdown.v
Crates.v
Toy.v
Crypto.v
Frame.v
Replay.v
Control.v
Merkle.v
TreeHead.v
Log.v
Handshake.v
Attest.v
Quotes.v
Nvidia.v
RealVerifier.v
Federation.v
Receipts.v
Threshold.v
KvCloak.v
Model.v
Halo2.v
Zk.v
Matrix.v
Lru.v
Float64.v
RateLimit.v
NonceRegistry.v
TenantPool.v
Gateway.v
Relay.v
SessionToken.v
Overlay.v
Phase4.v
Service.v
EngineTask.v
Watcher.v
LogAuditor.v
WatcherMain.v
Engine.v
TeeServer.v
Adapters.v
Candle.v
Session.v
EndToEnd.v
Tls.v
Python.v
Demo.v
Deployment.v
DemoMain.v
GatewayMain.v
Lifecycle.v
Browser.v
