(* ===== verification/Prelude.v ===== *)
(** * Verification of ullm

    ullm is a confidential inference service: a client talks to a language
    model inside a trusted execution environment (TEE) through an untrusted
    gateway, over an attested, end-to-end encrypted channel, and gets a signed
    receipt for what it was served.  This library models the Rust code under
    [src/crates], [src/tools] and [src/bindings] as executable definitions and proves the
    properties that make it correct.  This file holds what all others share.

    ** The program and its files

    A client fetches a pre-key bundle with attestation evidence
    ([ullm-client], [ullm-attest], [ullm-tee/identity.rs]), runs a hybrid
    X25519/ML-KEM handshake over a WebSocket ([ullm-handshake],
    [ullm-crypto]), sends its prompt in an encrypted frame and reads the
    answer as frames ([ullm-wire]); the TEE rotates the channel's keys every
    two chunks, cloaks its key-value rows per tenant ([ullm-kvcloak],
    [ullm-tee/tenant.rs]), runs a small verifiable model beside the engine
    ([ullm-model]) and sends a signed receipt ([ullm-receipts]).  Bundles are
    recorded by the gateway in a transparency log ([ullm-gateway],
    [ullm-transparency]), which also limits each tenant's rate and relays the
    sockets.  Evidence is checked by a verifier for TDX, SNP and NVIDIA quotes
    ([ullm-attest]), several of which form a quorum ([ullm-federation]).
    Outside the service, a watcher recomputes receipts and a log auditor
    checks heads, proofs and forks ([src/tools]).  The client also exists for
    the browser and for Python ([src/bindings]).  Connections to the gateway
    are pinned, and post-quantum on request ([ullm-tls]); a receipt's layer
    commitments can be proved in zero knowledge ([ullm-zk]) and its signature
    made by a threshold of signers ([ullm-threshold]).  Two-party evaluation
    ([ullm-mpc]) and onion routing ([ullm-overlay]) are separate libraries.

    - [Prelude]: results, byte strings, automation, generic lemmas.
    - [RustStd]: the standard library the code uses: fixed-width arithmetic,
      endianness, decimal printing and parsing, UTF-8 validation, searching;
      [RustText]: splitting, trimming, hexadecimal printing and parsing;
      [RustNet]: IP and socket addresses, printed and parsed;
      [Float64]: IEEE doubles as the rate limiter uses them.
    - [Core]: [ullm-core]: constants, errors and their texts, ids, clock;
      [Shutdown]: [shutdown.rs]: signal handler, watch channel and waits as
      polled state machines, the process as a step relation.
    - [Crates]: the third-party crates as classes of operations with laws;
      [Toy]: computable instances of all of them, which show that the laws
      are satisfiable and let the witnesses evaluate.  [Axum]: the router,
      [Halo2]: the proof system and its layouter, in the same way.
    - [Crypto]: [ullm-crypto]: key schedule, hybrid key exchange, ratchets.
    - [Frame], [Replay], [Control]: [ullm-wire]: [frame.rs] and [codec.rs],
      [replay.rs], [control.rs].
    - [Merkle], [TreeHead], [Log]: [ullm-transparency]: [merkle.rs] and
      [inclusion.rs]; [sth.rs], [witness.rs] and [auditor.rs]; [log.rs].
    - [Handshake]: [ullm-handshake]; [Attest]: [evidence.rs], [verifier.rs]
      and [mock.rs] of [ullm-attest], [identity.rs] of [ullm-tee] and
      [attest_check.rs] of [ullm-client].
    - [Quotes]: [tdx.rs], [snp.rs] and [signature.rs] of [ullm-attest];
      [Nvidia]: [nvidia.rs]; [RealVerifier]: [real_verifier.rs].
    - [Federation]: [multi_vendor.rs], [build.rs] and [pool.rs] of
      [ullm-federation], over any class of verifiers.
    - [Receipts]: [ullm-receipts] and the digests of [service.rs];
      [Threshold]: [ullm-threshold] over an interface to FROST.
    - [KvCloak], [Matrix]: [ullm-kvcloak]: [cloak.rs] and [seal.rs];
      [matrix.rs] and [spd.rs].
    - [Model]: [ullm-model] and [ullm-mpc]; [Zk]: [circuit.rs] and [layer.rs]
      of [ullm-zk], a circuit being the requests its synthesis makes.
    - [Lru]: the table-and-index structure [NonceRegistry]
      ([nonce_registry.rs]), [TenantPool] ([tenant.rs]) and [RateLimit]
      ([rate_limit.rs] of [ullm-gateway]) share.
    - [Gateway]: the endpoints of [proxy.rs], with the steps of concurrent
      requests as a transition system; [Relay]: its WebSocket relay, two
      interleaved loops; [SessionToken]: [session_token.rs]; [GatewayMain]:
      its routers and [bin/server.rs], with the lives of a deployment.
    - [Lifecycle]: both [bin/server.rs] from the launch of their listeners to
      the end of [main], as transition systems over [Shutdown], a clock and
      the connections.
    - [Overlay]: [ullm-overlay].  [Phase4]: [ullm-phase4-demo], the four
      separate libraries in one run.
    - [Service]: [service.rs] of [ullm-tee]: the session handler in a state
      and error monad over the socket, the generator and the tenant pool, and
      the attestation endpoint.  [EngineTask]: the engine's task, its channel
      and its guard, interleaved with the handler's loop.  [Engine]: the mock engine of [inference.rs].
      [TeeServer]: the routers of [service.rs] and [bin/server.rs].
      [Session]: [session.rs] of [ullm-client].  [Adapters]: [ullm-phala] and
      the stub engine of [ullm-llm]; [Candle]: its [real.rs].
    - [EndToEnd]: service and session composed; [Deployment]: with the
      gateway's bundle endpoint and relay between them; [Demo]: with the layer
      prover and verifier of [ullm-demo]; [DemoMain]: the gateway, certificate
      and pin of [ullm-demo].  [Browser]: [bindings/ts],
      related to [Session]; [Python]: [bindings/python], built on it; [Tls]:
      [ullm-tls] and the pinning settings of the client.
    - [Watcher], [WatcherMain]: [lib.rs] and [main.rs] of [ullm-watcher];
      [LogAuditor]: [main.rs] of [ullm-log-auditor].

    ** How the code is modelled

    A [u8] is a byte, wider integers are [Z] with their wrap-around,
    saturation or checks written out; a [Vec<u8>], a slice, an array and a
    [String] are lists of bytes, with the length of an array or the validity
    of UTF-8 as a side condition where it matters.  [Result] is a sum,
    [Option] an option; a panic ([expect], a failed assertion) is [None] or an
    error constructor of its own.  A [HashMap] with an index is a [gmap] with a
    [gset]; a [BTreeMap] that is serialized is its ordered list.  Randomness,
    clocks, the file system and the network are explicit arguments and
    threaded state: a generator is a state of type [R], the log's file has a
    written and a synced part, a socket is the list of events to come, the
    outcomes of sends and the messages sent.  A relay's socket may stay open
    and silent after its events, and the client's reads are also stated on
    sequences of events that never end.  Callbacks and trait objects are
    function arguments or class instances.  Third-party code is an interface of
    [Crates] (or [Pasta] in [Model]); no law says that a hash is injective or a
    signature unforgeable.  A theorem that needs it names the messages: its
    alternative is that two different messages which the code in question
    hashes, given as terms or as members of explicit lists, have one digest
    ([sha256_collide], [sha256_collide_in]); that a collision exists somewhere
    is never an alternative.

    ** What is proved

    - The channel: frames round-trip and are canonical, nonces are unique, the
      replay window refines the set of accepted numbers and loses no fresh
      frame, control bodies are exactly encodings.
    - The handshake: both sides agree on all keys; report data binds nonce,
      server key and secret; no downgrade.
    - Attestation: a bundle is accepted exactly for its nonce, model, issuer and
      age.  The quote parsers are exactly their formats: serialisations for TDX,
      the offset table for SNP; what the real verifier accepts is fresh and carries
      binding and measurement at the hardware's offsets; the quorum accepts
      exactly on enough distinct identities and names the first slot of each
      ([one_node_meets_quorum] shows what that does not give).
    - A whole session: [session_end_to_end] composes all of it, from the
      bundle to the receipt, through key rotations; [next_token] returns on an
      endless stream exactly when some event is not a ping, pong or key update;
      the handler is fail-stop when a send fails; the
      engine's task hands it the chunks in order under every interleaving; the mock engine
      echoes ASCII prompts exactly.  [session_through_gateway] puts the
      gateway in between, under every interleaving of its relay.
      [browser_session] is the same for the
      browser, whose [decrypt] refines the native reader; the Python client
      returns what the native one streams.
    - TLS: a pinned client accepts exactly by fingerprint and name (and whatever
      the handshake signature), a strict one only the post-quantum group.
    - Receipts, cloaking, sealing, the model and its two-party evaluation:
      round trips, binding, totality, equivalence with the plain computation.
      The layer circuit can be satisfied exactly for the commitments of the
      layer's input and output; openings of chained commitments are a run of
      the whole model, or name two vectors with one hash; every honest trace can
      be proved.  With the demo's adapters a receipt the client accepts brought
      an accepted proof for every layer, bound to its commitments and session
      (nothing ties them to the prompt), and the TEE's proofs are accepted: the whole
      demo completes through its gateway ([demo_run_completes]).  Threshold signing succeeds exactly
      with enough different signers.
    - Bounded tables: registry, pool and rate limiter keep their bounds and
      indexes in step after any sequence of operations; the registry refines
      its specification, and no allowed charge exceeds the burst.
    - The log: append and crash recovery over a file that can lose unsynced
      bytes; proofs and audits are sound and complete.
    - The gateway: heads answered under any interleaving never fork, a relayed
      bundle was charged and logged, a head answered without interference
      survives every crash ([head_race] shows the interleaving that does not);
      the relay forwards prefixes in order, and when it stops moving it has
      returned or waits for a silent peer, for which it has no time limit;
      across restarts and, under the default sync policy, crashes, a deployment
      in which no append's system call fails never forks.
    - The processes: a signal reaches every listener under any interleaving;
      the TEE's [main] ends at the latest 30 seconds after it saw the signal,
      and exactly then or when both listeners are drained; the gateway's ends
      exactly when both listeners have, so that one open management connection
      holds it, and its final flush, for ever ([mgmt_connection_holds_exit]);
      hidden routes look like unknown paths; start-up succeeds with the
      configuration it was given or names its error.
    - The tools against the service they watch: heads, proofs and entries of
      an honest gateway pass the auditor; a receipt that the session handler
      builds passes the watcher; verdicts, exit codes and panics are
      characterised, with what the command line leaves unchecked ([watcher_unchecked]).
    - Onion routing delivers and terminates; session tokens round-trip exactly
      when the replica id has no dot.  The phase-4 walkthrough completes and
      prints what it should, or an unlucky event is named.  The candle engine
      streams one id per chunk within its limit, but every id is 0
      ([candle_engine_sends_zeros]).

    ** Fuel

    On a stream that ends [next_token] gets one unit more than there are events
    (one that does not end is treated by its prefixes), [route] one more
    than the message has bytes, decimal and hexadecimal printing one more than
    the number has bits; each is proved enough (no theorem speaks of running out).  The
    Merkle loops recurse on the length of the level by well-founded recursion.

    ** Not modelled

    TCP, the TLS record layer and the WebSocket protocol, the operating
    system's environment and sockets, tokio's scheduler (any interleaving is
    allowed), axum's and axum-server's accept loops, the candle libraries and
    the Python and JavaScript runtimes are outside the repository; what the
    code uses of them is an argument or an interface.  Of the code, these are
    left out: the benchmarks, which time the modelled functions on fixed
    inputs; accessors that return a field, and second copies of a function
    that is modelled once; log lines and the texts on the tools' error output;
    the Windows branch of the signal handler.
    The manifest lists every component with its status. *)

From stdpp Require Export base gmap list numbers sets sorting.
From coqutil Require Export Byte Word.LittleEndianList.
From Stdlib Require String.
Export String.StringSyntax.
From Stdlib Require Import Lia ZifyNat ZifyN ZifyBool.

Declare Scope ullm_scope.
Delimit Scope ullm_scope with ullm.
#[global] Open Scope Z_scope.
#[global] Open Scope ullm_scope.
#[global] Open Scope nat_scope.

(** ** Bytes and byte strings

    [u8] is [byte]; a [Vec<u8>], a slice and a fixed-size array are all
    [list byte] (the size of an array is a side condition where it
    matters); a Rust [String] is the list of its UTF-8 bytes. *)
Abbreviation bytes := (list byte).

(** A Rust byte-string or string literal. *)
Definition lit (s : String.string) : bytes := String.list_byte_of_string s.
Arguments lit s%_string_scope.

#[export] Instance byte_eq_dec : EqDecision byte := Byte.byte_eq_dec.

#[export] Instance byte_inhabited : Inhabited byte := populate Byte.x00.

#[export] Program Instance byte_countable : Countable byte :=
  inj_countable Byte.to_N Byte.of_N _.
Next Obligation. exact Byte.of_to_N. Qed.

(** ** Results

    [Result<A, E>] with the [?] operator as a bind. *)
Inductive result (A E : Type) : Type :=
| Ok (a : A)
| Err (e : E).
Arguments Ok {A E} a.
Arguments Err {A E} e.

Definition result_bind {A B E} (r : result A E) (k : A -> result B E) : result B E :=
  match r with
  | Ok a => k a
  | Err e => Err e
  end.

Notation "'let?' x ':=' c 'in' k" := (result_bind c (fun x => k))
  (at level 10, x pattern, c at level 200, k at level 200) : ullm_scope.

Definition ok_or {A E} (o : option A) (e : E) : result A E :=
  match o with Some a => Ok a | None => Err e end.

Definition map_err {A E F} (f : E -> F) (r : result A E) : result A F :=
  match r with Ok a => Ok a | Err e => Err (f e) end.

Definition is_ok {A E} (r : result A E) : bool :=
  match r with Ok _ => true | Err _ => false end.

#[export] Instance result_eq_dec `{EqA : EqDecision A, EqE : EqDecision E} :
  EqDecision (result A E).
Proof. solve_decision. Defined.

Lemma Ok_inj {A E} (x y : A) : @Ok A E x = Ok y -> x = y.
Proof. by intros [=]. Qed.

Lemma result_bind_Ok {A B E} (r : result A E) (k : A -> result B E) (v : B) :
  result_bind r k = Ok v <-> exists a, r = Ok a /\ k a = Ok v.
Proof. destruct r; simpl; split; [|intros (? & [= <-] & ?)| |intros (? & [=] & _)]; eauto; done. Qed.

Lemma ok_or_Ok {A E} (o : option A) (e : E) (a : A) :
  ok_or o e = Ok a <-> o = Some a.
Proof. destruct o; simpl; naive_solver. Qed.

Lemma map_err_Ok {A E F} (f : E -> F) (r : result A E) (a : A) :
  map_err f r = Ok a <-> r = Ok a.
Proof. destruct r; simpl; naive_solver. Qed.

(** [Iterator::collect::<Result<Vec<_>, _>>()]: the first error wins. *)
Fixpoint collect_results {A B E} (f : A -> result B E) (l : list A) : result (list B) E :=
  match l with
  | [] => Ok []
  | x :: l' => let? y := f x in let? ys := collect_results f l' in Ok (y :: ys)
  end.

(** ** Machine integers

    A [uN] value is a [Z] in [0, 2^N); the operators that wrap or saturate
    in the source are written out here. *)
Definition u8_max : Z := 2 ^ 8 - 1.
Definition u16_max : Z := 2 ^ 16 - 1.
Definition u32_max : Z := 2 ^ 32 - 1.
Definition u64_max : Z := 2 ^ 64 - 1.

Definition is_u8 (z : Z) : Prop := (0 <= z < 2 ^ 8)%Z.
Definition is_u16 (z : Z) : Prop := (0 <= z < 2 ^ 16)%Z.
Definition is_u32 (z : Z) : Prop := (0 <= z < 2 ^ 32)%Z.
Definition is_u64 (z : Z) : Prop := (0 <= z < 2 ^ 64)%Z.

Definition wrapping_add (w x y : Z) : Z := ((x + y) mod 2 ^ w)%Z.
Definition saturating_add (w x y : Z) : Z := Z.min (x + y) (2 ^ w - 1).
Definition saturating_sub (x y : Z) : Z := Z.max (x - y) 0.
Definition checked_add (w x y : Z) : option Z :=
  if (x + y <? 2 ^ w)%Z then Some (x + y)%Z else None.
Definition wrapping_mul (w x y : Z) : Z := ((x * y) mod 2 ^ w)%Z.

(** [to_be_bytes] / [from_be_bytes] and their little-endian versions at a
    width of [n] bytes. *)
Definition to_le_bytes (n : nat) (z : Z) : bytes := le_split n z.
Definition to_be_bytes (n : nat) (z : Z) : bytes := rev (le_split n z).
Definition from_le_bytes (l : bytes) : Z := le_combine l.
Definition from_be_bytes (l : bytes) : Z := le_combine (rev l).

(** [l[i..j]]; the model clamps where Rust panics, so a use is preceded by
    the length check the source makes. *)
Definition slice {A} (i j : nat) (l : list A) : list A := take (j - i) (drop i l).

Definition byte_xor (x y : byte) : byte := byte.xor x y.

(** ** Lemmas on bytes and integers *)

Lemma length_to_be_bytes n z : length (to_be_bytes n z) = n.
Proof. unfold to_be_bytes. rewrite length_rev. apply length_le_split. Qed.

Lemma length_to_le_bytes n z : length (to_le_bytes n z) = n.
Proof. apply length_le_split. Qed.

Lemma from_to_be_bytes n z :
  (0 <= z < 2 ^ (Z.of_nat n * 8))%Z -> from_be_bytes (to_be_bytes n z) = z.
Proof.
  intros H. unfold from_be_bytes, to_be_bytes.
  rewrite rev_involutive, le_combine_split. by apply Z.mod_small.
Qed.

Lemma from_to_le_bytes n z :
  (0 <= z < 2 ^ (Z.of_nat n * 8))%Z -> from_le_bytes (to_le_bytes n z) = z.
Proof.
  intros H. unfold from_le_bytes, to_le_bytes.
  rewrite le_combine_split. by apply Z.mod_small.
Qed.

Lemma to_from_be_bytes n l : length l = n -> to_be_bytes n (from_be_bytes l) = l.
Proof.
  intros H. unfold from_be_bytes, to_be_bytes.
  rewrite split_le_combine' by (by rewrite length_rev). apply rev_involutive.
Qed.

Lemma to_from_le_bytes n l : length l = n -> to_le_bytes n (from_le_bytes l) = l.
Proof. intros H. unfold from_le_bytes, to_le_bytes. by apply split_le_combine'. Qed.

Lemma from_le_bytes_bound l :
  (0 <= from_le_bytes l < 2 ^ (8 * Z.of_nat (length l)))%Z.
Proof. apply le_combine_bound. Qed.

Lemma from_be_bytes_bound l :
  (0 <= from_be_bytes l < 2 ^ (8 * Z.of_nat (length l)))%Z.
Proof.
  unfold from_be_bytes. pose proof (le_combine_bound (rev l)) as H.
  by rewrite length_rev in H.
Qed.

Lemma to_be_bytes_inj n z1 z2 :
  (0 <= z1 < 2 ^ (Z.of_nat n * 8))%Z -> (0 <= z2 < 2 ^ (Z.of_nat n * 8))%Z ->
  to_be_bytes n z1 = to_be_bytes n z2 -> z1 = z2.
Proof.
  intros H1 H2 E. rewrite <- (from_to_be_bytes n z1), <- (from_to_be_bytes n z2) by done.
  by rewrite E.
Qed.

Lemma to_le_bytes_inj n z1 z2 :
  (0 <= z1 < 2 ^ (Z.of_nat n * 8))%Z -> (0 <= z2 < 2 ^ (Z.of_nat n * 8))%Z ->
  to_le_bytes n z1 = to_le_bytes n z2 -> z1 = z2.
Proof.
  intros H1 H2 E. rewrite <- (from_to_le_bytes n z1), <- (from_to_le_bytes n z2) by done.
  by rewrite E.
Qed.

Lemma byte_testbit_high (x : byte) i : (8 <= i)%Z -> Z.testbit (byte.unsigned x) i = false.
Proof.
  intros Hi. pose proof (byte.unsigned_range x).
  rewrite <- (Z.mod_small (byte.unsigned x) (2 ^ 8)) by lia.
  apply Z.mod_pow2_bits_high. lia.
Qed.

Lemma unsigned_byte_xor x y :
  byte.unsigned (byte_xor x y) = Z.lxor (byte.unsigned x) (byte.unsigned y).
Proof.
  unfold byte_xor, byte.xor. rewrite byte.unsigned_of_Z. unfold byte.wrap.
  rewrite <- Z.land_ones by lia. apply Z.bits_inj'. intros i Hi.
  rewrite Z.land_spec, Z.lxor_spec.
  destruct (decide (i < 8)%Z).
  - rewrite Z.ones_spec_low by lia. apply andb_true_r.
  - rewrite !byte_testbit_high by lia. done.
Qed.

Lemma byte_xor_inj_r x y z : byte_xor x y = byte_xor x z -> y = z.
Proof.
  intros H. apply (f_equal byte.unsigned) in H. rewrite !unsigned_byte_xor in H.
  apply byte.unsigned_inj. apply (f_equal (Z.lxor (byte.unsigned x))) in H.
  by rewrite <- !Z.lxor_assoc, !Z.lxor_nilpotent, !Z.lxor_0_l in H.
Qed.

(** ** Lemmas on lists *)

Lemma app_inj_length_1 {A} (l1 l2 k1 k2 : list A) :
  length l1 = length k1 -> l1 ++ l2 = k1 ++ k2 -> l1 = k1 /\ l2 = k2.
Proof. intros H E. by apply app_inj_1. Qed.

Lemma slice_app_skip {A} i j (l1 l2 : list A) :
  length l1 <= i -> slice i j (l1 ++ l2) = slice (i - length l1) (j - length l1) l2.
Proof.
  intros H. unfold slice. rewrite drop_app_ge by done. f_equal. lia.
Qed.

Lemma slice_app_exact {A} j (l1 l2 : list A) :
  length l1 = j -> slice 0 j (l1 ++ l2) = l1.
Proof. intros <-. unfold slice. rewrite drop_0, Nat.sub_0_r. by rewrite take_app_length. Qed.

Lemma slice_full {A} j (l : list A) : length l = j -> slice 0 j l = l.
Proof. intros <-. unfold slice. rewrite drop_0, Nat.sub_0_r. by rewrite firstn_all. Qed.

Lemma length_slice {A} i j (l : list A) :
  i <= j -> j <= length l -> length (slice i j l) = j - i.
Proof. intros. unfold slice. rewrite length_take, length_drop. lia. Qed.

(** ** Automation *)

Create HintDb ullm.
#[warnings="-implicit-create-rewrite-hint-db"]
#[export] Hint Rewrite @length_app @length_to_be_bytes @length_to_le_bytes
  @length_map @length_rev @length_replicate : ullm_len.
#[export] Hint Resolve from_be_bytes_bound : ullm.

(** Lengths of concatenated encodings. *)
Ltac solve_len := autorewrite with ullm_len in *; simpl in *; lia.

(** Invert the successful path of a chain of [let?]s. *)
Ltac inv_ok :=
  repeat match goal with
  | H : result_bind _ _ = Ok _ |- _ => apply result_bind_Ok in H as (? & ? & H)
  | H : ok_or _ _ = Ok _ |- _ => apply ok_or_Ok in H
  | H : map_err _ _ = Ok _ |- _ => apply map_err_Ok in H
  | H : Ok _ = Ok _ |- _ => apply Ok_inj in H; subst
  | H : Err _ = Ok _ |- _ => discriminate H
  | H : (if ?c then _ else _) = Ok _ |- _ => destruct c eqn:?; try discriminate H
  end.
