(* ===== verification/RustStd.v ===== *)
(** * The parts of Rust's standard library the program uses

    Text (ASCII classes, decimal and hexadecimal [Display], [str::parse] for
    unsigned integers, [rfind], [splitn]) and the ordered collections
    ([BTreeMap] with static string keys, [BTreeSet] as a finite set together
    with the order its iterator follows). *)

From S2P Require Import Prelude.
From Stdlib Require Import Lia.

Local Open Scope Z_scope.

(** ** ASCII classes *)

Definition uval (c : byte) : Z := byte.unsigned c.

Definition is_ascii_digit (c : byte) : bool := (48 <=? uval c) && (uval c <=? 57).
Definition is_ascii_lower (c : byte) : bool := (97 <=? uval c) && (uval c <=? 122).
Definition is_ascii_upper (c : byte) : bool := (65 <=? uval c) && (uval c <=? 90).
Definition is_ascii_alphanumeric (c : byte) : bool :=
  is_ascii_digit c || is_ascii_lower c || is_ascii_upper c.
Definition is_ascii_hexdigit (c : byte) : bool :=
  is_ascii_digit c
  || ((97 <=? uval c) && (uval c <=? 102)) || ((65 <=? uval c) && (uval c <=? 70)).
(** Space, horizontal tab, line feed, form feed, carriage return. *)
Definition is_ascii_whitespace (c : byte) : bool :=
  (uval c =? 32) || (uval c =? 9) || (uval c =? 10) || (uval c =? 12) || (uval c =? 13).

(** ** [Display] for unsigned integers *)

Definition digit (d : Z) : byte := byte.of_Z (48 + d).

Fixpoint fmt_dec_fuel (fuel : nat) (n : Z) (acc : bytes) : bytes :=
  match fuel with
  | O => acc
  | S fuel =>
      let acc := digit (n mod 10) :: acc in
      if n / 10 =? 0 then acc else fmt_dec_fuel fuel (n / 10) acc
  end.

(** A number below [2^k] has at most [k + 1] decimal digits. *)
Definition fmt_dec (n : Z) : bytes := fmt_dec_fuel (S (Z.to_nat (Z.log2 n))) n [].

Definition hex_digit (d : Z) : byte := if d <? 10 then byte.of_Z (48 + d) else byte.of_Z (87 + d).

(** ["{:#04x}"] of a [u8]: the prefix and two digits. *)
Definition fmt_hex04 (n : Z) : bytes := lit "0x" ++ [hex_digit (n / 16); hex_digit (n mod 16)].

(** ** [str::parse::<uN>()]

    One optional [+], then at least one digit, with overflow checked at
    every step. *)
Fixpoint parse_digits (w : Z) (acc : Z) (l : bytes) : option Z :=
  match l with
  | [] => Some acc
  | c :: l =>
      if is_ascii_digit c then
        let acc := acc * 10 + (uval c - 48) in
        if acc <? 2 ^ w then parse_digits w acc l else None
      else None
  end.

Definition parse_uint (w : Z) (l : bytes) : option Z :=
  match l with
  | [] => None
  | c :: l' =>
      if uval c =? 43 then (if decide (l' = []) then None else parse_digits w 0 l')
      else parse_digits w 0 l
  end.

(** ** [str::rfind] and [str::splitn] on a one-byte pattern *)

Fixpoint find_byte (c : byte) (l : bytes) : option nat :=
  match l with
  | [] => None
  | x :: l => if decide (x = c) then Some O else S <$> find_byte c l
  end.

Fixpoint rfind_byte (c : byte) (l : bytes) : option nat :=
  match l with
  | [] => None
  | x :: l =>
      match rfind_byte c l with
      | Some i => Some (S i)
      | None => if decide (x = c) then Some O else None
      end
  end.

(** [l.splitn(n, c)] as the list of its pieces, [n >= 1]. *)
Fixpoint splitn (n : nat) (c : byte) (l : bytes) : list bytes :=
  match n with
  | O => []
  | 1%nat => [l]
  | S n =>
      match find_byte c l with
      | Some i => take i l :: splitn n c (drop (S i) l)
      | None => [l]
      end
  end.

(** ** [std::str::from_utf8] *)

Definition in_range (lo hi : Z) (c : byte) : bool := (lo <=? uval c) && (uval c <=? hi).
Definition cont (c : byte) : bool := in_range 0x80 0xBF c.

Fixpoint utf8_valid (l : bytes) : bool :=
  match l with
  | [] => true
  | c :: l1 =>
      if uval c <=? 0x7F then utf8_valid l1
      else match l1 with
      | [] => false
      | d :: l2 =>
          if in_range 0xC2 0xDF c then cont d && utf8_valid l2
          else match l2 with
          | [] => false
          | e :: l3 =>
              if uval c =? 0xE0 then in_range 0xA0 0xBF d && cont e && utf8_valid l3
              else if uval c =? 0xED then in_range 0x80 0x9F d && cont e && utf8_valid l3
              else if in_range 0xE1 0xEF c then cont d && cont e && utf8_valid l3
              else match l3 with
              | [] => false
              | f :: l4 =>
                  if uval c =? 0xF0 then in_range 0x90 0xBF d && cont e && cont f && utf8_valid l4
                  else if uval c =? 0xF4 then in_range 0x80 0x8F d && cont e && cont f && utf8_valid l4
                  else if in_range 0xF1 0xF3 c then cont d && cont e && cont f && utf8_valid l4
                  else false
              end
          end
      end
  end.

(** ** [BTreeMap<&'static str, V>] as its iteration order *)

Fixpoint bytes_cmp (l1 l2 : bytes) : comparison :=
  match l1, l2 with
  | [], [] => Eq
  | [], _ :: _ => Lt
  | _ :: _, [] => Gt
  | x :: l1, y :: l2 =>
      match uval x ?= uval y with Eq => bytes_cmp l1 l2 | c => c end
  end.

Fixpoint btree_insert {V} (k : bytes) (v : V) (m : list (bytes * V)) : list (bytes * V) :=
  match m with
  | [] => [(k, v)]
  | (k', v') :: m' =>
      match bytes_cmp k k' with
      | Lt => (k, v) :: m
      | Eq => (k, v) :: m'
      | Gt => (k', v') :: btree_insert k v m'
      end
  end.

(** ** Lemmas on text *)

Lemma uval_of_Z z : is_u8 z -> uval (byte.of_Z z) = z.
Proof. intros H. unfold uval. rewrite byte.unsigned_of_Z. by apply Z.mod_small. Qed.

Lemma uval_digit d : 0 <= d < 10 -> uval (digit d) = 48 + d.
Proof.
  intros. unfold uval, digit. rewrite byte.unsigned_of_Z. unfold byte.wrap.
  apply Z.mod_small. lia.
Qed.

Lemma is_ascii_digit_digit d : 0 <= d < 10 -> is_ascii_digit (digit d) = true.
Proof. intros H. unfold is_ascii_digit. rewrite uval_digit by done. lia. Qed.

(** Reading back the digits [fmt_dec_fuel] puts in front of [acc]. *)
Lemma parse_fmt_dec_fuel w fuel n rest :
  0 <= n < 2 ^ w -> n < 10 ^ Z.of_nat fuel -> fuel <> O ->
  exists d ds, fmt_dec_fuel fuel n rest = digit d :: ds /\ 0 <= d < 10
    /\ parse_digits w 0 (digit d :: ds) = parse_digits w n rest.
Proof.
  revert n rest. induction fuel as [|fuel IH]; intros n rest Hn Hf Hne; [done|].
  cbn [fmt_dec_fuel].
  assert (Hm : 0 <= n mod 10 < 10) by (apply Z.mod_pos_bound; lia).
  pose proof (Z.div_mod n 10 ltac:(lia)) as Hdm.
  assert (Hstep : forall acc, acc = n / 10 ->
    parse_digits w acc (digit (n mod 10) :: rest) = parse_digits w n rest).
  { intros acc ->. cbn [parse_digits].
    rewrite is_ascii_digit_digit, uval_digit by lia.
    replace (n / 10 * 10 + (48 + n mod 10 - 48)) with n by lia.
    destruct (n <? 2 ^ w) eqn:E; [done|lia]. }
  destruct (n / 10 =? 0) eqn:E.
  - apply Z.eqb_eq in E. eexists _, _. split; [done|]. split; [lia|].
    rewrite <- (Hstep 0) by lia. done.
  - apply Z.eqb_neq in E.
    assert (0 < n / 10) by (apply Z.le_neq; split; [apply Z.div_pos; lia|lia]).
    destruct (decide (fuel = O)) as [->|Hfz].
    { cbn in Hf. rewrite Z.div_small in * by lia. lia. }
    destruct (IH (n / 10) (digit (n mod 10) :: rest)) as (d & ds & Heq & Hd & Hp); [lia| |done|].
    { apply Z.div_lt_upper_bound; [lia|].
      rewrite <- Z.pow_succ_r by lia. by rewrite <- Nat2Z.inj_succ. }
    eexists d, ds. split; [done|]. split; [done|]. rewrite Hp. by apply Hstep.
Qed.

Lemma log2_digits n : 0 <= n -> n < 10 ^ Z.of_nat (S (Z.to_nat (Z.log2 n))).
Proof.
  intros Hn. destruct (decide (n = 0)) as [->|]; [done|].
  rewrite Nat2Z.inj_succ, Z2Nat.id by apply Z.log2_nonneg.
  apply Z.lt_le_trans with (2 ^ Z.succ (Z.log2 n)).
  - apply Z.log2_spec. lia.
  - apply Z.pow_le_mono_l. lia.
Qed.

(** [format!("{n}").parse::<uN>() == Ok(n)]. *)
Lemma parse_fmt_dec w n : 0 <= n < 2 ^ w -> parse_uint w (fmt_dec n) = Some n.
Proof.
  intros Hn. unfold fmt_dec.
  destruct (parse_fmt_dec_fuel w (S (Z.to_nat (Z.log2 n))) n []) as (d & ds & Heq & Hd & Hp);
    [done|apply log2_digits; lia|lia|].
  rewrite Heq. unfold parse_uint. rewrite uval_digit by done.
  destruct (48 + d =? 43) eqn:E; [lia|]. by rewrite Hp.
Qed.

(** A parsed number fits its type. *)
Lemma parse_digits_bound w acc l n :
  0 <= acc < 2 ^ w -> parse_digits w acc l = Some n -> 0 <= n < 2 ^ w.
Proof.
  revert acc. induction l as [|c l IH]; intros acc Ha; simpl; [by intros [= <-]|].
  unfold is_ascii_digit. destruct (Z.leb_spec 48 (uval c)); [|done].
  destruct (_ <=? 57); [|done]. cbn [andb].
  destruct (Z.ltb_spec (acc * 10 + (uval c - 48)) (2 ^ w)); [|done]. apply IH. lia.
Qed.

Lemma parse_uint_bound w l n : 0 <= w -> parse_uint w l = Some n -> 0 <= n < 2 ^ w.
Proof.
  intros Hw. assert (0 <= 0 < 2 ^ w) by (pose proof (Z.pow_pos_nonneg 2 w ltac:(lia) Hw); lia).
  unfold parse_uint. destruct l as [|c l]; [done|].
  destruct (_ =? _); [destruct (decide _); [done|]|]; by apply parse_digits_bound.
Qed.

Lemma fmt_dec_fuel_digits fuel n acc :
  0 <= n -> Forall (fun c => is_ascii_digit c = true) acc ->
  Forall (fun c => is_ascii_digit c = true) (fmt_dec_fuel fuel n acc).
Proof.
  revert n acc. induction fuel as [|fuel IH]; intros n acc Hn Hacc; [done|].
  cbn [fmt_dec_fuel].
  assert (Forall (fun c => is_ascii_digit c = true) (digit (n mod 10) :: acc)).
  { constructor; [|done]. apply is_ascii_digit_digit, Z.mod_pos_bound. lia. }
  destruct (n / 10 =? 0); [done|]. apply IH; [apply Z.div_pos; lia|done].
Qed.

Lemma fmt_dec_digits n : 0 <= n -> Forall (fun c => is_ascii_digit c = true) (fmt_dec n).
Proof. intros. by apply fmt_dec_fuel_digits. Qed.

Lemma find_byte_app c l1 l2 : c ∉ l1 -> find_byte c (l1 ++ c :: l2) = Some (length l1).
Proof.
  induction l1 as [|x l1 IH]; intros Hc; simpl.
  - by rewrite decide_True.
  - rewrite decide_False by set_solver. rewrite IH by set_solver. done.
Qed.

Lemma find_byte_Some c l i :
  find_byte c l = Some i -> (c ∉ take i l) /\ l = take i l ++ c :: drop (S i) l.
Proof.
  revert i. induction l as [|x l IH]; intros i; simpl; [done|].
  destruct (decide (x = c)) as [->|].
  - intros [= <-]. simpl. split; [set_solver|by rewrite drop_0].
  - rewrite fmap_Some. intros (j & Hj & ->). apply IH in Hj as [? Heq].
    split; [set_solver|]. simpl. by rewrite <- Heq.
Qed.

Lemma find_byte_None c l : find_byte c l = None <-> c ∉ l.
Proof.
  induction l as [|x l IH]; simpl; [set_solver|].
  destruct (decide (x = c)) as [->|]; [set_solver|].
  rewrite fmap_None, IH. set_solver.
Qed.

Lemma rfind_byte_None c l : rfind_byte c l = None <-> c ∉ l.
Proof.
  induction l as [|x l IH]; simpl; [set_solver|].
  destruct (rfind_byte c l) eqn:E.
  - split; [done|]. intros Hc. assert (c ∉ l) by set_solver.
    by apply IH in H.
  - destruct (decide (x = c)) as [->|]; set_solver.
Qed.

Lemma rfind_byte_app c l1 l2 : c ∉ l2 -> rfind_byte c (l1 ++ c :: l2) = Some (length l1).
Proof.
  intros Hc. induction l1 as [|x l1 IH]; simpl.
  - rewrite (proj2 (rfind_byte_None c l2) Hc). by rewrite decide_True.
  - by rewrite IH.
Qed.

Definition is_ascii (c : byte) : bool := uval c <=? 0x7F.

Lemma utf8_valid_ascii l : Forall (fun c => is_ascii c = true) l -> utf8_valid l = true.
Proof.
  induction 1 as [|c l Hc Hl IH]; [done|]. unfold is_ascii in Hc. simpl. by rewrite Hc.
Qed.

(** ** Lemmas on the lexicographic order *)

Lemma bytes_cmp_refl l : bytes_cmp l l = Eq.
Proof. induction l; simpl; [done|]. by rewrite Z.compare_refl. Qed.

Lemma bytes_cmp_eq l1 l2 : bytes_cmp l1 l2 = Eq <-> l1 = l2.
Proof.
  split; [|intros ->; apply bytes_cmp_refl].
  revert l2. induction l1 as [|x l1 IH]; intros [|y l2]; simpl; try done.
  destruct (uval x ?= uval y) eqn:E; try done.
  apply Z.compare_eq in E. apply byte.unsigned_inj in E as ->. intros H.
  f_equal. by apply IH.
Qed.

Lemma bytes_cmp_antisym l1 l2 : bytes_cmp l2 l1 = CompOpp (bytes_cmp l1 l2).
Proof.
  revert l2. induction l1 as [|x l1 IH]; intros [|y l2]; simpl; try done.
  rewrite (Z.compare_antisym (uval x) (uval y)).
  destruct (uval x ?= uval y); simpl; auto.
Qed.

Lemma bytes_cmp_lt_trans l1 l2 l3 :
  bytes_cmp l1 l2 = Lt -> bytes_cmp l2 l3 = Lt -> bytes_cmp l1 l3 = Lt.
Proof.
  revert l2 l3. induction l1 as [|x l1 IH]; intros [|y l2] [|z l3]; simpl; try done.
  destruct (Z.compare_spec (uval x) (uval y)), (Z.compare_spec (uval y) (uval z));
    destruct (Z.compare_spec (uval x) (uval z)); try done; try lia; eauto.
Qed.
