(* ===== verification/RustText.v ===== *)
(** * Text in Rust's standard library

    UTF-8 decoding, lossy decoding, [str::chars], the splitting, trimming and
    case folding of [str], and the hexadecimal and [Debug] formatting the
    program uses.  A [str] is the list of its bytes; a [char] is its code
    point. *)

From S2P Require Import Prelude RustStd.
From Stdlib Require Import Lia.

Local Open Scope Z_scope.

(** ** [String::from_utf8_lossy]: each maximal ill-formed prefix of a sequence
    becomes one U+FFFD *)

Definition REPLACEMENT : bytes := [Byte.xef; Byte.xbf; Byte.xbd].

(** Lead and second byte of a three-byte and of a four-byte sequence. *)
Definition pair3 (c d : byte) : bool :=
  (in_range 0xE0 0xE0 c && in_range 0xA0 0xBF d) || (in_range 0xE1 0xEC c && cont d)
  || (in_range 0xED 0xED c && in_range 0x80 0x9F d) || (in_range 0xEE 0xEF c && cont d).
Definition pair4 (c d : byte) : bool :=
  (in_range 0xF0 0xF0 c && in_range 0x90 0xBF d) || (in_range 0xF1 0xF3 c && cont d)
  || (in_range 0xF4 0xF4 c && in_range 0x80 0x8F d).

Fixpoint from_utf8_lossy (l : bytes) : bytes :=
  match l with
  | [] => []
  | c :: l1 =>
      if is_ascii c then c :: from_utf8_lossy l1
      else match l1 with
      | [] => REPLACEMENT
      | d :: l2 =>
          if in_range 0xC2 0xDF c && cont d then c :: d :: from_utf8_lossy l2
          else if pair3 c d then
            match l2 with
            | [] => REPLACEMENT
            | e :: l3 =>
                if cont e then c :: d :: e :: from_utf8_lossy l3 else REPLACEMENT ++ from_utf8_lossy l2
            end
          else if pair4 c d then
            match l2 with
            | [] => REPLACEMENT
            | e :: l3 =>
                if cont e then
                  match l3 with
                  | [] => REPLACEMENT
                  | f :: l4 =>
                      if cont f then c :: d :: e :: f :: from_utf8_lossy l4
                      else REPLACEMENT ++ from_utf8_lossy l3
                  end
                else REPLACEMENT ++ from_utf8_lossy l2
            end
          else REPLACEMENT ++ from_utf8_lossy l1
      end
  end.

(** ** [str::chars], as code points *)

Definition low6 (c : byte) : Z := uval c mod 64.

Fixpoint chars (l : bytes) : list Z :=
  match l with
  | [] => []
  | c :: l1 =>
      if is_ascii c then uval c :: chars l1
      else match l1 with
      | [] => []
      | d :: l2 =>
          if in_range 0xC2 0xDF c then ((uval c mod 32) * 64 + low6 d) :: chars l2
          else match l2 with
          | [] => []
          | e :: l3 =>
              if in_range 0xE0 0xEF c then ((uval c mod 16) * 4096 + low6 d * 64 + low6 e) :: chars l3
              else match l3 with
              | [] => []
              | f :: l4 =>
                  ((uval c mod 8) * 262144 + low6 d * 4096 + low6 e * 64 + low6 f) :: chars l4
              end
          end
      end
  end.

(** ** Splitting and trimming *)

(** [str::split_once] on a pattern: the text before its first occurrence and
    the text after it. *)
Fixpoint split_once (pat l : bytes) : option (bytes * bytes) :=
  if decide (take (length pat) l = pat) then Some ([], drop (length pat) l) else
  match l with
  | [] => None
  | c :: l => '(a, b) ← split_once pat l; Some (c :: a, b)
  end.

Definition contains (pat l : bytes) : bool :=
  match split_once pat l with Some _ => true | None => false end.

(** [trim_end_matches] on a one-byte pattern. *)
Fixpoint trim_end_matches (c : byte) (l : bytes) : bytes :=
  match l with
  | [] => []
  | x :: l =>
      match trim_end_matches c l with
      | [] => if decide (x = c) then [] else [x]
      | l' => x :: l'
      end
  end.

(** The first of [str::lines]: a line ends at a newline, a carriage return
    just before it is dropped. *)
Definition first_line (l : bytes) : bytes :=
  match split_once [Byte.x0a] l with
  | Some (line, _) => if decide (last line = Some Byte.x0d) then removelast line else line
  | None => l
  end.

(** [str::split] on a one-byte pattern: all the pieces. *)
Fixpoint split_byte (c : byte) (l : bytes) : list bytes :=
  match l with
  | [] => [[]]
  | x :: l =>
      if decide (x = c) then [] :: split_byte c l else
      match split_byte c l with
      | [] => [[x]]
      | p :: ps => (x :: p) :: ps
      end
  end.

(** ** Case folding *)

Definition to_ascii_lowercase (c : byte) : byte :=
  if is_ascii_upper c then byte.of_Z (uval c + 32) else c.

Definition eq_ignore_ascii_case (a b : bytes) : bool :=
  bool_decide (to_ascii_lowercase <$> a = to_ascii_lowercase <$> b).

(** ** Hexadecimal formatting: [{:x}], and [{:0nx}] padded with zeros *)

Fixpoint fmt_hex_fuel (fuel : nat) (n : Z) (acc : bytes) : bytes :=
  match fuel with
  | O => acc
  | S fuel =>
      let acc := hex_digit (n mod 16) :: acc in
      if n / 16 =? 0 then acc else fmt_hex_fuel fuel (n / 16) acc
  end.

(** A number below [2^k] has at most [k + 1] hexadecimal digits. *)
Definition fmt_hex (n : Z) : bytes := fmt_hex_fuel (S (Z.to_nat (Z.log2 n))) n [].

Definition fmt_hex_pad (w : nat) (n : Z) : bytes :=
  let d := fmt_hex n in replicate (w - length d) Byte.x30 ++ d.

(** ** [char]: encoding and [Debug]

    The two Unicode tables [char::escape_debug] consults are arguments: which
    code points are printable and which extend a grapheme. *)
Definition char_utf8 (c : Z) : bytes :=
  if c <? 0x80 then [byte.of_Z c]
  else if c <? 0x800 then [byte.of_Z (0xC0 + c / 64); byte.of_Z (0x80 + c mod 64)]
  else if c <? 0x10000 then
    [byte.of_Z (0xE0 + c / 4096); byte.of_Z (0x80 + c / 64 mod 64); byte.of_Z (0x80 + c mod 64)]
  else
    [byte.of_Z (0xF0 + c / 262144); byte.of_Z (0x80 + c / 4096 mod 64);
     byte.of_Z (0x80 + c / 64 mod 64); byte.of_Z (0x80 + c mod 64)].

Class UnicodeTables := { char_printable : Z -> bool; grapheme_extend : Z -> bool }.

Definition char_escape_debug `{UnicodeTables} (c : Z) : bytes :=
  let BS := Byte.x5c in
  if c =? 0 then [BS; Byte.x30]
  else if c =? 9 then [BS; Byte.x74]
  else if c =? 13 then [BS; Byte.x72]
  else if c =? 10 then [BS; Byte.x6e]
  else if (c =? 92) || (c =? 39) then [BS; byte.of_Z c]
  else if grapheme_extend c || negb (char_printable c)
  then [BS; Byte.x75; Byte.x7b] ++ fmt_hex c ++ [Byte.x7d]
  else char_utf8 c.

Definition char_debug `{UnicodeTables} (c : Z) : bytes :=
  [Byte.x27] ++ char_escape_debug c ++ [Byte.x27].

(** [Debug] of [str]: the double quote is escaped instead of the single one. *)
Definition str_escape_debug `{UnicodeTables} (c : Z) : bytes :=
  if c =? 34 then [Byte.x5c; Byte.x22] else if c =? 39 then [Byte.x27] else char_escape_debug c.

Definition str_debug `{UnicodeTables} (s : bytes) : bytes :=
  [Byte.x22] ++ concat (str_escape_debug <$> chars s) ++ [Byte.x22].

(** ** White space and control characters *)

(** [char::is_whitespace]: the Unicode property White_Space. *)
Definition is_whitespace (c : Z) : bool :=
  ((9 <=? c) && (c <=? 13)) || (c =? 32) || (c =? 0x85) || (c =? 0xA0) || (c =? 0x1680)
  || ((0x2000 <=? c) && (c <=? 0x200A)) || (c =? 0x2028) || (c =? 0x2029) || (c =? 0x202F)
  || (c =? 0x205F) || (c =? 0x3000).

(** [char::is_control]: general category Cc. *)
Definition is_control (c : Z) : bool := (c <=? 0x1F) || ((0x7F <=? c) && (c <=? 0x9F)).

Fixpoint drop_while {A} (p : A -> bool) (l : list A) : list A :=
  match l with [] => [] | x :: l' => if p x then drop_while p l' else l end.

Definition encode_chars (cs : list Z) : bytes := concat (char_utf8 <$> cs).

(** [str::trim_start]. *)
Definition trim_start (l : bytes) : bytes := encode_chars (drop_while is_whitespace (chars l)).

(** [str::split_whitespace]: the maximal runs of other characters. *)
Fixpoint words (cs cur : list Z) : list bytes :=
  match cs with
  | [] => if decide (cur = []) then [] else [encode_chars cur]
  | c :: cs =>
      if is_whitespace c then
        (if decide (cur = []) then words cs [] else encode_chars cur :: words cs [])
      else words cs (cur ++ [c])
  end.

Definition split_whitespace (l : bytes) : list bytes := words (chars l) [].

(** [s.splitn(2, char::is_ascii_whitespace)]: the text before the first such
    byte, and the text after it if there is one. *)
Fixpoint split_ascii_whitespace (l : bytes) : bytes * option bytes :=
  match l with
  | [] => ([], None)
  | x :: l =>
      if is_ascii_whitespace x then ([], Some l)
      else let '(a, b) := split_ascii_whitespace l in (x :: a, b)
  end.

(** [str::strip_prefix]. *)
Definition strip_prefix (pat l : bytes) : option bytes :=
  if decide (take (length pat) l = pat) then Some (drop (length pat) l) else None.

(** The text of a [ParseIntError]: at each character an invalid digit is
    reported before an overflow. *)
Fixpoint parse_digits_error (w : Z) (acc : Z) (l : bytes) : bytes :=
  match l with
  | [] => []
  | c :: l =>
      if negb (is_ascii_digit c) then lit "invalid digit found in string" else
      let acc := acc * 10 + (uval c - 48) in
      if acc <? 2 ^ w then parse_digits_error w acc l
      else lit "number too large to fit in target type"
  end.

Definition parse_uint_error (w : Z) (l : bytes) : bytes :=
  match l with
  | [] => lit "cannot parse integer from empty string"
  | c :: l' =>
      if uval c =? 43 then (if decide (l' = []) then lit "invalid digit found in string"
                            else parse_digits_error w 0 l')
      else parse_digits_error w 0 l
  end.

(** ** Lemmas *)

Ltac bool_cases :=
  repeat match goal with
  | |- context [?a <=? ?b] => destruct (Z.leb_spec a b); cbn [andb orb negb]; try lia; try done
  | |- context [?a =? ?b] => destruct (Z.eqb_spec a b); cbn [andb orb negb]; try lia; try done
  end.

Lemma utf8_valid_pair3 c d e l :
  pair3 c d = true -> cont e = true -> utf8_valid (c :: d :: e :: l) = utf8_valid l.
Proof.
  unfold pair3, cont, in_range. intros Hp He. cbn [utf8_valid]. unfold cont, in_range.
  rewrite !orb_true_iff, !andb_true_iff, !Z.leb_le in Hp. rewrite andb_true_iff, !Z.leb_le in He.
  bool_cases.
Qed.

Lemma utf8_valid_pair4 c d e f l :
  pair4 c d = true -> cont e = true -> cont f = true ->
  utf8_valid (c :: d :: e :: f :: l) = utf8_valid l.
Proof.
  unfold pair4, cont, in_range. intros Hp He Hf. cbn [utf8_valid]. unfold cont, in_range.
  rewrite !orb_true_iff, !andb_true_iff, !Z.leb_le in Hp.
  rewrite andb_true_iff, !Z.leb_le in He, Hf. bool_cases.
Qed.

Lemma utf8_valid_pair2 c d l :
  in_range 0xC2 0xDF c && cont d = true -> utf8_valid (c :: d :: l) = utf8_valid l.
Proof.
  unfold cont, in_range. rewrite !andb_true_iff, !Z.leb_le. intros H. cbn [utf8_valid].
  unfold cont, in_range. bool_cases.
Qed.

Lemma utf8_valid_replacement l : utf8_valid (REPLACEMENT ++ l) = utf8_valid l.
Proof. done. Qed.

(** Induction on the length. *)
Lemma lossy_ind (P : bytes -> Prop) :
  (forall l, (forall l', (length l' < length l)%nat -> P l') -> P l) -> forall l, P l.
Proof.
  intros H l. remember (length l) as n eqn:Hn. revert l Hn.
  induction n as [n IH] using lt_wf_ind. intros l ->. apply H. intros l' Hl. by eapply IH.
Qed.

(** The cases of one step of the decoder: a well-formed sequence is kept, the
    rest of the input is shorter, and anything else is replaced. *)
Lemma lossy_step l :
  l = [] \/ exists s l', (length l' < length l)%nat /\ from_utf8_lossy l = s ++ from_utf8_lossy l'
    /\ (forall r, utf8_valid (s ++ r) = utf8_valid r)
    /\ (length s + 3 * length l' <= 3 * length l)%nat.
Proof.
  destruct l as [|c l1]; [by left|]. right. cbn [from_utf8_lossy].
  destruct (is_ascii c) eqn:Hc.
  { exists [c], l1. split_and!; [simpl; lia|done| |simpl; lia].
    intros r. unfold is_ascii in Hc. cbn [utf8_valid app]. by rewrite Hc. }
  assert (Hrep : forall l', (length l' <= length l1)%nat -> (length l' < length (c :: l1))%nat
    /\ REPLACEMENT ++ from_utf8_lossy l' = REPLACEMENT ++ from_utf8_lossy l'
    /\ (forall r, utf8_valid (REPLACEMENT ++ r) = utf8_valid r)
    /\ (length REPLACEMENT + 3 * length l' <= 3 * length (c :: l1))%nat)
    by (intros l' Hl; split_and!; [simpl; lia|done|done|simpl; lia]).
  destruct l1 as [|d l2]; [exists REPLACEMENT, []; by apply Hrep|].
  destruct (in_range 0xC2 0xDF c && cont d) eqn:H2.
  { exists [c; d], l2. split_and!; [simpl; lia|done| |simpl; lia].
    intros r. by apply utf8_valid_pair2. }
  destruct (pair3 c d) eqn:H3.
  { destruct l2 as [|e l3]; [exists REPLACEMENT, []; apply Hrep; simpl; lia|].
    destruct (cont e) eqn:He; [|exists REPLACEMENT, (e :: l3); apply Hrep; simpl; lia].
    exists [c; d; e], l3. split_and!; [simpl; lia|done| |simpl; lia].
    intros r. by apply utf8_valid_pair3. }
  destruct (pair4 c d) eqn:H4; [|exists REPLACEMENT, (d :: l2); apply Hrep; simpl; lia].
  destruct l2 as [|e l3]; [exists REPLACEMENT, []; apply Hrep; simpl; lia|].
  destruct (cont e) eqn:He; [|exists REPLACEMENT, (e :: l3); apply Hrep; simpl; lia].
  destruct l3 as [|f l4]; [exists REPLACEMENT, []; apply Hrep; simpl; lia|].
  destruct (cont f) eqn:Hf; [|exists REPLACEMENT, (f :: l4); apply Hrep; simpl; lia].
  exists [c; d; e; f], l4. split_and!; [simpl; lia|done| |simpl; lia].
  intros r. by apply utf8_valid_pair4.
Qed.

(** The result is always UTF-8, at most three times as long. *)
Lemma lossy_valid l :
  utf8_valid (from_utf8_lossy l) = true /\ (length (from_utf8_lossy l) <= 3 * length l)%nat.
Proof.
  induction l as [l IH] using lossy_ind.
  destruct (lossy_step l) as [->|(s & l' & Hl & -> & Hv & Hlen)]; [by cbn; split|].
  destruct (IH l' Hl) as [V L]. rewrite Hv, length_app. split; [done|lia].
Qed.

Abbreviation ascii := (Forall (fun c => is_ascii c = true)).

Lemma lossy_ascii l : ascii l -> from_utf8_lossy l = l /\ chars l = uval <$> l.
Proof.
  induction 1 as [|c l Hc _ [IH1 IH2]]; [done|]. cbn [from_utf8_lossy chars fmap list_fmap].
  by rewrite Hc, IH1, IH2.
Qed.

Lemma split_byte_ne c l : split_byte c l <> [].
Proof. destruct l as [|x l]; cbn; [done|]. case_decide; [done|]. by destruct (split_byte c l). Qed.

(** The pieces joined again are the text, and no piece has the separator. *)
Lemma split_byte_join c l :
  List.concat (match split_byte c l with [] => [] | p :: ps => p :: (cons c <$> ps) end) = l.
Proof.
  induction l as [|x l IH]; [done|]. cbn [split_byte]. case_decide as D.
  - subst x. destruct (split_byte c l) as [|p ps] eqn:E; [by apply split_byte_ne in E|].
    cbn in *. by rewrite IH.
  - destruct (split_byte c l) as [|p ps] eqn:E; [by apply split_byte_ne in E|].
    cbn in *. by rewrite IH.
Qed.

Lemma split_byte_none c l : c ∉ l -> split_byte c l = [l].
Proof.
  induction l as [|x l IH]; [done|]. intros H. cbn. rewrite decide_False by set_solver.
  by rewrite IH by set_solver.
Qed.

Lemma split_byte_app c l r : c ∉ l -> split_byte c (l ++ c :: r) = l :: split_byte c r.
Proof.
  induction l as [|x l IH]; intros H; cbn [app split_byte].
  - by rewrite decide_True.
  - rewrite decide_False by set_solver. by rewrite IH by set_solver.
Qed.

Lemma trim_end_matches_id c l : last l <> Some c -> trim_end_matches c l = l.
Proof.
  induction l as [|x l IH]; [done|]. intros H. cbn [trim_end_matches].
  destruct l as [|y l]; cbn in *.
  - rewrite decide_False; [done|congruence].
  - rewrite IH by done. done.
Qed.

Lemma trim_end_matches_app c l k : trim_end_matches c (l ++ replicate k c) = trim_end_matches c l.
Proof.
  induction l as [|x l IH]; cbn [app trim_end_matches]; [|by rewrite IH].
  induction k as [|k IH]; cbn [replicate trim_end_matches]; [done|]. rewrite IH. by rewrite decide_True.
Qed.

Lemma hex_digit_hexdigit d : 0 <= d < 16 -> is_ascii_hexdigit (hex_digit d) = true.
Proof.
  intros H. assert (Hd : d = 0 \/ d = 1 \/ d = 2 \/ d = 3 \/ d = 4 \/ d = 5 \/ d = 6 \/ d = 7
    \/ d = 8 \/ d = 9 \/ d = 10 \/ d = 11 \/ d = 12 \/ d = 13 \/ d = 14 \/ d = 15) by lia.
  naive_solver.
Qed.

Lemma fmt_hex_fuel_digits fuel n acc :
  0 <= n -> Forall (fun c => is_ascii_hexdigit c = true) acc ->
  Forall (fun c => is_ascii_hexdigit c = true) (fmt_hex_fuel fuel n acc).
Proof.
  revert n acc. induction fuel as [|fuel IH]; intros n acc Hn Hacc; [done|]. cbn [fmt_hex_fuel].
  assert (Forall (fun c => is_ascii_hexdigit c = true) (hex_digit (n mod 16) :: acc)).
  { constructor; [|done]. apply hex_digit_hexdigit, Z.mod_pos_bound. lia. }
  destruct (n / 16 =? 0); [done|]. apply IH; [apply Z.div_pos; lia|done].
Qed.

Lemma fmt_hex_digits n : 0 <= n -> Forall (fun c => is_ascii_hexdigit c = true) (fmt_hex n).
Proof. intros. by apply fmt_hex_fuel_digits. Qed.

Lemma split_once_Some pat l a b : split_once pat l = Some (a, b) -> l = a ++ pat ++ b.
Proof.
  revert a b. induction l as [|c l IH]; intros a b; cbn [split_once].
  - case_decide as D; [|done]. intros [= <- <-]. rewrite take_nil in D. subst pat. by rewrite drop_nil.
  - case_decide as D.
    + intros [= <- <-]. cbn [app]. rewrite <- (take_drop (length pat) (c :: l)) at 1. by rewrite D.
    + destruct (split_once pat l) as [[a' b']|] eqn:E; [|done]. cbn. intros [= <- <-].
      cbn [app]. f_equal. by apply IH.
Qed.

(** The first occurrence is found at once when the text before it cannot
    start the pattern. *)
Lemma split_once_here pat l : split_once pat (pat ++ l) = Some ([], l).
Proof.
  assert (E : take (length pat) (pat ++ l) = pat) by apply take_app_length.
  destruct pat as [|p pat]; [by destruct l|].
  cbn [split_once app]. change (p :: pat ++ l) with ((p :: pat) ++ l). rewrite decide_True by exact E.
  do 2 f_equal. apply (drop_app_length (p :: pat)).
Qed.

Lemma split_once_skip pat c l r : c ∉ pat -> pat <> [] -> (c :: l) = r ->
  split_once pat r = match split_once pat l with Some (a, b) => Some (c :: a, b) | None => None end.
Proof.
  intros Hc Hp <-. destruct pat as [|p pat]; [done|]. cbn [split_once].
  rewrite decide_False; [by destruct (split_once (p :: pat) l) as [[]|]|].
  cbn. intros [= -> _]. set_solver.
Qed.

Lemma split_once_app pat a l : pat <> [] -> Forall (fun c => c ∉ pat) a ->
  split_once pat (a ++ l) = match split_once pat l with Some (x, y) => Some (a ++ x, y) | None => None end.
Proof.
  intros Hp Ha. induction Ha as [|c a Hc Ha IH]; cbn [app].
  - by destruct (split_once pat l) as [[]|].
  - rewrite (split_once_skip pat c (a ++ l)) by done. rewrite IH. by destruct (split_once pat l) as [[]|].
Qed.

Lemma chars_ascii l : Forall (fun c => is_ascii c = true) l -> chars l = uval <$> l.
Proof. intros H. by apply lossy_ascii. Qed.

Lemma char_utf8_ascii c : is_ascii c = true -> char_utf8 (uval c) = [c].
Proof.
  unfold is_ascii, char_utf8. rewrite Z.leb_le. intros H.
  destruct (Z.ltb_spec (uval c) 0x80); [|lia]. unfold uval. by rewrite byte.of_Z_unsigned.
Qed.

Lemma encode_chars_ascii l : Forall (fun c => is_ascii c = true) l -> encode_chars (uval <$> l) = l.
Proof.
  induction 1 as [|c l Hc _ IH]; [done|]. unfold encode_chars in *. cbn.
  rewrite char_utf8_ascii by done. cbn. by rewrite IH.
Qed.

(** The text before the first occurrence of a byte does not have it. *)
Lemma split_once_byte_notin c l a b : split_once [c] l = Some (a, b) -> c ∉ a.
Proof.
  revert a b. induction l as [|x l IH]; intros a b; cbn [split_once length take]; [done|].
  case_decide as D; [intros [= <- _]; set_solver|].
  destruct (split_once [c] l) as [[a' b']|]; [|done]. cbn. intros [= <- _].
  specialize (IH _ _ eq_refl). set_solver.
Qed.

Lemma split_once_Forall (P : byte -> Prop) pat l a b :
  split_once pat l = Some (a, b) -> Forall P l -> Forall P a /\ Forall P b.
Proof. intros ->%split_once_Some. rewrite !Forall_app. naive_solver. Qed.

Lemma trim_end_matches_last c l : last (trim_end_matches c l) <> Some c.
Proof.
  induction l as [|x l IH]; [done|]. cbn [trim_end_matches].
  destruct (trim_end_matches c l) as [|y l'] eqn:E; [|exact IH]. case_decide; cbn; congruence.
Qed.

Lemma trim_end_matches_Forall (P : byte -> Prop) c l : Forall P l -> Forall P (trim_end_matches c l).
Proof.
  induction 1 as [|x l Hx _ IH]; [done|]. cbn [trim_end_matches].
  destruct (trim_end_matches c l) as [|y l']; [case_decide; auto|auto].
Qed.

Lemma uval_range c : 0 <= uval c < 256.
Proof. apply byte.unsigned_range. Qed.

Lemma low6_range c : 0 <= low6 c < 64.
Proof. by apply Z.mod_pos_bound. Qed.

(** A decoded character has at most 21 bits. *)
Lemma chars_range l : Forall (fun c => 0 <= c < 2 ^ 21) (chars l).
Proof.
  induction l as [l IH] using lossy_ind. destruct l as [|c l1]; [constructor|]. cbn [chars].
  pose proof (uval_range c). pose proof (low6_range) as L.
  destruct (is_ascii c); [constructor; [lia|apply IH; simpl; lia]|].
  destruct l1 as [|d l2]; [constructor|]. pose proof (L d).
  pose proof (Z.mod_pos_bound (uval c) 32 eq_refl). pose proof (Z.mod_pos_bound (uval c) 16 eq_refl).
  pose proof (Z.mod_pos_bound (uval c) 8 eq_refl).
  destruct (in_range _ _ c); [constructor; [lia|apply IH; simpl; lia]|].
  destruct l2 as [|e l3]; [constructor|]. pose proof (L e).
  destruct (in_range _ _ c); [constructor; [lia|apply IH; simpl; lia]|].
  destruct l3 as [|f l4]; [constructor|]. pose proof (L f).
  constructor; [lia|apply IH; simpl; lia].
Qed.

(** Beyond ASCII, every byte of the encoding has its top bit set. *)
Lemma char_utf8_high c : 0x80 <= c < 2 ^ 21 -> Forall (fun b => 0x80 <= uval b) (char_utf8 c).
Proof.
  intros Hc. unfold char_utf8. destruct (Z.ltb_spec c 0x80); [lia|].
  assert (D : forall k, 0 <= k mod 64 < 64) by (intros; by apply Z.mod_pos_bound).
  pose proof (D c). pose proof (D (c / 64)). pose proof (D (c / 4096)).
  destruct (Z.ltb_spec c 0x800); [|destruct (Z.ltb_spec c 0x10000)];
    repeat constructor; rewrite uval_of_Z; unfold is_u8; lia || Z.to_euclidean_division_equations; lia.
Qed.
