(* ===== verification/RustNet.v ===== *)
(** * std::net: addresses and their texts

    What the sources use of [IpAddr] and [SocketAddr]: the loopback test and
    [Display].  An IPv4 address is four octets, an IPv6 address eight 16-bit
    segments. *)

From S2P Require Import Prelude RustStd RustText.
From Stdlib Require Import Lia.

Local Open Scope Z_scope.

Inductive IpAddr :=
| V4 (a b c d : Z)
| V6 (segments : list Z).

#[export] Instance IpAddr_eq_dec : EqDecision IpAddr.
Proof. solve_decision. Defined.

Definition ip_wf (ip : IpAddr) : Prop :=
  match ip with
  | V4 a b c d => is_u8 a /\ is_u8 b /\ is_u8 c /\ is_u8 d
  | V6 segments => length segments = 8%nat /\ Forall is_u16 segments
  end.

Definition is_loopback (ip : IpAddr) : bool :=
  match ip with
  | V4 a _ _ _ => a =? 127
  | V6 segments => bool_decide (segments = [0; 0; 0; 0; 0; 0; 0; 1])
  end.

Definition v4_display (a b c d : Z) : bytes :=
  fmt_dec a ++ lit "." ++ fmt_dec b ++ lit "." ++ fmt_dec c ++ lit "." ++ fmt_dec d.

(** The first longest run of zeros, as start and length. *)
Fixpoint zero_spans (l : list Z) (i : nat) (current longest : nat * nat) : nat * nat :=
  match l with
  | [] => longest
  | s :: l =>
      if s =? 0 then
        let current := (if (current.2 =? 0)%nat then i else current.1, S current.2) in
        zero_spans l (S i) current (if (longest.2 <? current.2)%nat then current else longest)
      else zero_spans l (S i) (O, O) longest
  end.

Fixpoint fmt_subslice (l : list Z) : bytes :=
  match l with
  | [] => []
  | [s] => fmt_hex s
  | s :: l => fmt_hex s ++ lit ":" ++ fmt_subslice l
  end.

Definition v6_display (l : list Z) : bytes :=
  match l with
  | [0; 0; 0; 0; 0; 0xffff; ab; cd] =>
      lit "::ffff:" ++ v4_display (ab / 256) (ab mod 256) (cd / 256) (cd mod 256)
  | _ =>
      let '(start, len) := zero_spans l 0 (O, O) (O, O) in
      if (1 <? len)%nat then fmt_subslice (take start l) ++ lit "::" ++ fmt_subslice (drop (start + len) l)
      else fmt_subslice l
  end.

Definition ip_display (ip : IpAddr) : bytes :=
  match ip with V4 a b c d => v4_display a b c d | V6 l => v6_display l end.

(** The scope of an IPv6 socket address is zero for IPv4. *)
Record SocketAddr := { ip : IpAddr; port : Z; scope_id : Z }.

Definition socket_display (a : SocketAddr) : bytes :=
  match ip a with
  | V4 _ _ _ _ => ip_display (ip a) ++ lit ":" ++ fmt_dec (port a)
  | V6 _ =>
      lit "[" ++ ip_display (ip a)
      ++ (if scope_id a =? 0 then [] else lit "%" ++ fmt_dec (scope_id a)) ++ lit "]:" ++ fmt_dec (port a)
  end.

Example v6_texts :
  v6_display [0; 0; 0; 0; 0; 0; 0; 1] = lit "::1"
  /\ v6_display [0x2001; 0xdb8; 0; 0; 1; 0; 0; 1] = lit "2001:db8::1:0:0:1"
  /\ v6_display [0; 0; 0; 0; 0; 0xffff; 0x7f00; 1] = lit "::ffff:127.0.0.1"
  /\ v6_display [1; 0; 2; 3; 4; 5; 6; 7] = lit "1:0:2:3:4:5:6:7".
Proof. repeat split; vm_compute; reflexivity. Qed.

(** ** [FromStr] for [SocketAddr]

    The parser's combinators: a reader consumes a prefix or leaves the input
    as it was. *)
Definition reader (A : Type) : Type := bytes -> option (A * bytes).

Definition read_given_char (c : byte) : reader unit := fun l =>
  match l with d :: l => if decide (d = c) then Some (tt, l) else None | [] => None end.

(** [char::to_digit] at radix 10 or 16. *)
Definition to_digit (radix : Z) (c : byte) : option Z :=
  if is_ascii_digit c then Some (uval c - 48)
  else if radix =? 16 then
    let d := uval (to_ascii_lowercase c) - 87 in
    if (10 <=? d) && (d <? 16) then Some d else None
  else None.

(** The digits at the front of the input, with their value. *)
Fixpoint read_digits (radix : Z) (acc : Z) (n : nat) (l : bytes) : Z * nat * bytes :=
  match l with
  | c :: l' =>
      match to_digit radix c with
      | Some d => read_digits radix (acc * radix + d) (S n) l'
      | None => (acc, n, l)
      end
  | [] => (acc, n, l)
  end.

(** [read_number] into an unsigned type of [w] bits. *)
Definition read_number (w radix : Z) (max_digits : option nat) (allow_zero_prefix : bool) : reader Z :=
  fun l =>
  let '(v, n, rest) := read_digits radix 0 0 l in
  if (n =? 0)%nat then None
  else if match max_digits with Some m => (m <? n)%nat | None => false end then None
  else if negb allow_zero_prefix && bool_decide (head l = Some Byte.x30) && (1 <? n)%nat then None
  else if v <? 2 ^ w then Some (v, rest) else None.

Definition read_separator {A} (sep : byte) (index : nat) (inner : reader A) : reader A := fun l =>
  if (index =? 0)%nat then inner l
  else match read_given_char sep l with Some (_, l) => inner l | None => None end.

Definition DOT : byte := Byte.x2e.
Definition COLON : byte := Byte.x3a.

Definition read_octet (index : nat) : reader Z := read_separator DOT index (read_number 8 10 (Some 3%nat) false).

Definition read_ipv4_addr : reader (Z * Z * Z * Z) := fun l =>
  '(a, l) ← read_octet 0 l;
  '(b, l) ← read_octet 1 l;
  '(c, l) ← read_octet 2 l;
  '(d, l) ← read_octet 3 l;
  Some ((a, b, c, d), l).

(** [read_groups]: up to [limit] groups from index [i] on, the last two of
    which may be an IPv4 address; the groups, whether it was one, the rest. *)
Fixpoint read_groups (limit i : nat) (l : bytes) : list Z * bool * bytes :=
  match limit with
  | O => ([], false, l)
  | S limit =>
      let embedded := if (limit =? 0)%nat then None else read_separator COLON i read_ipv4_addr l in
      match embedded with
      | Some ((a, b, c, d), l) => ([a * 256 + b; c * 256 + d], true, l)
      | None =>
          match read_separator COLON i (read_number 16 16 (Some 4%nat) true) l with
          | Some (g, l) => let '(gs, v4, l) := read_groups limit (S i) l in (g :: gs, v4, l)
          | None => ([], false, l)
          end
      end
  end.

Definition read_ipv6_addr : reader (list Z) := fun l =>
  let '(head, head_ipv4, l) := read_groups 8 0 l in
  if (length head =? 8)%nat then Some (head, l)
  else if head_ipv4 then None
  else
    '(_, l) ← read_given_char COLON l;
    '(_, l) ← read_given_char COLON l;
    let '(tail, _, l) := read_groups (8 - (length head + 1)) 0 l in
    Some (head ++ replicate (8 - length head - length tail) 0 ++ tail, l).

Definition read_port : reader Z := fun l =>
  '(_, l) ← read_given_char COLON l; read_number 16 10 None true l.

Definition read_scope_id : reader Z := fun l =>
  '(_, l) ← read_given_char Byte.x25 l; read_number 32 10 None true l.

Definition read_socket_addr_v4 : reader SocketAddr := fun l =>
  '((a, b, c, d), l) ← read_ipv4_addr l;
  '(p, l) ← read_port l;
  Some ({| ip := V4 a b c d; port := p; scope_id := 0 |}, l).

Definition read_socket_addr_v6 : reader SocketAddr := fun l =>
  '(_, l) ← read_given_char Byte.x5b l;
  '(segments, l) ← read_ipv6_addr l;
  let '(scope, l) := default (0, l) (read_scope_id l) in
  '(_, l) ← read_given_char Byte.x5d l;
  '(p, l) ← read_port l;
  Some ({| ip := V6 segments; port := p; scope_id := scope |}, l).

(** [None] is [AddrParseError]. *)
Definition parse_socket_addr (l : bytes) : option SocketAddr :=
  match match read_socket_addr_v4 l with Some r => Some r | None => read_socket_addr_v6 l end with
  | Some (a, []) => Some a
  | _ => None
  end.

Example parse_socket_addr_texts :
  parse_socket_addr (lit "127.0.0.1:9100") = Some {| ip := V4 127 0 0 1; port := 9100; scope_id := 0 |}
  /\ parse_socket_addr (lit "[::1]:9") = Some {| ip := V6 [0; 0; 0; 0; 0; 0; 0; 1]; port := 9; scope_id := 0 |}
  /\ parse_socket_addr (lit "[2001:DB8::1:0:0:1%7]:443")
     = Some {| ip := V6 [0x2001; 0xdb8; 0; 0; 1; 0; 0; 1]; port := 443; scope_id := 7 |}
  /\ parse_socket_addr (lit "[::ffff:127.0.0.1]:80")
     = Some {| ip := V6 [0; 0; 0; 0; 0; 0xffff; 0x7f00; 1]; port := 80; scope_id := 0 |}
  /\ parse_socket_addr (lit "127.0.0.01:80") = None /\ parse_socket_addr (lit "localhost:80") = None
  /\ parse_socket_addr (lit "127.0.0.1:65536") = None /\ parse_socket_addr (lit "127.0.0.1") = None
  /\ parse_socket_addr (lit "[1:2:3:4:5:6:7::]:1")
     = Some {| ip := V6 [1; 2; 3; 4; 5; 6; 7; 0]; port := 1; scope_id := 0 |}
  /\ parse_socket_addr (lit "[1::2::3]:1") = None.
Proof. repeat split; vm_compute; reflexivity. Qed.
