(* ===== verification/Axum.v ===== *)
(** * axum: routing, as an interface

    The routers of the two servers are tables of paths.  What axum does with
    a table is an interface: a [GET] of a path in the table reaches its
    handler, any request for another path gets the library's own answer,
    which its documentation says is a 404 with an empty body. *)

From S2P Require Import Prelude RustStd RustText.
From Stdlib Require Import Lia.

Local Open Scope Z_scope.

(** A request: the value of a header is [None] when it is absent or not
    visible ASCII. *)
Record Request := { method : bytes; path : bytes; header : bytes -> option bytes }.

Record Response := { status : Z; content_type : option bytes; body : bytes }.

(** [impl IntoResponse] for a string, and for a bare status code. *)
Definition text_response (code : Z) (s : bytes) : Response :=
  {| status := code; content_type := Some (lit "text/plain; charset=utf-8"); body := s |}.
Definition status_response (code : Z) : Response := {| status := code; content_type := None; body := [] |}.

Definition GET : bytes := lit "GET".

Inductive Dispatch := Matched (p : bytes) | Answered (r : Response).

Class Axum := { dispatch : list bytes -> Request -> Dispatch }.

Class AxumLaws `{Axum} : Prop := {
  dispatch_get paths r : method r = GET -> path r ∈ paths -> dispatch paths r = Matched (path r);
  dispatch_unknown paths r : path r ∉ paths -> dispatch paths r = Answered (status_response 404);
  dispatch_matched paths r p : dispatch paths r = Matched p -> p = path r /\ p ∈ paths;
}.

(** The same request for another path. *)
Definition with_path (r : Request) (p : bytes) : Request :=
  {| method := method r; path := p; header := header r |}.

(** A router that answers only [GET], any other method with a 405. *)
#[export] Instance toy_axum : Axum := {|
  dispatch paths r :=
    if bool_decide (path r ∈ paths)
    then if bool_decide (method r = GET) then Matched (path r) else Answered (status_response 405)
    else Answered (status_response 404);
|}.

#[export] Instance toy_axum_laws : AxumLaws.
Proof.
  split; unfold dispatch, toy_axum; intros paths r.
  - intros Hm Hp. by rewrite !bool_decide_eq_true_2.
  - intros Hp. by rewrite bool_decide_eq_false_2.
  - intros p. repeat case_bool_decide; by intros [= <-].
Qed.
