(* ===== verification/Core.v ===== *)
(** * ullm-core: protocol constants, identifiers and errors

    [crates/ullm-core/src]: [error.rs], [ids.rs], [version.rs], [clock.rs]. *)

From S2P Require Import Prelude RustStd.
From Stdlib Require Import Lia.

Local Open Scope Z_scope.

(** ** version.rs *)

Definition PROTOCOL_VERSION : Z := 0x03.
Definition PROTOCOL_ID : bytes := lit "ULLM-v1".
Definition MAX_PLAINTEXT_PER_RECORD : Z := 16 * 1024.
Definition NONCE_TTL_DEFAULT_SEC : Z := 60.
Definition SESSION_TTL_DEFAULT_SEC : Z := 300.
Definition ATTESTATION_CACHE_TTL_HOURS : Z := 24.
Definition MAX_WS_MESSAGE_BYTES : Z := 256 * 1024.
Definition ML_KEM_768_EK_LEN : Z := 1184.
Definition MAX_ATTESTATION_EVIDENCE_LEN : Z := 8 * 1024.

Inductive KemId := X25519MlKem768.

Definition KemId_repr (k : KemId) : Z :=
  match k with X25519MlKem768 => 0x11EC end.

Definition KemId_from_u16 (v : Z) : option KemId :=
  if v =? 0x11EC then Some X25519MlKem768 else None.

Inductive AeadId := XChaCha20Poly1305 | Aes256GcmSiv.

Definition AeadId_repr (a : AeadId) : Z :=
  match a with XChaCha20Poly1305 => 0x01 | Aes256GcmSiv => 0x02 end.

Definition AeadId_from_u8 (v : Z) : option AeadId :=
  if v =? 0x01 then Some XChaCha20Poly1305
  else if v =? 0x02 then Some Aes256GcmSiv
  else None.

Inductive HashId := Sha256Id | Sha384Id.

Definition HashId_repr (h : HashId) : Z :=
  match h with Sha256Id => 0x01 | Sha384Id => 0x02 end.

Definition HashId_from_u8 (v : Z) : option HashId :=
  if v =? 0x01 then Some Sha256Id
  else if v =? 0x02 then Some Sha384Id
  else None.

(** ** error.rs *)

Module ErrorCode.
Inductive t :=
| BadVersion | BadCipherSuite | AttestationFailed | Replay | SeqGap | Decrypt
| StaleAttestation | QuotaExceeded | Unauthorized | ModelUnavailable | Oom
| ContentPolicy | TeeOutOfDate | Internal.
End ErrorCode.

Definition ErrorCode_repr (c : ErrorCode.t) : Z :=
  match c with
  | ErrorCode.BadVersion => 0x0001
  | ErrorCode.BadCipherSuite => 0x0002
  | ErrorCode.AttestationFailed => 0x0003
  | ErrorCode.Replay => 0x0004
  | ErrorCode.SeqGap => 0x0005
  | ErrorCode.Decrypt => 0x0006
  | ErrorCode.StaleAttestation => 0x0007
  | ErrorCode.QuotaExceeded => 0x0008
  | ErrorCode.Unauthorized => 0x0009
  | ErrorCode.ModelUnavailable => 0x000A
  | ErrorCode.Oom => 0x000B
  | ErrorCode.ContentPolicy => 0x000C
  | ErrorCode.TeeOutOfDate => 0x000D
  | ErrorCode.Internal => 0x00FF
  end.

Definition ErrorCode_from_u16 (v : Z) : option ErrorCode.t :=
  if v =? 0x0001 then Some ErrorCode.BadVersion
  else if v =? 0x0002 then Some ErrorCode.BadCipherSuite
  else if v =? 0x0003 then Some ErrorCode.AttestationFailed
  else if v =? 0x0004 then Some ErrorCode.Replay
  else if v =? 0x0005 then Some ErrorCode.SeqGap
  else if v =? 0x0006 then Some ErrorCode.Decrypt
  else if v =? 0x0007 then Some ErrorCode.StaleAttestation
  else if v =? 0x0008 then Some ErrorCode.QuotaExceeded
  else if v =? 0x0009 then Some ErrorCode.Unauthorized
  else if v =? 0x000A then Some ErrorCode.ModelUnavailable
  else if v =? 0x000B then Some ErrorCode.Oom
  else if v =? 0x000C then Some ErrorCode.ContentPolicy
  else if v =? 0x000D then Some ErrorCode.TeeOutOfDate
  else if v =? 0x00FF then Some ErrorCode.Internal
  else None.

(** The crate's error type; the constructors carry the source's fields, a
    [String] payload is its UTF-8 bytes. *)
Inductive Error :=
| BadVersion (got expected : Z)
| BadCipherSuite
| AttestationFailed (msg : bytes)
| StaleAttestation (ttl_sec : Z)
| Replay (seq : Z)
| SeqGap (gap : Z)
| Decrypt
| ShortFrame (len : Z)
| LongFrame (len : Z)
| BadFrameType (v : Z)
| BadHandshake
| BadReceipt
| Transport (msg : bytes)
| Serde (msg : bytes)
| Other (msg : bytes).

#[export] Instance Error_eq_dec : EqDecision Error.
Proof. solve_decision. Defined.

Definition Error_code (e : Error) : ErrorCode.t :=
  match e with
  | BadVersion _ _ => ErrorCode.BadVersion
  | BadCipherSuite => ErrorCode.BadCipherSuite
  | AttestationFailed _ => ErrorCode.AttestationFailed
  | StaleAttestation _ => ErrorCode.StaleAttestation
  | Replay _ => ErrorCode.Replay
  | SeqGap _ => ErrorCode.SeqGap
  | Decrypt => ErrorCode.Decrypt
  | _ => ErrorCode.Internal
  end.

(** [Display], from the [error] attributes. *)
Definition Error_display (e : Error) : bytes :=
  match e with
  | BadVersion got expected =>
      lit "bad protocol version: got " ++ fmt_hex04 got ++ lit ", expected " ++ fmt_hex04 expected
  | BadCipherSuite => lit "unsupported cipher suite"
  | AttestationFailed msg => lit "attestation verification failed: " ++ msg
  | StaleAttestation ttl => lit "attestation evidence is stale (older than " ++ fmt_dec ttl ++ lit "s)"
  | Replay seq => lit "frame replay detected at seq=" ++ fmt_dec seq
  | SeqGap gap => lit "sequence number gap of " ++ fmt_dec gap ++ lit " exceeds replay window"
  | Decrypt => lit "AEAD decryption failed"
  | ShortFrame len => lit "frame too short: " ++ fmt_dec len ++ lit " bytes"
  | LongFrame len => lit "frame too long: " ++ fmt_dec len ++ lit " bytes"
  | BadFrameType v => lit "invalid frame type " ++ fmt_hex04 v
  | BadHandshake => lit "invalid handshake message"
  | BadReceipt => lit "invalid receipt signature"
  | Transport msg => lit "transport error: " ++ msg
  | Serde msg => lit "serialization error: " ++ msg
  | Other msg => msg
  end.

Abbreviation Result A := (result A Error).

(** ** ids.rs

    [SessionId] is its 16 bytes, [TenantId] its string, [Epoch] a [u32] and
    [Seq] a [u64]. *)
Abbreviation SessionId := bytes.
Abbreviation TenantId := bytes.
Abbreviation Epoch := Z.
Abbreviation Seq := Z.

Definition Seq_next (s : Seq) : Seq := wrapping_add 64 s 1.

(** The generator behind [SessionId::random], from its seed. *)
Fixpoint getrandom_compat (len : nat) (seed : Z) : bytes :=
  match len with
  | O => []
  | S len =>
      let seed := wrapping_add 64 (wrapping_mul 64 seed 6364136223846793005) 1442695040888963407 in
      byte.of_Z (Z.shiftr seed 56) :: getrandom_compat len seed
  end.

Definition SessionId_random (nanos addr : Z) : SessionId :=
  getrandom_compat 16 (Z.lxor (nanos mod 2 ^ 64) addr).

(** ** clock.rs

    [SystemTime::now()] is the argument [now_ns], nanoseconds relative to
    the UNIX epoch, negative when the clock is set before 1970. *)
Definition duration_since_epoch (now_ns : Z) : option Z :=
  if 0 <=? now_ns then Some (now_ns / 10 ^ 9) else None.

Definition now_unix (now_ns : Z) : Result Z :=
  ok_or (duration_since_epoch now_ns)
    (Other (lit "system clock before UNIX epoch (second time provided was later than self) — refusing to issue/verify timestamp")).

Definition now_unix_or_zero (now_ns : Z) : Z :=
  match duration_since_epoch now_ns with Some s => s | None => 0 end.

(** ** Lemmas *)

Lemma ErrorCode_repr_u16 c : is_u16 (ErrorCode_repr c).
Proof. destruct c; unfold is_u16; simpl; lia. Qed.

Lemma ErrorCode_roundtrip c : ErrorCode_from_u16 (ErrorCode_repr c) = Some c.
Proof. by destruct c. Qed.

Lemma ErrorCode_from_u16_Some v c : ErrorCode_from_u16 v = Some c -> v = ErrorCode_repr c.
Proof.
  unfold ErrorCode_from_u16.
  repeat match goal with
  | |- (if ?v =? ?k then _ else _) = _ -> _ =>
      destruct (Z.eqb_spec v k); [by intros [= <-]|]
  end. done.
Qed.

Lemma getrandom_compat_length len seed : length (getrandom_compat len seed) = len.
Proof. revert seed. induction len; intros; simpl; auto. Qed.
