(* ===== verification/Shutdown.v ===== *)
(** * ullm-core: graceful shutdown and the metrics address

    [crates/ullm-core/src/shutdown.rs]: the check of the address the
    [/metrics] listener binds, the broadcaster that wakes every listener on
    SIGINT or SIGTERM, and the single-listener helper (the Unix build).
    tokio's [watch] channel is an interface with the behaviour its
    documentation states; a future is the state it resumes from and a
    function that polls it; the process (signals, the handler task, the
    subscribers) is a step relation. *)

From S2P Require Import Prelude RustStd RustText RustNet.
From stdpp Require Import gmap relations fin_maps.
From Stdlib Require Import Lia.

Local Open Scope Z_scope.

(** ** The metrics address *)

(** [std::env::var("ULLM_METRICS_ALLOW_PUBLIC")]: [None] when it is not set
    or not Unicode. *)
Definition validate_metrics_addr (env : option bytes) (addr : SocketAddr) (var_name : bytes) :
  result SocketAddr bytes :=
  if is_loopback (ip addr) then Ok addr
  else if bool_decide (env = Some (lit "1")) || bool_decide (env = Some (lit "true"))
          || bool_decide (env = Some (lit "yes"))
  then Ok addr
  else Err (var_name ++ lit " = " ++ socket_display addr
            ++ lit " is not a loopback address. Refusing to expose /metrics on the public network. Set ULLM_METRICS_ALLOW_PUBLIC=1 to override (and ULLM_METRICS_TOKEN to gate access).").

Lemma validate_metrics_addr_Ok env addr name addr' :
  validate_metrics_addr env addr name = Ok addr'
  <-> addr' = addr
      /\ (is_loopback (ip addr) = true
          \/ env = Some (lit "1") \/ env = Some (lit "true") \/ env = Some (lit "yes")).
Proof.
  unfold validate_metrics_addr. destruct (is_loopback (ip addr)); [naive_solver|].
  repeat case_bool_decide; simpl; naive_solver.
Qed.

(** The text of a refusal names the variable and the address; a mapped
    IPv4 loopback is not a loopback address. *)
Example validate_texts :
  validate_metrics_addr None {| ip := V4 127 9 9 9; port := 9100; scope_id := 0 |} (lit "M")
    = Ok {| ip := V4 127 9 9 9; port := 9100; scope_id := 0 |}
  /\ is_ok (validate_metrics_addr (Some (lit "TRUE")) {| ip := V4 0 0 0 0; port := 9100; scope_id := 0 |} (lit "M"))
     = false
  /\ match validate_metrics_addr None
             {| ip := V6 [0; 0; 0; 0; 0; 0xffff; 0x7f00; 1]; port := 9100; scope_id := 0 |} (lit "M") with
     | Err e => take 54 e = lit "M = [::ffff:127.0.0.1]:9100 is not a loopback address."
     | Ok _ => False
     end.
Proof. vm_compute. repeat split. Qed.

(** ** tokio::sync::watch, at [bool]

    [changed] is one poll of [Receiver::changed]: [None] while it waits,
    [Some true] for [Ok(())], [Some false] when the sender is gone. *)
Class Watch := {
  Channel : Type;
  Receiver : Type;
  watch_channel : bool -> Channel * Receiver;
  borrow : Channel -> Receiver -> bool;
  changed : Channel -> Receiver -> option bool * Receiver;
  clone_receiver : Channel -> Receiver -> Channel * Receiver;
  drop_receiver : Channel -> Receiver -> Channel;
  send : bool -> Channel -> bool * Channel;
  drop_sender : Channel -> Channel;
}.

(** What the documentation says through the observations it names: the
    value held, whether a sender is left, the number of receivers, and
    whether a receiver (of this channel) has not seen the latest value. *)
Class WatchLaws `{Watch} := {
  held : Channel -> bool;
  sender_alive : Channel -> bool;
  receiver_count : Channel -> nat;
  has_changed : Channel -> Receiver -> bool;
  receives : Channel -> Receiver -> Prop;

  watch_channel_spec b c r : watch_channel b = (c, r) ->
    held c = b /\ sender_alive c = true /\ receiver_count c = 1%nat /\ has_changed c r = false
    /\ receives c r;
  borrow_spec c r : receives c r -> borrow c r = held c;
  changed_spec c r o r' : receives c r -> changed c r = (o, r') ->
    receives c r'
    /\ o = (if has_changed c r then Some true else if sender_alive c then None else Some false)
    /\ has_changed c r' = false;
  clone_receiver_spec c r c' r' : receives c r -> clone_receiver c r = (c', r') ->
    held c' = held c /\ sender_alive c' = sender_alive c /\ receiver_count c' = S (receiver_count c)
    /\ receives c' r' /\ has_changed c' r' = has_changed c r
    /\ (forall q, receives c q -> receives c' q /\ has_changed c' q = has_changed c q);
  drop_receiver_spec c r : receives c r ->
    held (drop_receiver c r) = held c /\ sender_alive (drop_receiver c r) = sender_alive c
    /\ receiver_count (drop_receiver c r) = pred (receiver_count c)
    /\ (forall q, receives c q -> receives (drop_receiver c r) q
                                  /\ has_changed (drop_receiver c r) q = has_changed c q);
  (** [send] fails, and stores nothing, when no receiver is left. *)
  send_spec b c ok c' : send b c = (ok, c') ->
    ok = negb (receiver_count c =? 0)%nat
    /\ sender_alive c' = sender_alive c /\ receiver_count c' = receiver_count c
    /\ (ok = true -> held c' = b)
    /\ (forall q, receives c q -> receives c' q /\ (ok = true -> has_changed c' q = true));
  drop_sender_spec c :
    held (drop_sender c) = held c /\ sender_alive (drop_sender c) = false
    /\ receiver_count (drop_sender c) = receiver_count c
    /\ (forall q, receives c q -> receives (drop_sender c) q
                                  /\ has_changed (drop_sender c) q = has_changed c q);
}.

(** A channel with a version number: a receiver is the version it has seen. *)
Record toy_channel := { tc_value : bool; tc_version : nat; tc_sender : bool; tc_receivers : nat }.

#[export] Instance toy_watch : Watch := {|
  Channel := toy_channel;
  Receiver := nat;
  watch_channel b := ({| tc_value := b; tc_version := 0; tc_sender := true; tc_receivers := 1 |}, O);
  borrow c _ := tc_value c;
  changed c r :=
    if (r <? tc_version c)%nat then (Some true, tc_version c)
    else (if tc_sender c then None else Some false, r);
  clone_receiver c r :=
    ({| tc_value := tc_value c; tc_version := tc_version c; tc_sender := tc_sender c;
        tc_receivers := S (tc_receivers c) |}, r);
  drop_receiver c _ :=
    {| tc_value := tc_value c; tc_version := tc_version c; tc_sender := tc_sender c;
       tc_receivers := pred (tc_receivers c) |};
  send b c :=
    if (tc_receivers c =? 0)%nat then (false, c)
    else (true, {| tc_value := b; tc_version := S (tc_version c); tc_sender := tc_sender c;
                   tc_receivers := tc_receivers c |});
  drop_sender c :=
    {| tc_value := tc_value c; tc_version := tc_version c; tc_sender := false;
       tc_receivers := tc_receivers c |};
|}.

#[export] Instance toy_watch_laws : WatchLaws.
Proof.
  refine {| held := tc_value; sender_alive := tc_sender; receiver_count := tc_receivers;
            has_changed c r := (r <? tc_version c)%nat; receives c r := (r <= tc_version c)%nat |};
    simpl.
  - by intros b c r [= <- <-].
  - done.
  - intros c r o r' Hr E. destruct (Nat.ltb_spec r (tc_version c)); injection E as <- <-;
      (split; [lia|]; split; [done|]; apply Nat.ltb_ge; lia).
  - intros c r c' r' Hr [= <- <-]. naive_solver.
  - naive_solver.
  - intros b c ok c' E. destruct (Nat.eqb_spec (tc_receivers c) 0); injection E as <- <-; simpl.
    + naive_solver.
    + repeat split; try done; intros; [lia|apply Nat.ltb_lt; lia].
  - naive_solver.
Defined.

(** ** The broadcaster *)
Section Broadcaster.
Context `{WatchLaws}.
Context {IoError : Type}.

Record ShutdownBroadcaster := { rx : Receiver }.

(** The two installed signal streams: what has been queued in each. *)
Record SignalStreams := { sigint : bool; sigterm : bool }.

(** The spawned task: listening, finished after its [send], or gone without
    it (a panic, or the runtime torn down), which drops the sender. *)
Inductive HandlerTask := Listening (s : SignalStreams) | Finished (s : SignalStreams) | Died.

(** [install] on Unix, given the results of the two [signal(..)] calls: the
    channel and the spawned task live on beside the returned broadcaster. *)
Definition install (interrupt terminate : result unit IoError) :
  result (Channel * HandlerTask * ShutdownBroadcaster) IoError :=
  let '(tx, rx) := watch_channel false in
  let? _ := interrupt in
  let? _ := terminate in
  Ok (tx, Listening {| sigint := false; sigterm := false |}, {| rx := rx |}).

(** One poll of the handler task: the [select!] on the two streams, then
    [send]; the task's end drops the sender. *)
Definition handler_poll (s : SignalStreams) (c : Channel) : option Channel :=
  if sigint s || sigterm s then Some (drop_sender (send true c).2) else None.

(** Where a [wait] resumes: at its start, in [changed().await], or in
    [pending().await]. *)
Inductive WaitState := WaitStart | WaitChanged | WaitPending.

(** One poll of [wait]: [None] when it returns. *)
Definition wait_changed_poll (c : Channel) (self : ShutdownBroadcaster) :
  option WaitState * ShutdownBroadcaster :=
  let '(o, r) := changed c (rx self) in
  (match o with
   | None => Some WaitChanged
   | Some true => None
   | Some false => Some WaitPending
   end, {| rx := r |}).

Definition wait_poll (w : WaitState) (c : Channel) (self : ShutdownBroadcaster) :
  option WaitState * ShutdownBroadcaster :=
  match w with
  | WaitStart => if borrow c (rx self) then (None, self) else wait_changed_poll c self
  | WaitChanged => wait_changed_poll c self
  | WaitPending => (Some WaitPending, self)
  end.

(** ** The process *)

(** A subscriber: its broadcaster and the [wait] it is in, if any. *)
Record Process := {
  chan : Channel;
  handler : HandlerTask;
  subs : gmap nat (ShutdownBroadcaster * option WaitState);
}.

(** What can happen: a signal is queued; the handler task runs to its end
    or dies; a broadcaster that is not in [wait] is cloned or dropped; a
    [wait] is called, polled, or cancelled. *)
Inductive step (p : Process) : Process -> Prop :=
| step_signal s s' :
    handler p = Listening s ->
    s' = {| sigint := true; sigterm := sigterm s |} \/ s' = {| sigint := sigint s; sigterm := true |} ->
    step p {| chan := chan p; handler := Listening s'; subs := subs p |}
| step_handler s c :
    handler p = Listening s -> handler_poll s (chan p) = Some c ->
    step p {| chan := c; handler := Finished s; subs := subs p |}
| step_die s :
    handler p = Listening s ->
    step p {| chan := drop_sender (chan p); handler := Died; subs := subs p |}
| step_clone i j b c r :
    subs p !! i = Some (b, None) -> subs p !! j = None -> clone_receiver (chan p) (rx b) = (c, r) ->
    step p {| chan := c; handler := handler p; subs := <[j := ({| rx := r |}, None)]> (subs p) |}
| step_drop i b w :
    subs p !! i = Some (b, w) ->
    step p {| chan := drop_receiver (chan p) (rx b); handler := handler p; subs := delete i (subs p) |}
| step_wait i b :
    subs p !! i = Some (b, None) ->
    step p {| chan := chan p; handler := handler p; subs := <[i := (b, Some WaitStart)]> (subs p) |}
| step_poll i b b' w w' :
    subs p !! i = Some (b, Some w) -> wait_poll w (chan p) b = (w', b') ->
    step p {| chan := chan p; handler := handler p; subs := <[i := (b', w')]> (subs p) |}
| step_cancel i b w :
    subs p !! i = Some (b, Some w) ->
    step p {| chan := chan p; handler := handler p; subs := <[i := (b, None)]> (subs p) |}.

Definition spawned (o : Channel * HandlerTask * ShutdownBroadcaster) : Process :=
  {| chan := o.1.1; handler := o.1.2; subs := {[0%nat := (o.2, None)]} |}.

(** The handler has ended after a signal. *)
Definition fired (p : Process) : Prop := exists s, handler p = Finished s.

(** *** The invariant: what a subscriber's receiver and [wait] look like
    under each state of the handler. *)
Definition sub_ok (p : Process) (b : ShutdownBroadcaster) (w : option WaitState) : Prop :=
  receives (chan p) (rx b)
  /\ match handler p with
     | Listening _ => has_changed (chan p) (rx b) = false /\ w <> Some WaitPending
     | Finished _ =>
         held (chan p) = true /\ w <> Some WaitPending
         /\ (w = Some WaitChanged -> has_changed (chan p) (rx b) = true)
     | Died => has_changed (chan p) (rx b) = false
     end.

Definition process_inv (p : Process) : Prop :=
  receiver_count (chan p) = size (subs p)
  /\ (forall i b w, subs p !! i = Some (b, w) -> sub_ok p b w)
  /\ match handler p with
     | Listening _ => held (chan p) = false /\ sender_alive (chan p) = true
     | Finished s => sigint s || sigterm s = true /\ sender_alive (chan p) = false
     | Died => held (chan p) = false /\ sender_alive (chan p) = false
     end.

Lemma install_inv i t o : install i t = Ok o -> process_inv (spawned o).
Proof.
  unfold install. destruct (watch_channel false) as [c r] eqn:E.
  destruct i, t; simpl; intros [= <-]. apply watch_channel_spec in E as (? & ? & ? & ? & ?).
  split; [simpl; by rewrite map_size_singleton|]. split; [simpl|done].
  intros j b w [_ [= <- <-]]%lookup_singleton_Some. done.
Qed.

(** A channel operation that keeps the observations, up to the sender and
    the subscribers' marks, keeps a subscriber well formed. *)
Lemma sub_ok_mono p p' b w :
  handler p' = handler p -> held (chan p') = held (chan p) ->
  receives (chan p') (rx b) -> has_changed (chan p') (rx b) = has_changed (chan p) (rx b) ->
  sub_ok p b w -> sub_ok p' b w.
Proof. unfold sub_ok. intros -> -> Hr -> [_ Hw]. done. Qed.

(** Updating one subscriber and leaving the channel as it is. *)
Lemma set_sub_inv p i bw bw' :
  process_inv p -> subs p !! i = Some bw -> sub_ok p bw'.1 bw'.2 ->
  process_inv {| chan := chan p; handler := handler p; subs := <[i := bw']> (subs p) |}.
Proof.
  intros (Hn & Hs & Hh) Hi Hok. split; [|split; [|done]]; simpl.
  - by rewrite map_size_insert_Some.
  - intros j b w [[_ ->]|[_ Hj]]%lookup_insert_Some; [exact Hok|exact (Hs j b w Hj)].
Qed.

(** One poll of a well-formed [wait] returns exactly when the handler has
    fired, and leaves the subscriber well formed. *)
Lemma wait_changed_poll_spec p b w' b' :
  process_inv p -> sub_ok p b (Some WaitChanged) -> wait_changed_poll (chan p) b = (w', b') ->
  sub_ok p b' w' /\ (w' = None <-> fired p).
Proof.
  unfold wait_changed_poll, sub_ok, fired. intros (_ & _ & Hh) [Hr Hw] E.
  destruct (changed (chan p) (rx b)) as [o r] eqn:Ec.
  apply changed_spec in Ec as (Hr' & -> & Hc'); [|done]. injection E as <- <-.
  destruct (handler p); simpl.
  - destruct Hw as [-> _], Hh as [_ ->]. naive_solver.
  - destruct Hw as (? & _ & Hw). rewrite (Hw eq_refl). naive_solver.
  - rewrite Hw. destruct Hh as [_ ->]. naive_solver.
Qed.

Lemma wait_poll_spec p b w w' b' :
  process_inv p -> sub_ok p b (Some w) -> wait_poll w (chan p) b = (w', b') ->
  sub_ok p b' w' /\ (w' = None <-> fired p).
Proof.
  intros Hp Hb. pose proof Hb as [Hr Hw]. destruct w; simpl.
  - rewrite (borrow_spec _ _ Hr). destruct (held (chan p)) eqn:Eh.
    + intros [= <- <-]. destruct Hp as (_ & _ & Hh). unfold sub_ok, fired.
      rewrite Eh in *. destruct (handler p); naive_solver.
    + apply wait_changed_poll_spec; [done|]. split; [done|].
      destruct (handler p); rewrite ?Eh in Hw; naive_solver.
  - by apply wait_changed_poll_spec.
  - intros [= <- <-]. split; [done|]. unfold fired. destruct (handler p); naive_solver.
Qed.

(** The handler's end: every subscriber has the value to see, and the
    [send] only fails when there is none. *)
Lemma handler_inv p s c :
  process_inv p -> handler p = Listening s -> handler_poll s (chan p) = Some c ->
  process_inv {| chan := c; handler := Finished s; subs := subs p |}.
Proof.
  intros (Hn & Hs & Hh) Hl Hc.
  unfold handler_poll in Hc. destruct (sigint s || sigterm s) eqn:Es; [|done]. injection Hc as <-.
  destruct (send true (chan p)) as [ok c] eqn:Ec. simpl.
  apply send_spec in Ec as (Eok & Ea & Ecnt & Ehld & Eq).
  destruct (drop_sender_spec c) as (Dh & Da & Dc & Dq).
  split; [simpl; by rewrite Dc, Ecnt|]. split; [|done]. intros i b w Hi.
  assert (ok = true) as ->.
  { rewrite Eok, Hn. destruct (Nat.eqb_spec (size (subs p)) 0) as [E|]; [|done].
    apply map_size_empty_inv in E. simpl in Hi. rewrite E in Hi. by rewrite lookup_empty in Hi. }
  destruct (Hs i b w Hi) as [Hr Hw]. rewrite Hl in Hw.
  destruct (Eq _ Hr) as [Hr' Hch]. destruct (Dq _ Hr') as [Hr'' Hch'].
  split; [done|]. simpl. rewrite Dh, Ehld, Hch', Hch; naive_solver.
Qed.

Lemma clone_inv p i j b c r :
  process_inv p -> subs p !! i = Some (b, None) -> subs p !! j = None ->
  clone_receiver (chan p) (rx b) = (c, r) ->
  process_inv {| chan := c; handler := handler p; subs := <[j := ({| rx := r |}, None)]> (subs p) |}.
Proof.
  intros (Hn & Hs & Hh) Hi Hj Ec.
  pose proof (Hs _ _ _ Hi) as Hb.
  apply clone_receiver_spec in Ec as (Ch & Ca & Cc & Cr & Cch & Cq); [|by apply Hb].
  split; [simpl; rewrite Cc, Hn; by rewrite map_size_insert_None|].
  split; [simpl|simpl; rewrite Ch, Ca; done].
  intros k b' w' [[_ [= <- <-]]|[_ Hk]]%lookup_insert_Some.
  - destruct Hb as [_ Hw]. split; [done|]. simpl. rewrite Ch, Cch. destruct (handler p); naive_solver.
  - destruct (Hs _ _ _ Hk) as [Hr Hw]. destruct (Cq _ Hr).
    by apply (sub_ok_mono p).
Qed.

Lemma step_inv p p' : process_inv p -> step p p' -> process_inv p'.
Proof.
  intros Hp Hstep. pose proof Hp as (Hn & Hs & Hh).
  destruct Hstep as [s s' Hl _|s c Hl Hc|s Hl|i j b c r Hi Hj Ec|i b w Hi|i b Hi|i b b' w w' Hi Ew|i b w Hi].
  - unfold process_inv, sub_ok in *. rewrite Hl in *. naive_solver.
  - by eapply handler_inv.
  - destruct (drop_sender_spec (chan p)) as (Dh & Da & Dc & Dq). rewrite Hl in Hh.
    split; [simpl; by rewrite Dc|]. split; [|simpl; rewrite Dh; naive_solver].
    intros i b w Hi. destruct (Hs i b w Hi) as [Hr Hw]. rewrite Hl in Hw.
    destruct (Dq _ Hr) as [Hr' Hch]. split; [done|]. simpl. rewrite Hch. naive_solver.
  - by eapply clone_inv.
  - destruct (Hs _ _ _ Hi) as [Hr _]. destruct (drop_receiver_spec _ _ Hr) as (Dh & Da & Dc & Dq).
    split; [simpl; rewrite Dc, Hn; by rewrite map_size_delete_Some|].
    split; [simpl|simpl; rewrite Dh, Da; done].
    intros k b' w' [_ Hk]%lookup_delete_Some. destruct (Hs _ _ _ Hk) as [Hr' Hw'].
    destruct (Dq _ Hr'). by apply (sub_ok_mono p).
  - eapply set_sub_inv; [done|done|]. destruct (Hs _ _ _ Hi) as [Hr Hw]. split; [done|]. simpl in *.
    destruct (handler p); naive_solver.
  - eapply set_sub_inv; [done|done|]. by eapply wait_poll_spec; [| |exact Ew]; [|apply (Hs i)].
  - eapply set_sub_inv; [done|done|]. destruct (Hs _ _ _ Hi) as [Hr Hw]. split; [done|]. simpl in *.
    destruct (handler p); naive_solver.
Qed.

Lemma steps_inv p p' : process_inv p -> rtc step p p' -> process_inv p'.
Proof. intros Hp Hr. induction Hr; eauto using step_inv. Qed.

(** The handler's end is final. *)
Lemma steps_final p p' :
  rtc step p p' -> (forall s, handler p <> Listening s) -> handler p' = handler p.
Proof.
  intros Hr. induction Hr as [|p q p' Hstep _ IH]; [done|]. intros Hl.
  assert (E : handler q = handler p) by (destruct Hstep; simpl; done || naive_solver).
  rewrite <- E in *. by apply IH.
Qed.

(** C14. Shutdown reaches every listener: in every state reachable from a
    successful [install], by any interleaving of signals, handler task,
    clones, drops and waits, the next poll of a subscriber's [wait]
    (one it is in, or one it calls now, however late it was cloned) returns
    exactly when the handler task has ended after a signal.  The handler
    only ends so after SIGINT or SIGTERM; once a signal is queued, running
    the task is enough; the end is final; and when the task dies without a
    signal no [wait] returns, then or later. *)
Theorem shutdown_reaches_all i t o p :
  install i t = Ok o -> rtc step (spawned o) p ->
  (forall n b w, subs p !! n = Some (b, w) ->
     ((wait_poll (default WaitStart w) (chan p) b).1 = None <-> fired p))
  /\ (forall s, handler p = Finished s -> sigint s || sigterm s = true)
  /\ (forall s, handler p = Listening s -> sigint s || sigterm s = true ->
        exists p', step p p' /\ fired p' /\ subs p' = subs p)
  /\ (forall p', rtc step p p' -> (fired p -> fired p') /\ (handler p = Died -> ~ fired p')).
Proof.
  intros Ei Hr. apply install_inv in Ei. pose proof (steps_inv _ _ Ei Hr) as Hp.
  pose proof Hp as (_ & Hs & Hh). split_and!.
  - intros n b w Hn. destruct (wait_poll _ _ _) as [w' b'] eqn:E.
    eapply wait_poll_spec; [done| |exact E]. destruct (Hs _ _ _ Hn) as [Hb Hw]. split; [done|].
    destruct w; [done|]. simpl. destruct (handler p); naive_solver.
  - intros s E. rewrite E in Hh. by destruct Hh.
  - intros s E Esig. eexists. split; [|split].
    + eapply step_handler; [done|]. unfold handler_poll. by rewrite Esig.
    + by eexists.
    + done.
  - intros p' Hr'. split.
    + intros [s E]. exists s. rewrite (steps_final _ _ Hr'); [done|]. by rewrite E.
    + intros E [s E']. rewrite (steps_final _ _ Hr') in E'; [|by rewrite E]. by rewrite E in E'.
Qed.

End Broadcaster.

(** A listener that is cloned before the signal and waits, and one that is
    cloned after it: both return on their next poll. *)
Definition demo_sub : ShutdownBroadcaster := {| rx := 0%nat : Receiver (Watch := toy_watch) |}.

Definition demo_process : Process :=
  {| chan := {| tc_value := true; tc_version := 1; tc_sender := false; tc_receivers := 3 |};
     handler := Finished {| sigint := false; sigterm := true |};
     subs := <[2%nat := (demo_sub, None)]>
               (<[1%nat := (demo_sub, Some WaitChanged)]> {[0%nat := (demo_sub, None)]}) |}.

Lemma demo_process_reachable o :
  install (IoError := unit) (Ok tt) (Ok tt) = Ok o -> rtc step (spawned o) demo_process.
Proof.
  intros [= <-].
  eapply rtc_l; [eapply (step_clone _ 0 1); reflexivity|]. simpl.
  eapply rtc_l; [eapply (step_wait _ 1); reflexivity|]. simpl. rewrite insert_insert_eq.
  eapply rtc_l; [eapply (step_poll _ 1); reflexivity|]. simpl. rewrite insert_insert_eq.
  eapply rtc_l; [eapply step_signal; [reflexivity|right; reflexivity]|].
  eapply rtc_l; [eapply step_handler; reflexivity|].
  eapply rtc_l; [eapply (step_clone _ 0 2); reflexivity|].
  apply (reflexive_eq (R := rtc step)). reflexivity.
Qed.

Lemma shutdown_reaches_all_witness :
  (wait_poll WaitChanged (chan demo_process) demo_sub).1 = None
  /\ (wait_poll WaitStart (chan demo_process) demo_sub).1 = None.
Proof.
  destruct (shutdown_reaches_all (IoError := unit) (Ok tt) (Ok tt) _ demo_process eq_refl
              (demo_process_reachable _ eq_refl)) as [Hw _].
  split.
  - apply (Hw 1%nat _ (Some WaitChanged)); [reflexivity|by eexists].
  - apply (Hw 2%nat _ None); [reflexivity|by eexists].
Defined.

(** ** The single-listener helper *)

(** [shutdown_signal], polled after the given events: for each handler, the
    error of its installation or whether its signal has arrived.  The
    [select!] completes with the first branch that does. *)
Section ShutdownSignal.
Context {IoError : Type}.

Definition ctrl_c_ready (ctrl_c : result bool IoError) : bool :=
  match ctrl_c with Ok received => received | Err _ => true end.

Definition terminate_ready (terminate : result bool IoError) : bool :=
  match terminate with Ok received => received | Err _ => false end.

Definition shutdown_signal_ready (ctrl_c terminate : result bool IoError) : bool :=
  ctrl_c_ready ctrl_c || terminate_ready terminate.

(** It resolves on SIGINT, on SIGTERM, and also, with no signal at all, when
    the Ctrl-C handler cannot be installed; a SIGTERM handler that cannot be
    installed never completes its branch. *)
Theorem shutdown_signal_resolves ctrl_c terminate :
  shutdown_signal_ready ctrl_c terminate = true
  <-> ctrl_c = Ok true \/ terminate = Ok true \/ exists e, ctrl_c = Err e.
Proof. destruct ctrl_c as [[]|], terminate as [[]|]; simpl; naive_solver. Qed.

End ShutdownSignal.
