(* ===== verification/Crates.v ===== *)
(** * Third-party crates, as interfaces

    The program calls these crates and does not contain them.  Each is a
    class of operations, an argument of every definition that uses it, and a
    class of laws that states the documented behaviour the program relies
    on.  No law says that a hash is injective or that a signature cannot be
    forged.  A theorem that needs such a fact concludes that two named
    messages, which the code of the statement hashes, have one digest; that
    two messages with one digest exist somewhere is never concluded, since a
    hash with a fixed output length always has some.  [Toy.v] gives a concrete instance
    of every class, which shows that the laws are satisfiable and lets
    examples evaluate. *)

From S2P Require Import Prelude RustStd.
From Stdlib Require Import Lia.

Local Open Scope Z_scope.

(** ** sha2 *)
Class Sha2 := {
  sha256 : bytes -> bytes;
  sha512 : bytes -> bytes;
}.

Class Sha2Laws `{Sha2} : Prop := {
  sha256_len m : length (sha256 m) = 32%nat;
  sha512_len m : length (sha512 m) = 64%nat;
}.

(** These two messages differ and have one digest. *)
Definition sha256_collide `{Sha2} (m1 m2 : bytes) : Prop :=
  m1 <> m2 /\ sha256 m1 = sha256 m2.
Definition sha512_collide `{Sha2} (m1 m2 : bytes) : Prop :=
  m1 <> m2 /\ sha512 m1 = sha512 m2.

#[export] Instance sha256_collide_dec `{Sha2} m1 m2 : Decision (sha256_collide m1 m2).
Proof. unfold sha256_collide. apply _. Defined.
#[export] Instance sha512_collide_dec `{Sha2} m1 m2 : Decision (sha512_collide m1 m2).
Proof. unfold sha512_collide. apply _. Defined.

Lemma sha256_eq_or `{Sha2} m1 m2 :
  sha256 m1 = sha256 m2 -> m1 = m2 \/ sha256_collide m1 m2.
Proof. intros. destruct (decide (m1 = m2)); [by left|by right]. Qed.

Lemma sha512_eq_or `{Sha2} m1 m2 :
  sha512 m1 = sha512 m2 -> m1 = m2 \/ sha512_collide m1 m2.
Proof. intros. destruct (decide (m1 = m2)); [by left|by right]. Qed.

(** A message of one list and a message of another collide; for the lists of
    the messages that two computations hash. *)
Definition sha256_collide_in `{Sha2} (ms1 ms2 : list bytes) : Prop :=
  exists m1 m2, m1 ∈ ms1 /\ m2 ∈ ms2 /\ sha256_collide m1 m2.

Lemma sha256_eq_or_in `{Sha2} ms1 ms2 m1 m2 :
  m1 ∈ ms1 -> m2 ∈ ms2 -> sha256 m1 = sha256 m2 -> m1 = m2 \/ sha256_collide_in ms1 ms2.
Proof. intros ? ? [|]%sha256_eq_or; [by left|right; by exists m1, m2]. Qed.

Lemma sha256_collide_in_mono `{Sha2} ms1 ms2 ns1 ns2 :
  ms1 ⊆ ns1 -> ms2 ⊆ ns2 -> sha256_collide_in ms1 ms2 -> sha256_collide_in ns1 ns2.
Proof. intros S1 S2 (m1 & m2 & H1 & H2 & C). exists m1, m2. auto. Qed.

Lemma sha256_collide_in_sym `{Sha2} ms1 ms2 :
  sha256_collide_in ms1 ms2 -> sha256_collide_in ms2 ms1.
Proof. intros (m1 & m2 & H1 & H2 & C & E). exists m2, m1. by repeat split. Qed.

(** ** hkdf (over SHA-256) *)
Class Hkdf := {
  hkdf_extract : bytes -> bytes -> bytes;       (** salt, input key material *)
  hkdf_expand : bytes -> bytes -> nat -> bytes; (** prk, info, length *)
}.

Class HkdfLaws `{Hkdf} : Prop := {
  hkdf_extract_len salt ikm : length (hkdf_extract salt ikm) = 32%nat;
  hkdf_expand_len prk info n : (n <= 255 * 32)%nat -> length (hkdf_expand prk info n) = n;
}.

(** ** hmac (over SHA-256) *)
Class Hmac := { hmac_sha256 : bytes -> bytes -> bytes }.

(** ** chacha20poly1305 and aes-gcm-siv

    [encrypt] appends a 16-byte tag; [decrypt] returns the plaintext exactly
    when the ciphertext is the encryption of it (the ciphers are
    deterministic given key, nonce and associated data). *)
Class Aead := {
  xchacha_encrypt : bytes -> bytes -> bytes -> bytes -> bytes; (** key, nonce, aad, msg *)
  xchacha_decrypt : bytes -> bytes -> bytes -> bytes -> option bytes;
  gcmsiv_encrypt : bytes -> bytes -> bytes -> bytes -> bytes;
  gcmsiv_decrypt : bytes -> bytes -> bytes -> bytes -> option bytes;
  chacha_encrypt : bytes -> bytes -> bytes -> bytes -> bytes;
  chacha_decrypt : bytes -> bytes -> bytes -> bytes -> option bytes;
}.

Class AeadLaws `{Aead} : Prop := {
  xchacha_decrypt_spec k n a c m :
    xchacha_decrypt k n a c = Some m <-> c = xchacha_encrypt k n a m;
  xchacha_encrypt_len k n a m : length (xchacha_encrypt k n a m) = (length m + 16)%nat;
  gcmsiv_decrypt_spec k n a c m :
    gcmsiv_decrypt k n a c = Some m <-> c = gcmsiv_encrypt k n a m;
  gcmsiv_encrypt_len k n a m : length (gcmsiv_encrypt k n a m) = (length m + 16)%nat;
  chacha_decrypt_spec k n a c m :
    chacha_decrypt k n a c = Some m <-> c = chacha_encrypt k n a m;
  chacha_encrypt_len k n a m : length (chacha_encrypt k n a m) = (length m + 16)%nat;
}.

(** ** rand_core: a generator with its state threaded explicitly *)
Class Rng (R : Type) := { fill_bytes : nat -> R -> bytes * R }.

Class RngLaws R `{Rng R} : Prop := {
  fill_bytes_len n r : length (fill_bytes n r).1 = n;
}.

(** ** x25519-dalek: secrets and public keys as their 32 bytes *)
Class X25519 (R : Type) := {
  x25519_random : R -> bytes * R;
  x25519_public : bytes -> bytes;
  x25519_dh : bytes -> bytes -> bytes;
}.

Class X25519Laws R `{X25519 R} : Prop := {
  x25519_public_len s : length (x25519_public s) = 32%nat;
  x25519_dh_len s p : length (x25519_dh s p) = 32%nat;
  x25519_dh_comm s t : x25519_dh s (x25519_public t) = x25519_dh t (x25519_public s);
}.

(** ** ml-kem (ML-KEM-768) *)
Class MlKem (R : Type) := {
  MlKemPublicKey : Type;
  MlKemSecretKey : Type;
  mlkem_generate : R -> (MlKemSecretKey * MlKemPublicKey) * R;
  mlkem_encapsulate : MlKemPublicKey -> R -> (bytes * bytes) * R; (** ct, shared secret *)
  mlkem_decapsulate : MlKemSecretKey -> bytes -> option bytes;
  mlkem_pk_encode : MlKemPublicKey -> bytes;
  mlkem_pk_decode : bytes -> MlKemPublicKey;
}.

(** The two encoded sizes FIPS 203 fixes for ML-KEM-768. *)
Definition MLKEM_EK_BYTES : nat := 1184.
Definition MLKEM_CT_BYTES : nat := 1088.

Class MlKemLaws R `{MlKem R} : Prop := {
  mlkem_correct r r' sk pk : mlkem_generate r = ((sk, pk), r') ->
    forall r1 ct ss r2, mlkem_encapsulate pk r1 = ((ct, ss), r2) ->
      mlkem_decapsulate sk ct = Some ss;
  mlkem_ct_len pk r : length (mlkem_encapsulate pk r).1.1 = MLKEM_CT_BYTES;
  mlkem_ss_len pk r : length (mlkem_encapsulate pk r).1.2 = 32%nat;
  mlkem_pk_len pk : length (mlkem_pk_encode pk) = MLKEM_EK_BYTES;
  mlkem_pk_roundtrip pk : mlkem_pk_decode (mlkem_pk_encode pk) = pk;
}.

(** ** ed25519-dalek: keys and signatures as their bytes *)
Class Ed25519 := {
  ed25519_public : bytes -> bytes;
  ed25519_sign : bytes -> bytes -> bytes;
  ed25519_pk_valid : bytes -> bool;      (** [VerifyingKey::from_bytes] succeeds *)
  ed25519_verify : bytes -> bytes -> bytes -> bool; (** key, message, signature *)
}.

Class Ed25519Laws `{Ed25519} : Prop := {
  ed25519_sign_verify sk m : ed25519_verify (ed25519_public sk) m (ed25519_sign sk m) = true;
  ed25519_public_valid sk : ed25519_pk_valid (ed25519_public sk) = true;
  ed25519_public_len sk : length (ed25519_public sk) = 32%nat;
  ed25519_sign_len sk m : length (ed25519_sign sk m) = 64%nat;
}.

(** [SigningKey::generate]. *)
Class Ed25519Gen (R : Type) := { ed25519_generate : R -> bytes * R }.

(** ** hex *)
Class Hex := {
  hex_encode : bytes -> bytes;
  hex_decode : bytes -> option bytes;
}.

Class HexLaws `{Hex} : Prop := {
  hex_decode_encode l : hex_decode (hex_encode l) = Some l;
  hex_encode_len l : length (hex_encode l) = (2 * length l)%nat;
  hex_encode_digits l : Forall (fun c => is_ascii_hexdigit c = true) (hex_encode l);
}.

Lemma hex_encode_inj `{HexLaws} x y : hex_encode x = hex_encode y -> x = y.
Proof. intros E. apply (f_equal hex_decode) in E. rewrite !hex_decode_encode in E. by injection E. Qed.

(** ** serde_json, at the two shapes the program serializes: an object of
    strings and [u64]s given as a [BTreeMap]. *)
Inductive json := JStr (s : bytes) | JU64 (n : Z).

Class SerdeJson := { json_object_to_vec : list (bytes * json) -> bytes }.

Definition json_wf (v : json) : Prop :=
  match v with JStr _ => True | JU64 n => is_u64 n end.

Class SerdeJsonLaws `{SerdeJson} : Prop := {
  json_object_to_vec_inj o1 o2 :
    Forall json_wf (snd <$> o1) -> Forall json_wf (snd <$> o2) ->
    json_object_to_vec o1 = json_object_to_vec o2 -> o1 = o2;
}.

(** ** postcard, at one serialized type *)
Class Postcard (T : Type) := {
  postcard_to_allocvec : T -> result bytes bytes;
  postcard_from_bytes : bytes -> result T bytes;
}.

Class PostcardLaws T `{Postcard T} : Prop := {
  postcard_roundtrip x l : postcard_to_allocvec x = Ok l -> postcard_from_bytes l = Ok x;
  postcard_infallible x : exists l, postcard_to_allocvec x = Ok l;
}.

Lemma postcard_ok `{PostcardLaws T} x :
  exists l, postcard_to_allocvec x = Ok l /\ postcard_from_bytes l = Ok x.
Proof.
  destruct (postcard_infallible x) as [l Hl]. exists l. split; [done|]. by apply postcard_roundtrip.
Qed.

Lemma postcard_inj `{PostcardLaws T} x y :
  postcard_to_allocvec x = postcard_to_allocvec y -> x = y.
Proof.
  intros E. destruct (postcard_ok x) as (l & Hx & Hl). rewrite Hx in E. symmetry in E.
  apply postcard_roundtrip in E. rewrite Hl in E. by injection E.
Qed.

(** ** subtle: [ct_eq] on byte slices *)
Class Subtle := { ct_eq : bytes -> bytes -> bool }.

Class SubtleLaws `{Subtle} : Prop := {
  ct_eq_spec x y : ct_eq x y = true <-> x = y;
}.

(** ** bitflags: [from_bits_truncate] drops the bits no declared flag has.
    The first argument is the union of the declared flags. *)
Class Bitflags := { from_bits_truncate : Z -> Z -> Z }.

Class BitflagsLaws `{Bitflags} : Prop := {
  from_bits_truncate_spec all bits : from_bits_truncate all bits = Z.land bits all;
}.
