(* ===== verification/Toy.v ===== *)
(** * Concrete instances of the crate interfaces

    Small computable stand-ins for the third-party crates.  They carry no
    security; they show that the laws of [Crates] are satisfiable and let
    the theorems be applied at concrete inputs. *)

From S2P Require Import Prelude RustStd Crates.
From Stdlib Require Import Lia.

Local Open Scope Z_scope.

(** A polynomial checksum, printed at any width. *)
Definition poly (l : bytes) : Z :=
  foldl (fun acc c => (acc * 263 + uval c + 1) mod 2 ^ 61) 7 l.
Definition digest (n : nat) (l : bytes) : bytes := to_be_bytes n (poly l).

#[export] Instance toy_sha2 : Sha2 := {| sha256 := digest 32; sha512 := digest 64 |}.
#[export] Instance toy_sha2_laws : Sha2Laws.
Proof. split; intros; apply length_to_be_bytes. Qed.

#[export] Instance toy_hkdf : Hkdf := {|
  hkdf_extract salt ikm := digest 32 (salt ++ ikm);
  hkdf_expand prk info n := digest n (prk ++ info);
|}.
#[export] Instance toy_hkdf_laws : HkdfLaws.
Proof. split; intros; apply length_to_be_bytes. Qed.

#[export] Instance toy_hmac : Hmac := {| hmac_sha256 k m := digest 32 (k ++ m) |}.

(** Plaintext followed by a 16-byte keyed checksum. *)
Definition tagged (k n a m : bytes) : bytes := m ++ digest 16 (k ++ n ++ a ++ m).
Definition untag (k n a c : bytes) : option bytes :=
  let m := take (length c - 16) c in
  if decide (c = tagged k n a m) then Some m else None.

Lemma tagged_len k n a m : length (tagged k n a m) = (length m + 16)%nat.
Proof. unfold tagged. rewrite length_app. unfold digest. by rewrite length_to_be_bytes. Qed.

Lemma untag_spec k n a c m : untag k n a c = Some m <-> c = tagged k n a m.
Proof.
  unfold untag. split.
  - case_decide; [|done]. by intros [= <-].
  - intros ->. rewrite tagged_len, Nat.add_sub.
    assert (take (length m) (tagged k n a m) = m) as -> by apply take_app_length.
    by rewrite decide_True.
Qed.

#[export] Instance toy_aead : Aead := {|
  xchacha_encrypt := tagged; xchacha_decrypt := untag;
  gcmsiv_encrypt := tagged; gcmsiv_decrypt := untag;
  chacha_encrypt := tagged; chacha_decrypt := untag;
|}.
#[export] Instance toy_aead_laws : AeadLaws.
Proof. split; intros; first [apply untag_spec | apply tagged_len]. Qed.

(** A counter as generator state. *)
#[export] Instance toy_rng : Rng Z := {|
  fill_bytes n r := (to_be_bytes n r, r + 1);
|}.
#[export] Instance toy_rng_laws : RngLaws Z.
Proof. split. intros. apply length_to_be_bytes. Qed.

(** Multiplication modulo [2^256] with generator 1. *)
#[export] Instance toy_x25519 : X25519 Z := {|
  x25519_random r := (to_be_bytes 32 r, r + 1);
  x25519_public s := to_be_bytes 32 (from_be_bytes s mod 2 ^ 256);
  x25519_dh s p := to_be_bytes 32 ((from_be_bytes s * from_be_bytes p) mod 2 ^ 256);
|}.
#[export] Instance toy_x25519_laws : X25519Laws Z.
Proof.
  split; intros; try apply length_to_be_bytes. cbn [x25519_dh x25519_public toy_x25519].
  rewrite !from_to_be_bytes by (apply Z.mod_pos_bound; lia).
  rewrite !Z.mul_mod_idemp_r by lia. by rewrite (Z.mul_comm (from_be_bytes s)).
Qed.

(** One-byte keys; the ciphertext carries the shared secret in the clear. *)
Definition toy_ss (pk : byte) (r : Z) : bytes := digest 32 (pk :: to_be_bytes 8 r).

#[export] Instance toy_mlkem : MlKem Z := {|
  MlKemPublicKey := byte; MlKemSecretKey := byte;
  mlkem_generate r := ((byte.of_Z r, byte.of_Z r), r + 1);
  mlkem_encapsulate pk r := ((replicate 1056 Byte.x00 ++ toy_ss pk r, toy_ss pk r), r + 1);
  mlkem_decapsulate sk ct := Some (drop 1056 ct);
  mlkem_pk_encode pk := replicate 1183 Byte.x00 ++ [pk];
  mlkem_pk_decode l := default Byte.x00 (last l);
|}.
#[export] Instance toy_mlkem_laws : MlKemLaws Z.
Proof.
  split; cbn [mlkem_generate mlkem_encapsulate mlkem_decapsulate mlkem_pk_encode
              mlkem_pk_decode toy_mlkem fst snd].
  - intros r r' sk pk _ r1 ct ss r2 [= <- <- _]. f_equal.
  - intros. rewrite length_app, length_replicate. unfold toy_ss, digest.
    by rewrite length_to_be_bytes.
  - intros. apply length_to_be_bytes.
  - intros. by rewrite length_app, length_replicate.
  - intros. by rewrite last_snoc.
Qed.

(** The signature is a checksum keyed with the public key. *)
Definition toy_sig (pk m : bytes) : bytes := digest 64 (pk ++ m).

#[export] Instance toy_ed25519 : Ed25519 := {|
  ed25519_public sk := digest 32 sk;
  ed25519_sign sk m := toy_sig (digest 32 sk) m;
  ed25519_pk_valid pk := bool_decide (length pk = 32%nat);
  ed25519_verify pk m s := bool_decide (s = toy_sig pk m);
|}.
#[export] Instance toy_ed25519_laws : Ed25519Laws.
Proof.
  split; intros; cbn [ed25519_verify ed25519_sign ed25519_pk_valid ed25519_public toy_ed25519].
  - by apply bool_decide_eq_true.
  - apply bool_decide_eq_true, length_to_be_bytes.
  - apply length_to_be_bytes.
  - apply length_to_be_bytes.
Qed.

(** Lower-case hexadecimal. *)
Definition hex_byte (c : byte) : bytes := [hex_digit (uval c / 16); hex_digit (uval c mod 16)].
Definition hex_val (c : byte) : option Z :=
  if is_ascii_digit c then Some (uval c - 48)
  else if (97 <=? uval c) && (uval c <=? 102) then Some (uval c - 87)
  else if (65 <=? uval c) && (uval c <=? 70) then Some (uval c - 55)
  else None.
Fixpoint unhex (l : bytes) : option bytes :=
  match l with
  | [] => Some []
  | [_] => None
  | c :: d :: l =>
      x ← hex_val c; y ← hex_val d; r ← unhex l; Some (byte.of_Z (x * 16 + y) :: r)
  end.

Fixpoint hexs (l : bytes) : bytes :=
  match l with [] => [] | c :: l => hex_byte c ++ hexs l end.

#[export] Instance toy_hex : Hex := {| hex_encode := hexs; hex_decode := unhex |}.

Lemma hex_digit_spec d : 0 <= d < 16 ->
  is_ascii_hexdigit (hex_digit d) = true /\ hex_val (hex_digit d) = Some d.
Proof.
  intros H. assert (Hd : d = 0 \/ d = 1 \/ d = 2 \/ d = 3 \/ d = 4 \/ d = 5 \/ d = 6 \/ d = 7
    \/ d = 8 \/ d = 9 \/ d = 10 \/ d = 11 \/ d = 12 \/ d = 13 \/ d = 14 \/ d = 15) by lia.
  repeat destruct Hd as [->|Hd]; try subst d; vm_compute; auto.
Qed.

Lemma nibbles (c : byte) : 0 <= uval c / 16 < 16 /\ 0 <= uval c mod 16 < 16.
Proof.
  pose proof (byte.unsigned_range c). unfold uval. split.
  - split; [apply Z.div_pos; lia|apply Z.div_lt_upper_bound; lia].
  - apply Z.mod_pos_bound. lia.
Qed.

#[export] Instance toy_hex_laws : HexLaws.
Proof.
  split; cbn [hex_encode hex_decode toy_hex].
  - induction l as [|c l IH]; [done|]. cbn.
    destruct (nibbles c) as [H1 H2].
    rewrite (proj2 (hex_digit_spec _ H1)), (proj2 (hex_digit_spec _ H2)). cbn.
    rewrite IH. cbn. do 2 f_equal. apply byte.unsigned_inj.
    rewrite byte.unsigned_of_Z. unfold byte.wrap, uval in *.
    pose proof (byte.unsigned_range c).
    rewrite Z.mod_small; pose proof (Z.div_mod (byte.unsigned c) 16 ltac:(lia)); lia.
  - induction l as [|c l IH]; [done|]. cbn in *. lia.
  - induction l as [|c l IH]; [by constructor|]. cbn in *.
    destruct (nibbles c) as [H1 H2].
    repeat constructor; [apply hex_digit_spec, H1|apply hex_digit_spec, H2|done].
Qed.

(** Any injective encoding serves as a serializer: the bits of stdpp's
    [encode]. *)
Fixpoint pos_bytes (p : positive) : bytes :=
  match p with
  | xH => [] | xO p => Byte.x00 :: pos_bytes p | xI p => Byte.x01 :: pos_bytes p
  end.
Fixpoint bytes_pos (l : bytes) : positive :=
  match l with
  | [] => xH
  | c :: l => if decide (c = Byte.x00) then xO (bytes_pos l) else xI (bytes_pos l)
  end.
Lemma bytes_pos_bytes p : bytes_pos (pos_bytes p) = p.
Proof. induction p; simpl; f_equal; done. Qed.

(** JSON stands in as a self-delimiting encoding: every byte escaped, a zero
    byte as terminator. *)
Fixpoint esc (l : bytes) : bytes :=
  match l with [] => [Byte.x00] | c :: l => Byte.x01 :: c :: esc l end.
Definition esc_val (v : json) : bytes :=
  match v with
  | JStr s => Byte.x02 :: esc s
  | JU64 n => Byte.x03 :: esc (fmt_dec n)
  end.
Fixpoint esc_object (o : list (bytes * json)) : bytes :=
  match o with
  | [] => [Byte.x00]
  | (k, v) :: o => Byte.x01 :: esc k ++ esc_val v ++ esc_object o
  end.

Lemma esc_inj l1 l2 r1 r2 : esc l1 ++ r1 = esc l2 ++ r2 -> l1 = l2 /\ r1 = r2.
Proof.
  revert l2. induction l1 as [|c l1 IH]; intros [|d l2]; simpl; try done.
  - by intros [= ->].
  - intros [= -> E]. by apply IH in E as [-> ->].
Qed.

Lemma esc_val_inj v1 v2 r1 r2 :
  json_wf v1 -> json_wf v2 -> esc_val v1 ++ r1 = esc_val v2 ++ r2 -> v1 = v2 /\ r1 = r2.
Proof.
  destruct v1, v2; simpl; intros W1 W2; intros [= E]; apply esc_inj in E as [E ->]; subst; [done|].
  apply (f_equal (parse_uint 64)) in E. rewrite !parse_fmt_dec in E by done. by injection E as ->.
Qed.

#[export] Instance toy_serde_json : SerdeJson := {| json_object_to_vec := esc_object |}.
#[export] Instance toy_serde_json_laws : SerdeJsonLaws.
Proof.
  split. cbn. induction o1 as [|[k1 v1] o1 IH]; intros [|[k2 v2] o2]; simpl; try done.
  rewrite !Forall_cons. intros [W1 F1] [W2 F2]. intros [= E].
  apply esc_inj in E as [-> E]. apply esc_val_inj in E as [-> E]; [|done..].
  f_equal. by apply IH.
Qed.

#[export] Instance toy_postcard `{Countable T} : Postcard T := {|
  postcard_to_allocvec x := Ok (pos_bytes (encode x));
  postcard_from_bytes l := ok_or (decode (bytes_pos l)) (lit "Deserialize");
|}.
#[export] Instance toy_postcard_laws `{Countable T} : PostcardLaws T.
Proof.
  split; cbn.
  - intros x l [= <-]. by rewrite bytes_pos_bytes, decode_encode.
  - by eexists.
Qed.

#[export] Instance toy_ed25519_gen : Ed25519Gen Z := {| ed25519_generate r := fill_bytes 32 r |}.

#[export] Instance toy_subtle : Subtle := {| ct_eq x y := bool_decide (x = y) |}.
#[export] Instance toy_subtle_laws : SubtleLaws.
Proof. split. intros. apply bool_decide_eq_true. Qed.

#[export] Instance toy_bitflags : Bitflags := {| from_bits_truncate all bits := Z.land bits all |}.
#[export] Instance toy_bitflags_laws : BitflagsLaws.
Proof. by split. Qed.
