(* ===== verification/Crypto.v ===== *)
(** * ullm-crypto: key derivation, hybrid key exchange, ratchets, sealing

    [crates/ullm-crypto/src]: [aead.rs], [kdf.rs], [kex.rs], [ratchet.rs],
    [seal.rs].  Keys, salts and secrets are their bytes; a generator is
    threaded through the functions that draw from it. *)

From S2P Require Import Prelude RustStd Core Crates.
From Stdlib Require Import Lia.

Local Open Scope Z_scope.

(** ** aead.rs *)

Abbreviation AeadKey := bytes.

Definition aead_seal `{Aead} (key : AeadKey) (nonce aad plaintext : bytes) : bytes :=
  xchacha_encrypt key nonce aad plaintext.

Definition aead_open `{Aead} (key : AeadKey) (nonce aad ciphertext : bytes) : Result bytes :=
  ok_or (xchacha_decrypt key nonce aad ciphertext) Decrypt.

(** ** kdf.rs *)

Definition INFO_RECORD_C2S : bytes := lit "ULLM-v1 record c2s".
Definition INFO_RECORD_S2C : bytes := lit "ULLM-v1 record s2c".
Definition INFO_NONCE_SALT : bytes := lit "ULLM-v1 nonce salt".
Definition INFO_CHAIN : bytes := lit "ULLM-v1 chain".
Definition INFO_MSG : bytes := lit "ULLM-v1 msg".
Definition INFO_TURN_RATCHET : bytes := lit "ULLM-v1 turn ratchet".

Abbreviation RootKey := bytes.

Definition extract `{Hkdf} (salt ikm : bytes) : bytes := hkdf_extract salt ikm.

Definition expand `{Hkdf} (prk info : bytes) (len : nat) : bytes := hkdf_expand prk info len.

(** ** kex.rs *)

(** [MLKEM_ss(32) || X25519_ss(32)]. *)
Abbreviation HybridSecret := bytes.

Definition derive_root `{Hkdf} (transcript_hash : bytes) (hybrid : HybridSecret) : RootKey :=
  extract transcript_hash hybrid.

Section Kex.
Context {R : Type} `{!MlKem R, !X25519 R}.

Definition hybrid_encap (rng : R) (server_mlkem_pk : MlKemPublicKey) (server_x25519_pk : bytes)
  : (bytes * bytes * HybridSecret) * R :=
  let '((mlkem_ct, mlkem_ss), rng) := mlkem_encapsulate server_mlkem_pk rng in
  let '(client_x25519_sk, rng) := x25519_random rng in
  let client_x25519_pk := x25519_public client_x25519_sk in
  let x25519_ss := x25519_dh client_x25519_sk server_x25519_pk in
  ((mlkem_ct, client_x25519_pk, mlkem_ss ++ x25519_ss), rng).

Definition hybrid_decap (server_mlkem_sk : MlKemSecretKey) (server_x25519_sk : bytes)
    (mlkem_ct client_x25519_pk : bytes) : Result HybridSecret :=
  let? mlkem_ss := ok_or (mlkem_decapsulate server_mlkem_sk mlkem_ct)
                         (Other (lit "ml-kem decap failed")) in
  let x25519_ss := x25519_dh server_x25519_sk client_x25519_pk in
  Ok (mlkem_ss ++ x25519_ss).

Definition ml_kem_keypair (rng : R) : (MlKemSecretKey * MlKemPublicKey) * R :=
  mlkem_generate rng.

Definition ml_kem_pk_bytes (pk : MlKemPublicKey) : bytes := mlkem_pk_encode pk.

Definition ml_kem_pk_from_bytes (l : bytes) : option MlKemPublicKey :=
  if decide (length l = MLKEM_EK_BYTES) then Some (mlkem_pk_decode l) else None.
End Kex.

Definition ml_kem_ct_bytes (ct : bytes) : bytes := ct.

Definition ml_kem_ct_from_bytes (l : bytes) : option bytes :=
  if decide (length l = MLKEM_CT_BYTES) then Some l else None.

(** ** ratchet.rs *)

Abbreviation ChainKey := bytes.
Abbreviation MessageKey := bytes.
Abbreviation NonceSalt := bytes.

Section Ratchet.
Context `{!Hkdf}.

(** [(next_chain, message_key)]. *)
Definition ChainKey_ratchet (ck : ChainKey) : ChainKey * MessageKey :=
  let mk := expand ck INFO_MSG 32 in
  let nk := expand ck INFO_CHAIN 32 in
  (nk, mk).

Record SymRatchet := { chain : ChainKey }.

Definition SymRatchet_new (c : ChainKey) : SymRatchet := {| chain := c |}.

Definition SymRatchet_next_key (s : SymRatchet) : AeadKey * SymRatchet :=
  let '(next, mk) := ChainKey_ratchet (chain s) in
  (mk, {| chain := next |}).

Record InitialKeys := {
  c2s_chain : ChainKey;
  s2c_chain : ChainKey;
  nonce_salt : NonceSalt;
}.

Definition derive_initial_keys (root : RootKey) : InitialKeys :=
  {| c2s_chain := expand root INFO_RECORD_C2S 32;
     s2c_chain := expand root INFO_RECORD_S2C 32;
     nonce_salt := expand root INFO_NONCE_SALT 24 |}.

(** Bytes 8..24 of the salt are XORed with the 128-bit counter. *)
Definition frame_nonce (salt : NonceSalt) (epoch seq : Z) : bytes :=
  let counter := Z.lor (Z.shiftl epoch 64) seq in
  take 8 salt ++ zip_with byte_xor (drop 8 salt) (to_be_bytes 16 counter).

Definition DhRatchet_step `{X25519 R} (prev_root : RootKey) (our_sk peer_pk : bytes)
  : RootKey * InitialKeys :=
  let ss := x25519_dh our_sk peer_pk in
  let ikm := ss ++ INFO_TURN_RATCHET in
  let new_root := extract prev_root ikm in
  (new_root, derive_initial_keys new_root).

Definition derive_turn_root (prev_root : RootKey) (hybrid : HybridSecret) : RootKey * InitialKeys :=
  let ikm := hybrid ++ INFO_TURN_RATCHET in
  let root := extract prev_root ikm in
  (root, derive_initial_keys root).

Record TurnPayload := { mlkem_ct : bytes; initiator_x25519_pk : bytes }.

Definition TripleRatchet_initiate `{MlKem R, !X25519 R} (rng : R) (prev_root : RootKey)
    (responder_mlkem_pk : MlKemPublicKey) (responder_x25519_pk : bytes)
  : (RootKey * InitialKeys * TurnPayload) * R :=
  let '((ct, pk, hybrid), rng) := hybrid_encap rng responder_mlkem_pk responder_x25519_pk in
  let '(root, keys) := derive_turn_root prev_root hybrid in
  ((root, keys, {| mlkem_ct := ct; initiator_x25519_pk := pk |}), rng).

Definition TripleRatchet_respond `{MlKem R, !X25519 R} (prev_root : RootKey)
    (responder_mlkem_sk : MlKemSecretKey) (responder_x25519_sk : bytes) (payload : TurnPayload)
  : Result (RootKey * InitialKeys) :=
  let? hybrid := hybrid_decap responder_mlkem_sk responder_x25519_sk
                   (mlkem_ct payload) (initiator_x25519_pk payload) in
  Ok (derive_turn_root prev_root hybrid).
End Ratchet.

(** ** seal.rs *)

Inductive SealError := SealOpen | SealBadNonce.

Abbreviation SealedKek := bytes.

Definition SealedKek_random `{Rng R} (rng : R) : SealedKek * R := fill_bytes 32 rng.

Definition seal `{Aead} (kek : SealedKek) (nonce aad plaintext : bytes) : bytes :=
  gcmsiv_encrypt kek nonce aad plaintext.

Definition unseal `{Aead} (kek : SealedKek) (nonce aad ciphertext : bytes) : result bytes SealError :=
  ok_or (gcmsiv_decrypt kek nonce aad ciphertext) SealOpen.

(** ** Lemmas *)

Lemma aead_open_spec `{AeadLaws} k n a c m :
  aead_open k n a c = Ok m <-> c = aead_seal k n a m.
Proof. unfold aead_open. rewrite ok_or_Ok. apply xchacha_decrypt_spec. Qed.

Lemma aead_open_Err `{Aead} k n a c e : aead_open k n a c = Err e -> e = Decrypt.
Proof. unfold aead_open, ok_or. by case_match; intros [= <-]. Qed.

Lemma unseal_spec `{AeadLaws} k n a c m :
  unseal k n a c = Ok m <-> c = seal k n a m.
Proof. unfold unseal. rewrite ok_or_Ok. apply gcmsiv_decrypt_spec. Qed.

(** The 128-bit counter holds the epoch above the 64-bit sequence number. *)
Lemma counter_value epoch seq : is_u64 seq ->
  Z.lor (Z.shiftl epoch 64) seq = epoch * 2 ^ 64 + seq.
Proof.
  unfold is_u64. intros Hs. rewrite Z.shiftl_mul_pow2 by lia.
  assert (Hdis : Z.land (epoch * 2 ^ 64) seq = 0).
  { apply Z.bits_inj'. intros i Hi. rewrite Z.land_spec, Z.bits_0.
    destruct (decide (i < 64)).
    - by rewrite Z.mul_pow2_bits_low by lia.
    - rewrite <- (Z.mod_small seq (2 ^ 64)), Z.mod_pow2_bits_high by lia. apply andb_false_r. }
  by rewrite <- Z.lxor_lor, Z.add_nocarry_lxor.
Qed.

Lemma counter_range epoch seq : is_u32 epoch -> is_u64 seq ->
  0 <= Z.lor (Z.shiftl epoch 64) seq < 2 ^ (Z.of_nat 16 * 8).
Proof.
  intros He Hs. rewrite counter_value by done. unfold is_u32, is_u64 in *.
  change (2 ^ (Z.of_nat 16 * 8)) with (2 ^ 64 * 2 ^ 64). nia.
Qed.

Lemma counter_inj e1 s1 e2 s2 :
  is_u64 s1 -> is_u64 s2 ->
  Z.lor (Z.shiftl e1 64) s1 = Z.lor (Z.shiftl e2 64) s2 -> e1 = e2 /\ s1 = s2.
Proof. intros H1 H2. rewrite !counter_value by done. unfold is_u64 in *. nia. Qed.

Lemma zip_xor_inj (s l1 l2 : bytes) :
  length l1 = length s -> length l2 = length s ->
  zip_with byte_xor s l1 = zip_with byte_xor s l2 -> l1 = l2.
Proof.
  revert l1 l2. induction s as [|x s IH]; intros [|y l1] [|z l2]; simpl; try done.
  intros H1 H2 [= Hx Hr]. f_equal; [by eapply byte_xor_inj_r|]. apply IH; [lia|lia|done].
Qed.

Lemma length_frame_nonce salt epoch seq : length salt = 24%nat ->
  length (frame_nonce salt epoch seq) = 24%nat.
Proof.
  intros H. unfold frame_nonce.
  rewrite length_app, length_zip_with, length_take, length_drop, length_to_be_bytes. lia.
Qed.

Lemma frame_nonce_inj salt e1 s1 e2 s2 :
  length salt = 24%nat -> is_u32 e1 -> is_u64 s1 -> is_u32 e2 -> is_u64 s2 ->
  frame_nonce salt e1 s1 = frame_nonce salt e2 s2 -> e1 = e2 /\ s1 = s2.
Proof.
  intros Hs He1 Hs1 He2 Hs2 E. unfold frame_nonce in E.
  apply app_inj_length_1 in E as [_ E]; [|done].
  apply zip_xor_inj in E; [|rewrite length_to_be_bytes, length_drop; lia..].
  apply to_be_bytes_inj in E; [|by apply counter_range..].
  by apply counter_inj.
Qed.

Lemma derive_initial_keys_len `{HkdfLaws} root :
  length (c2s_chain (derive_initial_keys root)) = 32%nat
  /\ length (s2c_chain (derive_initial_keys root)) = 32%nat
  /\ length (nonce_salt (derive_initial_keys root)) = 24%nat.
Proof. repeat split; apply hkdf_expand_len; lia. Qed.

Lemma DhRatchet_step_comm `{Hkdf} `{X25519Laws R} prev a b :
  DhRatchet_step prev a (x25519_public b) = DhRatchet_step prev b (x25519_public a).
Proof. unfold DhRatchet_step. by rewrite x25519_dh_comm. Qed.

(** What the server decapsulates is what the client encapsulated. *)
Lemma hybrid_decap_encap {R} `{MlKemLaws R} `{!X25519 R, !X25519Laws R}
    (r0 r0' : R) sk pk xsk r r' ct cpk ss :
  mlkem_generate r0 = ((sk, pk), r0') ->
  hybrid_encap r pk (x25519_public xsk) = ((ct, cpk, ss), r') ->
  hybrid_decap sk xsk ct cpk = Ok ss.
Proof.
  unfold hybrid_encap, hybrid_decap. intros Hg.
  destruct (mlkem_encapsulate pk r) as [[ct0 ss0] r1] eqn:He.
  destruct (x25519_random r1) as [csk r2]. intros [= <- <- <- <-].
  rewrite (mlkem_correct _ _ _ _ Hg _ _ _ _ He). simpl.
  by rewrite (x25519_dh_comm xsk csk).
Qed.

(** ** Claims *)

(** Within one session salt the AEAD nonce determines the frame counter:
    two frames get the same 24-byte nonce only if they have the same epoch
    and the same sequence number. *)
Theorem frame_nonce_unique salt e1 s1 e2 s2 :
  length salt = 24%nat -> is_u32 e1 -> is_u64 s1 -> is_u32 e2 -> is_u64 s2 ->
  frame_nonce salt e1 s1 = frame_nonce salt e2 s2 <-> e1 = e2 /\ s1 = s2.
Proof.
  intros Hs He1 Hs1 He2 Hs2. split.
  - by apply frame_nonce_inj.
  - by intros [-> ->].
Qed.

Lemma frame_nonce_unique_witness :
  frame_nonce (replicate 24 Byte.x77) 1 0 <> frame_nonce (replicate 24 Byte.x77) 0 1.
Proof.
  intros E. apply frame_nonce_unique in E; [destruct E; discriminate|done|split; lia..].
Defined.
