(* ===== verification/Frame.v ===== *)
(** * ullm-wire: frames and the record codec

    [crates/ullm-wire/src/frame.rs] and [codec.rs].  A frame on the wire is
    [version(1) type(1) flags(2) seq(8) epoch(4) nonce(12) ciphertext tag(16)];
    the 28 header bytes are the associated data of the AEAD. *)

From S2P Require Import Prelude RustStd Core Crates Crypto Toy.
From Stdlib Require Import Lia.

Local Open Scope Z_scope.

(** ** frame.rs *)

Module FrameType.
Inductive t := Handshake | Data | Control | ToolStream | Proof | AttestRefresh.
#[global] Instance t_eq_dec : EqDecision t.
Proof. solve_decision. Defined.
End FrameType.

Definition FrameType_repr (t : FrameType.t) : Z :=
  match t with
  | FrameType.Handshake => 0x01
  | FrameType.Data => 0x02
  | FrameType.Control => 0x03
  | FrameType.ToolStream => 0x04
  | FrameType.Proof => 0x05
  | FrameType.AttestRefresh => 0x06
  end.

Definition FrameType_from_u8 (v : Z) : option FrameType.t :=
  if v =? 0x01 then Some FrameType.Handshake
  else if v =? 0x02 then Some FrameType.Data
  else if v =? 0x03 then Some FrameType.Control
  else if v =? 0x04 then Some FrameType.ToolStream
  else if v =? 0x05 then Some FrameType.Proof
  else if v =? 0x06 then Some FrameType.AttestRefresh
  else None.

(** [FrameFlags] is its [u16] bits. *)
Abbreviation FrameFlags := Z.
Definition END_OF_TURN : FrameFlags := Z.shiftl 1 0.
Definition KEY_UPDATE_PENDING : FrameFlags := Z.shiftl 1 1.
Definition COMPRESSED : FrameFlags := Z.shiftl 1 2.
Definition PROOF_ATTACHED : FrameFlags := Z.shiftl 1 3.
Definition STREAM_ID_MASK : FrameFlags := 0x0FF0.
(** [FrameFlags::all().bits()]. *)
Definition FrameFlags_all : Z :=
  Z.lor END_OF_TURN (Z.lor KEY_UPDATE_PENDING
    (Z.lor COMPRESSED (Z.lor PROOF_ATTACHED STREAM_ID_MASK))).

Definition FrameFlags_with_stream_id (self : FrameFlags) (stream_id : Z) : FrameFlags :=
  let cleared := Z.land self (Z.lxor STREAM_ID_MASK u16_max) in
  Z.lor cleared (Z.shiftl stream_id 4).

Definition FrameFlags_stream_id (self : FrameFlags) : Z :=
  Z.shiftr (Z.land self STREAM_ID_MASK) 4 mod 2 ^ 8.

Record Header := {
  version : Z;
  frame_type : FrameType.t;
  flags : FrameFlags;
  seq : Seq;
  epoch : Epoch;
  nonce_field : bytes;
}.

#[export] Instance Header_eq_dec : EqDecision Header.
Proof. solve_decision. Defined.

Definition Header_new (ft : FrameType.t) (fl : FrameFlags) (ep : Epoch) (sq : Seq) : Header :=
  {| version := PROTOCOL_VERSION; frame_type := ft; flags := fl; seq := sq; epoch := ep;
     nonce_field := to_be_bytes 4 ep ++ to_be_bytes 8 sq |}.

Definition Header_expected_nonce_field (h : Header) : bytes :=
  to_be_bytes 4 (epoch h) ++ to_be_bytes 8 (seq h).

(** ** codec.rs *)

Definition HEADER_LEN : nat := 28.
Definition TAG_LEN : nat := 16.

Record EncodeOutput := { header : Header; wire : bytes }.

Definition write_header (h : Header) : bytes :=
  [byte.of_Z (version h); byte.of_Z (FrameType_repr (frame_type h))]
  ++ to_be_bytes 2 (flags h)
  ++ to_be_bytes 8 (seq h)
  ++ to_be_bytes 4 (epoch h)
  ++ nonce_field h.

Section Codec.
Context `{!Bitflags}.

(** [b[i]]; read only below the length checked first. *)
Definition at_ (l : bytes) (i : nat) : Z := uval (nth i l Byte.x00).

Definition read_header (l : bytes) : Result Header :=
  if decide (length l <> HEADER_LEN) then Err (ShortFrame (Z.of_nat (length l))) else
  let version := at_ l 0 in
  if negb (version =? PROTOCOL_VERSION) then Err (BadVersion version PROTOCOL_VERSION) else
  let? frame_type := ok_or (FrameType_from_u8 (at_ l 1)) (BadFrameType (at_ l 1)) in
  let flags := from_bits_truncate FrameFlags_all (from_be_bytes (slice 2 4 l)) in
  let seq := from_be_bytes (slice 4 12 l) in
  let epoch := from_be_bytes (slice 12 16 l) in
  let nonce_field := slice 16 28 l in
  Ok {| version := version; frame_type := frame_type; flags := flags; seq := seq;
        epoch := epoch; nonce_field := nonce_field |}.

Context `{!Aead}.

Definition encode_frame (key : AeadKey) (salt : NonceSalt) (ft : FrameType.t) (fl : FrameFlags)
    (ep : Epoch) (sq : Seq) (plaintext : bytes) : Result EncodeOutput :=
  if (Z.of_nat (length plaintext) >? MAX_PLAINTEXT_PER_RECORD)
  then Err (LongFrame (Z.of_nat (length plaintext))) else
  let header := Header_new ft fl ep sq in
  let header_bytes := write_header header in
  let nonce := frame_nonce salt ep sq in
  let ct := aead_seal key nonce header_bytes plaintext in
  Ok {| header := header; wire := header_bytes ++ ct |}.

Definition decode_frame (key : AeadKey) (salt : NonceSalt) (wire : bytes) : Result (Header * bytes) :=
  if decide (length wire < HEADER_LEN + TAG_LEN)%nat
  then Err (ShortFrame (Z.of_nat (length wire))) else
  let header_bytes := take HEADER_LEN wire in
  let rest := drop HEADER_LEN wire in
  let? header := read_header header_bytes in
  if decide (nonce_field header <> Header_expected_nonce_field header) then Err Decrypt else
  let nonce := frame_nonce salt (epoch header) (seq header) in
  let? plaintext := aead_open key nonce header_bytes rest in
  Ok (header, plaintext).
End Codec.

(** ** Well-formed values *)

Record header_fields_ok (fl ep sq : Z) : Prop := {
  hf_flags : is_u16 fl;
  hf_epoch : is_u32 ep;
  hf_seq : is_u64 sq;
}.

(** Only defined flag bits are set. *)
Definition flags_defined (fl : Z) : Prop := Z.land fl FrameFlags_all = fl.

(** ** Lemmas *)

Lemma FrameType_roundtrip t : FrameType_from_u8 (FrameType_repr t) = Some t.
Proof. by destruct t. Qed.

Lemma FrameType_from_u8_Some v t : FrameType_from_u8 v = Some t -> v = FrameType_repr t.
Proof.
  unfold FrameType_from_u8.
  repeat match goal with
  | |- (if ?v =? ?k then _ else _) = _ -> _ =>
      destruct (Z.eqb_spec v k); [by intros [= <-]|]
  end. done.
Qed.

Lemma FrameType_repr_u8 t : is_u8 (FrameType_repr t).
Proof. destruct t; unfold is_u8; simpl; lia. Qed.

Lemma of_Z_uval c : byte.of_Z (uval c) = c.
Proof. apply byte.of_Z_unsigned. Qed.

Lemma length_write_header h : length (nonce_field h) = 12%nat -> length (write_header h) = HEADER_LEN.
Proof. intros H. unfold write_header. rewrite !length_app, !length_to_be_bytes, H. done. Qed.

(** The five fields of a header, cut out of its 28 bytes. *)
Lemma write_header_slices v t (f s e n : bytes) :
  length f = 2%nat -> length s = 8%nat -> length e = 4%nat -> length n = 12%nat ->
  let l := [v; t] ++ f ++ s ++ e ++ n in
  slice 2 4 l = f /\ slice 4 12 l = s /\ slice 12 16 l = e /\ slice 16 28 l = n.
Proof.
  intros Hf Hs He Hn l. subst l. repeat split;
    repeat (rewrite slice_app_skip by (simpl; lia)); rewrite ?Hf, ?Hs, ?He; simpl;
    try (by apply slice_app_exact); by apply slice_full.
Qed.

Lemma read_write_header `{BitflagsLaws} ft fl ep sq :
  header_fields_ok fl ep sq ->
  read_header (write_header (Header_new ft fl ep sq))
  = Ok (Header_new ft (Z.land fl FrameFlags_all) ep sq).
Proof.
  intros [Hfl Hep Hsq]. unfold read_header.
  rewrite decide_False by (intros Hne; apply Hne; apply length_write_header; simpl; solve_len).
  unfold write_header; cbn [version frame_type flags seq epoch nonce_field Header_new].
  set (n := to_be_bytes 4 ep ++ to_be_bytes 8 sq).
  destruct (write_header_slices (byte.of_Z PROTOCOL_VERSION) (byte.of_Z (FrameType_repr ft))
    (to_be_bytes 2 fl) (to_be_bytes 8 sq) (to_be_bytes 4 ep) n)
    as (-> & -> & -> & ->); try (unfold n; solve_len).
  unfold at_. cbn [nth app].
  rewrite !uval_of_Z by (first [apply FrameType_repr_u8 | by unfold is_u8, PROTOCOL_VERSION]).
  rewrite Z.eqb_refl. cbn [negb]. rewrite FrameType_roundtrip. simpl ok_or. cbn [result_bind].
  rewrite !from_to_be_bytes by (first [exact Hfl | exact Hsq | exact Hep]).
  by rewrite from_bits_truncate_spec.
Qed.

(** The bytes of a successfully read header, rebuilt from its fields. *)
Lemma read_header_bytes `{Bitflags} l h :
  read_header l = Ok h ->
  length l = HEADER_LEN
  /\ version h = PROTOCOL_VERSION
  /\ l = [byte.of_Z PROTOCOL_VERSION; byte.of_Z (FrameType_repr (frame_type h))]
         ++ slice 2 4 l ++ to_be_bytes 8 (seq h) ++ to_be_bytes 4 (epoch h) ++ nonce_field h
  /\ flags h = from_bits_truncate FrameFlags_all (from_be_bytes (slice 2 4 l))
  /\ is_u64 (seq h) /\ is_u32 (epoch h).
Proof.
  unfold read_header. case_decide as Hlen; [done|].
  intros Hr. inv_ok.
  rename x into t. match goal with H : FrameType_from_u8 _ = Some _ |- _ => rename H into Ht end.
  apply FrameType_from_u8_Some in Ht. cbn [version frame_type flags seq epoch nonce_field].
  match goal with H : negb _ = false |- _ => apply negb_false_iff, Z.eqb_eq in H; rename H into Hv end.
  split; [done|]. split; [done|]. split; [|split; [done|]].
  - do 28 (destruct l as [|? l]; [discriminate Hlen|]). destruct l; [|discriminate Hlen].
    unfold at_ in *. cbn [nth] in *. unfold slice. cbn [drop take Nat.sub].
    rewrite !to_from_be_bytes by done. cbn [app].
    rewrite <- Hv, <- Ht, !of_Z_uval. done.
  - assert (forall i j, (i <= j)%nat -> (j <= 28)%nat ->
      0 <= from_be_bytes (slice i j l) < 2 ^ (8 * Z.of_nat (j - i))) as Hb.
    { intros i j Hij Hj. pose proof (from_be_bytes_bound (slice i j l)) as B.
      rewrite length_slice in B; [done|done|]. unfold HEADER_LEN in Hlen. lia. }
    split; [apply (Hb 4%nat 12%nat)|apply (Hb 12%nat 16%nat)]; lia.
Qed.

Lemma write_header_with_flags f h :
  length f = 2%nat -> version h = PROTOCOL_VERSION ->
  write_header {| version := version h; frame_type := frame_type h; flags := from_be_bytes f;
                  seq := seq h; epoch := epoch h; nonce_field := nonce_field h |}
  = [byte.of_Z PROTOCOL_VERSION; byte.of_Z (FrameType_repr (frame_type h))]
    ++ f ++ to_be_bytes 8 (seq h) ++ to_be_bytes 4 (epoch h) ++ nonce_field h.
Proof.
  intros Hf Hv. unfold write_header. cbn [version frame_type flags seq epoch nonce_field].
  by rewrite Hv, to_from_be_bytes.
Qed.

Lemma from_be_bytes_u16 f : length f = 2%nat -> is_u16 (from_be_bytes f).
Proof. intros Hf. pose proof (from_be_bytes_bound f) as B. by rewrite Hf in B. Qed.

Lemma nonce_field_inj h1 h2 :
  is_u32 (epoch h1) -> is_u64 (seq h1) -> is_u32 (epoch h2) -> is_u64 (seq h2) ->
  Header_expected_nonce_field h1 = Header_expected_nonce_field h2 ->
  epoch h1 = epoch h2 /\ seq h1 = seq h2.
Proof.
  intros ? ? ? ? E. apply app_inj_length_1 in E as [E1 E2];
    [|by rewrite !length_to_be_bytes].
  split; eapply to_be_bytes_inj; eauto; done.
Qed.

(** Everything [decode_frame] accepts was laid out by [write_header] and
    sealed under the key, the nonce of its own counter and its own bytes. *)
Lemma decode_frame_inv `{AeadLaws} `{!Bitflags} key salt w h pt :
  decode_frame key salt w = Ok (h, pt) ->
  exists raw, is_u16 raw /\ flags h = from_bits_truncate FrameFlags_all raw
    /\ is_u32 (epoch h) /\ is_u64 (seq h)
    /\ nonce_field h = Header_expected_nonce_field h
    /\ let hb := write_header (Header_new (frame_type h) raw (epoch h) (seq h)) in
       w = hb ++ aead_seal key (frame_nonce salt (epoch h) (seq h)) hb pt.
Proof.
  unfold decode_frame. case_decide as Hlen; [done|]. intros Hd.
  apply result_bind_Ok in Hd as (h0 & Hr & Hd).
  case_decide as Hnf; [done|].
  apply result_bind_Ok in Hd as (pt0 & Ho & Hd). injection Hd as -> ->.
  apply read_header_bytes in Hr as (Hl & Hv & Hbytes & Hfl & Hs & He).
  apply aead_open_spec in Ho.
  set (f := slice 2 4 (take HEADER_LEN w)) in *.
  assert (Hf : length f = 2%nat).
  { unfold f. rewrite length_slice; [done|lia|]. rewrite Hl. unfold HEADER_LEN. lia. }
  exists (from_be_bytes f). split; [by apply from_be_bytes_u16|].
  split; [done|]. split; [done|]. split; [done|].
  assert (Hnf' : nonce_field h = Header_expected_nonce_field h) by exact Hnf.
  split; [done|]. cbv zeta.
  assert (Hhb : write_header (Header_new (frame_type h) (from_be_bytes f) (epoch h) (seq h))
                = take HEADER_LEN w).
  { rewrite Hbytes. rewrite <- (write_header_with_flags f h) by done.
    f_equal. unfold Header_new. rewrite Hv, Hnf'. done. }
  rewrite Hhb. rewrite <- Ho. by rewrite take_drop.
Qed.

(** Bits of the stream-id window and of its complement in a [u16]. *)
Lemma stream_window_in i : 0 <= i < 8 -> Z.testbit STREAM_ID_MASK (i + 4) = true.
Proof.
  intros H. assert (Hi : i = 0 \/ i = 1 \/ i = 2 \/ i = 3 \/ i = 4 \/ i = 5 \/ i = 6 \/ i = 7) by lia.
  by repeat destruct Hi as [->|Hi]; try subst i.
Qed.

Lemma stream_window_out i : 0 <= i < 8 -> Z.testbit 0xF00F (i + 4) = false.
Proof.
  intros H. assert (Hi : i = 0 \/ i = 1 \/ i = 2 \/ i = 3 \/ i = 4 \/ i = 5 \/ i = 6 \/ i = 7) by lia.
  by repeat destruct Hi as [->|Hi]; try subst i.
Qed.

Lemma small_testbit_high z k i : 0 <= z < 2 ^ k -> 0 <= k <= i -> Z.testbit z i = false.
Proof.
  intros Hz Hk. rewrite <- (Z.mod_small z (2 ^ k)) by done. by apply Z.mod_pow2_bits_high.
Qed.

Lemma kept_bits i : 0 <= i -> Z.testbit 0xF00F i = true -> i < 4 \/ 12 <= i.
Proof.
  intros Hi Ht. destruct (decide (i < 4)) as [|H4]; [by left|].
  destruct (decide (i < 12)) as [H12|]; [|right; lia].
  rewrite <- (Z.sub_add 4 i) in Ht. by rewrite stream_window_out in Ht by lia.
Qed.

Lemma encode_decode_frame `{AeadLaws} `{BitflagsLaws} key salt ft fl ep sq pt out :
  header_fields_ok fl ep sq ->
  encode_frame key salt ft fl ep sq pt = Ok out ->
  header out = Header_new ft fl ep sq
  /\ decode_frame key salt (wire out) = Ok (Header_new ft (Z.land fl FrameFlags_all) ep sq, pt).
Proof.
  intros Hf He. unfold encode_frame in He. inv_ok. cbn [header wire]. split; [done|].
  set (hb := write_header (Header_new ft fl ep sq)).
  assert (Hl : length hb = HEADER_LEN) by (apply length_write_header; simpl; solve_len).
  unfold decode_frame. rewrite decide_False.
  2:{ rewrite length_app, Hl. unfold aead_seal. rewrite xchacha_encrypt_len.
      unfold TAG_LEN. lia. }
  rewrite <- Hl, take_app_length, drop_app_length.
  unfold hb at 1. rewrite read_write_header by done. cbn [result_bind].
  rewrite decide_False by (intros Hne; apply Hne; done).
  cbn [epoch seq Header_new].
  by rewrite (proj2 (aead_open_spec key _ hb _ pt)).
Qed.

(** ** Properties *)

(** C31. A frame that [encode_frame] produces decodes, under the same key and
    salt, to the header it was built from (flag bits 12-15 are dropped on
    read) and to the plaintext it carries. *)
Theorem frame_roundtrip `{AeadLaws} `{BitflagsLaws} key salt ft fl ep sq pt out :
  header_fields_ok fl ep sq ->
  encode_frame key salt ft fl ep sq pt = Ok out ->
  header out = Header_new ft fl ep sq
  /\ decode_frame key salt (wire out) = Ok (Header_new ft (Z.land fl FrameFlags_all) ep sq, pt).
Proof. apply encode_decode_frame. Qed.

Lemma frame_roundtrip_witness :
  header_fields_ok 1 3 7
  /\ (exists out,
       @encode_frame toy_aead (replicate 32 Byte.x42) (replicate 24 Byte.x77)
         FrameType.Data END_OF_TURN 3 7 (lit "hello") = Ok out
       /\ @decode_frame toy_bitflags toy_aead (replicate 32 Byte.x42)
            (replicate 24 Byte.x77) (wire out)
          = Ok (Header_new FrameType.Data END_OF_TURN 3 7, lit "hello")).
Proof.
  assert (Hf : header_fields_ok 1 3 7) by (by split).
  split; [exact Hf|]. eexists. split; [reflexivity|].
  exact (proj2 (frame_roundtrip _ _ FrameType.Data END_OF_TURN 3 7 (lit "hello") _ Hf eq_refl)).
Defined.

(** Whatever [decode_frame] accepts is canonical: it is byte for byte a
    header written by [write_header] (for some 16-bit flag word whose defined
    bits are the decoded flags) followed by the AEAD sealing of the returned
    plaintext with that header as associated data and the nonce of the
    header's own epoch and sequence number; so no byte of the frame can be
    altered without changing what is authenticated. *)
Theorem decode_frame_canonical `{AeadLaws} `{BitflagsLaws} key salt w h pt :
  decode_frame key salt w = Ok (h, pt) ->
  version h = PROTOCOL_VERSION /\ Z.of_nat (length w) = Z.of_nat (length pt) + 44
  /\ exists raw, is_u16 raw /\ flags h = Z.land raw FrameFlags_all
       /\ let hb := write_header (Header_new (frame_type h) raw (epoch h) (seq h)) in
          w = hb ++ aead_seal key (frame_nonce salt (epoch h) (seq h)) hb pt.
Proof.
  intros Hd. assert (version h = PROTOCOL_VERSION) as Hv.
  { unfold decode_frame in Hd. case_decide; [done|]. apply result_bind_Ok in Hd as (h0 & Hr & Hd).
    case_decide; [done|]. apply result_bind_Ok in Hd as (? & _ & Hd). injection Hd as -> _.
    by apply read_header_bytes in Hr as (_ & Hv & _). }
  apply decode_frame_inv in Hd as (raw & Hraw & Hfl & He & Hs & Hnf & Hw).
  split; [done|]. split.
  - rewrite Hw, length_app. unfold aead_seal. rewrite xchacha_encrypt_len.
    rewrite length_write_header by (simpl; solve_len). unfold HEADER_LEN. lia.
  - exists raw. rewrite <- from_bits_truncate_spec. auto.
Qed.

Lemma decode_frame_canonical_witness :
  exists w h pt,
    @decode_frame toy_bitflags toy_aead (replicate 32 Byte.x42) (replicate 24 Byte.x77) w
      = Ok (h, pt)
    /\ Z.of_nat (length w) = Z.of_nat (length pt) + 44.
Proof.
  eexists (match @encode_frame toy_aead (replicate 32 Byte.x42) (replicate 24 Byte.x77)
             FrameType.Control 0 1 0 (lit "x") with Ok o => wire o | Err _ => [] end), _, _.
  assert (Hd : @decode_frame toy_bitflags toy_aead (replicate 32 Byte.x42)
    (replicate 24 Byte.x77)
    (match @encode_frame toy_aead (replicate 32 Byte.x42) (replicate 24 Byte.x77)
             FrameType.Control 0 1 0 (lit "x") with Ok o => wire o | Err _ => [] end)
    = Ok (Header_new FrameType.Control 0 1 0, lit "x")) by (vm_compute; reflexivity).
  split; [exact Hd|]. exact (proj1 (proj2 (decode_frame_canonical _ _ _ _ _ Hd))).
Defined.

(** The stream-id window of the flags: for every 8-bit id,
    [with_stream_id] stores it, [stream_id] reads it back, and no other flag
    bit changes. *)
Theorem stream_id_roundtrip fl id :
  is_u16 fl -> is_u8 id ->
  FrameFlags_stream_id (FrameFlags_with_stream_id fl id) = id
  /\ Z.land (FrameFlags_with_stream_id fl id) (Z.lxor STREAM_ID_MASK u16_max)
     = Z.land fl (Z.lxor STREAM_ID_MASK u16_max).
Proof.
  intros Hfl Hid. unfold FrameFlags_stream_id, FrameFlags_with_stream_id.
  change (Z.lxor STREAM_ID_MASK u16_max) with 0xF00F. split.
  - apply Z.bits_inj'. intros i Hi. destruct (decide (i < 8)) as [Hlt|].
    + rewrite Z.mod_pow2_bits_low, Z.shiftr_spec, Z.land_spec, Z.lor_spec, Z.land_spec,
        (Z.shiftl_spec_high id 4) by lia.
      rewrite (stream_window_in i), (stream_window_out i) by lia.
      rewrite andb_false_r, andb_true_r. simpl. f_equal. lia.
    + rewrite Z.mod_pow2_bits_high by lia. by rewrite (small_testbit_high id 8) by (done || lia).
  - apply Z.bits_inj'. intros i Hi. rewrite !Z.land_spec, Z.lor_spec, Z.land_spec.
    destruct (Z.testbit 0xF00F i) eqn:EF; [|by rewrite !andb_false_r].
    rewrite !andb_true_r. apply kept_bits in EF; [|done].
    destruct EF; [rewrite Z.shiftl_spec_low by lia | rewrite Z.shiftl_spec_high by lia;
      rewrite (small_testbit_high id 8) by (done || lia)]; apply orb_false_r.
Qed.

Lemma stream_id_roundtrip_witness :
  FrameFlags_stream_id (FrameFlags_with_stream_id END_OF_TURN 0xAB) = 0xAB.
Proof. apply (stream_id_roundtrip END_OF_TURN 0xAB); split; vm_compute; congruence. Defined.
