(* ===== verification/Replay.v ===== *)
(** * ullm-wire: the sliding anti-replay window

    [crates/ullm-wire/src/replay.rs].  The bitmap implementation is proved
    equivalent to a specification that remembers every accepted sequence
    number. *)

From S2P Require Import Prelude RustStd Core.
From Stdlib Require Import Lia.

Local Open Scope Z_scope.

Definition WINDOW_BITS : Z := 64.

Record ReplayWindow := {
  high : Z;
  bitmap : Z;
  seen_zero_at_init : bool;
}.

Definition ReplayWindow_new : ReplayWindow :=
  {| high := 0; bitmap := 0; seen_zero_at_init := false |}.

(** The verdict and the window after the call. *)
Definition check_and_update (w : ReplayWindow) (s : Seq) : Result unit * ReplayWindow :=
  if high w <? s then
    let gap := s - high w in
    if u64_max / 2 <? gap then (Err (SeqGap gap), w) else
    let slid := if WINDOW_BITS <=? gap then 0 else Z.shiftr (bitmap w) gap in
    (Ok tt, {| high := s; bitmap := Z.lor slid (Z.shiftl 1 (WINDOW_BITS - 1));
               seen_zero_at_init := seen_zero_at_init w |})
  else if (s =? 0) && (high w =? 0) then
    if seen_zero_at_init w then (Err (Replay 0), w) else
    (Ok tt, {| high := high w; bitmap := Z.lor (bitmap w) (Z.shiftl 1 (WINDOW_BITS - 1));
               seen_zero_at_init := true |})
  else
    let diff := high w - s in
    if WINDOW_BITS <=? diff then (Err (SeqGap diff), w) else
    let bit := WINDOW_BITS - 1 - diff in
    let mask := Z.shiftl 1 bit in
    if negb (Z.land (bitmap w) mask =? 0) then (Err (Replay s), w) else
    (Ok tt, {| high := high w; bitmap := Z.lor (bitmap w) mask;
               seen_zero_at_init := seen_zero_at_init w |}).

(** A receiver checking a sequence of frames. *)
Fixpoint window_run (w : ReplayWindow) (l : list Seq) : list (Result unit) * ReplayWindow :=
  match l with
  | [] => ([], w)
  | s :: l =>
      let '(r, w) := check_and_update w s in
      let '(rs, w) := window_run w l in
      (r :: rs, w)
  end.

(** ** Specification: the set of accepted numbers and the highest one *)

Record replay_spec := { accepted : gset Z; top : Z }.

Definition spec_init : replay_spec := {| accepted := ∅; top := 0 |}.

Definition spec_step (a : replay_spec) (s : Seq) : Result unit * replay_spec :=
  if top a <? s then
    if u64_max / 2 <? s - top a then (Err (SeqGap (s - top a)), a)
    else (Ok tt, {| accepted := {[s]} ∪ accepted a; top := s |})
  else if 64 <=? top a - s then (Err (SeqGap (top a - s)), a)
  else if decide (s ∈ accepted a) then (Err (Replay s), a)
  else (Ok tt, {| accepted := {[s]} ∪ accepted a; top := top a |}).

Fixpoint spec_run (a : replay_spec) (l : list Seq) : list (Result unit) * replay_spec :=
  match l with
  | [] => ([], a)
  | s :: l =>
      let '(r, a) := spec_step a s in
      let '(rs, a) := spec_run a l in
      (r :: rs, a)
  end.

(** The numbers of a run that were accepted, in order. *)
Fixpoint accepted_of (l : list Seq) (rs : list (Result unit)) : list Seq :=
  match l, rs with
  | s :: l, Ok _ :: rs => s :: accepted_of l rs
  | _ :: l, Err _ :: rs => accepted_of l rs
  | _, _ => []
  end.

(** ** The representation relation *)

Record represents (w : ReplayWindow) (a : replay_spec) : Prop := {
  rp_high : high w = top a;
  rp_nonneg : 0 <= top a;
  rp_bound : forall s, s ∈ accepted a -> 0 <= s <= top a;
  rp_bitmap : 0 <= bitmap w;
  rp_bits : forall d, 0 <= d < 64 ->
    (Z.testbit (bitmap w) (63 - d) = true <-> top a - d ∈ accepted a);
  rp_above : forall i, 64 <= i -> Z.testbit (bitmap w) i = false;
  rp_zero : top a = 0 -> (seen_zero_at_init w = true <-> 0 ∈ accepted a);
}.

Lemma represents_init : represents ReplayWindow_new spec_init.
Proof.
  split; simpl; try done.
  - intros d Hd. rewrite Z.bits_0. split; [done|]. intros Hx. by apply not_elem_of_empty in Hx.
  - intros. apply Z.bits_0.
Qed.

Lemma testbit_mask i j : 0 <= i -> 0 <= j -> Z.testbit (Z.shiftl 1 i) j = bool_decide (i = j).
Proof.
  intros Hi Hj. rewrite Z.shiftl_1_l. destruct (decide (i = j)) as [->|].
  - rewrite bool_decide_true by done. by apply Z.pow2_bits_true.
  - rewrite bool_decide_false by done. by apply Z.pow2_bits_false.
Qed.

Lemma land_mask_zero z i : 0 <= i -> (Z.land z (Z.shiftl 1 i) =? 0) = negb (Z.testbit z i).
Proof.
  intros Hi. destruct (Z.testbit z i) eqn:Hz; simpl.
  - apply Z.eqb_neq. intros E. apply (f_equal (fun x => Z.testbit x i)) in E.
    rewrite Z.land_spec, testbit_mask, Hz, Z.bits_0, bool_decide_true in E by done. done.
  - apply Z.eqb_eq, Z.bits_inj'. intros j Hj. rewrite Z.land_spec, testbit_mask, Z.bits_0 by done.
    case_bool_decide; [subst; by rewrite Hz|apply andb_false_r].
Qed.

(** Setting the bit of [s] in the window records [s]. *)
Lemma represents_mark w a s z :
  represents w a -> 0 <= top a - s < 64 -> 0 <= s ->
  (top a = 0 -> s = 0 -> z = true) -> (top a <> 0 \/ s <> 0 -> z = seen_zero_at_init w) ->
  represents
    {| high := high w; bitmap := Z.lor (bitmap w) (Z.shiftl 1 (63 - (top a - s)));
       seen_zero_at_init := z |}
    {| accepted := {[s]} ∪ accepted a; top := top a |}.
Proof.
  intros [Hh Hn Hb Hbm Hbits Habove Hz] Hd Hs Hz1 Hz2. split; simpl; try done.
  - intros x. rewrite elem_of_union, elem_of_singleton. intros [->|]; [lia|auto].
  - apply Z.lor_nonneg. split; [done|]. apply Z.shiftl_nonneg. lia.
  - intros d Hdd. rewrite Z.lor_spec, testbit_mask, orb_true_iff, Hbits by lia.
    rewrite bool_decide_eq_true, elem_of_union, elem_of_singleton.
    split; [intros [?|?]; [by right|left; lia]|intros [?|?]; [right; lia|by left]].
  - intros i Hi. rewrite Z.lor_spec, Habove, testbit_mask by lia.
    by rewrite bool_decide_false by lia.
  - intros Ht. rewrite elem_of_union, elem_of_singleton. split.
    + intros ->. left. lia.
    + intros _. apply Hz1; lia.
Qed.

(** Moving the window up to a new highest number. *)
Lemma represents_slide w a s :
  represents w a -> top a < s ->
  represents
    {| high := s;
       bitmap := Z.lor (if 64 <=? s - top a then 0 else Z.shiftr (bitmap w) (s - top a))
                       (Z.shiftl 1 63);
       seen_zero_at_init := seen_zero_at_init w |}
    {| accepted := {[s]} ∪ accepted a; top := s |}.
Proof.
  intros [Hh Hn Hb Hbm Hbits Habove Hz] Hs. split; simpl; try done; try lia.
  - intros x. rewrite elem_of_union, elem_of_singleton. intros [->|Hx]; [lia|].
    apply Hb in Hx. lia.
  - apply Z.lor_nonneg. split; [|by apply Z.shiftl_nonneg].
    destruct (64 <=? s - top a); [done|by apply Z.shiftr_nonneg].
  - intros d Hd. rewrite Z.lor_spec, testbit_mask, orb_true_iff by lia.
    rewrite bool_decide_eq_true, elem_of_union, elem_of_singleton.
    assert (Hold : Z.testbit (if 64 <=? s - top a then 0 else Z.shiftr (bitmap w) (s - top a)) (63 - d)
                   = true <-> s - d ∈ accepted a).
    { destruct (Z.leb_spec 64 (s - top a)).
      - rewrite Z.bits_0. split; [done|]. intros Hx%Hb. lia.
      - rewrite Z.shiftr_spec by lia. destruct (decide (d < s - top a)).
        + rewrite Habove by lia. split; [done|]. intros Hx%Hb. lia.
        + replace (63 - d + (s - top a)) with (63 - (d - (s - top a))) by lia.
          rewrite Hbits by lia. by replace (top a - (d - (s - top a))) with (s - d) by lia. }
    rewrite Hold. split; [intros [?|?]; [by right|left; lia]|intros [?|?]; [right; lia|by left]].
  - intros i Hi. rewrite Z.lor_spec, testbit_mask by lia. rewrite bool_decide_false by lia.
    destruct (64 <=? s - top a); [by rewrite Z.bits_0|].
    by rewrite Z.shiftr_spec, Habove by lia.
Qed.

(** One call: same verdict, related states. *)
Lemma check_and_update_refines w a s :
  represents w a -> is_u64 s ->
  (check_and_update w s).1 = (spec_step a s).1
  /\ represents (check_and_update w s).2 (spec_step a s).2.
Proof.
  intros Hr Hs. pose proof (rp_high _ _ Hr) as Hh. pose proof (rp_nonneg _ _ Hr) as Hn.
  unfold is_u64 in Hs. unfold check_and_update, spec_step, WINDOW_BITS. rewrite Hh.
  destruct (Z.ltb_spec (top a) s) as [Hlt|Hge].
  { destruct (u64_max / 2 <? s - top a); [done|]. split; [done|]. by apply represents_slide. }
  destruct ((s =? 0) && (top a =? 0)) eqn:E0.
  { apply andb_true_iff in E0 as [Es%Z.eqb_eq Et%Z.eqb_eq]. subst s.
    destruct (Z.leb_spec 64 (top a - 0)); [lia|].
    pose proof (rp_zero _ _ Hr Et) as Hz.
    destruct (seen_zero_at_init w) eqn:Ez.
    - rewrite decide_True by (by apply Hz). done.
    - rewrite decide_False by (rewrite <- Hz; done). split; [done|].
      pose proof (represents_mark w a 0 true Hr) as M. rewrite Hh in M.
      replace (63 - (top a - 0)) with (64 - 1) in M by lia. apply M; lia || naive_solver. }
  destruct (Z.leb_spec 64 (top a - s)); [done|].
  rewrite land_mask_zero, negb_involutive by lia.
  replace (64 - 1 - (top a - s)) with (63 - (top a - s)) by lia.
  pose proof (rp_bits _ _ Hr (top a - s) ltac:(lia)) as Hbit.
  replace (top a - (top a - s)) with s in Hbit by lia.
  destruct (Z.testbit (bitmap w) (63 - (top a - s))).
  - rewrite decide_True by (by apply Hbit). done.
  - rewrite decide_False by (rewrite <- Hbit; done). split; [done|].
    pose proof (represents_mark w a s (seen_zero_at_init w) Hr) as M. rewrite Hh in M.
    apply M; try lia; try done.
Qed.

Lemma window_run_refines w a l :
  represents w a -> Forall is_u64 l ->
  (window_run w l).1 = (spec_run a l).1 /\ represents (window_run w l).2 (spec_run a l).2.
Proof.
  revert w a. induction l as [|s l IH]; intros w a Hr Hl; [done|].
  inversion Hl as [|? ? Hs Hl']; subst.
  destruct (check_and_update_refines w a s Hr Hs) as [H1 H2]. simpl.
  destruct (check_and_update w s) as [r w'], (spec_step a s) as [r' a']. simpl in *. subst r'.
  destruct (IH w' a' H2 Hl') as [H3 H4].
  destruct (window_run w' l), (spec_run a' l). simpl in *. by subst.
Qed.

Lemma spec_step_Ok a s a' :
  spec_step a s = (Ok tt, a') -> (forall x, x ∈ accepted a -> x <= top a) ->
  (s ∉ accepted a) /\ accepted a' = {[s]} ∪ accepted a /\ (forall x, x ∈ accepted a' -> x <= top a').
Proof.
  unfold spec_step. intros E Hb. destruct (Z.ltb_spec (top a) s).
  - destruct (u64_max / 2 <? s - top a); [done|]. injection E as <-. simpl.
    split; [intros Hx%Hb; lia|]. split; [done|]. intros x.
    rewrite elem_of_union, elem_of_singleton. intros [->|Hx%Hb]; lia.
  - destruct (64 <=? top a - s); [done|]. case_decide; [done|]. injection E as <-. simpl.
    split; [done|]. split; [done|]. intros x.
    rewrite elem_of_union, elem_of_singleton. intros [->|Hx%Hb]; lia.
Qed.

Lemma spec_step_Err a s e a' : spec_step a s = (Err e, a') -> a' = a.
Proof. unfold spec_step. repeat case_match; by intros [=]. Qed.

Lemma spec_run_NoDup a l :
  (forall x, x ∈ accepted a -> x <= top a) ->
  NoDup (accepted_of l (spec_run a l).1)
  /\ forall x, x ∈ accepted_of l (spec_run a l).1 -> x ∉ accepted a.
Proof.
  revert a. induction l as [|s l IH]; intros a Hb; simpl; [split; [constructor|set_solver]|].
  destruct (spec_step a s) as [r a'] eqn:Es. destruct r as [[]|e].
  - apply spec_step_Ok in Es as (Hnew & Hacc & Hb'); [|done].
    destruct (IH a' Hb') as [Hnd Hni]. destruct (spec_run a' l) as [rs a'']. simpl in *.
    rewrite Hacc in Hni. split.
    + constructor; [|done]. intros Hin. apply Hni in Hin. set_solver.
    + intros x Hx. rewrite elem_of_cons in Hx. destruct Hx as [->|Hx]; [done|].
      apply Hni in Hx. set_solver.
  - apply spec_step_Err in Es as ->. specialize (IH a Hb).
    destruct (spec_run a l) as [rs a'']. done.
Qed.

Lemma spec_run_accepted a l :
  (forall x, x ∈ accepted a -> x <= top a) ->
  forall x, x ∈ accepted (spec_run a l).2 <->
    x ∈ accepted a \/ x ∈ accepted_of l (spec_run a l).1.
Proof.
  revert a. induction l as [|s l IH]; intros a Hb x; simpl; [rewrite elem_of_nil; tauto|].
  destruct (spec_step a s) as [r a'] eqn:Es. destruct r as [[]|e].
  - apply spec_step_Ok in Es as (Hnew & Hacc & Hb'); [|done].
    specialize (IH a' Hb' x). destruct (spec_run a' l) as [rs a'']. simpl in *.
    rewrite IH, Hacc, elem_of_union, elem_of_singleton, elem_of_cons. tauto.
  - apply spec_step_Err in Es as ->. specialize (IH a Hb x).
    by destruct (spec_run a l) as [rs a''].
Qed.

Lemma spec_step_fresh a s :
  s ∉ accepted a -> top a - 64 < s -> s - top a <= u64_max / 2 -> (spec_step a s).1 = Ok tt.
Proof.
  intros Hn H1 H2. unfold spec_step. destruct (Z.ltb_spec (top a) s).
  - destruct (Z.ltb_spec (u64_max / 2) (s - top a)); [lia|done].
  - destruct (Z.leb_spec 64 (top a - s)); [lia|]. by rewrite decide_False.
Qed.

(** ** Properties *)

(** C7. The 64-bit bitmap implements the specification that remembers every
    accepted sequence number: on every sequence of [u64] numbers the two give
    the same verdicts, errors and their payloads included. *)
Theorem replay_window_refines l :
  Forall is_u64 l -> (window_run ReplayWindow_new l).1 = (spec_run spec_init l).1.
Proof. intros Hl. apply window_run_refines; [apply represents_init|done]. Qed.

Lemma replay_window_refines_witness :
  (window_run ReplayWindow_new [0; 1; 0; 100; 37; 36; 37]).1
  = [Ok tt; Ok tt; Err (Replay 0); Ok tt; Ok tt; Err (SeqGap 64); Err (Replay 37)].
Proof.
  rewrite (replay_window_refines [0; 1; 0; 100; 37; 36; 37]); [vm_compute; reflexivity|].
  repeat constructor; vm_compute; congruence.
Defined.

(** No replay is ever accepted: over any sequence of calls on a fresh
    window, each sequence number is accepted at most once. *)
Theorem replay_accepts_once l :
  Forall is_u64 l -> NoDup (accepted_of l (window_run ReplayWindow_new l).1).
Proof.
  intros Hl. rewrite (proj1 (window_run_refines _ _ l represents_init Hl)).
  apply spec_run_NoDup. intros x. set_solver.
Qed.

Lemma replay_accepts_once_witness :
  NoDup (accepted_of [5; 5; 3; 9; 3] (window_run ReplayWindow_new [5; 5; 3; 9; 3]).1).
Proof. apply replay_accepts_once. repeat constructor; vm_compute; congruence. Defined.

(** The window loses no fresh frame: after any history, a sequence number
    not accepted before and less than 64 below the highest accepted one, or
    above it by at most [u64::MAX / 2], is accepted. *)
Theorem replay_accepts_fresh l s :
  Forall is_u64 l -> is_u64 s ->
  let w := (window_run ReplayWindow_new l).2 in
  s ∉ accepted_of l (window_run ReplayWindow_new l).1 ->
  high w - 64 < s -> s - high w <= u64_max / 2 ->
  (check_and_update w s).1 = Ok tt.
Proof.
  intros Hl Hs w Hn Hlo Hhi. subst w.
  destruct (window_run_refines _ _ l represents_init Hl) as [E1 E2].
  rewrite (proj1 (check_and_update_refines _ _ s E2 Hs)). rewrite E1 in Hn.
  rewrite (rp_high _ _ E2) in Hlo, Hhi. apply spec_step_fresh; [|done..].
  assert (Hb : forall x, x ∈ accepted spec_init -> x <= top spec_init) by set_solver.
  rewrite (spec_run_accepted _ l Hb). set_solver.
Qed.

Lemma replay_accepts_fresh_witness :
  (check_and_update (window_run ReplayWindow_new [0; 100; 37]).2 38).1 = Ok tt.
Proof.
  apply replay_accepts_fresh; [repeat constructor; vm_compute; congruence | by split | | done | done].
  apply (bool_decide_unpack _). vm_compute. reflexivity.
Defined.
