(* ===== verification/Control.v ===== *)
(** * ullm-wire: control-frame bodies

    [crates/ullm-wire/src/control.rs] and the op codes of [frame.rs]: a body
    is [op(1) || payload]. *)

From S2P Require Import Prelude RustStd Core Frame.
From Stdlib Require Import Lia.

Local Open Scope Z_scope.

Module ControlOp.
Inductive t :=
| Ping | Pong | Cancel | KeyUpdate | Error | FlowCredit
| AttestRefreshChallenge | AttestRefreshResponse.
End ControlOp.

Definition ControlOp_repr (op : ControlOp.t) : Z :=
  match op with
  | ControlOp.Ping => 0x01
  | ControlOp.Pong => 0x02
  | ControlOp.Cancel => 0x03
  | ControlOp.KeyUpdate => 0x04
  | ControlOp.Error => 0x05
  | ControlOp.FlowCredit => 0x06
  | ControlOp.AttestRefreshChallenge => 0x07
  | ControlOp.AttestRefreshResponse => 0x08
  end.

Definition ControlOp_from_u8 (v : Z) : option ControlOp.t :=
  if v =? 0x01 then Some ControlOp.Ping
  else if v =? 0x02 then Some ControlOp.Pong
  else if v =? 0x03 then Some ControlOp.Cancel
  else if v =? 0x04 then Some ControlOp.KeyUpdate
  else if v =? 0x05 then Some ControlOp.Error
  else if v =? 0x06 then Some ControlOp.FlowCredit
  else if v =? 0x07 then Some ControlOp.AttestRefreshChallenge
  else if v =? 0x08 then Some ControlOp.AttestRefreshResponse
  else None.

(** The derived [Debug] output. *)
Definition ControlOp_debug (op : ControlOp.t) : bytes :=
  match op with
  | ControlOp.Ping => lit "Ping"
  | ControlOp.Pong => lit "Pong"
  | ControlOp.Cancel => lit "Cancel"
  | ControlOp.KeyUpdate => lit "KeyUpdate"
  | ControlOp.Error => lit "Error"
  | ControlOp.FlowCredit => lit "FlowCredit"
  | ControlOp.AttestRefreshChallenge => lit "AttestRefreshChallenge"
  | ControlOp.AttestRefreshResponse => lit "AttestRefreshResponse"
  end.

Module Control.
Inductive t :=
| Ping (ts : Z)
| Pong (ts : Z)
| Cancel (code : Z)
| KeyUpdate (new_pk : bytes)
| Error (code : Z)
| FlowCredit (n : Z).
#[global] Instance t_eq_dec : EqDecision t.
Proof. solve_decision. Defined.
End Control.

Definition op_byte (op : ControlOp.t) : byte := byte.of_Z (ControlOp_repr op).

Definition Control_encode (c : Control.t) : bytes :=
  match c with
  | Control.Ping ts => op_byte ControlOp.Ping :: to_be_bytes 8 ts
  | Control.Pong ts => op_byte ControlOp.Pong :: to_be_bytes 8 ts
  | Control.Cancel code => op_byte ControlOp.Cancel :: to_be_bytes 2 code
  | Control.KeyUpdate new_pk => op_byte ControlOp.KeyUpdate :: new_pk
  | Control.Error code => op_byte ControlOp.Error :: to_be_bytes 2 code
  | Control.FlowCredit n => op_byte ControlOp.FlowCredit :: to_be_bytes 4 n
  end.

Definition read_u16 (l : bytes) : Result Z :=
  if decide (length l <> 2%nat)
  then Err (Other (lit "expected 2-byte payload, got " ++ fmt_dec (Z.of_nat (length l))))
  else Ok (from_be_bytes l).

Definition read_u32 (l : bytes) : Result Z :=
  if decide (length l <> 4%nat)
  then Err (Other (lit "expected 4-byte payload, got " ++ fmt_dec (Z.of_nat (length l))))
  else Ok (from_be_bytes l).

Definition read_u64 (l : bytes) : Result Z :=
  if decide (length l <> 8%nat)
  then Err (Other (lit "expected 8-byte payload, got " ++ fmt_dec (Z.of_nat (length l))))
  else Ok (from_be_bytes l).

Definition Control_decode (l : bytes) : Result Control.t :=
  match l with
  | [] => Err (Other (lit "empty control body"))
  | opb :: rest =>
      let? op := ok_or (ControlOp_from_u8 (uval opb))
                       (Other (lit "unknown control op " ++ fmt_hex04 (uval opb))) in
      match op with
      | ControlOp.Ping => let? ts := read_u64 rest in Ok (Control.Ping ts)
      | ControlOp.Pong => let? ts := read_u64 rest in Ok (Control.Pong ts)
      | ControlOp.Cancel => let? code := read_u16 rest in Ok (Control.Cancel code)
      | ControlOp.KeyUpdate =>
          if decide (length rest = 32%nat) then Ok (Control.KeyUpdate rest)
          else Err (Other (lit "KeyUpdate payload != 32 bytes"))
      | ControlOp.Error => let? code := read_u16 rest in Ok (Control.Error code)
      | ControlOp.FlowCredit => let? n := read_u32 rest in Ok (Control.FlowCredit n)
      | other => Err (Other (lit "unsupported control op " ++ ControlOp_debug other))
      end
  end.

(** Field ranges the Rust types guarantee. *)
Definition control_wf (c : Control.t) : Prop :=
  match c with
  | Control.Ping ts | Control.Pong ts => is_u64 ts
  | Control.Cancel code | Control.Error code => is_u16 code
  | Control.KeyUpdate pk => length pk = 32%nat
  | Control.FlowCredit n => is_u32 n
  end.

(** ** Lemmas *)

Lemma ControlOp_roundtrip op : ControlOp_from_u8 (uval (op_byte op)) = Some op.
Proof. by destruct op. Qed.

Lemma ControlOp_from_u8_Some c op : ControlOp_from_u8 (uval c) = Some op -> c = op_byte op.
Proof.
  unfold ControlOp_from_u8.
  repeat match goal with
  | |- (if ?v =? ?k then _ else _) = _ -> _ =>
      destruct (Z.eqb_spec v k) as [E|];
      [intros [= <-]; rewrite <- (of_Z_uval c), E; done|]
  end. done.
Qed.

Lemma read_u16_spec l z : read_u16 l = Ok z <-> length l = 2%nat /\ z = from_be_bytes l.
Proof. unfold read_u16. case_decide; naive_solver. Qed.

Lemma read_u32_spec l z : read_u32 l = Ok z <-> length l = 4%nat /\ z = from_be_bytes l.
Proof. unfold read_u32. case_decide; naive_solver. Qed.

Lemma read_u64_spec l z : read_u64 l = Ok z <-> length l = 8%nat /\ z = from_be_bytes l.
Proof. unfold read_u64. case_decide; naive_solver. Qed.

Lemma Control_decode_encode c : control_wf c -> Control_decode (Control_encode c) = Ok c.
Proof.
  intros Hwf. destruct c; cbn [Control_encode Control_decode]; rewrite ControlOp_roundtrip;
    cbn [ok_or result_bind];
    try (rewrite (proj2 (read_u64_spec _ ts)) || rewrite (proj2 (read_u16_spec _ code))
         || rewrite (proj2 (read_u32_spec _ n)));
    try done;
    try (split; [apply length_to_be_bytes | by rewrite from_to_be_bytes]).
  by rewrite decide_True.
Qed.

Lemma Control_decode_inv l c : Control_decode l = Ok c -> control_wf c /\ l = Control_encode c.
Proof.
  destruct l as [|o rest]; [done|]. cbn [Control_decode]. intros Hd.
  apply result_bind_Ok in Hd as (op & Ho & Hd). apply ok_or_Ok in Ho.
  apply ControlOp_from_u8_Some in Ho as ->.
  destruct op; try discriminate Hd; inv_ok;
    repeat match goal with
    | H : read_u16 _ = Ok _ |- _ => apply read_u16_spec in H as [Hlen ->]
    | H : read_u32 _ = Ok _ |- _ => apply read_u32_spec in H as [Hlen ->]
    | H : read_u64 _ = Ok _ |- _ => apply read_u64_spec in H as [Hlen ->]
    end; cbn [control_wf Control_encode];
    try (rewrite to_from_be_bytes by done; split; [|done];
         pose proof (from_be_bytes_bound rest) as B; rewrite Hlen in B; exact B).
  done.
Qed.

(** ** Properties *)

(** Control bodies: [decode] reads back every message [encode] writes, and
    it accepts nothing else: a byte string decodes to [c] exactly when it is
    the encoding of the well-formed message [c]. *)
Theorem control_codec l c :
  Control_decode l = Ok c <-> control_wf c /\ l = Control_encode c.
Proof.
  split; [apply Control_decode_inv|]. intros [Hwf ->]. by apply Control_decode_encode.
Qed.
