(* ===== verification/Merkle.v ===== *)
(** * ullm-transparency: log entries, the Merkle tree and inclusion proofs

    [crates/ullm-transparency/src/log.rs] (the entry type), [merkle.rs] and
    [inclusion.rs].  A level of the tree is a non-empty list, kept as its
    head and tail, so that the [while level.len() > 1] loops are total. *)

From S2P Require Import Prelude RustStd Crates Toy.
From Equations Require Import Equations.
From Stdlib Require Import Lia.

Local Open Scope nat_scope.

(** ** log.rs: entries *)

Record LogEntry := {
  seq : Z;
  id_pk_hex : bytes;
  evidence_sha256_hex : bytes;
  observed_at_unix : Z;
}.

#[export] Instance LogEntry_eq_dec : EqDecision LogEntry.
Proof. solve_decision. Defined.

(** The [BTreeMap] built by the four inserts. *)
Definition LogEntry_object (e : LogEntry) : list (bytes * json) :=
  btree_insert (lit "seq") (JU64 (seq e))
  (btree_insert (lit "observed_at_unix") (JU64 (observed_at_unix e))
  (btree_insert (lit "id_pk_hex") (JStr (id_pk_hex e))
  (btree_insert (lit "evidence_sha256_hex") (JStr (evidence_sha256_hex e)) []))).

Definition LogEntry_canonical_bytes `{SerdeJson} (e : LogEntry) : bytes :=
  json_object_to_vec (LogEntry_object e).

Definition LogEntry_from_evidence `{Sha2} `{!Hex} (seq : Z) (id_pk evidence_bytes : bytes)
    (observed_at_unix : Z) : LogEntry :=
  {| seq := seq;
     id_pk_hex := hex_encode id_pk;
     evidence_sha256_hex := hex_encode (sha256 evidence_bytes);
     observed_at_unix := observed_at_unix |}.

(** ** merkle.rs *)

Definition LEAF_DOMAIN : bytes := lit "ULLM-transparency-v1 leaf".
Definition NODE_DOMAIN : bytes := lit "ULLM-transparency-v1 node".
Definition EMPTY_DOMAIN : bytes := lit "ULLM-transparency-v1 empty".

Section Tree.
Context `{!Sha2}.

Definition empty_root : bytes := sha256 EMPTY_DOMAIN.

Definition leaf_hash `{!SerdeJson} (e : LogEntry) : bytes :=
  sha256 (LEAF_DOMAIN ++ LogEntry_canonical_bytes e).

Definition node_hash (l r : bytes) : bytes := sha256 (NODE_DOMAIN ++ l ++ r).

(** The inner loop: pair up neighbours, an odd last node with itself. *)
Fixpoint next_level (level : list bytes) : list bytes :=
  match level with
  | [] => []
  | [x] => [node_hash x x]
  | x :: y :: level => node_hash x y :: next_level level
  end.

Lemma length_next_level level : length (next_level level) <= length level.
Proof.
  induction level as [level IH] using (induction_ltof1 _ (@length _)). unfold ltof in IH.
  destruct level as [|x [|y level]]; simpl; [lia|lia|].
  specialize (IH level ltac:(simpl; lia)). lia.
Qed.

(** The outer loop on the level [x :: xs]. *)
Equations? root_loop (x : bytes) (xs : list bytes) : bytes by wf (length xs) lt :=
  root_loop x [] := x;
  root_loop x (y :: l) := root_loop (node_hash x y) (next_level l).
Proof. pose proof (length_next_level l). lia. Defined.

Definition root_of_leaves (leaves : list bytes) : bytes :=
  match leaves with
  | [] => empty_root
  | x :: xs => root_loop x xs
  end.

Definition merkle_root `{!SerdeJson} (entries : list LogEntry) : bytes :=
  match entries with
  | [] => empty_root
  | _ => root_of_leaves (leaf_hash <$> entries)
  end.

(** ** inclusion.rs *)

Record InclusionProof := {
  proof_seq : Z;
  tree_size : Z;
  leaf_hash_hex : bytes;
  siblings_hex : list bytes;
  directions : list bool;
}.

(** The audit path of index [idx] in the level [x :: xs]: the siblings with
    their directions, from the leaf up. *)
Equations? build_loop (x : bytes) (xs : list bytes) (idx : nat) : list (bytes * bool)
  by wf (length xs) lt :=
  build_loop x [] idx := [];
  build_loop x (y :: l) idx :=
    let level := x :: y :: l in
    let is_left := (idx mod 2 =? 0)%nat in
    let sibling_idx := if is_left then (idx + 1)%nat else (idx - 1)%nat in
    let sibling := if (sibling_idx <? length level)%nat then level !!! sibling_idx
                   else level !!! idx in
    (sibling, is_left) :: build_loop (node_hash x y) (next_level l) (idx / 2).
Proof. pose proof (length_next_level l). lia. Defined.

Definition InclusionProof_build `{!SerdeJson, !Hex} (entries : list LogEntry) (sq : nat)
  : option InclusionProof :=
  if decide (length entries <= sq) then None else
  match leaf_hash <$> entries with
  | [] => None
  | x :: xs =>
      let path := build_loop x xs sq in
      Some {| proof_seq := Z.of_nat sq;
              tree_size := Z.of_nat (length entries);
              leaf_hash_hex := hex_encode ((x :: xs) !!! sq);
              siblings_hex := hex_encode <$> path.*1;
              directions := path.*2 |}
  end.

Definition decode32 `{!Hex} (s : bytes) : option bytes :=
  match hex_decode s with
  | Some l => if decide (length l <> 32) then None else Some l
  | None => None
  end.

(** The loop of [verify] over the zipped path; [None] is the early
    [return false] on an undecodable sibling. *)
Fixpoint verify_loop `{!Hex} (current : bytes) (path : list (bytes * bool)) : option bytes :=
  match path with
  | [] => Some current
  | (sib_hex, is_left) :: path =>
      match decode32 sib_hex with
      | None => None
      | Some sibling =>
          verify_loop (if is_left : bool then node_hash current sibling else node_hash sibling current) path
      end
  end.

Definition InclusionProof_verify `{!SerdeJson, !Hex} (p : InclusionProof) (expected_root : bytes)
    (expected_entry : LogEntry) : bool :=
  if decide (length (siblings_hex p) <> length (directions p)) then false else
  let expected_leaf := leaf_hash expected_entry in
  match decode32 (leaf_hash_hex p) with
  | None => false
  | Some claimed_leaf =>
      if decide (claimed_leaf <> expected_leaf) then false else
      match verify_loop expected_leaf (zip (siblings_hex p) (directions p)) with
      | None => false
      | Some current => bool_decide (current = expected_root)
      end
  end.
End Tree.

(** ** The messages that are hashed

    What SHA-256 is applied to when the root of a log is computed, and when a
    proof is checked. *)

Section Inputs.
Context `{!Sha2}.

Definition leaf_input `{!SerdeJson} (e : LogEntry) : bytes := LEAF_DOMAIN ++ LogEntry_canonical_bytes e.
Definition node_input (l r : bytes) : bytes := NODE_DOMAIN ++ l ++ r.

Fixpoint level_inputs (level : list bytes) : list bytes :=
  match level with
  | [] => []
  | [x] => [node_input x x]
  | x :: y :: level => node_input x y :: level_inputs level
  end.

Equations? loop_inputs (x : bytes) (xs : list bytes) : list bytes by wf (length xs) lt :=
  loop_inputs x [] := [];
  loop_inputs x (y :: l) := level_inputs (x :: y :: l) ++ loop_inputs (node_hash x y) (next_level l).
Proof. pose proof (length_next_level l). lia. Defined.

(** Of [merkle_root]. *)
Definition root_inputs `{!SerdeJson} (entries : list LogEntry) : list bytes :=
  match leaf_hash <$> entries with
  | [] => [EMPTY_DOMAIN]
  | x :: xs => (leaf_input <$> entries) ++ loop_inputs x xs
  end.

Fixpoint path_inputs `{!Hex} (current : bytes) (path : list (bytes * bool)) : list bytes :=
  match path with
  | [] => []
  | (sib_hex, is_left) :: path =>
      match decode32 sib_hex with
      | None => []
      | Some sibling =>
          (if is_left : bool then node_input current sibling else node_input sibling current)
          :: path_inputs (if is_left : bool then node_hash current sibling else node_hash sibling current) path
      end
  end.

(** Of [InclusionProof_verify]. *)
Definition verify_inputs `{!SerdeJson, !Hex} (p : InclusionProof) (e : LogEntry) : list bytes :=
  leaf_input e :: path_inputs (leaf_hash e) (zip (siblings_hex p) (directions p)).
End Inputs.

(** ** Entries and hash domains *)

Definition entry_wf (e : LogEntry) : Prop := is_u64 (seq e) /\ is_u64 (observed_at_unix e).

(** The fields sit in key order. *)
Lemma LogEntry_object_sorted e :
  LogEntry_object e =
    [(lit "evidence_sha256_hex", JStr (evidence_sha256_hex e));
     (lit "id_pk_hex", JStr (id_pk_hex e));
     (lit "observed_at_unix", JU64 (observed_at_unix e));
     (lit "seq", JU64 (seq e))].
Proof. reflexivity. Qed.

Lemma canonical_bytes_inj `{SerdeJsonLaws} e1 e2 :
  entry_wf e1 -> entry_wf e2 ->
  LogEntry_canonical_bytes e1 = LogEntry_canonical_bytes e2 -> e1 = e2.
Proof.
  intros [H1 H2] [H3 H4] E. apply json_object_to_vec_inj in E.
  - rewrite !LogEntry_object_sorted in E. destruct e1, e2; cbn in *. by injection E as -> -> -> ->.
  - rewrite LogEntry_object_sorted. by repeat (apply Forall_cons; split).
  - rewrite LogEntry_object_sorted. by repeat (apply Forall_cons; split).
Qed.

Lemma leaf_node_domain x y : LEAF_DOMAIN ++ x <> NODE_DOMAIN ++ y.
Proof. intros E. apply (f_equal (fun l => nth 21 l Byte.x00)) in E. vm_compute in E. discriminate E. Qed.

Lemma empty_leaf_domain x : EMPTY_DOMAIN <> LEAF_DOMAIN ++ x.
Proof. intros E. apply (f_equal (fun l => nth 21 l Byte.x00)) in E. vm_compute in E. discriminate E. Qed.

Lemma empty_node_domain x : EMPTY_DOMAIN <> NODE_DOMAIN ++ x.
Proof. intros E. apply (f_equal (fun l => nth 21 l Byte.x00)) in E. vm_compute in E. discriminate E. Qed.

Section TreeLemmas.
Context `{!Sha2, !Sha2Laws}.

Definition len32 (l : bytes) : Prop := length l = 32.

Lemma node_hash_len l r : len32 (node_hash l r).
Proof. apply sha256_len. Qed.

Lemma next_level_len level : Forall len32 (next_level level).
Proof.
  induction level as [level IH] using (induction_ltof1 _ (@length _)). unfold ltof in IH.
  destruct level as [|x [|y level]]; simpl; repeat constructor; try apply node_hash_len.
  apply IH. simpl. lia.
Qed.

Lemma even_case (i : nat) : (S (S i)) / 2 = S (i / 2) /\ S (S i) mod 2 = i mod 2.
Proof.
  replace (S (S i)) with (i + 1 * 2) by lia.
  rewrite Nat.div_add, Nat.Div0.mod_add by lia. lia.
Qed.

(** The sibling the audit path records for an index of a level. *)
Definition sibling_of (level : list bytes) (idx : nat) : bytes :=
  let sibling_idx := if idx mod 2 =? 0 then idx + 1 else idx - 1 in
  if sibling_idx <? length level then level !!! sibling_idx else level !!! idx.

Lemma sibling_of_SS x y level i :
  level <> [] -> i < length level -> sibling_of (x :: y :: level) (S (S i)) = sibling_of level i.
Proof.
  intros Hne Hi. unfold sibling_of. rewrite (proj2 (even_case i)).
  destruct (i mod 2 =? 0) eqn:E.
  - replace (S (S i) + 1) with (S (S (i + 1))) by lia. simpl length.
    change (S (S (i + 1)) <? S (S (length level))) with (i + 1 <? length level).
    by destruct (i + 1 <? length level).
  - apply Nat.eqb_neq in E. destruct i as [|i]; [done|].
    replace (S (S (S i)) - 1) with (S (S i)) by lia. replace (S i - 1) with i by lia.
    rewrite !(proj2 (Nat.ltb_lt _ _)) by (simpl; lia). done.
Qed.

Lemma next_level_lookup level idx v :
  level !! idx = Some v ->
  next_level level !! (idx / 2)
  = Some (if idx mod 2 =? 0 then node_hash v (sibling_of level idx)
          else node_hash (sibling_of level idx) v).
Proof.
  revert idx. induction level as [level IH] using (induction_ltof1 _ (@length _)).
  unfold ltof in IH. intros idx Hv. destruct level as [|x [|y level]]; [done| |].
  - destruct idx as [|idx]; [|done]. injection Hv as ->. reflexivity.
  - destruct idx as [|[|i]].
    + injection Hv as ->. reflexivity.
    + injection Hv as ->. reflexivity.
    + simpl in Hv. pose proof (lookup_lt_Some _ _ _ Hv) as Hlt.
      rewrite sibling_of_SS by (by destruct level).
      destruct (even_case i) as [-> ->]. simpl. apply IH; [simpl; lia|done].
Qed.

(** Induction along the levels of the tree. *)
Lemma level_ind (P : bytes -> list bytes -> Prop) :
  (forall x, P x []) ->
  (forall x y l, P (node_hash x y) (next_level l) -> P x (y :: l)) ->
  forall x xs, P x xs.
Proof.
  intros Hnil HS x xs. revert x.
  induction xs as [xs IH] using (induction_ltof1 _ (@length _)). unfold ltof in IH.
  destruct xs as [|y l]; intros x; [apply Hnil|]. apply HS, IH.
  pose proof (length_next_level l). simpl. lia.
Qed.

Ltac level_induction x xs :=
  pattern x, xs; apply level_ind; clear x xs; [intros x | intros x y l IHxs].

(** A path folded from a node upwards. *)
Fixpoint climb (current : bytes) (path : list (bytes * bool)) : bytes :=
  match path with
  | [] => current
  | (s, is_left) :: path =>
      climb (if is_left : bool then node_hash current s else node_hash s current) path
  end.

Lemma climb_snoc current path s d :
  climb current (path ++ [(s, d)])
  = if d : bool then node_hash (climb current path) s else node_hash s (climb current path).
Proof. revert current. induction path as [|[t f] path IH]; intros; simpl; auto. Qed.

(** What is hashed on the way. *)
Definition step_input (current s : bytes) (is_left : bool) : bytes :=
  if is_left then node_input current s else node_input s current.

Fixpoint climb_inputs (current : bytes) (path : list (bytes * bool)) : list bytes :=
  match path with
  | [] => []
  | (s, is_left) :: path =>
      step_input current s is_left :: climb_inputs (sha256 (step_input current s is_left)) path
  end.

Lemma climb_step current s d path :
  climb current ((s, d) :: path) = climb (sha256 (step_input current s d)) path.
Proof. by destruct d. Qed.

Lemma climb_inputs_snoc current path s d :
  climb_inputs current (path ++ [(s, d)])
  = climb_inputs current path ++ [step_input (climb current path) s d].
Proof.
  revert current. induction path as [|[t f] path IH]; intros; [done|].
  cbn [app climb_inputs]. rewrite IH, climb_step. done.
Qed.

Lemma level_inputs_lookup level idx v :
  level !! idx = Some v ->
  step_input v (sibling_of level idx) (idx mod 2 =? 0) ∈ level_inputs level.
Proof.
  revert idx. induction level as [level IH] using (induction_ltof1 _ (@length _)).
  unfold ltof in IH. intros idx Hv. destruct level as [|x [|y level]]; [done| |].
  - destruct idx as [|idx]; [|done]. injection Hv as ->. left.
  - destruct idx as [|[|i]]; [injection Hv as ->; left..|].
    simpl in Hv. pose proof (lookup_lt_Some _ _ _ Hv) as Hlt.
    rewrite sibling_of_SS by (by destruct level). rewrite (proj2 (even_case i)).
    right. apply IH; [simpl; lia|done].
Qed.

Lemma build_climb_inputs x xs idx v :
  (x :: xs) !! idx = Some v -> climb_inputs v (build_loop x xs idx) ⊆ loop_inputs x xs.
Proof.
  revert idx v. level_induction x xs; intros idx v Hv; simp build_loop loop_inputs; [done|].
  cbn zeta. cbn [climb_inputs]. change (if _ <? _ then _ else _) with (sibling_of (x :: y :: l) idx).
  intros m [->|Hm]%elem_of_cons; apply elem_of_app; [left; by apply level_inputs_lookup|right].
  revert m Hm. apply IHxs.
  apply (next_level_lookup (x :: y :: l)) in Hv. by destruct (idx mod 2 =? 0).
Qed.

(** The audit path of an index folds to the root. *)
Lemma build_climb x xs idx v :
  (x :: xs) !! idx = Some v -> climb v (build_loop x xs idx) = root_loop x xs.
Proof.
  revert idx v. level_induction x xs; intros idx v Hv; simp build_loop root_loop.
  - destruct idx; [|done]. by injection Hv as ->.
  - cbn zeta. cbn [climb]. apply IHxs. by apply (next_level_lookup (x :: y :: l)).
Qed.

Lemma lookup_total_len32 (level : list bytes) i :
  Forall len32 level -> i < length level -> len32 (level !!! i).
Proof.
  intros Hf Hi. apply lookup_lt_is_Some in Hi as [v Hv].
  rewrite (list_lookup_total_correct _ _ _ Hv). by eapply Forall_lookup_1.
Qed.

Lemma build_loop_len x xs idx :
  idx < length (x :: xs) -> Forall len32 (x :: xs) ->
  Forall (fun p => len32 p.1) (build_loop x xs idx).
Proof.
  revert idx. level_induction x xs; intros idx Hi Hf; simp build_loop; [constructor|].
  cbn zeta. constructor.
  - cbn [fst]. destruct (_ <? _) eqn:E.
    + apply Nat.ltb_lt in E. by apply lookup_total_len32.
    + by apply lookup_total_len32.
  - apply IHxs; [|apply (next_level_len (x :: y :: l))].
    apply lookup_lt_is_Some in Hi as [v Hv].
    apply (next_level_lookup (x :: y :: l)) in Hv. by apply lookup_lt_Some in Hv.
Qed.

Context `{!Hex, !HexLaws}.

Lemma decode32_encode v : len32 v -> decode32 (hex_encode v) = Some v.
Proof. intros Hv. unfold decode32. rewrite hex_decode_encode. by rewrite decide_False by auto. Qed.

Lemma decode32_len s v : decode32 s = Some v -> len32 v.
Proof. unfold decode32. destruct (hex_decode s); [|done]. case_decide; [done|]. by intros [= ->]. Qed.

Lemma verify_loop_climb current path :
  Forall (fun p => len32 p.1) path ->
  verify_loop current (zip (hex_encode <$> path.*1) path.*2) = Some (climb current path).
Proof.
  revert current. induction path as [|[s d] path IH]; intros current Hf; [done|].
  inversion Hf as [|? ? Hs Hf']; subst. simpl in *. rewrite decode32_encode by done. by apply IH.
Qed.

(** What an accepted path says, with its siblings decoded. *)
Lemma verify_loop_Some current path v :
  verify_loop current path = Some v ->
  exists sibs, Forall (fun p => len32 p.1) sibs /\ v = climb current sibs
    /\ path_inputs current path = climb_inputs current sibs.
Proof.
  revert current. induction path as [|[s d] path IH]; intros current; simpl.
  - intros [= <-]. exists []. split; [constructor|done].
  - destruct (decode32 s) as [sib|] eqn:Es; [|done]. intros Hv.
    apply IH in Hv as (sibs & Hf & -> & Hi). exists ((sib, d) :: sibs).
    split; [constructor; [by eapply decode32_len|done]|]. split; [done|].
    by rewrite Hi; destruct d.
Qed.

(** ** The nodes of a tree *)

(** Built from the leaves by hashing messages of [inputs]. *)
Inductive tree_node (leaves inputs : list bytes) : bytes -> Prop :=
| tn_leaf v : v ∈ leaves -> tree_node leaves inputs v
| tn_node l r : node_input l r ∈ inputs -> tree_node leaves inputs l ->
    tree_node leaves inputs r -> tree_node leaves inputs (node_hash l r).
Hint Constructors tree_node : ullm.

Lemma next_level_nodes leaves inputs level :
  level_inputs level ⊆ inputs ->
  Forall (tree_node leaves inputs) level -> Forall (tree_node leaves inputs) (next_level level).
Proof.
  induction level as [level IH] using (induction_ltof1 _ (@length _)). unfold ltof in IH.
  intros Hi Hf. destruct level as [|x [|y level]]; simpl; [constructor| |].
  - rewrite Forall_singleton in Hf |- *. apply tn_node; [apply Hi; left|done..].
  - rewrite !Forall_cons in Hf. destruct Hf as (Hx & Hy & Hf).
    constructor; [apply tn_node; [apply Hi; left|done..]|].
    apply IH; [simpl; lia| |done]. intros m Hm. apply Hi. by right.
Qed.

Lemma root_loop_node leaves inputs x xs :
  loop_inputs x xs ⊆ inputs ->
  Forall (tree_node leaves inputs) (x :: xs) -> tree_node leaves inputs (root_loop x xs).
Proof.
  level_induction x xs; intros Hi Hf; simp root_loop.
  - by rewrite Forall_singleton in Hf.
  - simp loop_inputs in Hi. apply IHxs.
    + intros m Hm. apply Hi, elem_of_app. by right.
    + apply (next_level_nodes leaves inputs (x :: y :: l)); [|done].
      intros m Hm. apply Hi, elem_of_app. by left.
Qed.

Lemma tree_node_len leaves inputs v : Forall len32 leaves -> tree_node leaves inputs v -> len32 v.
Proof. intros Hf [w Hw|l r _ _ _]; [by eapply Forall_forall in Hf|apply node_hash_len]. Qed.

Lemma node_input_inj a c l r :
  len32 a -> len32 l -> node_input a c = node_input l r -> a = l /\ c = r.
Proof.
  intros Ha Hl E. apply app_inv_head in E. apply app_inj_length_1 in E; [done|]. by rewrite Ha, Hl.
Qed.
End TreeLemmas.
#[export] Hint Constructors tree_node : ullm.

Section Soundness.
Context `{!Sha2, !Sha2Laws, !SerdeJson, !Hex}.

Lemma leaf_hash_len e : len32 (leaf_hash e).
Proof. apply sha256_len. Qed.

Lemma leaves_len es : Forall len32 (leaf_hash <$> es).
Proof. apply Forall_fmap, Forall_true. intros. apply leaf_hash_len. Qed.

Lemma merkle_root_leaves es : merkle_root es = root_of_leaves (leaf_hash <$> es).
Proof. by destruct es. Qed.

Lemma merkle_root_node es : es <> [] ->
  tree_node (leaf_hash <$> es) (root_inputs es) (merkle_root es).
Proof.
  intros Hne. rewrite merkle_root_leaves. unfold root_inputs.
  destruct es as [|e es]; [done|]. cbn [fmap list_fmap root_of_leaves].
  apply root_loop_node; [set_solver|]. apply Forall_forall. intros v Hv. by constructor.
Qed.

Lemma leaf_input_in es e : e ∈ es -> leaf_input e ∈ root_inputs es.
Proof.
  intros Hin. unfold root_inputs. destruct es as [|e0 es]; [by apply elem_of_nil in Hin|].
  cbn [fmap list_fmap]. apply elem_of_app. left. by apply (list_elem_of_fmap_2 leaf_input (e0 :: es)).
Qed.

Lemma climb_len current path : len32 current -> len32 (climb current path).
Proof.
  revert current. induction path as [|[s d] path IH]; intros current Hc; [done|].
  simpl. apply IH. destruct d; apply node_hash_len.
Qed.

Lemma tree_node_inv leaves inputs v : tree_node leaves inputs v ->
  v ∈ leaves \/ exists l r, v = node_hash l r /\ node_input l r ∈ inputs
    /\ tree_node leaves inputs l /\ tree_node leaves inputs r.
Proof. intros [w Hw|l r Hi Hl Hr]; [by left|right; by exists l, r]. Qed.

(** A message hashed to a node of the tree of [es]: it is a leaf message of
    [es] or joins two nodes, or it collides with a message of the tree. *)
Lemma input_inside es m ms :
  es <> [] -> m ∈ ms -> tree_node (leaf_hash <$> es) (root_inputs es) (sha256 m) ->
  (exists e, e ∈ es /\ m = leaf_input e)
  \/ (exists l r, m = node_input l r /\ tree_node (leaf_hash <$> es) (root_inputs es) l
       /\ tree_node (leaf_hash <$> es) (root_inputs es) r)
  \/ sha256_collide_in ms (root_inputs es).
Proof.
  intros Hne Hm Hn. apply tree_node_inv in Hn as [Hl|(l & r & E & Hi & Hl & Hr)].
  - apply list_elem_of_fmap in Hl as (e & E & Hin).
    apply (sha256_eq_or_in ms (root_inputs es)) in E as [->|]; [left; by exists e|by auto|done|].
    by apply leaf_input_in.
  - apply (sha256_eq_or_in ms (root_inputs es)) in E as [->|]; [right; left; by exists l, r|by auto|done..].
Qed.

(** A path that ends on a node of the tree starts on one. *)
Lemma climb_inside es ms current path :
  es <> [] -> len32 current -> Forall (fun p => len32 p.1) path ->
  climb_inputs current path ⊆ ms ->
  tree_node (leaf_hash <$> es) (root_inputs es) (climb current path) ->
  tree_node (leaf_hash <$> es) (root_inputs es) current \/ sha256_collide_in ms (root_inputs es).
Proof.
  intros Hne Hc. induction path as [|[s d] path IH] using rev_ind; intros Hf Hi Hn; [by left|].
  apply Forall_app in Hf as [Hf Hs]. rewrite Forall_singleton in Hs. simpl in Hs.
  rewrite climb_inputs_snoc in Hi. pose proof (climb_len current path Hc) as Hcl.
  assert (Hm : step_input (climb current path) s d ∈ ms) by (apply Hi; set_solver).
  assert (Hp : climb_inputs current path ⊆ ms) by set_solver.
  rewrite climb_snoc in Hn.
  assert (Hn' : tree_node (leaf_hash <$> es) (root_inputs es)
    (sha256 (step_input (climb current path) s d))) by (by destruct d).
  pose proof (fun l Hl => tree_node_len _ (root_inputs es) l (leaves_len es) Hl) as Hlen.
  apply (input_inside es _ ms Hne Hm) in Hn' as [(e & _ & E)|[(l & r & E & Hl & Hr)|]]; [| |by right].
  - destruct d; symmetry in E; by apply leaf_node_domain in E.
  - destruct d; apply node_input_inj in E as [El Er]; subst; auto.
Qed.

Lemma climb_empty_root e path ms :
  leaf_input e ∈ ms -> climb_inputs (leaf_hash e) path ⊆ ms ->
  climb (leaf_hash e) path = empty_root -> sha256_collide_in ms [EMPTY_DOMAIN].
Proof.
  destruct path as [|[s d] path _] using rev_ind; intros Hl Hi E.
  - apply (sha256_eq_or_in ms [EMPTY_DOMAIN]) in E as [E|]; [|done..|left].
    symmetry in E. by apply empty_leaf_domain in E.
  - rewrite climb_snoc in E. rewrite climb_inputs_snoc in Hi.
    assert (Hm : step_input (climb (leaf_hash e) path) s d ∈ ms) by (apply Hi; set_solver).
    assert (E' : sha256 (step_input (climb (leaf_hash e) path) s d) = sha256 EMPTY_DOMAIN) by (by destruct d).
    apply (sha256_eq_or_in ms [EMPTY_DOMAIN]) in E' as [E'|]; [|done..|left].
    destruct d; symmetry in E'; by apply empty_node_domain in E'.
Qed.

(** A path from a leaf message to the root of a log starts at one of the
    log's leaves. *)
Lemma climb_opens es e sibs :
  Forall (fun p => len32 p.1) sibs -> climb (leaf_hash e) sibs = merkle_root es ->
  (exists e', e' ∈ es /\ LogEntry_canonical_bytes e = LogEntry_canonical_bytes e')
  \/ sha256_collide_in (leaf_input e :: climb_inputs (leaf_hash e) sibs) (root_inputs es).
Proof.
  intros Hf E. set (ms := leaf_input e :: _).
  assert (Hm : leaf_input e ∈ ms) by left.
  assert (Hi : climb_inputs (leaf_hash e) sibs ⊆ ms) by (intros m; by right).
  destruct (decide (es = [])) as [->|Hne]; [right; by eapply climb_empty_root|].
  pose proof (merkle_root_node es Hne) as Hn. rewrite <- E in Hn.
  apply (climb_inside es ms) in Hn as [Hn|]; [|by right|done|apply leaf_hash_len|done..].
  apply (input_inside es (leaf_input e) ms Hne Hm) in Hn as [(e' & Hin & E')|[(l & r & E' & _)|]];
    [left|exfalso|by right].
  - exists e'. split; [done|]. by apply app_inv_head in E'.
  - by apply leaf_node_domain in E'.
Qed.

(** An accepted proof against the root of a log opens one of its leaves. *)
Lemma verify_opens es p e :
  InclusionProof_verify p (merkle_root es) e = true ->
  (exists e', e' ∈ es /\ LogEntry_canonical_bytes e = LogEntry_canonical_bytes e')
  \/ sha256_collide_in (verify_inputs p e) (root_inputs es).
Proof.
  unfold InclusionProof_verify, verify_inputs. case_decide; [done|].
  destruct (decode32 (leaf_hash_hex p)); [|done]. case_decide; [done|].
  destruct (verify_loop _ _) as [v|] eqn:Hv; [|done]. intros E%bool_decide_eq_true. subst v.
  apply verify_loop_Some in Hv as (sibs & Hf & E & ->). by apply climb_opens.
Qed.

Context `{!SerdeJsonLaws, !HexLaws}.

Lemma canonical_bytes_in es e :
  entry_wf e -> Forall entry_wf es ->
  (exists e', e' ∈ es /\ LogEntry_canonical_bytes e = LogEntry_canonical_bytes e') -> e ∈ es.
Proof.
  intros He Hes (e' & Hin & E). apply canonical_bytes_inj in E; [by subst|done|].
  by eapply Forall_forall in Hes.
Qed.

Lemma verify_opens_entry es p e :
  entry_wf e -> Forall entry_wf es ->
  InclusionProof_verify p (merkle_root es) e = true ->
  e ∈ es \/ sha256_collide_in (verify_inputs p e) (root_inputs es).
Proof. intros He Hes [|]%verify_opens; [left; by apply canonical_bytes_in|by right]. Qed.

Lemma build_verifies es sq e :
  es !! sq = Some e ->
  exists p, InclusionProof_build es sq = Some p
    /\ proof_seq p = Z.of_nat sq /\ tree_size p = Z.of_nat (length es)
    /\ InclusionProof_verify p (merkle_root es) e = true.
Proof.
  intros He. pose proof (lookup_lt_Some _ _ _ He) as Hlt.
  unfold InclusionProof_build. rewrite decide_False by lia.
  assert (Hl : (leaf_hash <$> es) !! sq = Some (leaf_hash e)) by (by rewrite list_lookup_fmap, He).
  pose proof (leaves_len es) as Hlen. rewrite merkle_root_leaves.
  destruct (leaf_hash <$> es) as [|x xs] eqn:Ex; [done|].
  eexists. split; [done|]. split; [done|]. split; [done|].
  unfold InclusionProof_verify. cbn [siblings_hex directions leaf_hash_hex root_of_leaves].
  rewrite decide_False by (intros Hne; apply Hne; by rewrite !length_fmap).
  rewrite (list_lookup_total_correct _ _ _ Hl), decode32_encode by apply leaf_hash_len.
  rewrite decide_False by auto.
  rewrite verify_loop_climb.
  2:{ apply build_loop_len; [|done]. by apply lookup_lt_Some in Hl. }
  apply bool_decide_eq_true. by apply build_climb.
Qed.

(** An entry list in which the sequence numbers are the positions. *)
Definition log_wf (es : list LogEntry) : Prop :=
  Forall entry_wf es /\ forall i e, es !! i = Some e -> seq e = Z.of_nat i.

Lemma log_wf_lookup es e : log_wf es -> e ∈ es -> es !! Z.to_nat (seq e) = Some e.
Proof.
  intros [_ Hseq] Hin. apply list_elem_of_lookup in Hin as [i Hi].
  by rewrite (Hseq i e Hi), Nat2Z.id.
Qed.

(** Either every member satisfies [P], or the alternative holds. *)
Lemma Forall_or_alt {A} (P : A -> Prop) (C : Prop) (l : list A) :
  (forall x, x ∈ l -> P x \/ C) -> Forall P l \/ C.
Proof.
  induction l as [|x l IH]; intros Hl; [left; constructor|].
  destruct (Hl x ltac:(set_solver)) as [Hx|]; [|by right].
  destruct IH as [IH|]; [set_solver|left; by constructor|by right].
Qed.

Lemma same_root_lookup es1 es2 :
  log_wf es1 -> log_wf es2 -> merkle_root es1 = merkle_root es2 ->
  Forall (fun e => es2 !! Z.to_nat (seq e) = Some e) es1
  \/ sha256_collide_in (root_inputs es1) (root_inputs es2).
Proof.
  intros W1 W2 E. apply Forall_or_alt. intros e Hin.
  pose proof (log_wf_lookup es1 e W1 Hin) as He.
  assert (Hl : (leaf_hash <$> es1) !! Z.to_nat (seq e) = Some (leaf_hash e))
    by (by rewrite list_lookup_fmap, He).
  rewrite merkle_root_leaves in E. pose proof (leaf_input_in es1 e Hin) as Hin1.
  unfold root_inputs in Hin1 |- * at 1. pose proof (leaves_len es1) as Hlen.
  destruct (leaf_hash <$> es1) as [|x xs] eqn:Ex; [done|]. cbn [root_of_leaves] in E.
  rewrite <- (build_climb x xs _ _ Hl) in E. apply climb_opens in E as [E|C].
  - left. apply log_wf_lookup; [done|]. apply canonical_bytes_in; [|apply W2|done].
    destruct W1 as [W1 _]. by eapply Forall_forall in W1.
  - right. eapply sha256_collide_in_mono; [|done|exact C].
    intros m [->|Hm]%elem_of_cons; [done|]. apply elem_of_app. right. revert m Hm. by apply build_climb_inputs.
  - apply build_loop_len; [|done]. by apply lookup_lt_Some in Hl.
Qed.

Lemma same_root_eq es1 es2 :
  log_wf es1 -> log_wf es2 -> merkle_root es1 = merkle_root es2 ->
  es1 = es2 \/ sha256_collide_in (root_inputs es1) (root_inputs es2).
Proof.
  intros W1 W2 E.
  destruct (same_root_lookup es1 es2 W1 W2 E) as [F1|]; [|by right].
  destruct (same_root_lookup es2 es1 W2 W1 (eq_sym E)) as [F2|]; [|right; by apply sha256_collide_in_sym].
  left. apply list_eq. intros i.
  assert (Hsub : forall a c : list LogEntry, log_wf a -> Forall (fun e => c !! Z.to_nat (seq e) = Some e) a ->
    forall e, a !! i = Some e -> c !! i = Some e).
  { intros a c Wa Fa e He. pose proof (Forall_lookup_1 _ _ _ _ Fa He) as Hc. simpl in Hc.
    by rewrite (proj2 Wa i e He), Nat2Z.id in Hc. }
  destruct (es1 !! i) as [e|] eqn:E1; [by rewrite (Hsub es1 es2 W1 F1 e E1)|].
  destruct (es2 !! i) as [e|] eqn:E2; [|done]. by rewrite (Hsub es2 es1 W2 F2 e E2) in E1.
Qed.
End Soundness.

Section Duplication.
Context `{!Sha2}.

Lemma next_level_app_even l k : Nat.Even (length l) -> next_level (l ++ k) = next_level l ++ next_level k.
Proof.
  induction l as [l IH] using (induction_ltof1 _ (@length _)). unfold ltof in IH.
  intros Hev. destruct l as [|x [|y l]]; [done| |].
  - destruct Hev as [m Hm]. simpl in Hm. lia.
  - simpl. f_equal. apply IH; [simpl; lia|]. destruct Hev as [m Hm]. exists (m - 1).
    simpl in Hm. lia.
Qed.
End Duplication.

(** ** Properties *)

(** C8. Soundness of inclusion proofs: if [verify] accepts any proof object,
    however it was made, for entry [e] against the Merkle root of a log, then
    [e] is an entry of that log, or one of the messages [verify] hashed for
    this proof (the leaf of [e] and the nodes on the path) and one of the
    messages hashed to compute the log's root are different and have one
    SHA-256 digest. *)
Theorem inclusion_proof_sound `{Sha2Laws} `{SerdeJsonLaws} `{!Hex} es p e :
  entry_wf e -> Forall entry_wf es ->
  InclusionProof_verify p (merkle_root es) e = true ->
  e ∈ es \/ sha256_collide_in (verify_inputs p e) (root_inputs es).
Proof. apply verify_opens_entry. Qed.

(** A three-entry log for the examples. *)
Definition demo_entry (i : Z) : LogEntry :=
  LogEntry_from_evidence i (replicate 4 (byte.of_Z i)) [byte.of_Z i] (100 + i).
Definition demo_log : list LogEntry := demo_entry <$> [0; 1; 2]%Z.

Lemma inclusion_proof_sound_witness :
  exists p, InclusionProof_build demo_log 1 = Some p
    /\ InclusionProof_verify p (merkle_root demo_log) (demo_entry 1) = true
    /\ (demo_entry 1 ∈ demo_log
        \/ sha256_collide_in (verify_inputs p (demo_entry 1)) (root_inputs demo_log)).
Proof.
  eexists. split; [vm_compute; reflexivity|].
  assert (Hv : InclusionProof_verify
    (default (Build_InclusionProof 0 0 [] [] []) (InclusionProof_build demo_log 1))
    (merkle_root demo_log) (demo_entry 1) = true) by (vm_compute; reflexivity).
  vm_compute InclusionProof_build in Hv. split; [exact Hv|].
  refine (inclusion_proof_sound demo_log _ (demo_entry 1) _ _ Hv);
    [|repeat (apply Forall_cons; split); [..|constructor]];
    split; vm_compute; split; congruence.
Defined.

(** Completeness: [build] succeeds exactly on the indices of the log, and
    the proof it builds carries the log's size and verifies against the log's
    root for the entry at that index. *)
Theorem inclusion_proof_complete `{Sha2Laws} `{!SerdeJson} `{HexLaws} es sq :
  match es !! sq with
  | None => InclusionProof_build es sq = None
  | Some e => exists p, InclusionProof_build es sq = Some p
      /\ proof_seq p = Z.of_nat sq /\ tree_size p = Z.of_nat (length es)
      /\ InclusionProof_verify p (merkle_root es) e = true
  end.
Proof.
  destruct (es !! sq) as [e|] eqn:He.
  - by apply build_verifies.
  - unfold InclusionProof_build. rewrite decide_True; [done|]. by apply lookup_ge_None.
Qed.

Lemma inclusion_proof_complete_witness :
  exists p, InclusionProof_build demo_log 1 = Some p
    /\ proof_seq p = 1%Z /\ tree_size p = Z.of_nat (length demo_log)
    /\ InclusionProof_verify p (merkle_root demo_log) (demo_entry 1) = true.
Proof. exact (inclusion_proof_complete demo_log 1). Defined.

(** The Merkle root commits to the whole log: two logs whose entries are
    numbered by position (what [append] and [open_persistent] maintain) have
    the same root only if they are the same log, or two different messages
    hashed for the two roots have one digest.  The sizes need not be compared
    separately. *)
Theorem merkle_root_binding `{Sha2Laws} `{SerdeJsonLaws} `{HexLaws} es1 es2 :
  log_wf es1 -> log_wf es2 -> merkle_root es1 = merkle_root es2 ->
  es1 = es2 \/ sha256_collide_in (root_inputs es1) (root_inputs es2).
Proof. apply same_root_eq. Qed.

Lemma demo_log_wf : log_wf demo_log.
Proof.
  split.
  - repeat (apply Forall_cons; split); [..|constructor]; split; vm_compute; split; congruence.
  - intros [|[|[|i]]] e; intros [= <-]; reflexivity.
Qed.

Lemma merkle_root_binding_witness :
  merkle_root demo_log = merkle_root (demo_entry <$> [0; 1; 2]%Z)
  /\ (demo_log = demo_entry <$> [0; 1; 2]%Z
      \/ sha256_collide_in (root_inputs demo_log) (root_inputs (demo_entry <$> [0; 1; 2]%Z))).
Proof.
  split; [reflexivity|].
  apply (merkle_root_binding demo_log (demo_entry <$> [0; 1; 2]%Z) demo_log_wf demo_log_wf).
  reflexivity.
Defined.

(** On bare leaf hashes the root is not binding: duplicating the last node
    of an odd level does not change it, so a tree of [2k+1 > 1] leaves has the
    root of the tree of [2k+2] leaves that repeats the last one.  What binds a
    log to its root is that the entries carry their positions. *)
Theorem odd_leaf_duplication `{Sha2} l x :
  l <> [] -> Nat.Even (length l) ->
  root_of_leaves (l ++ [x]) = root_of_leaves (l ++ [x; x]).
Proof.
  intros Hne Hev. destruct l as [|a [|c l]]; [done| |].
  - destruct Hev as [m Hm]. simpl in Hm. lia.
  - simpl. simp root_loop. f_equal. rewrite !next_level_app_even.
    + reflexivity.
    + destruct Hev as [m Hm]. exists (m - 1). simpl in Hm. lia.
    + destruct Hev as [m Hm]. exists (m - 1). simpl in Hm. lia.
Qed.

Lemma odd_leaf_duplication_witness :
  root_of_leaves [[Byte.x00]; [Byte.x01]; [Byte.x02]]
  = root_of_leaves [[Byte.x00]; [Byte.x01]; [Byte.x02]; [Byte.x02]].
Proof.
  apply (odd_leaf_duplication [[Byte.x00]; [Byte.x01]] [Byte.x02]); [done|by exists 1].
Defined.
