(* ===== verification/TreeHead.v ===== *)
(** * ullm-transparency: signed tree heads, witnesses and the auditor

    [crates/ullm-transparency/src/sth.rs], [witness.rs], [auditor.rs].  A
    signing key is its bytes, a verifying key its 32 public bytes. *)

From S2P Require Import Prelude RustStd Crates Toy Merkle.
From Stdlib Require Import Lia.

Local Open Scope nat_scope.

(** ** sth.rs *)

Record TreeHead := {
  size_ : Z;
  root_hex : bytes;
  issued_at_unix : Z;
  log_id : bytes;
}.

Definition TreeHead_object (h : TreeHead) : list (bytes * json) :=
  btree_insert (lit "size") (JU64 (size_ h))
  (btree_insert (lit "root_hex") (JStr (root_hex h))
  (btree_insert (lit "log_id") (JStr (log_id h))
  (btree_insert (lit "issued_at_unix") (JU64 (issued_at_unix h)) []))).

Definition TreeHead_canonical_bytes `{SerdeJson} (h : TreeHead) : bytes :=
  json_object_to_vec (TreeHead_object h).

Definition TreeHead_digest `{SerdeJson} `{!Sha2} (h : TreeHead) : bytes :=
  sha256 (TreeHead_canonical_bytes h).

Record SignedTreeHead := {
  head : TreeHead;
  logger_pk : bytes;
  signature : bytes;
}.

Section Sth.
Context `{!SerdeJson, !Ed25519}.

Definition SignedTreeHead_sign (h : TreeHead) (key : bytes) : SignedTreeHead :=
  {| head := h;
     logger_pk := ed25519_public key;
     signature := ed25519_sign key (TreeHead_canonical_bytes h) |}.

Definition SignedTreeHead_verify (s : SignedTreeHead) : bool :=
  if ed25519_pk_valid (logger_pk s)
  then ed25519_verify (logger_pk s) (TreeHead_canonical_bytes (head s)) (signature s)
  else false.

(** ** witness.rs *)

Record WitnessCosignature := { witness_pk : bytes; cosignature : bytes }.

Definition WitnessCosignature_message (s : SignedTreeHead) : bytes := signature s.

Definition WitnessCosignature_cosign (s : SignedTreeHead) (key : bytes) : WitnessCosignature :=
  {| witness_pk := ed25519_public key;
     cosignature := ed25519_sign key (WitnessCosignature_message s) |}.

Definition WitnessCosignature_verify (c : WitnessCosignature) (s : SignedTreeHead) : bool :=
  if ed25519_pk_valid (witness_pk c)
  then ed25519_verify (witness_pk c) (WitnessCosignature_message s) (cosignature c)
  else false.

Record WitnessKeyset := { witnesses : list bytes; threshold : nat }.

(** The [HashSet] of counted keys after the loop. *)
Definition counted_keys (ks : WitnessKeyset) (s : SignedTreeHead) (cosigs : list WitnessCosignature)
  : gset bytes :=
  foldl (fun counted c =>
    if bool_decide (witness_pk c ∈ witnesses ks)
    then if WitnessCosignature_verify c s then {[witness_pk c]} ∪ counted else counted
    else counted) ∅ cosigs.

Definition WitnessKeyset_count_valid (ks : WitnessKeyset) (s : SignedTreeHead)
    (cosigs : list WitnessCosignature) : nat := size (counted_keys ks s cosigs).

Definition WitnessKeyset_satisfies (ks : WitnessKeyset) (s : SignedTreeHead)
    (cosigs : list WitnessCosignature) : bool :=
  threshold ks <=? WitnessKeyset_count_valid ks s cosigs.

(** ** auditor.rs *)

Inductive AuditError :=
| StoredSignatureInvalid
| UnexpectedLogger (got : bytes)
| UnexpectedLogId (got expected : bytes)
| InclusionPathInvalid
| SizeMismatch (claimed advertised : Z)
| InsufficientWitnesses (got needed : nat).

Context `{!Sha2, !Hex}.

Definition verify_inclusion_against_head (sth : SignedTreeHead) (proof : InclusionProof)
    (expected_entry : LogEntry) (cosigs : option (WitnessKeyset * list WitnessCosignature))
    (expected_log_id : option bytes) : result unit AuditError :=
  if negb (SignedTreeHead_verify sth) then Err StoredSignatureInvalid else
  let? _ := match expected_log_id with
            | Some want =>
                if decide (log_id (head sth) <> want)
                then Err (UnexpectedLogId (log_id (head sth)) want) else Ok tt
            | None => Ok tt
            end in
  if decide (tree_size proof <> size_ (head sth))
  then Err (SizeMismatch (tree_size proof) (size_ (head sth))) else
  let? root_bytes := ok_or (decode32 (root_hex (head sth))) InclusionPathInvalid in
  if negb (InclusionProof_verify proof root_bytes expected_entry) then Err InclusionPathInvalid else
  match cosigs with
  | Some (keyset, cosigs) =>
      let got := WitnessKeyset_count_valid keyset sth cosigs in
      if got <? threshold keyset then Err (InsufficientWitnesses got (threshold keyset)) else Ok tt
  | None => Ok tt
  end.
End Sth.

(** ** Lemmas *)

Definition head_wf (h : TreeHead) : Prop := is_u64 (size_ h) /\ is_u64 (issued_at_unix h).

Lemma TreeHead_object_sorted h :
  TreeHead_object h =
    [(lit "issued_at_unix", JU64 (issued_at_unix h)); (lit "log_id", JStr (log_id h));
     (lit "root_hex", JStr (root_hex h)); (lit "size", JU64 (size_ h))].
Proof. reflexivity. Qed.

Lemma TreeHead_canonical_inj `{SerdeJsonLaws} h1 h2 :
  head_wf h1 -> head_wf h2 ->
  TreeHead_canonical_bytes h1 = TreeHead_canonical_bytes h2 -> h1 = h2.
Proof.
  intros [] [] E. apply json_object_to_vec_inj in E.
  - rewrite !TreeHead_object_sorted in E. destruct h1, h2; cbn in *. by injection E as -> -> -> ->.
  - rewrite TreeHead_object_sorted. by repeat (apply Forall_cons; split).
  - rewrite TreeHead_object_sorted. by repeat (apply Forall_cons; split).
Qed.

Section Lemmas.
Context `{!SerdeJson, !Ed25519}.

(** A key is counted iff it is trusted and some cosignature by it verifies. *)
Lemma elem_of_counted_keys ks s cosigs k :
  k ∈ counted_keys ks s cosigs <->
  k ∈ witnesses ks /\ exists c, c ∈ cosigs /\ witness_pk c = k /\ WitnessCosignature_verify c s = true.
Proof.
  unfold counted_keys. induction cosigs as [|c cosigs IH] using rev_ind; [set_solver|].
  rewrite foldl_snoc. simpl.
  assert (Hsplit : forall P : WitnessCosignature -> Prop,
    (exists c', c' ∈ cosigs ++ [c] /\ P c') <-> (exists c', c' ∈ cosigs /\ P c') \/ P c).
  { intros P. setoid_rewrite elem_of_app. setoid_rewrite list_elem_of_singleton. naive_solver. }
  rewrite (Hsplit (fun c' => witness_pk c' = k /\ WitnessCosignature_verify c' s = true)).
  case_bool_decide; [destruct (WitnessCosignature_verify c s) eqn:Ev|].
  - rewrite elem_of_union, elem_of_singleton, IH. naive_solver.
  - rewrite IH. naive_solver.
  - rewrite IH. naive_solver.
Qed.

Lemma count_valid_le_witnesses ks s cosigs :
  WitnessKeyset_count_valid ks s cosigs <= length (remove_dups (witnesses ks)).
Proof.
  unfold WitnessKeyset_count_valid. rewrite <- (size_list_to_set (C := gset bytes)) by apply NoDup_remove_dups.
  apply subseteq_size. intros k Hk. apply elem_of_counted_keys in Hk as [Hk _].
  by rewrite elem_of_list_to_set, elem_of_remove_dups.
Qed.
End Lemmas.

Section Auditor.
Context `{!SerdeJson, !Ed25519, !Sha2, !Hex}.

(** The conditions under which the audit succeeds. *)
Lemma verify_inclusion_Ok sth proof e cosigs want :
  verify_inclusion_against_head sth proof e cosigs want = Ok tt <->
  SignedTreeHead_verify sth = true
  /\ (forall id, want = Some id -> log_id (head sth) = id)
  /\ tree_size proof = size_ (head sth)
  /\ (exists root, decode32 (root_hex (head sth)) = Some root
        /\ InclusionProof_verify proof root e = true)
  /\ (forall ks cs, cosigs = Some (ks, cs) ->
        threshold ks <= WitnessKeyset_count_valid ks sth cs).
Proof.
  unfold verify_inclusion_against_head. split.
  - intros Hv. destruct (SignedTreeHead_verify sth); [|done]. simpl in Hv.
    apply result_bind_Ok in Hv as ([] & Hid & Hv). case_decide; [done|].
    apply result_bind_Ok in Hv as (root & Hr & Hv). apply ok_or_Ok in Hr.
    destruct (InclusionProof_verify proof root e) eqn:Hp; [|done]. simpl in Hv.
    split; [done|]. split; [|split; [done|split; [by exists root|]]].
    + intros id ->. by case_decide.
    + intros ks cs ->. destruct (Nat.ltb_spec (WitnessKeyset_count_valid ks sth cs) (threshold ks));
        [done|lia].
  - intros (-> & Hid & Hsz & (root & Hr & Hp) & Hw). cbn [negb].
    assert ((match want with
             | Some w => if decide (log_id (head sth) <> w)
                         then Err (UnexpectedLogId (log_id (head sth)) w) else Ok tt
             | None => Ok tt end) = @Ok unit AuditError tt) as ->.
    { destruct want as [w|]; [|done]. by rewrite decide_False by auto. }
    cbn [result_bind]. rewrite decide_False by auto. rewrite Hr. cbn [ok_or result_bind].
    rewrite Hp. cbn [negb]. destruct cosigs as [[ks cs]|]; [|done]. cbn zeta.
    specialize (Hw ks cs eq_refl).
    destruct (Nat.ltb_spec (WitnessKeyset_count_valid ks sth cs) (threshold ks)); [lia|done].
Qed.

Lemma sign_verifies `{!Ed25519Laws} h key :
  SignedTreeHead_verify (SignedTreeHead_sign h key) = true.
Proof.
  unfold SignedTreeHead_verify, SignedTreeHead_sign. cbn [logger_pk head signature].
  by rewrite ed25519_public_valid, ed25519_sign_verify.
Qed.

Lemma cosign_verifies `{!Ed25519Laws} s key :
  WitnessCosignature_verify (WitnessCosignature_cosign s key) s = true.
Proof.
  unfold WitnessCosignature_verify, WitnessCosignature_cosign. cbn [witness_pk cosignature].
  by rewrite ed25519_public_valid, ed25519_sign_verify.
Qed.

(** Cosignatures by trusted keys all count, once each. *)
Lemma honest_cosigners_counted `{!Ed25519Laws} ks s keys :
  (forall k, k ∈ keys -> ed25519_public k ∈ witnesses ks) ->
  size (list_to_set (ed25519_public <$> keys) : gset bytes)
  <= WitnessKeyset_count_valid ks s (WitnessCosignature_cosign s <$> keys).
Proof.
  intros Htr. apply subseteq_size. intros k. rewrite elem_of_list_to_set, list_elem_of_fmap.
  intros (key & -> & Hin). apply elem_of_counted_keys. split; [by apply Htr|].
  exists (WitnessCosignature_cosign s key). split; [by apply list_elem_of_fmap_2|].
  split; [done|]. apply cosign_verifies.
Qed.
End Auditor.

Lemma decode32_merkle_root `{Sha2Laws} `{!SerdeJson} `{HexLaws} es :
  decode32 (hex_encode (merkle_root es)) = Some (merkle_root es).
Proof.
  apply decode32_encode. destruct es; [apply sha256_len|]. rewrite merkle_root_leaves.
  rewrite <- merkle_root_leaves. eapply tree_node_len; [apply leaves_len|]. by apply merkle_root_node.
Qed.

(** ** Properties *)

(** C11. What a successful audit guarantees: if
    [verify_inclusion_against_head] accepts a head whose root is the Merkle
    root of a log, then the entry is in that log (or a message hashed while the
    proof was checked and a different one hashed for the log's root have one
    SHA-256 digest),
    the head's signature verifies over every field of the head, the pinned log
    id is the head's, the proof is for the advertised size, and at least
    [threshold] distinct trusted witnesses cosigned the head. *)
Theorem audit_sound `{Sha2Laws} `{SerdeJsonLaws} `{HexLaws} `{!Ed25519} sth proof e ks cs want es :
  entry_wf e -> Forall entry_wf es ->
  root_hex (head sth) = hex_encode (merkle_root es) ->
  verify_inclusion_against_head sth proof e (Some (ks, cs)) (Some want) = Ok tt ->
  (e ∈ es \/ sha256_collide_in (verify_inputs proof e) (root_inputs es))
  /\ ed25519_verify (logger_pk sth) (TreeHead_canonical_bytes (head sth)) (signature sth) = true
  /\ log_id (head sth) = want
  /\ tree_size proof = size_ (head sth)
  /\ exists signers : gset bytes, threshold ks <= size signers
       /\ forall k, k ∈ signers -> k ∈ witnesses ks
            /\ exists c, c ∈ cs /\ witness_pk c = k
                 /\ ed25519_verify k (signature sth) (cosignature c) = true.
Proof.
  intros He Hes Hroot Hv. apply verify_inclusion_Ok in Hv as (Hs & Hid & Hsz & (root & Hr & Hp) & Hw).
  rewrite Hroot, decode32_merkle_root in Hr.
  injection Hr as <-. split; [by eapply verify_opens_entry|].
  unfold SignedTreeHead_verify in Hs. destruct (ed25519_pk_valid (logger_pk sth)); [|done].
  split; [done|]. split; [by apply Hid|]. split; [done|].
  exists (counted_keys ks sth cs). split; [by apply Hw|].
  intros k Hk. apply elem_of_counted_keys in Hk as (Hin & c & Hc & Hpk & Hcv).
  split; [done|]. exists c. split; [done|]. split; [done|].
  unfold WitnessCosignature_verify in Hcv. rewrite Hpk in Hcv.
  by destruct (ed25519_pk_valid k).
Qed.

(** The honest head of [demo_log]. *)
Definition demo_sth : SignedTreeHead :=
  SignedTreeHead_sign {| size_ := 3; root_hex := hex_encode (merkle_root demo_log);
                         issued_at_unix := 1000; log_id := lit "ullm-test-log" |} (lit "logger").
Definition demo_keyset : WitnessKeyset :=
  {| witnesses := [ed25519_public (lit "w0"); ed25519_public (lit "w1")]; threshold := 2 |}.
Definition demo_cosigs : list WitnessCosignature :=
  [WitnessCosignature_cosign demo_sth (lit "w0"); WitnessCosignature_cosign demo_sth (lit "w1")].

Lemma audit_sound_witness :
  exists p, InclusionProof_build demo_log 2 = Some p
    /\ verify_inclusion_against_head demo_sth p (demo_entry 2) (Some (demo_keyset, demo_cosigs))
         (Some (lit "ullm-test-log")) = Ok tt
    /\ log_id (head demo_sth) = lit "ullm-test-log".
Proof.
  destruct (InclusionProof_build demo_log 2) as [p|] eqn:Hb; [|vm_compute in Hb; discriminate Hb].
  exists p. split; [reflexivity|].
  assert (Hv : verify_inclusion_against_head demo_sth p (demo_entry 2)
    (Some (demo_keyset, demo_cosigs)) (Some (lit "ullm-test-log")) = Ok tt).
  { vm_compute in Hb. injection Hb as <-. vm_compute. reflexivity. }
  split; [exact Hv|].
  refine (proj1 (proj2 (proj2 (audit_sound demo_sth p (demo_entry 2) demo_keyset demo_cosigs
    (lit "ullm-test-log") demo_log _ _ eq_refl Hv)))).
  - split; vm_compute; split; congruence.
  - apply demo_log_wf.
Defined.

(** An honest log passes its audit: for every log, index, logger key,
    timestamp and log id, the signed head of the log, the proof [build] makes
    and cosignatures by enough distinct trusted witnesses are accepted. *)
Theorem audit_complete `{Sha2Laws} `{!SerdeJson} `{HexLaws} `{Ed25519Laws}
    es sq e key now id ks keys :
  es !! sq = Some e ->
  (forall k, k ∈ keys -> ed25519_public k ∈ witnesses ks) ->
  threshold ks <= size (list_to_set (ed25519_public <$> keys) : gset bytes) ->
  let sth := SignedTreeHead_sign
    {| size_ := Z.of_nat (length es); root_hex := hex_encode (merkle_root es);
       issued_at_unix := now; log_id := id |} key in
  exists p, InclusionProof_build es sq = Some p
    /\ verify_inclusion_against_head sth p e
         (Some (ks, WitnessCosignature_cosign sth <$> keys)) (Some id) = Ok tt.
Proof.
  intros He Htr Hth sth. destruct (build_verifies es sq e He) as (p & Hb & _ & Hsz & Hv).
  exists p. split; [done|]. apply verify_inclusion_Ok. split; [apply sign_verifies|].
  split; [by intros ? [= ->]|]. split; [done|]. split.
  - exists (merkle_root es). split; [|done]. apply decode32_merkle_root.
  - intros ks' cs' [= <- <-]. etrans; [exact Hth|]. by apply honest_cosigners_counted.
Qed.

Lemma audit_complete_witness :
  exists p, InclusionProof_build demo_log 2 = Some p
    /\ verify_inclusion_against_head demo_sth p (demo_entry 2)
         (Some (demo_keyset, WitnessCosignature_cosign demo_sth <$> [lit "w0"; lit "w1"]))
         (Some (lit "ullm-test-log")) = Ok tt.
Proof.
  apply (audit_complete demo_log 2 (demo_entry 2) (lit "logger") 1000 (lit "ullm-test-log")
           demo_keyset [lit "w0"; lit "w1"]); [reflexivity| |].
  - intros k Hk. apply elem_of_cons in Hk as [->|Hk]; [vm_compute; left|].
    apply list_elem_of_singleton in Hk as ->. vm_compute. right. left.
  - vm_compute. lia.
Defined.

(** What a tree-head signature is over determines every field of the head,
    the log id included: two heads with [u64] sizes and timestamps have the
    same canonical bytes only if they are equal, so a signature cannot be
    lifted to a head that differs in any field. *)
Theorem tree_head_bytes_cover_fields `{SerdeJsonLaws} h1 h2 :
  head_wf h1 -> head_wf h2 ->
  TreeHead_canonical_bytes h1 = TreeHead_canonical_bytes h2 -> h1 = h2.
Proof. apply TreeHead_canonical_inj. Qed.

Lemma tree_head_bytes_cover_fields_witness :
  let h id := {| size_ := 3; root_hex := lit "abcd"; issued_at_unix := 1000; log_id := id |} in
  TreeHead_canonical_bytes (h (lit "log-A")) <> TreeHead_canonical_bytes (h (lit "log-B")).
Proof.
  intros h E. apply tree_head_bytes_cover_fields in E;
    [discriminate E | split; split; done | split; split; done].
Defined.

(** Witness counting: the count never exceeds the number of distinct
    trusted keys, and repeating or adding cosignatures by already counted or
    untrusted keys does not raise it. *)
Theorem count_valid_distinct `{SerdeJson} `{!Ed25519} ks s cs cs' :
  (forall c, c ∈ cs' -> witness_pk c ∈ counted_keys ks s cs \/ witness_pk c ∉ witnesses ks) ->
  WitnessKeyset_count_valid ks s cs <= length (remove_dups (witnesses ks))
  /\ WitnessKeyset_count_valid ks s (cs ++ cs') = WitnessKeyset_count_valid ks s cs.
Proof.
  intros Hcs. split; [apply count_valid_le_witnesses|].
  unfold WitnessKeyset_count_valid. f_equal. apply leibniz_equiv. intros k.
  rewrite !elem_of_counted_keys. setoid_rewrite elem_of_app. split.
  - intros (Hk & c & [Hc|Hc] & Hp & Hv); [naive_solver|].
    destruct (Hcs c Hc) as [Hin|Hn]; [|by rewrite Hp in Hn].
    rewrite Hp in Hin. by apply elem_of_counted_keys in Hin.
  - naive_solver.
Qed.

Lemma count_valid_distinct_witness :
  WitnessKeyset_count_valid demo_keyset demo_sth (demo_cosigs ++ demo_cosigs) = 2.
Proof.
  etrans; [apply (count_valid_distinct demo_keyset demo_sth demo_cosigs demo_cosigs)|].
  - intros c Hc. left. apply (bool_decide_unpack _).
    apply elem_of_cons in Hc as [->|Hc]; [vm_compute; reflexivity|].
    apply list_elem_of_singleton in Hc as ->. vm_compute. reflexivity.
  - vm_compute. reflexivity.
Defined.
