(* ===== verification/Log.v ===== *)
(** * ullm-transparency: the append-only log and its file

    [crates/ullm-transparency/src/log.rs].  The backing file is its content
    together with the length of the prefix known to be on disk; every
    operation that touches it takes the outcome of its system calls as an
    argument, so short writes and failed syncs are part of the model. *)

From S2P Require Import Prelude RustStd Crates Toy Merkle.
From Stdlib Require Import Lia.

Local Open Scope Z_scope.

(** ** The derived serializer of [LogEntry] (serde and serde_json) *)

Class LogEntryJson := {
  entry_to_string : LogEntry -> bytes;
  entry_from_str : bytes -> option LogEntry;
}.

Definition q (s : String.string) : bytes := [Byte.x22] ++ lit s ++ [Byte.x22].
Arguments q s%_string_scope.

(** The compact JSON object in declaration order. *)
Definition entry_json_text (e : LogEntry) : bytes :=
  lit "{" ++ q "seq" ++ lit ":" ++ fmt_dec (seq e) ++ lit ","
  ++ q "id_pk_hex" ++ lit ":" ++ [Byte.x22] ++ id_pk_hex e ++ [Byte.x22] ++ lit ","
  ++ q "evidence_sha256_hex" ++ lit ":" ++ [Byte.x22] ++ evidence_sha256_hex e ++ [Byte.x22] ++ lit ","
  ++ q "observed_at_unix" ++ lit ":" ++ fmt_dec (observed_at_unix e) ++ lit "}".

(** Entries as [append] makes them: [u64] numbers, hexadecimal strings. *)
Definition entry_ok (e : LogEntry) : Prop :=
  entry_wf e
  /\ Forall (fun c => is_ascii_hexdigit c = true) (id_pk_hex e)
  /\ Forall (fun c => is_ascii_hexdigit c = true) (evidence_sha256_hex e)
  /\ (length (id_pk_hex e) <= 1024)%nat /\ (length (evidence_sha256_hex e) <= 1024)%nat.

(** Serialization of a flat struct is its compact text, which parses back,
    and of which no proper prefix parses. *)
Class LogEntryJsonLaws `{LogEntryJson} : Prop := {
  entry_to_string_text e : entry_ok e -> entry_to_string e = entry_json_text e;
  entry_roundtrip e : entry_ok e -> entry_from_str (entry_to_string e) = Some e;
  entry_prefix_fails e k : entry_ok e -> (k < length (entry_to_string e))%nat ->
    entry_from_str (take k (entry_to_string e)) = None;
}.

(** ** State *)

Inductive FsyncPolicy := Always | Periodic (every_n : Z).

Definition FsyncPolicy_default : FsyncPolicy := Always.

(** The bytes of the file, and how many of them are on stable storage. *)
Record LogFile := { content : bytes; synced : nat }.

(** A file all of which is: after [sync_data], and what a machine that stopped
    finds when it starts again. *)
Definition durably (l : bytes) : LogFile := {| content := l; synced := length l |}.

Record State := {
  entries : list LogEntry;
  file : option LogFile;
  appends_since_sync : Z;
  fsync_policy : FsyncPolicy;
}.

Inductive IoError :=
| OsError
| LineTooLong (offset got : Z)
| BadUtf8 (offset : Z)
| TooDeep (offset : Z)
| SeqTampered (offset expected declared : Z)
| BadJson (offset : Z).

(** [sync_data]: on success the whole content is durable. *)
Definition sync_data (f : LogFile) (ok : bool) : result unit IoError * LogFile :=
  if ok then (Ok tt, {| content := content f; synced := length (content f) |})
  else (Err OsError, f).

(** [write_all] in append mode: [None] is success, [Some k] an error after
    [k] bytes. *)
Definition write_all (f : LogFile) (l : bytes) (outcome : option nat)
  : result unit IoError * LogFile :=
  match outcome with
  | None => (Ok tt, {| content := content f ++ l; synced := synced f |})
  | Some k => (Err OsError, {| content := content f ++ take k l; synced := synced f |})
  end.

Definition TransparencyLog_new : State :=
  {| entries := []; file := None; appends_since_sync := 0; fsync_policy := FsyncPolicy_default |}.

Definition with_file (st : State) (f : LogFile) (n : Z) : State :=
  {| entries := entries st; file := Some f; appends_since_sync := n;
     fsync_policy := fsync_policy st |}.

Definition set_fsync_policy (st : State) (p : FsyncPolicy) : State :=
  {| entries := entries st; file := file st; appends_since_sync := 0; fsync_policy := p |}.

Definition flush (st : State) (sync_ok : bool) : result unit IoError * State :=
  match file st with
  | Some f =>
      match sync_data f sync_ok with
      | (Ok _, f) => (Ok tt, with_file st f 0)
      | (Err e, f) => (Err e, with_file st f (appends_since_sync st))
      end
  | None => (Ok tt, {| entries := entries st; file := None; appends_since_sync := 0;
                       fsync_policy := fsync_policy st |})
  end.

(** [Drop]: a best-effort sync; the file that remains. *)
Definition drop_log (st : State) (sync_ok : bool) : option LogFile :=
  match file st with
  | Some f => Some (sync_data f sync_ok).2
  | None => None
  end.

(** ** append *)

(** The outcomes of one append's system calls. *)
Record append_io := { write_line : option nat; write_newline : option nat; sync_ok : bool }.

Definition io_fine : append_io := {| write_line := None; write_newline := None; sync_ok := true |}.

Definition should_sync (p : FsyncPolicy) (since : Z) : bool :=
  match p with
  | Always => true
  | Periodic every_n => (every_n <=? 1) || (every_n <=? since)
  end.

Definition push_entry (st : State) (e : LogEntry) : State :=
  {| entries := entries st ++ [e]; file := file st; appends_since_sync := appends_since_sync st;
     fsync_policy := fsync_policy st |}.

Section Log.
Context `{!Sha2, !Hex, !LogEntryJson}.

Definition append (st : State) (id_pk evidence_bytes : bytes) (observed_at_unix : Z)
    (io : append_io) : result Z IoError * State :=
  let seq := Z.of_nat (length (entries st)) in
  let entry := LogEntry_from_evidence seq id_pk evidence_bytes observed_at_unix in
  match file st with
  | None => (Ok seq, push_entry st entry)
  | Some f =>
      let line := entry_to_string entry in
      match write_all f line (write_line io) with
      | (Err e, f) => (Err e, with_file st f (appends_since_sync st))
      | (Ok _, f) =>
          match write_all f [Byte.x0a] (write_newline io) with
          | (Err e, f) => (Err e, with_file st f (appends_since_sync st))
          | (Ok _, f) =>
              let since := saturating_add 32 (appends_since_sync st) 1 in
              if should_sync (fsync_policy st) since then
                match sync_data f (sync_ok io) with
                | (Err e, f) => (Err e, with_file st f since)
                | (Ok _, f) => (Ok seq, push_entry (with_file st f 0) entry)
                end
              else (Ok seq, push_entry (with_file st f since) entry)
          end
      end
  end.
End Log.

(** ** Queries *)

Record LogStatus := { status_size : Z; status_root_hex : bytes }.

Definition log_status `{Sha2} `{!SerdeJson, !Hex} (st : State) : LogStatus :=
  {| status_size := Z.of_nat (length (entries st));
     status_root_hex := hex_encode (merkle_root (entries st)) |}.

Definition snapshot (st : State) : list LogEntry := entries st.

(** [seq as usize] keeps the [u64] on a 64-bit target. *)
Definition entry (st : State) (sq : Z) : option LogEntry := entries st !! Z.to_nat sq.

(** [None] is the panic of slicing with [start > end]. *)
Definition entries_slice (st : State) (start end_exclusive : Z) : option (list LogEntry) :=
  let start := Nat.min (Z.to_nat start) (length (entries st)) in
  let end_ := Nat.min (Z.to_nat end_exclusive) (length (entries st)) in
  if decide (start <= end_)%nat then Some (slice start end_ (entries st)) else None.

(** ** open_persistent *)

Definition MAX_REOPEN_LINE_BYTES : Z := 16 * 1024 * 1024.
Definition MAX_JSON_DEPTH : Z := 32.

(** The chunks [read_until(b'\n')] yields. *)
Fixpoint chunks (l : bytes) : list bytes :=
  match l with
  | [] => []
  | c :: l =>
      if decide (c = Byte.x0a) then [c] :: chunks l
      else match chunks l with
           | [] => [[c]]
           | ch :: rest => (c :: ch) :: rest
           end
  end.

(** The nesting pre-scan: [true] when no prefix nests deeper than the cap. *)
Fixpoint depth_scan (l : bytes) (depth : Z) (in_string escaped : bool) : bool :=
  match l with
  | [] => true
  | c :: l =>
      if escaped then depth_scan l depth in_string false
      else if in_string then
        if decide (c = Byte.x5c) then depth_scan l depth true true
        else if decide (c = Byte.x22) then depth_scan l depth false false
        else depth_scan l depth true false
      else if decide (c = Byte.x22) then depth_scan l depth true false
      else if decide (c = Byte.x7b \/ c = Byte.x5b) then
        if MAX_JSON_DEPTH <? depth + 1 then false else depth_scan l (depth + 1) false false
      else if decide (c = Byte.x7d \/ c = Byte.x5d) then
        depth_scan l (saturating_sub depth 1) false false
      else depth_scan l depth false false
  end.

Record reopen := {
  ro_entries : list LogEntry;
  good_end : nat;
  cursor : nat;
  last_good_terminated : bool;
  truncate_to : option nat;  (** the torn tail was cut at this offset *)
}.

Section Reopen.
Context `{!LogEntryJson}.

(** One iteration of the read loop. *)
Definition reopen_step (r : reopen) (chunk : bytes) : result reopen IoError :=
  let read := Z.min (Z.of_nat (length chunk)) (MAX_REOPEN_LINE_BYTES + 2) in
  if (MAX_REOPEN_LINE_BYTES + 1 <? read) then Err (LineTooLong (Z.of_nat (cursor r)) read) else
  let cursor_start := Z.of_nat (cursor r) in
  let cursor := (cursor r + length chunk)%nat in
  let terminated := bool_decide (last chunk = Some Byte.x0a) in
  let trimmed := if terminated then take (length chunk - 1) chunk else chunk in
  if forallb is_ascii_whitespace trimmed then
    Ok {| ro_entries := ro_entries r; good_end := if terminated then cursor else good_end r;
          cursor := cursor; last_good_terminated := last_good_terminated r;
          truncate_to := truncate_to r |}
  else if negb (utf8_valid trimmed) then Err (BadUtf8 cursor_start)
  else if negb (depth_scan trimmed 0 false false) then Err (TooDeep cursor_start)
  else match entry_from_str trimmed with
  | Some e =>
      let expected_seq := Z.of_nat (length (ro_entries r)) in
      if decide (seq e <> expected_seq) then Err (SeqTampered cursor_start expected_seq (seq e)) else
      Ok {| ro_entries := ro_entries r ++ [e]; good_end := cursor; cursor := cursor;
            last_good_terminated := terminated; truncate_to := truncate_to r |}
  | None =>
      if terminated then Err (BadJson cursor_start)
      else Ok {| ro_entries := ro_entries r; good_end := good_end r; cursor := cursor;
                 last_good_terminated := last_good_terminated r;
                 truncate_to := Some (good_end r) |}
  end.

Fixpoint reopen_loop (r : reopen) (cs : list bytes) : result reopen IoError :=
  match cs with
  | [] => Ok r
  | ch :: cs => let? r := reopen_step r ch in reopen_loop r cs
  end.

Definition BOM : bytes := [Byte.xef; Byte.xbb; Byte.xbf].

(** [open_persistent] on the file it finds ([None]: no file).  It syncs when it
    cuts off a torn line and when it completes the last one, and not
    otherwise.  Opening, reading, truncating and syncing themselves are taken
    to succeed. *)
Definition open_persistent (on_disk : option LogFile) : result State IoError :=
  let? recovered :=
    match on_disk with
    | None => Ok ([], durably [])
    | Some f =>
        let l := content f in
        let bom := if decide (take 3 l = BOM) then 3%nat else 0%nat in
        let? r := reopen_loop {| ro_entries := []; good_end := bom; cursor := bom;
                                 last_good_terminated := true; truncate_to := None |}
                              (chunks (drop bom l)) in
        let f := match truncate_to r with Some n => durably (take n l) | None => f end in
        let f := if negb (last_good_terminated r) && negb (bool_decide (ro_entries r = []))
                 then durably (content f ++ [Byte.x0a]) else f in
        Ok (ro_entries r, f)
    end in
  let '(es, final) := recovered in
  Ok {| entries := es;
        file := Some final;
        appends_since_sync := 0;
        fsync_policy := FsyncPolicy_default |}.
End Reopen.

(** ** The text of an entry *)

Lemma digit_is_hexdigit c : is_ascii_digit c = true -> is_ascii_hexdigit c = true.
Proof. unfold is_ascii_hexdigit. by intros ->. Qed.

Lemma fmt_dec_hexdigits n : 0 <= n -> Forall (fun c => is_ascii_hexdigit c = true) (fmt_dec n).
Proof.
  intros Hn. eapply Forall_impl; [by apply fmt_dec_digits|]. apply digit_is_hexdigit.
Qed.

(** A predicate that holds of hexadecimal digits and of the fixed text holds
    of every byte of a serialized entry. *)
Lemma entry_text_Forall (P : byte -> bool) e :
  entry_ok e -> (forall c, is_ascii_hexdigit c = true -> P c = true) ->
  forallb P (lit "{:,}" ++ q "seq" ++ q "id_pk_hex" ++ q "evidence_sha256_hex" ++ q "observed_at_unix")
    = true ->
  Forall (fun c => P c = true) (entry_json_text e).
Proof.
  intros ([Hs Ho] & Hi & Hv & _) HP Hlit. unfold is_u64 in *.
  rewrite !forallb_app in Hlit. rewrite !andb_true_iff in Hlit.
  destruct Hlit as (Hpunct & Hq1 & Hq2 & Hq3 & Hq4).
  assert (Hf : forall l, forallb P l = true -> Forall (fun c => P c = true) l).
  { intros l. rewrite List.forallb_forall, Forall_forall. intros H c Hc. by apply H, list_elem_of_In. }
  change (lit "{:,}") with [Byte.x7b; Byte.x3a; Byte.x2c; Byte.x7d] in Hpunct.
  apply Hf in Hpunct as Hp. rewrite !Forall_cons in Hp.
  destruct Hp as (Hp1 & Hp2 & Hp3 & Hp4 & _).
  assert (Hqc : P Byte.x22 = true) by (clear -Hq1; by apply andb_true_iff in Hq1 as [? _]).
  assert (Hhex : forall l, Forall (fun c => is_ascii_hexdigit c = true) l -> Forall (fun c => P c = true) l).
  { intros l Hl. eapply Forall_impl; [exact Hl|auto]. }
  assert (L : forall c, P c = true -> Forall (fun c => P c = true) [c]) by (intros; by constructor).
  unfold entry_json_text. generalize dependent (q "seq").
  intros q1 Hq1. generalize dependent (q "id_pk_hex"). intros q2 Hq2.
  generalize dependent (q "evidence_sha256_hex"). intros q3 Hq3.
  generalize dependent (q "observed_at_unix"). intros q4 Hq4.
  repeat (apply Forall_app; split);
    first [exact (Hf _ Hq1) | exact (Hf _ Hq2) | exact (Hf _ Hq3) | exact (Hf _ Hq4)
      | exact (L _ Hqc) | exact (L _ Hp1) | exact (L _ Hp2) | exact (L _ Hp3) | exact (L _ Hp4)
      | exact (Hhex _ Hi) | exact (Hhex _ Hv) | apply Hhex, fmt_dec_hexdigits; lia].
Qed.

Definition is_open (c : byte) : bool := bool_decide (c = Byte.x7b \/ c = Byte.x5b).
Definition opens (l : bytes) : nat := length (List.filter is_open l).

Lemma opens_app l1 l2 : opens (l1 ++ l2) = (opens l1 + opens l2)%nat.
Proof. unfold opens. by rewrite List.filter_app, length_app. Qed.

Lemma opens_hex l : Forall (fun c => is_ascii_hexdigit c = true) l -> opens l = 0%nat.
Proof.
  unfold opens. induction 1 as [|c l Hc Hl IH]; [done|]. simpl.
  replace (is_open c) with false; [done|]. symmetry. apply bool_decide_eq_false.
  intros [-> | ->]; discriminate Hc.
Qed.

Lemma opens_entry_text e : entry_ok e -> opens (entry_json_text e) = 1%nat.
Proof.
  intros ([Hs Ho] & Hi & Hv & _). unfold is_u64 in *. unfold entry_json_text.
  rewrite !opens_app, !(opens_hex (fmt_dec _)), (opens_hex (id_pk_hex e)),
    (opens_hex (evidence_sha256_hex e)) by (done || apply fmt_dec_hexdigits; lia).
  reflexivity.
Qed.

Lemma opens_take k l : (opens (take k l) <= opens l)%nat.
Proof. rewrite <- (take_drop k l) at 2. rewrite opens_app. lia. Qed.

Lemma depth_scan_shallow l depth s x :
  0 <= depth -> depth + Z.of_nat (opens l) <= MAX_JSON_DEPTH -> depth_scan l depth s x = true.
Proof.
  revert depth s x. induction l as [|c l IH]; intros depth s x Hd Hn; [done|].
  assert (Htail : (opens l <= opens (c :: l))%nat) by (unfold opens; simpl; destruct (is_open c); simpl; lia).
  cbn [depth_scan]. unfold saturating_sub.
  repeat match goal with |- context [if ?b then _ else _] => destruct b eqn:? end;
    try (apply IH; lia).
  - exfalso. assert (opens (c :: l) = S (opens l)) as E.
    { unfold opens. simpl. unfold is_open. rewrite bool_decide_true; [done|].
      match goal with H : bool_decide _ = true |- _ => by apply bool_decide_eq_true in H | H : _ \/ _ |- _ => done end. }
    lia.
  - assert (opens (c :: l) = S (opens l)) as E.
    { unfold opens. simpl. unfold is_open. by rewrite bool_decide_true. }
    apply IH; lia.
Qed.

Lemma fmt_dec_fuel_len fuel n acc : (length (fmt_dec_fuel fuel n acc) <= fuel + length acc)%nat.
Proof.
  revert n acc. induction fuel as [|fuel IH]; intros n acc; simpl; [lia|].
  destruct (n / 10 =? 0); simpl; [lia|].
  specialize (IH (n / 10) (digit (n mod 10) :: acc)). simpl in IH. lia.
Qed.

Lemma fmt_dec_len n : is_u64 n -> (length (fmt_dec n) <= 65)%nat.
Proof.
  intros Hn. unfold fmt_dec. etrans; [apply fmt_dec_fuel_len|]. simpl.
  assert (Z.log2 n <= 64); [|lia]. transitivity (Z.log2 (2 ^ 64)).
  - apply Z.log2_le_mono. unfold is_u64 in Hn. lia.
  - rewrite Z.log2_pow2; lia.
Qed.

Lemma entry_text_len e : entry_ok e -> (0 < length (entry_json_text e) <= 4096)%nat.
Proof.
  intros ([Hs Ho] & _ & _ & H1 & H2). unfold entry_json_text. rewrite !length_app.
  pose proof (fmt_dec_len _ Hs). pose proof (fmt_dec_len _ Ho). simpl. lia.
Qed.

Lemma chunks_line l rest :
  Byte.x0a ∉ l -> chunks (l ++ [Byte.x0a] ++ rest) = (l ++ [Byte.x0a]) :: chunks rest.
Proof.
  induction l as [|c l IH]; intros Hn; [done|]. cbn [app chunks].
  rewrite decide_False by set_solver. cbn [app] in IH. by rewrite IH by set_solver.
Qed.

Lemma chunks_tail l : Byte.x0a ∉ l -> l <> [] -> chunks l = [l].
Proof.
  induction l as [|c l IH]; intros Hn Hne; [done|]. simpl. rewrite decide_False by set_solver.
  destruct l as [|d l]; [done|]. rewrite IH; [done|set_solver|done].
Qed.

(** ** Reading back what was appended *)

Section ReopenLemmas.
Context `{!LogEntryJson, !LogEntryJsonLaws}.

(** The file of a list of entries: one line each. *)
Definition text_of (es : list LogEntry) : bytes :=
  flat_map (fun e => entry_to_string e ++ [Byte.x0a]) es.

Lemma text_of_app es1 es2 : text_of (es1 ++ es2) = text_of es1 ++ text_of es2.
Proof. apply List.flat_map_app. Qed.

Lemma text_of_snoc es e : text_of (es ++ [e]) = text_of es ++ entry_to_string e ++ [Byte.x0a].
Proof. rewrite text_of_app. unfold text_of at 2. simpl. by rewrite app_nil_r. Qed.

Lemma entry_string_no_newline e : entry_ok e -> Byte.x0a ∉ entry_to_string e.
Proof.
  intros He. rewrite entry_to_string_text by done. intros Hin.
  assert (Hf := entry_text_Forall (fun c => negb (bool_decide (c = Byte.x0a))) e He).
  eapply Forall_forall in Hf; [| |vm_compute; reflexivity|exact Hin].
  - by rewrite bool_decide_true in Hf.
  - intros c Hc. rewrite bool_decide_false; [done|]. intros ->. discriminate Hc.
Qed.

(** The guards of the read loop pass on any non-empty prefix of a line. *)
Lemma entry_prefix_guards e k :
  entry_ok e -> (0 < k)%nat ->
  let t := take k (entry_to_string e) in
  forallb is_ascii_whitespace t = false /\ utf8_valid t = true /\ depth_scan t 0 false false = true.
Proof.
  intros He Hk t. subst t. rewrite entry_to_string_text by done.
  split; [|split].
  - destruct k as [|k]; [lia|]. reflexivity.
  - apply utf8_valid_ascii, Forall_take, (entry_text_Forall is_ascii e He).
    + intros c. unfold is_ascii_hexdigit, is_ascii_digit, is_ascii. lia.
    + vm_compute. reflexivity.
  - apply depth_scan_shallow; [lia|].
    pose proof (opens_take k (entry_json_text e)). rewrite opens_entry_text in * by done.
    unfold MAX_JSON_DEPTH. lia.
Qed.

Lemma take_full {A} (l : list A) : take (length l) l = l.
Proof. apply firstn_all. Qed.

Lemma entry_guards e :
  entry_ok e ->
  forallb is_ascii_whitespace (entry_to_string e) = false
  /\ utf8_valid (entry_to_string e) = true /\ depth_scan (entry_to_string e) 0 false false = true.
Proof.
  intros He. pose proof (entry_prefix_guards e (length (entry_to_string e)) He) as G.
  rewrite take_full in G. apply G. rewrite entry_to_string_text by done.
  apply entry_text_len in He. lia.
Qed.

Lemma short_enough (l : bytes) :
  (length l <= 5000)%nat ->
  (MAX_REOPEN_LINE_BYTES + 1 <? Z.min (Z.of_nat (length l)) (MAX_REOPEN_LINE_BYTES + 2)) = false.
Proof. unfold MAX_REOPEN_LINE_BYTES. lia. Qed.

Lemma entry_string_len e : entry_ok e -> (0 < length (entry_to_string e) <= 4096)%nat.
Proof. intros He. rewrite entry_to_string_text by done. by apply entry_text_len. Qed.

(** A complete line adds its entry. *)
Lemma reopen_step_line r e :
  entry_ok e -> seq e = Z.of_nat (length (ro_entries r)) ->
  reopen_step r (entry_to_string e ++ [Byte.x0a])
  = Ok {| ro_entries := ro_entries r ++ [e];
          good_end := cursor r + length (entry_to_string e ++ [Byte.x0a]);
          cursor := cursor r + length (entry_to_string e ++ [Byte.x0a]);
          last_good_terminated := true; truncate_to := truncate_to r |}.
Proof.
  intros He Hs. destruct (entry_guards e He) as (G1 & G2 & G3).
  pose proof (entry_string_len e He). unfold reopen_step.
  rewrite short_enough by (rewrite length_app; simpl; lia).
  rewrite last_snoc, bool_decide_true by done. cbn zeta.
  assert (take (length (entry_to_string e ++ [Byte.x0a]) - 1) (entry_to_string e ++ [Byte.x0a])
          = entry_to_string e) as ->.
  { rewrite length_app. simpl. rewrite Nat.add_sub. apply take_app_length. }
  rewrite G1, G2, G3, entry_roundtrip by done. cbn [negb].
  by rewrite decide_False by auto.
Qed.

(** Entries numbered from [n]. *)
Definition numbered (n : nat) (es : list LogEntry) : Prop :=
  Forall entry_ok es /\ forall i e, es !! i = Some e -> seq e = Z.of_nat (n + i).

Lemma numbered_cons n e es :
  numbered n (e :: es) -> entry_ok e /\ seq e = Z.of_nat n /\ numbered (S n) es.
Proof.
  intros [Hok Hseq]. apply Forall_cons in Hok as [He Hes]. split; [done|]. split.
  - rewrite (Hseq 0%nat e eq_refl). f_equal. lia.
  - split; [done|]. intros i e' Hi. rewrite (Hseq (S i) e' Hi). f_equal. lia.
Qed.

Lemma reopen_loop_lines r es rest :
  numbered (length (ro_entries r)) es -> truncate_to r = None ->
  good_end r = cursor r -> last_good_terminated r = true ->
  reopen_loop r (chunks (text_of es ++ rest))
  = reopen_loop {| ro_entries := ro_entries r ++ es;
                   good_end := cursor r + length (text_of es);
                   cursor := cursor r + length (text_of es);
                   last_good_terminated := true; truncate_to := None |} (chunks rest).
Proof.
  revert r. induction es as [|e es IH]; intros r Hn Ht Hg Hl.
  - simpl. rewrite app_nil_r, Nat.add_0_r. destruct r; simpl in *. by subst.
  - apply numbered_cons in Hn as (He & Hs & Hn).
    cbn [text_of flat_map]. fold (text_of es). rewrite <- !app_assoc.
    rewrite chunks_line by (by apply entry_string_no_newline).
    cbn [reopen_loop]. rewrite reopen_step_line by done. cbn [result_bind].
    rewrite IH; [|cbn [ro_entries]; by rewrite length_app, Nat.add_comm|done..].
    cbn [ro_entries cursor]. rewrite <- app_assoc, !length_app, !Nat.add_assoc. done.
Qed.

(** An unterminated tail that is a proper prefix of a line is cut. *)
Lemma reopen_step_torn r e k :
  entry_ok e -> (0 < k < length (entry_to_string e))%nat ->
  reopen_step r (take k (entry_to_string e))
  = Ok {| ro_entries := ro_entries r; good_end := good_end r;
          cursor := cursor r + length (take k (entry_to_string e));
          last_good_terminated := last_good_terminated r; truncate_to := Some (good_end r) |}.
Proof.
  intros He Hk. destruct (entry_prefix_guards e k He ltac:(lia)) as (G1 & G2 & G3).
  pose proof (entry_string_len e He). unfold reopen_step.
  rewrite short_enough by (rewrite length_take; lia).
  assert (bool_decide (last (take k (entry_to_string e)) = Some Byte.x0a) = false) as ->.
  { apply bool_decide_eq_false. intros Hl. apply last_Some_elem_of in Hl.
    apply (entry_string_no_newline e He).
    rewrite <- (take_drop k (entry_to_string e)). by apply elem_of_app; left. }
  cbn zeta iota. rewrite G1, G2, G3, entry_prefix_fails by (done || lia). done.
Qed.

(** An unterminated but complete last line is kept. *)
Lemma reopen_step_unterminated r e :
  entry_ok e -> seq e = Z.of_nat (length (ro_entries r)) ->
  reopen_step r (entry_to_string e)
  = Ok {| ro_entries := ro_entries r ++ [e];
          good_end := cursor r + length (entry_to_string e);
          cursor := cursor r + length (entry_to_string e);
          last_good_terminated := false; truncate_to := truncate_to r |}.
Proof.
  intros He Hs. destruct (entry_guards e He) as (G1 & G2 & G3).
  pose proof (entry_string_len e He). unfold reopen_step. rewrite short_enough by lia.
  assert (bool_decide (last (entry_to_string e) = Some Byte.x0a) = false) as ->.
  { apply bool_decide_eq_false. intros Hl. apply last_Some_elem_of in Hl.
    by apply (entry_string_no_newline e He). }
  cbn zeta iota. rewrite G1, G2, G3, entry_roundtrip by done. cbn [negb].
  by rewrite decide_False by auto.
Qed.

(** ** A prefix of the file *)

Lemma numbered_app n es1 es2 :
  numbered n (es1 ++ es2) -> numbered n es1 /\ numbered (n + length es1) es2.
Proof.
  intros [Hok Hseq]. apply Forall_app in Hok as [H1 H2]. split; (split; [done|]).
  - intros i e Hi. apply Hseq. by apply lookup_app_l_Some.
  - intros i e Hi. rewrite (Hseq (length es1 + i)%nat e); [f_equal; lia|].
    rewrite lookup_app_r by lia. replace (length es1 + i - length es1)%nat with i by lia. done.
Qed.

(** What a prefix of the file of [es] holds: whole lines, then possibly a
    part of the next line short of its newline. *)
Lemma text_of_prefix es k :
  Forall entry_ok es -> (k <= length (text_of es))%nat ->
  exists m, (m <= length es)%nat /\
    (take k (text_of es) = text_of (take m es)
     \/ exists e k', es !! m = Some e /\ (0 < k' <= length (entry_to_string e))%nat
         /\ take k (text_of es) = text_of (take m es) ++ take k' (entry_to_string e)).
Proof.
  revert k. induction es as [|e es IH]; intros k Hok Hk.
  { exists 0%nat. split; [done|]. left. by destruct k. }
  apply Forall_cons in Hok as [He Hes].
  cbn [text_of flat_map] in *. fold (text_of es) in *. rewrite length_app in Hk.
  destruct (decide (k = 0%nat)) as [->|]; [exists 0%nat; split; [lia|by left]|].
  destruct (decide (k <= length (entry_to_string e))%nat) as [Hle|Hgt].
  - exists 0%nat. split; [lia|]. right. exists e, k. split; [done|]. split; [lia|].
    rewrite <- app_assoc, take_app_le by lia. done.
  - destruct (IH (k - length (entry_to_string e ++ [Byte.x0a]))%nat Hes ltac:(lia)) as (m & Hm & HT).
    rewrite take_app_ge by (rewrite length_app; simpl; lia).
    exists (S m). split; [simpl; lia|]. cbn [take]. cbn [text_of flat_map]. fold (text_of (take m es)).
    destruct HT as [->|(e' & k' & Hl & Hk' & ->)]; [by left|right].
    exists e', k'. split; [done|]. split; [done|]. by rewrite app_assoc.
Qed.

Lemma text_of_no_bom es t :
  Forall entry_ok es -> (t = [] \/ exists e k, entry_ok e /\ t = take (S k) (entry_to_string e)) ->
  take 3 (text_of es ++ t) <> BOM.
Proof.
  assert (Hbrace : forall e, entry_ok e -> exists l, entry_to_string e = Byte.x7b :: l).
  { intros e He. rewrite entry_to_string_text by done. by eexists. }
  intros Hes Ht. destruct es as [|e es].
  - destruct Ht as [->|(e & k & He & ->)]; [done|]. destruct (Hbrace e He) as [l ->]. done.
  - apply Forall_cons in Hes as [He _]. destruct (Hbrace e He) as [l Hl].
    cbn [text_of flat_map]. rewrite Hl. done.
Qed.

Definition opened (es : list LogEntry) : State :=
  {| entries := es; file := Some (durably (text_of es));
     appends_since_sync := 0; fsync_policy := FsyncPolicy_default |}.

Lemma open_whole es : numbered 0 es -> open_persistent (Some (durably (text_of es))) = Ok (opened es).
Proof.
  intros Hn. unfold open_persistent. cbn [content durably]. rewrite decide_False.
  2:{ rewrite <- (app_nil_r (text_of es)). apply text_of_no_bom; [apply Hn|by left]. }
  rewrite drop_0, <- (app_nil_r (text_of es)).
  rewrite (reopen_loop_lines _ es []) by done.
  cbn [chunks reopen_loop result_bind truncate_to last_good_terminated negb andb ro_entries app].
  by rewrite app_nil_r.
Qed.

(** A part of a line is cut off; a line that only misses its newline is
    completed. *)
Lemma open_torn es e k :
  numbered 0 (es ++ [e]) -> (0 < k < length (entry_to_string e))%nat ->
  open_persistent (Some (durably (text_of es ++ take k (entry_to_string e)))) = Ok (opened es).
Proof.
  intros Hn Hk. apply numbered_app in Hn as [Hn1 Hn2]. apply numbered_cons in Hn2 as (He & _).
  unfold open_persistent. cbn [content durably]. rewrite decide_False.
  2:{ apply text_of_no_bom; [apply Hn1|]. right. exists e, (k - 1)%nat. split; [done|].
      f_equal. lia. }
  rewrite drop_0, reopen_loop_lines by done.
  rewrite chunks_tail.
  - cbn [reopen_loop]. rewrite (reopen_step_torn _ e k) by done.
    cbn [result_bind truncate_to last_good_terminated negb andb ro_entries good_end cursor].
    rewrite Nat.add_0_l, take_app_length. done.
  - intros Hin. apply (entry_string_no_newline e He).
    rewrite <- (take_drop k (entry_to_string e)). by apply elem_of_app; left.
  - intros E. apply (f_equal length) in E. rewrite length_take in E. simpl in E. lia.
Qed.

Lemma open_unterminated es e :
  numbered 0 (es ++ [e]) ->
  open_persistent (Some (durably (text_of es ++ entry_to_string e))) = Ok (opened (es ++ [e])).
Proof.
  intros Hn. pose proof Hn as Hn0. apply numbered_app in Hn as [Hn1 Hn2].
  apply numbered_cons in Hn2 as (He & Hs & _).
  pose proof (entry_string_len e He) as Hlen.
  unfold open_persistent. cbn [content durably]. rewrite decide_False.
  2:{ apply text_of_no_bom; [apply Hn1|]. right. exists e, (length (entry_to_string e) - 1)%nat.
      split; [done|]. rewrite take_ge by lia. done. }
  rewrite drop_0, reopen_loop_lines by done.
  rewrite chunks_tail; [|by apply entry_string_no_newline|by destruct (entry_to_string e); simpl in *; [lia|]].
  cbn [reopen_loop]. rewrite reopen_step_unterminated by done.
  cbn [result_bind truncate_to last_good_terminated negb andb ro_entries app].
  rewrite bool_decide_false by (by destruct es).
  cbn [negb]. unfold opened. cbn [content durably]. by rewrite text_of_snoc, <- !app_assoc.
Qed.
End ReopenLemmas.

(** ** Invariant of a log whose system calls have succeeded *)

Section Invariant.
Context `{!Sha2, !Hex, !LogEntryJson}.

(** All but the last [appends_since_sync] entries are on disk, and the policy
    bounds that number. *)
Definition durable (st : State) (f : LogFile) : Prop :=
  let j := (length (entries st) - Z.to_nat (appends_since_sync st))%nat in
  synced f = length (text_of (take j (entries st)))
  /\ 0 <= appends_since_sync st <= Z.of_nat (length (entries st))
  /\ match fsync_policy st with
     | Always => appends_since_sync st = 0
     | Periodic n => appends_since_sync st < Z.max 1 n
     end.

Definition policy_wf (p : FsyncPolicy) : Prop :=
  match p with Always => True | Periodic n => is_u32 n end.

Definition log_inv (st : State) : Prop :=
  numbered 0 (entries st) /\ policy_wf (fsync_policy st)
  /\ match file st with
     | None => True
     | Some f => content f = text_of (entries st) /\ durable st f
     end.

(** What the caller passes: a key of plausible size and a [u64] time; the
    sequence number must still fit its width. *)
Definition append_args_ok (st : State) (id_pk : bytes) (observed_at_unix : Z) : Prop :=
  (length id_pk <= 512)%nat /\ is_u64 observed_at_unix /\ is_u64 (Z.of_nat (length (entries st))).

Context `{!Sha2Laws, !HexLaws, !LogEntryJsonLaws}.

Lemma from_evidence_ok n id_pk ev ts :
  (length id_pk <= 512)%nat -> is_u64 ts -> is_u64 n ->
  entry_ok (LogEntry_from_evidence n id_pk ev ts).
Proof.
  intros Hl Ht Hn. split; [split; done|]. unfold LogEntry_from_evidence; cbn [id_pk_hex evidence_sha256_hex].
  split_and!; try apply hex_encode_digits; rewrite hex_encode_len, ?sha256_len; lia.
Qed.

Lemma numbered_snoc es e :
  numbered 0 es -> entry_ok e -> seq e = Z.of_nat (length es) -> numbered 0 (es ++ [e]).
Proof.
  intros [Hok Hseq] He Hs. split; [by apply Forall_app; split; [|constructor]|].
  intros i e' [Hi|[Hi Hl]]%lookup_app_Some; [by apply Hseq|].
  destruct (i - length es)%nat eqn:D; [|done]. simpl in Hl. injection Hl as <-.
  rewrite Hs. f_equal. lia.
Qed.

Lemma durable_synced st f e p :
  durable {| entries := entries st ++ [e];
             file := p;
             appends_since_sync := 0; fsync_policy := fsync_policy st |}
          {| content := f; synced := length (text_of (entries st ++ [e])) |}.
Proof.
  unfold durable; cbn [entries appends_since_sync fsync_policy synced].
  rewrite Nat.sub_0_r, firstn_all, length_app. split_and!; [done|lia|lia|].
  destruct (fsync_policy st); lia.
Qed.

Lemma durable_unsynced st f c e p :
  durable st f -> policy_wf (fsync_policy st) ->
  should_sync (fsync_policy st) (saturating_add 32 (appends_since_sync st) 1) = false ->
  durable {| entries := entries st ++ [e]; file := p;
             appends_since_sync := saturating_add 32 (appends_since_sync st) 1;
             fsync_policy := fsync_policy st |}
          {| content := c; synced := synced f |}.
Proof.
  intros (Hs & Hnn & Hp) Hw Hsync. unfold durable; cbn [entries appends_since_sync fsync_policy synced].
  destruct (fsync_policy st) as [|n]; [done|]. simpl in Hw, Hsync. unfold saturating_add, is_u32 in *.
  apply orb_false_iff in Hsync as [Hn1 Hn2].
  assert (appends_since_sync st + 1 <= 2 ^ 32 - 1) as Hmin by lia.
  rewrite Z.min_l in * by lia. rewrite length_app. simpl.
  replace (length (entries st) + 1 - Z.to_nat (appends_since_sync st + 1))%nat
    with (length (entries st) - Z.to_nat (appends_since_sync st))%nat by lia.
  rewrite take_app_le by lia. split_and!; [done|lia|lia|lia].
Qed.

(** What a failed append may leave behind: a part of the line in the file. *)
Definition append_failed (st st' : State) (line : bytes) : Prop :=
  entries st' = entries st /\ fsync_policy st' = fsync_policy st
  /\ exists f f' k, file st = Some f /\ file st' = Some f'
      /\ content f' = content f ++ take k line /\ synced f' = synced f.

Lemma append_ok_shape st id_pk ev ts io n st' :
  append st id_pk ev ts io = (Ok n, st') ->
  n = Z.of_nat (length (entries st))
  /\ entries st' = entries st ++ [LogEntry_from_evidence n id_pk ev ts].
Proof.
  unfold append, write_all, sync_data. intros E.
  repeat case_match; simplify_eq; cbn [entries push_entry with_file]; done.
Qed.

Lemma append_ok_inv st id_pk ev ts io n st' :
  log_inv st -> append_args_ok st id_pk ts ->
  append st id_pk ev ts io = (Ok n, st') -> log_inv st'.
Proof.
  intros (Hnum & Hpol & Hf) (Hl & Ht & Hn) E.
  assert (Hnum' : numbered 0 (entries st')).
  { destruct (append_ok_shape _ _ _ _ _ _ _ E) as [-> ->].
    apply numbered_snoc; [done| |done]. by apply from_evidence_ok. }
  unfold append in E. destruct (file st) as [f|] eqn:Ff.
  2:{ injection E as _ <-. split_and!; [done..|]. cbn [file push_entry]. by rewrite Ff. }
  destruct Hf as [Hc Hd]. unfold write_all, sync_data in E.
  repeat case_match; simplify_eq; (split; [done|split; [done|]]);
    cbn [file push_entry with_file content entries]; (split; [by rewrite Hc, text_of_snoc, <- app_assoc|]).
  - rewrite Hc, <- app_assoc, <- text_of_snoc. apply (durable_synced st).
  - by apply (durable_unsynced st f).
Qed.

Lemma append_err_shape st id_pk ev ts io e st' :
  append st id_pk ev ts io = (Err e, st') ->
  append_failed st st' (entry_to_string
    (LogEntry_from_evidence (Z.of_nat (length (entries st))) id_pk ev ts) ++ [Byte.x0a]).
Proof.
  unfold append, write_all, sync_data. intros E. destruct (file st) as [f|] eqn:Ff; [|done].
  set (line := entry_to_string _) in *.
  assert (Hmk : forall k f' n, content f' = content f ++ take k (line ++ [Byte.x0a]) ->
            synced f' = synced f -> append_failed st (with_file st f' n) (line ++ [Byte.x0a])).
  { intros k f' n Hk Hs. split; [done|]. split; [done|]. by exists f, f', k. }
  destruct (write_line io) as [k|]; [|destruct (write_newline io) as [k|]];
    [..|destruct (should_sync _ _); [destruct (sync_ok io)|]]; simplify_eq.
  - apply (Hmk (Nat.min k (length line))); [|done]. cbn [content]. rewrite take_app_le by lia.
    f_equal. rewrite <- (firstn_all line) at 1. by rewrite take_take.
  - apply (Hmk (length line + k)%nat); [|done]. cbn [content]. by rewrite take_app_add, <- app_assoc.
  - apply (Hmk (length (line ++ [Byte.x0a]))); [|done]. cbn [content]. by rewrite firstn_all, <- app_assoc.
Qed.
End Invariant.

(** ** Recovery lemmas *)

Section Recovery.
Context `{!LogEntryJson, !LogEntryJsonLaws}.

Lemma text_of_take_mono es i j :
  (i <= j)%nat -> (length (text_of (take i es)) <= length (text_of (take j es)))%nat.
Proof.
  intros Hij. replace j with (i + (j - i))%nat by lia.
  rewrite <- take_take_drop, text_of_app, length_app. lia.
Qed.

Lemma numbered_take n es m : numbered n es -> numbered n (take m es).
Proof. intros Hn. rewrite <- (take_drop m es) in Hn. by apply numbered_app in Hn as [? _]. Qed.

Lemma text_of_take_S es m e :
  es !! m = Some e -> text_of (take (S m) es) = text_of (take m es) ++ entry_to_string e ++ [Byte.x0a].
Proof. intros He. by rewrite (take_S_r _ _ _ He), text_of_snoc. Qed.

(** A file cut at [k] reopens to all the entries whose lines lie below [k]. *)
Lemma open_prefix es k :
  numbered 0 es -> (k <= length (text_of es))%nat ->
  exists m, (m <= length es)%nat
    /\ open_persistent (Some (durably (take k (text_of es)))) = Ok (opened (take m es))
    /\ forall j, (j <= length es)%nat -> (length (text_of (take j es)) <= k)%nat -> (j <= m)%nat.
Proof.
  intros Hn Hk. destruct (text_of_prefix es k) as (m & Hm & HT); [apply Hn|done|].
  assert (Hbound : forall j c, (length (take k (text_of es)) = length (text_of (take m es)) + c)%nat ->
     (forall e, es !! m = Some e -> c <= length (entry_to_string e))%nat ->
     (j <= length es)%nat -> (length (text_of (take j es)) <= k)%nat -> (j <= m)%nat).
  { intros j c Hlen Hc Hj Hle. rewrite length_take in Hlen. apply Nat.nlt_ge. intros Hlt.
    destruct (lookup_lt_is_Some_2 es m) as [e He]; [lia|].
    pose proof (text_of_take_mono es (S m) j ltac:(lia)) as Hmono.
    rewrite (text_of_take_S _ _ _ He), !length_app in Hmono. simpl in Hmono.
    specialize (Hc e He). lia. }
  destruct HT as [HT|(e & k' & He & Hk' & HT)].
  - exists m. split; [done|]. rewrite HT. split; [by apply open_whole, numbered_take|].
    intros j. apply (Hbound j 0%nat); [by rewrite HT; lia|lia].
  - assert (HS : take (S m) es = take m es ++ [e]) by (by apply take_S_r).
    assert (HnS : numbered 0 (take m es ++ [e])) by (rewrite <- HS; by apply numbered_take).
    destruct (decide (k' = length (entry_to_string e))) as [->|Hne].
    + exists (S m). apply lookup_lt_Some in He as Hlt. split; [lia|]. rewrite HT, firstn_all, HS.
      split; [by apply open_unterminated|]. intros j Hj Hle. transitivity m; [|lia].
      apply (Hbound j (length (entry_to_string e))); [by rewrite HT, firstn_all, length_app| |done..].
      intros e' He'. by simplify_eq.
    + exists m. split; [done|]. rewrite HT. split; [apply (open_torn _ e); [done|lia]|].
      intros j. apply (Hbound j k').
      * rewrite HT, length_app, length_take. lia.
      * intros e' He'. simplify_eq. lia.
Qed.

Lemma opened_inv es : numbered 0 es -> log_inv (opened es).
Proof.
  intros Hn. split; [done|]. split; [done|]. split; [done|]. unfold durable; simpl.
  rewrite Nat.sub_0_r, firstn_all. split_and!; (done || lia).
Qed.
End Recovery.

(** ** A concrete serializer *)

Definition is_close (c : byte) : bool := bool_decide (c = Byte.x7d).
Definition closes (l : bytes) : nat := length (List.filter is_close l).

Lemma closes_app l1 l2 : closes (l1 ++ l2) = (closes l1 + closes l2)%nat.
Proof. unfold closes. by rewrite List.filter_app, length_app. Qed.

Lemma closes_hex l : Forall (fun c => is_ascii_hexdigit c = true) l -> closes l = 0%nat.
Proof.
  unfold closes. induction 1 as [|c l Hc Hl IH]; [done|]. simpl.
  replace (is_close c) with false; [done|]. symmetry. apply bool_decide_eq_false.
  intros ->; discriminate Hc.
Qed.

Lemma closes_entry_text e : entry_ok e -> closes (entry_json_text e) = 1%nat.
Proof.
  intros ([Hs Ho] & Hi & Hv & _). unfold is_u64 in *. unfold entry_json_text.
  rewrite !closes_app, !(closes_hex (fmt_dec _)), (closes_hex (id_pk_hex e)),
    (closes_hex (evidence_sha256_hex e)) by (done || apply fmt_dec_hexdigits; lia).
  reflexivity.
Qed.

Lemma entry_text_close e : exists l, entry_json_text e = l ++ [Byte.x7d].
Proof. unfold entry_json_text. eexists. rewrite !app_assoc. reflexivity. Qed.

(** Read the longest run of hexadecimal digits. *)
Fixpoint hex_run (l : bytes) : bytes * bytes :=
  match l with
  | c :: l' => if is_ascii_hexdigit c then let '(r, t) := hex_run l' in (c :: r, t) else ([], l)
  | [] => ([], [])
  end.

Lemma hex_run_app l c rest :
  Forall (fun c => is_ascii_hexdigit c = true) l -> is_ascii_hexdigit c = false ->
  hex_run (l ++ c :: rest) = (l, c :: rest).
Proof.
  intros Hl Hc. induction Hl as [|d l Hd Hl IH]; simpl; [by rewrite Hc|]. by rewrite Hd, IH.
Qed.

Definition toy_entry_parse (l : bytes) : option LogEntry :=
  let '(sq, l) := hex_run (drop 7 l) in
  let '(pk, l) := hex_run (drop 14 l) in
  let '(ev, l) := hex_run (drop 25 l) in
  let '(ts, _) := hex_run (drop 21 l) in
  s ← parse_uint 64 sq; t ← parse_uint 64 ts;
  Some {| seq := s; id_pk_hex := pk; evidence_sha256_hex := ev; observed_at_unix := t |}.

#[export] Instance toy_entry_json : LogEntryJson := {|
  entry_to_string := entry_json_text;
  entry_from_str l :=
    e ← toy_entry_parse l; if decide (entry_json_text e = l) then Some e else None;
|}.

Lemma toy_entry_parse_text e : entry_ok e -> toy_entry_parse (entry_json_text e) = Some e.
Proof.
  intros ([Hs Ho] & Hi & Hv & _).
  assert (fs := fmt_dec_hexdigits (seq e) ltac:(apply Hs)).
  assert (fo := fmt_dec_hexdigits (observed_at_unix e) ltac:(apply Ho)).
  pose proof (parse_fmt_dec 64 _ Hs) as ps. pose proof (parse_fmt_dec 64 _ Ho) as po.
  unfold toy_entry_parse, entry_json_text.
  generalize dependent (fmt_dec (seq e)). intros ds fs ps.
  generalize dependent (fmt_dec (observed_at_unix e)). intros dt fo po.
  unfold q. cbn [app lit drop String.list_byte_of_string String.list_ascii_of_string List.map].
  cbn.
  rewrite drop_0, (hex_run_app ds) by done. cbn.
  rewrite drop_0, (hex_run_app (id_pk_hex e)) by done. cbn.
  rewrite drop_0, (hex_run_app (evidence_sha256_hex e)) by done. cbn.
  rewrite drop_0, (hex_run_app dt) by done. rewrite ps, po. cbn. by destruct e.
Qed.

#[export] Instance toy_entry_json_laws : LogEntryJsonLaws.
Proof.
  split; cbn [entry_to_string entry_from_str toy_entry_json].
  - done.
  - intros e He. rewrite toy_entry_parse_text by done. unfold mbind, option_bind. by rewrite decide_True.
  - intros e k He Hk. destruct (toy_entry_parse _) as [e'|]; [|done]. unfold mbind, option_bind.
    apply decide_False. intros E.
    assert (H1 : (1 <= closes (entry_json_text e'))%nat).
    { destruct (entry_text_close e') as [l ->]. rewrite closes_app. change (closes [Byte.x7d]) with 1%nat. lia. }
    pose proof (closes_entry_text e He) as H2. rewrite E in H1.
    destruct (entry_text_close e) as [l Hl]. rewrite Hl in *.
    assert (Hkl : (k <= length l)%nat) by (rewrite length_app in Hk; simpl in Hk; lia).
    rewrite take_app_le in H1 by done.
    rewrite closes_app in H2. rewrite <- (take_drop k l), closes_app in H2.
    replace (closes [Byte.x7d]) with 1%nat in H2 by done. lia.
Qed.

(** ** Claims *)

(** [append] either returns the next sequence number, extends the log by
    exactly the entry of the evidence and keeps the log invariant (entries
    numbered by position, the file is one line per entry, and the entries not
    yet on disk are at most those the fsync policy allows: none under
    [Always], fewer than [max(n,1)] under [Periodic n]), or, when a write or
    the sync fails, returns the error, leaves the entries and the policy as
    they were and leaves in the file a prefix of the new line. *)
Theorem append_spec `{Sha2Laws} `{HexLaws} `{LogEntryJsonLaws} st id_pk ev ts io :
  log_inv st -> append_args_ok st id_pk ts ->
  let n := Z.of_nat (length (entries st)) in
  let e := LogEntry_from_evidence n id_pk ev ts in
  match append st id_pk ev ts io with
  | (Ok n', st') => n' = n /\ entries st' = entries st ++ [e] /\ log_inv st'
  | (Err _, st') => append_failed st st' (entry_to_string e ++ [Byte.x0a])
  end.
Proof.
  intros Hinv Hargs n e. subst n e. destruct (append st id_pk ev ts io) as [[n'|er] st'] eqn:E.
  - destruct (append_ok_shape _ _ _ _ _ _ _ E) as [-> Hes].
    split_and!; [done|done|]. by eapply append_ok_inv.
  - by eapply append_err_shape.
Qed.

(** A log of two synced entries under [Periodic 3], and one more append. *)
Definition demo_state : State :=
  set_fsync_policy (opened (demo_entry <$> [0; 1])) (Periodic 3).

Lemma demo_entry_ok i : is_u64 i -> is_u64 (100 + i) -> entry_ok (demo_entry i).
Proof. intros Hi Ho. apply from_evidence_ok; [simpl; lia|done|done]. Qed.

Lemma demo_state_inv : log_inv demo_state.
Proof.
  split; [|split; [done|split; [done|split; [done|split; [done|done]]]]].
  split.
  - repeat (apply Forall_cons; split); [..|constructor]; apply demo_entry_ok; done.
  - intros [|[|i]] e; [intros [= <-]; done..|]. done.
Qed.

Lemma append_spec_witness :
  exists st', append demo_state [Byte.x07] [Byte.x08] 9 io_fine = (Ok 2, st')
    /\ appends_since_sync st' = 1 /\ log_inv st'.
Proof.
  pose proof (append_spec demo_state [Byte.x07] [Byte.x08] 9 io_fine demo_state_inv) as A.
  eexists. split; [vm_compute; reflexivity|]. split; [reflexivity|].
  apply A. split_and!; vm_compute; try split; congruence || lia.
Defined.

(** C9. Crash recovery.  If the machine stops at any point, so that the file
    keeps some prefix that includes everything synced, [open_persistent]
    succeeds and recovers a prefix of the log: a torn last line is cut, a
    line that only lost its newline is completed, no entry that was synced is
    lost, and nothing is lost when the whole file survives.  The recovered log satisfies
    the log invariant, so it can be appended to. *)
Theorem crash_recovery `{LogEntryJsonLaws} st f k :
  log_inv st -> file st = Some f -> (synced f <= k <= length (content f))%nat ->
  exists m st', open_persistent (Some (durably (take k (content f)))) = Ok st'
    /\ entries st' = take m (entries st)
    /\ (length (entries st) - Z.to_nat (appends_since_sync st) <= m <= length (entries st))%nat
    /\ (k = length (content f) -> entries st' = entries st)
    /\ log_inv st'.
Proof.
  intros (Hnum & Hpol & Hf) Ff Hk. rewrite Ff in Hf. destruct Hf as (Hc & Hs & Hb & _).
  destruct (open_prefix (entries st) k) as (m & Hm & Hopen & Hmax); [done|rewrite <- Hc; lia|].
  exists m, (opened (take m (entries st))). rewrite Hc. split_and!.
  - done.
  - done.
  - apply Hmax; [lia|]. rewrite Hs in Hk. apply Hk.
  - done.
  - intros ->. cbn [entries opened]. apply take_ge, Hmax; [done|]. by rewrite firstn_all.
  - by apply opened_inv, numbered_take.
Qed.

Lemma crash_recovery_witness :
  exists m st', open_persistent (Some (durably (take 150 (text_of (demo_entry <$> [0; 1]))))) = Ok st'
    /\ entries st' = take m (demo_entry <$> [0; 1]) /\ log_inv st'.
Proof.
  set (f := {| content := text_of (demo_entry <$> [0; 1]); synced := length (text_of [demo_entry 0]) |}).
  set (st := {| entries := demo_entry <$> [0; 1]; file := Some f; appends_since_sync := 1;
                fsync_policy := Periodic 3 |}).
  assert (Hinv : log_inv st).
  { split; [apply demo_state_inv|]. split; [done|]. split; [reflexivity|].
    split; [reflexivity|]. split; [done|]. done. }
  destruct (crash_recovery st f 150 Hinv eq_refl) as (m & st' & Ho & He & _ & _ & Hi);
    [vm_compute; lia|].
  exact (ex_intro _ m (ex_intro _ st' (conj Ho (conj He Hi)))).
Defined.

(** Switching the policy resets the counter of unsynced appends but does not
    sync: under [Periodic 2], which otherwise leaves at most one entry
    unsynced, two entries are not on disk. *)
Lemma set_policy_forgets_unsynced :
  let ap st := (append st [] [] 0 io_fine).2 in
  let st := ap (set_fsync_policy (ap (set_fsync_policy (opened []) (Periodic 2))) (Periodic 2)) in
  length (entries st) = 2%nat /\ (synced <$> file st) = Some 0%nat.
Proof. vm_compute. done. Qed.
