(* ===== verification/Handshake.v ===== *)
(** * ullm-handshake: messages, transcript and the two state machines

    [crates/ullm-handshake/src]: [messages.rs], [transcript.rs], [state.rs].
    The callbacks that sign and verify are function arguments, as in the
    source; the generator is threaded. *)

From S2P Require Import Prelude RustStd Core Crates Toy Crypto.
From Stdlib Require Import Lia.

Local Open Scope Z_scope.

(** ** messages.rs *)

Definition ATTESTATION_NONCE_LEN : nat := 32.
Definition RANDOM_LEN : nat := 32.
Definition REPORT_DATA_LEN : nat := 64.

Definition SIG_DOMAIN_BUNDLE : bytes := lit "ULLM-v1 bundle-sig" ++ [Byte.x00].
Definition SIG_DOMAIN_HANDSHAKE : bytes := lit "ULLM-v1 handshake-sig" ++ [Byte.x00].

Record PreKeyBundle := {
  id_pk : bytes;
  spk_pk_x25519 : bytes;
  pq_pk_mlkem : bytes;
  bundle_evidence : bytes;   (** [attestation_evidence] *)
  bundle_signature : bytes;  (** [signature] *)
}.

Definition PreKeyBundle_validate_structural (b : PreKeyBundle) : Result unit :=
  if decide (Z.of_nat (length (pq_pk_mlkem b)) <> ML_KEM_768_EK_LEN) then Err BadCipherSuite else
  if (MAX_ATTESTATION_EVIDENCE_LEN <? Z.of_nat (length (bundle_evidence b))) then
    Err (Other (lit "attestation_evidence exceeds cap: "
                ++ fmt_dec (Z.of_nat (length (bundle_evidence b)))
                ++ lit " > " ++ fmt_dec MAX_ATTESTATION_EVIDENCE_LEN))
  else Ok tt.

Record CipherSuite := { kem : Z; aead : Z; hash : Z }.

Definition CipherSuite_default_phase1 : CipherSuite :=
  {| kem := KemId_repr X25519MlKem768; aead := AeadId_repr XChaCha20Poly1305;
     hash := HashId_repr Sha256Id |}.

Definition CipherSuite_validate (s : CipherSuite) : Result unit :=
  match KemId_from_u16 (kem s) with
  | None => Err BadCipherSuite
  | Some _ =>
      match HashId_from_u8 (hash s) with
      | None => Err BadCipherSuite
      | Some h =>
          match AeadId_from_u8 (aead s) with
          | Some XChaCha20Poly1305 =>
              match h with Sha256Id => Ok tt | _ => Err BadCipherSuite end
          | Some _ | None => Err BadCipherSuite
          end
      end
  end.

Record ClientHello := {
  ch_version : Z;
  client_random : bytes;
  attestation_nonce : bytes;
  client_x25519_pk : bytes;
  client_mlkem_ct : bytes;
  client_ratchet_pk : bytes;
  cipher_suite : CipherSuite;
}.

Record ServerHello := {
  sh_version : Z;
  server_random : bytes;
  server_x25519_pk : bytes;
  attestation_evidence : bytes;
  signature : bytes;
}.

#[export] Instance CipherSuite_eq_dec : EqDecision CipherSuite.
Proof. solve_decision. Defined.
#[export] Instance ClientHello_eq_dec : EqDecision ClientHello.
Proof. solve_decision. Defined.
#[export] Instance ServerHello_eq_dec : EqDecision ServerHello.
Proof. solve_decision. Defined.

#[export] Program Instance ClientHello_countable : Countable ClientHello :=
  inj_countable'
    (fun h => (ch_version h, client_random h, attestation_nonce h, client_x25519_pk h,
               client_mlkem_ct h, client_ratchet_pk h,
               (kem (cipher_suite h), aead (cipher_suite h), hash (cipher_suite h))))
    (fun '(v, r, n, x, c, p, (k, a, g)) =>
       Build_ClientHello v r n x c p {| kem := k; aead := a; hash := g |}) _.
Next Obligation. by intros [? ? ? ? ? ? []]. Qed.

#[export] Program Instance ServerHello_countable : Countable ServerHello :=
  inj_countable'
    (fun h => (sh_version h, server_random h, server_x25519_pk h, attestation_evidence h, signature h))
    (fun '(v, r, x, e, g) => Build_ServerHello v r x e g) _.
Next Obligation. by intros []. Qed.

#[export] Instance PreKeyBundle_eq_dec : EqDecision PreKeyBundle.
Proof. solve_decision. Defined.

#[export] Instance PreKeyBundle_countable : Countable PreKeyBundle.
Proof.
  refine (inj_countable (A := list bytes)
    (fun p => [id_pk p; spk_pk_x25519 p; pq_pk_mlkem p; bundle_evidence p; bundle_signature p])
    (fun l => match l with
     | [a; b; c; d; e] => Some (Build_PreKeyBundle a b c d e)
     | _ => None
     end) _).
  by intros [].
Defined.

(** The [postcard] helpers, with the error's text as payload. *)
Definition encode_msg `{Postcard T} (value : T) : Result bytes :=
  map_err Serde (postcard_to_allocvec value).

Definition decode_msg `{Postcard T} (l : bytes) : Result T :=
  map_err Serde (postcard_from_bytes l).

(** ** transcript.rs: the bytes absorbed so far *)

Record Transcript := { absorbed : bytes }.

Definition Transcript_new : Transcript := {| absorbed := PROTOCOL_ID |}.

Definition Transcript_update (t : Transcript) (l : bytes) : Transcript :=
  {| absorbed := absorbed t ++ l |}.

Definition Transcript_hash `{Sha2} (t : Transcript) : bytes := sha256 (absorbed t).

(** ** state.rs *)

Record EstablishedKeys := {
  root : RootKey;
  ek_c2s_chain : ChainKey;
  ek_s2c_chain : ChainKey;
  ek_nonce_salt : NonceSalt;
  transcript_hash : bytes;
  report_data : bytes;
  server_ratchet_pk : bytes;
  ek_client_ratchet_pk : bytes;
  server_attestation_evidence : bytes;
}.

Record ClientHandshake := {
  transcript : Transcript;
  hs_client_random : bytes;
  hs_attestation_nonce : bytes;
  hybrid : HybridSecret;
  client_ratchet_sk : bytes;
}.

Definition compute_report_data `{Sha2} (nonce server_pk : bytes) (h : HybridSecret) : bytes :=
  let hybrid_hash := sha256 h in
  sha512 (nonce ++ server_pk ++ hybrid_hash).

Section State.
Context {R : Type} `{!MlKem R, !X25519 R, !Rng R, !Hkdf, !Sha2, !Postcard ClientHello, !Postcard ServerHello}.

Definition ClientHandshake_initiate (rng : R) (bundle : PreKeyBundle)
  : Result (ClientHandshake * bytes) * R :=
  match ml_kem_pk_from_bytes (pq_pk_mlkem bundle) with
  | None => (Err (Other (lit "invalid ML-KEM public key in bundle")), rng)
  | Some pq_pk =>
      let spk_pk := spk_pk_x25519 bundle in
      let '((mlkem_ct, c_x25519_pk, hybrid), rng) := hybrid_encap rng pq_pk spk_pk in
      let '(c_random, rng) := fill_bytes RANDOM_LEN rng in
      let '(att_nonce, rng) := fill_bytes ATTESTATION_NONCE_LEN rng in
      let '(ratchet_sk, rng) := x25519_random rng in
      let ratchet_pk := x25519_public ratchet_sk in
      let hello := {|
        ch_version := PROTOCOL_VERSION;
        client_random := c_random;
        attestation_nonce := att_nonce;
        client_x25519_pk := c_x25519_pk;
        client_mlkem_ct := ml_kem_ct_bytes mlkem_ct;
        client_ratchet_pk := ratchet_pk;
        cipher_suite := CipherSuite_default_phase1;
      |} in
      (let? hello_bytes := encode_msg hello in
       let transcript := Transcript_update Transcript_new hello_bytes in
       Ok ({| transcript := transcript;
              hs_client_random := c_random;
              hs_attestation_nonce := att_nonce;
              hybrid := hybrid;
              client_ratchet_sk := ratchet_sk |}, hello_bytes), rng)
  end.

Definition ClientHandshake_complete (c : ClientHandshake) (server_hello_bytes : bytes)
    (verify_signature : bytes -> bytes -> Result unit) : Result EstablishedKeys :=
  let? server_hello := decode_msg (T := ServerHello) server_hello_bytes in
  if decide (sh_version server_hello <> PROTOCOL_VERSION) then
    Err (BadVersion (sh_version server_hello) PROTOCOL_VERSION)
  else
  let pre_sig_hash := Transcript_hash (transcript c) in
  let? _ := verify_signature pre_sig_hash (signature server_hello) in
  let transcript := Transcript_update (transcript c) server_hello_bytes in
  let th := Transcript_hash transcript in
  let root := derive_root th (hybrid c) in
  let keys := derive_initial_keys root in
  let rd := compute_report_data (hs_attestation_nonce c) (server_x25519_pk server_hello) (hybrid c) in
  Ok {| root := root;
        ek_c2s_chain := c2s_chain keys;
        ek_s2c_chain := s2c_chain keys;
        ek_nonce_salt := nonce_salt keys;
        transcript_hash := th;
        report_data := rd;
        server_ratchet_pk := server_x25519_pk server_hello;
        ek_client_ratchet_pk := x25519_public (client_ratchet_sk c);
        server_attestation_evidence := attestation_evidence server_hello |}.

Record ServerHandshake := { spk_sk_x25519 : bytes; pq_sk_mlkem : MlKemSecretKey }.

Definition ServerHandshake_respond (s : ServerHandshake) (rng : R) (client_hello_bytes : bytes)
    (ratchet_sk : bytes)
    (make_evidence_and_sig : bytes -> bytes -> Result (bytes * bytes))
  : Result (bytes * EstablishedKeys) * R :=
  let early :=
    let? client_hello := decode_msg (T := ClientHello) client_hello_bytes in
    if decide (ch_version client_hello <> PROTOCOL_VERSION) then
      Err (BadVersion (ch_version client_hello) PROTOCOL_VERSION)
    else
    let? _ := CipherSuite_validate (cipher_suite client_hello) in
    let? mlkem_ct := ok_or (ml_kem_ct_from_bytes (client_mlkem_ct client_hello))
                           (Other (lit "invalid ML-KEM ciphertext in client hello")) in
    let? hybrid := map_err (fun _ => Other (lit "ml-kem decap failed"))
                     (hybrid_decap (pq_sk_mlkem s) (spk_sk_x25519 s) mlkem_ct
                                   (client_x25519_pk client_hello)) in
    let pk := x25519_public ratchet_sk in
    let rd := compute_report_data (attestation_nonce client_hello) pk hybrid in
    let transcript := Transcript_update Transcript_new client_hello_bytes in
    let pre_signature_hash := Transcript_hash transcript in
    let? ev_sig := make_evidence_and_sig rd pre_signature_hash in
    Ok (client_hello, hybrid, pk, rd, transcript, ev_sig) in
  match early with
  | Err e => (Err e, rng)
  | Ok (client_hello, hybrid, pk, rd, transcript, (evidence_bytes, sig)) =>
      let '(s_random, rng) := fill_bytes RANDOM_LEN rng in
      let server_hello := {|
        sh_version := PROTOCOL_VERSION;
        server_random := s_random;
        server_x25519_pk := pk;
        attestation_evidence := evidence_bytes;
        signature := sig;
      |} in
      (let? server_hello_bytes := encode_msg server_hello in
       let transcript := Transcript_update transcript server_hello_bytes in
       let th := Transcript_hash transcript in
       let root := derive_root th hybrid in
       let keys := derive_initial_keys root in
       Ok (server_hello_bytes,
           {| root := root;
              ek_c2s_chain := c2s_chain keys;
              ek_s2c_chain := s2c_chain keys;
              ek_nonce_salt := nonce_salt keys;
              transcript_hash := th;
              report_data := rd;
              server_ratchet_pk := pk;
              ek_client_ratchet_pk := client_ratchet_pk client_hello;
              server_attestation_evidence := evidence_bytes |}), rng)
  end.
End State.

(** ** Lemmas *)

Lemma CipherSuite_validate_spec s :
  CipherSuite_validate s = Ok tt <-> s = CipherSuite_default_phase1.
Proof.
  split; [|by intros ->].
  unfold CipherSuite_validate, KemId_from_u16, HashId_from_u8, AeadId_from_u8.
  destruct s as [k a h]; cbn [kem aead hash]. intros E.
  repeat match type of E with
  | context [?x =? ?c] => destruct (Z.eqb_spec x c); subst; cbn in E
  end; try discriminate E.
  reflexivity.
Qed.

Lemma encode_msg_ok `{PostcardLaws T} (x : T) :
  exists l, encode_msg x = Ok l /\ decode_msg l = Ok x.
Proof.
  destruct (postcard_ok x) as (l & He & Hd). exists l.
  unfold encode_msg, decode_msg. by rewrite He, Hd.
Qed.

Lemma sig_domains_disjoint x y : SIG_DOMAIN_BUNDLE ++ x <> SIG_DOMAIN_HANDSHAKE ++ y.
Proof. done. Qed.

(** ** Claims *)

Section Agreement.
Context {R : Type} `{!MlKem R, !MlKemLaws R, !X25519 R, !X25519Laws R, !Rng R, !Hkdf, !Sha2,
  !Postcard ClientHello, !PostcardLaws ClientHello, !Postcard ServerHello, !PostcardLaws ServerHello}.

(** The agreement, for use by the session theorems. *)
Lemma initiate_respond_complete (r0 r0' rng : R) pq_sk pq_pk spk_sk bundle :
  ml_kem_keypair r0 = ((pq_sk, pq_pk), r0') ->
  pq_pk_mlkem bundle = ml_kem_pk_bytes pq_pk ->
  spk_pk_x25519 bundle = x25519_public spk_sk ->
  exists client hello rng1,
    ClientHandshake_initiate rng bundle = (Ok (client, hello), rng1) /\
    forall ratchet_sk, exists rd h,
    forall rng2 make_evidence_and_sig verify_signature,
    let resp := (ServerHandshake_respond
                   {| spk_sk_x25519 := spk_sk; pq_sk_mlkem := pq_sk |}
                   rng2 hello ratchet_sk make_evidence_and_sig).1 in
    match make_evidence_and_sig rd h with
    | Err e => resp = Err e
    | Ok (ev, sig) => exists server_hello keys,
        resp = Ok (server_hello, keys)
        /\ report_data keys = rd /\ server_attestation_evidence keys = ev
        /\ ClientHandshake_complete client server_hello verify_signature
           = (let? _ := verify_signature h sig in Ok keys)
    end.
Proof.
  intros Hg Hpq Hspk.
  unfold ClientHandshake_initiate. rewrite Hpq, Hspk.
  unfold ml_kem_pk_from_bytes, ml_kem_pk_bytes.
  rewrite decide_True, mlkem_pk_roundtrip by apply mlkem_pk_len.
  destruct (hybrid_encap rng pq_pk (x25519_public spk_sk)) as [[[ct cpk] ss] rng1] eqn:He.
  assert (Hct : ml_kem_ct_from_bytes (ml_kem_ct_bytes ct) = Some ct).
  { unfold ml_kem_ct_from_bytes, ml_kem_ct_bytes. apply decide_True. revert He.
    unfold hybrid_encap. pose proof (mlkem_ct_len pq_pk rng) as L.
    destruct (mlkem_encapsulate pq_pk rng) as [[c s] r]. destruct (x25519_random r).
    by intros [= <- _ _ _]. }
  pose proof (hybrid_decap_encap _ _ _ _ _ _ _ _ _ _ Hg He) as Hd.
  destruct (fill_bytes RANDOM_LEN rng1) as [cr rng2].
  destruct (fill_bytes ATTESTATION_NONCE_LEN rng2) as [an rng3].
  destruct (x25519_random rng3) as [rsk rng4].
  match goal with |- context [encode_msg ?h] => destruct (encode_msg_ok h) as (hb & Hh & Hhd) end.
  rewrite Hh. cbn [result_bind]. do 3 eexists. split; [reflexivity|].
  intros ratchet_sk.
  exists (compute_report_data an (x25519_public ratchet_sk) ss),
    (Transcript_hash (Transcript_update Transcript_new hb)).
  intros r2 mk vf. unfold ServerHandshake_respond.
  rewrite Hhd. cbn [result_bind ch_version cipher_suite client_mlkem_ct client_x25519_pk
    attestation_nonce client_ratchet_pk spk_sk_x25519 pq_sk_mlkem].
  rewrite decide_False by (intros []; done).
  rewrite (proj2 (CipherSuite_validate_spec _) eq_refl), Hct. cbn [result_bind ok_or].
  rewrite Hd. cbn [result_bind map_err].
  destruct (mk _ _) as [[ev sig]|e]; [|done]. cbn [result_bind].
  destruct (fill_bytes RANDOM_LEN r2) as [sr r3].
  match goal with |- context [encode_msg ?h] => destruct (encode_msg_ok h) as (sb & Hs & Hsd) end.
  rewrite Hs. cbn [result_bind fst]. do 2 eexists. split; [reflexivity|].
  split; [done|]. split; [done|].
  unfold ClientHandshake_complete. rewrite Hsd.
  cbn [result_bind sh_version transcript signature server_x25519_pk attestation_evidence
    hs_attestation_nonce client_ratchet_sk].
  by rewrite decide_False by (intros []; done).
Qed.

(** C4. Key agreement.  Against a bundle that carries the server's pre-keys,
    [initiate] succeeds; the server's [respond] to that hello fails only if
    its evidence callback does, with that error; and on the server's reply
    the client's [complete] fails only if the signature callback does, with
    that error, and otherwise derives exactly the server's keys (root, both
    chains, nonce salt, transcript hash, report data and both ratchet keys).
    The report data and the hash the two callbacks are given do not depend on
    the server's randomness. *)
Theorem handshake_agreement (r0 r0' rng : R) pq_sk pq_pk spk_sk bundle :
  ml_kem_keypair r0 = ((pq_sk, pq_pk), r0') ->
  pq_pk_mlkem bundle = ml_kem_pk_bytes pq_pk ->
  spk_pk_x25519 bundle = x25519_public spk_sk ->
  exists client hello rng1,
    ClientHandshake_initiate rng bundle = (Ok (client, hello), rng1) /\
    forall ratchet_sk, exists rd h,
    forall rng2 make_evidence_and_sig verify_signature,
    let resp := (ServerHandshake_respond
                   {| spk_sk_x25519 := spk_sk; pq_sk_mlkem := pq_sk |}
                   rng2 hello ratchet_sk make_evidence_and_sig).1 in
    match make_evidence_and_sig rd h with
    | Err e => resp = Err e
    | Ok (ev, sig) => exists server_hello keys,
        resp = Ok (server_hello, keys)
        /\ report_data keys = rd /\ server_attestation_evidence keys = ev
        /\ ClientHandshake_complete client server_hello verify_signature
           = (let? _ := verify_signature h sig in Ok keys)
    end.
Proof. apply initiate_respond_complete. Qed.
End Agreement.

Lemma handshake_agreement_witness :
  let kp := ml_kem_keypair 5 in
  let bundle := {| id_pk := []; spk_pk_x25519 := x25519_public [Byte.x07];
                   pq_pk_mlkem := ml_kem_pk_bytes kp.1.2; bundle_evidence := [];
                   bundle_signature := [] |} in
  exists client hello rng1 server_hello keys,
    ClientHandshake_initiate 11 bundle = (Ok (client, hello), rng1)
    /\ (ServerHandshake_respond {| spk_sk_x25519 := [Byte.x07]; pq_sk_mlkem := kp.1.1 |}
          13 hello [Byte.x09] (fun _ _ => Ok ([Byte.xaa], []))).1 = Ok (server_hello, keys)
    /\ ClientHandshake_complete client server_hello (fun _ _ => Ok tt) = Ok keys.
Proof.
  intros kp bundle.
  destruct (handshake_agreement 5 kp.2 11 kp.1.1 kp.1.2 [Byte.x07] bundle)
    as (client & hello & rng1 & Hi & Ha); [reflexivity..|].
  destruct (Ha [Byte.x09]) as (rd & h & Hr).
  destruct (Hr 13 (fun _ _ => Ok ([Byte.xaa], [])) (fun _ _ => Ok tt))
    as (sh & keys & Hresp & _ & _ & Hc).
  exact (ex_intro _ client (ex_intro _ hello (ex_intro _ rng1 (ex_intro _ sh (ex_intro _ keys
    (conj Hi (conj Hresp Hc))))))).
Defined.

(** What the attestation binds: if two handshakes (for instance the
    client's and a relay's) have the same report data, they have the same
    attestation nonce, the same server ratchet key and the same hybrid
    secret, or the two different messages of that SHA-512, or the two
    different hybrid secrets under SHA-256, have one digest. *)
Theorem report_data_binds `{Sha2Laws} n1 n2 pk1 pk2 h1 h2 :
  length n1 = ATTESTATION_NONCE_LEN -> length n2 = ATTESTATION_NONCE_LEN ->
  length pk1 = 32%nat -> length pk2 = 32%nat ->
  compute_report_data n1 pk1 h1 = compute_report_data n2 pk2 h2 ->
  (n1 = n2 /\ pk1 = pk2 /\ h1 = h2)
  \/ sha512_collide (n1 ++ pk1 ++ sha256 h1) (n2 ++ pk2 ++ sha256 h2) \/ sha256_collide h1 h2.
Proof.
  intros L1 L2 P1 P2 E. unfold compute_report_data in E.
  apply sha512_eq_or in E as [E|C]; [|by right; left].
  apply app_inj_length_1 in E as [-> E]; [|congruence].
  apply app_inj_length_1 in E as [-> E]; [|congruence].
  apply sha256_eq_or in E as [->|C]; [by left|by right; right].
Qed.

Lemma report_data_binds_witness :
  let n := replicate 32 Byte.x01 in let pk := replicate 32 Byte.x02 in
  compute_report_data n pk [Byte.x03] = compute_report_data n pk [Byte.x03]
  /\ ((n = n /\ pk = pk /\ [Byte.x03] = [Byte.x03])
      \/ sha512_collide (n ++ pk ++ sha256 [Byte.x03]) (n ++ pk ++ sha256 [Byte.x03])
      \/ sha256_collide [Byte.x03] [Byte.x03]).
Proof. intros n pk. split; [reflexivity|]. by apply report_data_binds. Defined.

(** No downgrade and no cross-protocol message: a hello the server answers
    decodes to the current protocol version, the one implemented cipher suite
    and a ciphertext of the right length, and any other hello is refused
    before the evidence callback, the secret keys or the generator are used. *)
Theorem respond_guards {R} `{!MlKem R, !X25519 R, !Rng R, !Hkdf, !Sha2,
    !Postcard ClientHello, !Postcard ServerHello} (s : ServerHandshake) (rng : R) hello rsk mk :
  match decode_msg (T := ClientHello) hello with
  | Err e => ServerHandshake_respond s rng hello rsk mk = (Err e, rng)
  | Ok ch =>
      if decide (ch_version ch = PROTOCOL_VERSION) then
        if decide (cipher_suite ch = CipherSuite_default_phase1) then
          length (client_mlkem_ct ch) = MLKEM_CT_BYTES
          \/ ServerHandshake_respond s rng hello rsk mk
             = (Err (Other (lit "invalid ML-KEM ciphertext in client hello")), rng)
        else ServerHandshake_respond s rng hello rsk mk = (Err BadCipherSuite, rng)
      else ServerHandshake_respond s rng hello rsk mk
           = (Err (BadVersion (ch_version ch) PROTOCOL_VERSION), rng)
  end.
Proof.
  unfold ServerHandshake_respond. destruct (decode_msg hello) as [ch|e]; [|done]. cbn [result_bind].
  destruct (decide (ch_version ch = PROTOCOL_VERSION)) as [Hv|Hv].
  2:{ by rewrite decide_True. }
  rewrite (decide_False (P := ch_version ch <> PROTOCOL_VERSION)) by (intros Hn; by apply Hn).
  destruct (decide (cipher_suite ch = CipherSuite_default_phase1)) as [Hc|Hc].
  - rewrite (proj2 (CipherSuite_validate_spec _) Hc). cbn [result_bind].
    unfold ml_kem_ct_from_bytes. destruct (decide (length (client_mlkem_ct ch) = MLKEM_CT_BYTES));
      [by left|by right].
  - destruct (CipherSuite_validate (cipher_suite ch)) as [[]|e] eqn:Hs.
    + by apply CipherSuite_validate_spec in Hs.
    + replace e with BadCipherSuite; [done|]. revert Hs. unfold CipherSuite_validate.
      by repeat case_match; intros [= <-].
Qed.
