(* ===== verification/Attest.v ===== *)
(** * Attestation evidence, the mock backend, the TEE identity and the
    client's bundle check

    [crates/ullm-attest/src]: [evidence.rs], [verifier.rs], [mock.rs];
    [crates/ullm-tee/src/identity.rs]; [crates/ullm-client/src/attest_check.rs].
    The [Verifier] trait is a class with an instance per backend. *)

From S2P Require Import Prelude RustStd Core Crates Toy Crypto Handshake.
From Stdlib Require Import Lia.

Local Open Scope Z_scope.

(** ** evidence.rs *)

Inductive QuoteKind := Tdx | Snp | Mock.

Record Evidence := {
  cpu_quote_kind : QuoteKind;
  cpu_quote : bytes;
  gpu_quote : bytes;
  cert_chain : list bytes;
  ev_report_data : bytes;   (** [report_data] *)
  issued_at_unix : Z;
}.

#[export] Instance QuoteKind_eq_dec : EqDecision QuoteKind.
Proof. solve_decision. Defined.
#[export] Instance Evidence_eq_dec : EqDecision Evidence.
Proof. solve_decision. Defined.

Definition QuoteKind_index (k : QuoteKind) : Z := match k with Tdx => 0 | Snp => 1 | Mock => 2 end.
Definition QuoteKind_of_index (n : Z) : QuoteKind := if n =? 0 then Tdx else if n =? 1 then Snp else Mock.

#[export] Program Instance Evidence_countable : Countable Evidence :=
  inj_countable'
    (fun e => (QuoteKind_index (cpu_quote_kind e), cpu_quote e, gpu_quote e, cert_chain e,
               ev_report_data e, issued_at_unix e))
    (fun '(k, c, g, ch, r, t) => Build_Evidence (QuoteKind_of_index k) c g ch r t) _.
Next Obligation. by intros [[] ? ? ? ? ?]. Qed.

Definition encode_evidence `{Postcard Evidence} (ev : Evidence) : Result bytes := encode_msg ev.
Definition decode_evidence `{Postcard Evidence} (l : bytes) : Result Evidence := decode_msg l.

(** ** verifier.rs *)

Record VerificationContext := {
  expected_report_data : bytes;
  now_unix_ctx : Z;         (** [now_unix] *)
  max_age_sec : Z;
}.

Class Verifier (V : Type) := {
  verify : V -> Evidence -> VerificationContext -> Result unit;
  attestation_identity : V -> Evidence -> option bytes;
}.

(** ** mock.rs *)

Record MockIssuer := { signing : bytes }.

Definition MockIssuer_random `{Ed25519Gen R} (rng : R) : MockIssuer * R :=
  let '(sk, rng) := ed25519_generate rng in ({| signing := sk |}, rng).

Definition MockIssuer_verifying_key `{Ed25519} (i : MockIssuer) : bytes := ed25519_public (signing i).

Definition MockIssuer_issue `{Ed25519} (i : MockIssuer) (rd : bytes) (now_unix : Z) : Evidence :=
  let msg := rd ++ to_be_bytes 8 now_unix in
  let sig := ed25519_sign (signing i) msg in
  {| cpu_quote_kind := Mock;
     cpu_quote := sig;
     gpu_quote := [];
     cert_chain := [MockIssuer_verifying_key i];
     ev_report_data := rd;
     issued_at_unix := now_unix |}.

Record MockVerifier := { trust_root : bytes }.

Definition MockVerifier_new (trust_root : bytes) : MockVerifier := {| trust_root := trust_root |}.

Definition MockVerifier_verify `{Ed25519, !Subtle} (v : MockVerifier) (ev : Evidence)
    (ctx : VerificationContext) : Result unit :=
  if decide (cpu_quote_kind ev <> Mock) then
    Err (AttestationFailed (lit "expected mock quote kind"))
  else if negb (ct_eq (ev_report_data ev) (expected_report_data ctx)) then
    Err (AttestationFailed (lit "report_data mismatch"))
  else if (max_age_sec ctx <? saturating_sub (now_unix_ctx ctx) (issued_at_unix ev)) then
    Err (StaleAttestation (max_age_sec ctx))
  else
  let? cert_pk_bytes := ok_or (head (cert_chain ev)) (AttestationFailed (lit "missing cert")) in
  if decide (length cert_pk_bytes <> 32%nat) then Err (AttestationFailed (lit "bad cert length")) else
  if decide (cert_pk_bytes <> trust_root v) then
    Err (AttestationFailed (lit "untrusted attestation key"))
  else if decide (length (cpu_quote ev) <> 64%nat) then
    Err (AttestationFailed (lit "bad signature length"))
  else
  let msg := ev_report_data ev ++ to_be_bytes 8 (issued_at_unix ev) in
  if ed25519_verify (trust_root v) msg (cpu_quote ev) then Ok tt
  else Err (AttestationFailed (lit "bad signature")).

Definition MockVerifier_attestation_identity `{Sha2} (v : MockVerifier) (ev : Evidence) : option bytes :=
  Some (sha256 (lit "ullm/mock-verifier/v1" ++ trust_root v ++ ev_report_data ev)).

#[export] Instance MockVerifier_Verifier `{Ed25519, !Subtle, !Sha2} : Verifier MockVerifier := {|
  verify := MockVerifier_verify;
  attestation_identity := MockVerifier_attestation_identity;
|}.

(** ** identity.rs *)

(** The two copies of this function, on the TEE and on the client, are the
    same. *)
Definition bundle_report_data `{Sha2} (id_pk spk_pk pq_pk nonce weight_commit : bytes) : bytes :=
  sha512 (lit "ULLM-v1 bundle-attest" ++ id_pk ++ spk_pk ++ pq_pk ++ nonce ++ weight_commit).

Section Identity.
Context {R : Type} `{!MlKem R, !X25519 R, !Ed25519, !Sha2, !Postcard Evidence}.

Record TeeIdentity := {
  id_sk : bytes;
  tee_spk_sk_x25519 : bytes;
  tee_spk_pk_x25519 : bytes;
  tee_pq_sk_mlkem : MlKemSecretKey;
  tee_pq_pk_mlkem : MlKemPublicKey;
  attest_issuer : MockIssuer;
  weight_commit : bytes;
}.

Definition TeeIdentity_random `{!Ed25519Gen R} (rng : R) (weight_commit : bytes) : TeeIdentity * R :=
  let '(id_sk, rng) := ed25519_generate rng in
  let '(spk_sk, rng) := x25519_random rng in
  let spk_pk := x25519_public spk_sk in
  let '((pq_sk, pq_pk), rng) := ml_kem_keypair rng in
  let '(attest_issuer, rng) := MockIssuer_random rng in
  ({| id_sk := id_sk;
      tee_spk_sk_x25519 := spk_sk;
      tee_spk_pk_x25519 := spk_pk;
      tee_pq_sk_mlkem := pq_sk;
      tee_pq_pk_mlkem := pq_pk;
      attest_issuer := attest_issuer;
      weight_commit := weight_commit |}, rng).

Definition TeeIdentity_id_pk (t : TeeIdentity) : bytes := ed25519_public (id_sk t).

(** [None] is the panic of the [expect] on the evidence encoding. *)
Definition TeeIdentity_build_bundle (t : TeeIdentity) (attestation_nonce : bytes) (now_unix : Z)
  : option PreKeyBundle :=
  let pq_pk_bytes := ml_kem_pk_bytes (tee_pq_pk_mlkem t) in
  let id_pk_bytes := TeeIdentity_id_pk t in
  let spk_pk_bytes := tee_spk_pk_x25519 t in
  let rd := bundle_report_data id_pk_bytes spk_pk_bytes pq_pk_bytes attestation_nonce
              (weight_commit t) in
  let evidence := MockIssuer_issue (attest_issuer t) rd now_unix in
  match encode_evidence evidence with
  | Err _ => None
  | Ok evidence_bytes =>
      let to_sign := SIG_DOMAIN_BUNDLE ++ id_pk_bytes ++ spk_pk_bytes ++ pq_pk_bytes
                     ++ evidence_bytes in
      Some {| id_pk := id_pk_bytes;
              spk_pk_x25519 := spk_pk_bytes;
              pq_pk_mlkem := pq_pk_bytes;
              bundle_evidence := evidence_bytes;
              bundle_signature := ed25519_sign (id_sk t) to_sign |}
  end.
End Identity.
Arguments TeeIdentity R {_}.

(** ** attest_check.rs *)

Definition verify_bundle `{Ed25519, !Subtle, !Sha2, !Postcard Evidence} (bundle : PreKeyBundle)
    (expected_nonce expected_weight_commit trust_root : bytes) (now_unix max_age : Z) : Result bytes :=
  if negb (ed25519_pk_valid (id_pk bundle)) then
    Err (AttestationFailed (lit "invalid id_pk"))
  else
  let to_verify := SIG_DOMAIN_BUNDLE ++ id_pk bundle ++ spk_pk_x25519 bundle ++ pq_pk_mlkem bundle
                   ++ bundle_evidence bundle in
  if negb (ed25519_verify (id_pk bundle) to_verify (bundle_signature bundle)) then
    Err (AttestationFailed (lit "bad bundle signature"))
  else
  let? evidence := decode_evidence (bundle_evidence bundle) in
  let expected := bundle_report_data (id_pk bundle) (spk_pk_x25519 bundle) (pq_pk_mlkem bundle)
                    expected_nonce expected_weight_commit in
  let verifier := {| trust_root := trust_root |} in
  let ctx := {| expected_report_data := expected; now_unix_ctx := now_unix; max_age_sec := max_age |} in
  let? _ := verify verifier evidence ctx in
  Ok (id_pk bundle).

(** ** Lemmas *)

Lemma MockVerifier_verify_Ok `{Ed25519, !Subtle, !SubtleLaws} v ev ctx :
  MockVerifier_verify v ev ctx = Ok tt <->
  cpu_quote_kind ev = Mock /\ ev_report_data ev = expected_report_data ctx
  /\ saturating_sub (now_unix_ctx ctx) (issued_at_unix ev) <= max_age_sec ctx
  /\ head (cert_chain ev) = Some (trust_root v) /\ length (trust_root v) = 32%nat
  /\ length (cpu_quote ev) = 64%nat
  /\ ed25519_verify (trust_root v) (ev_report_data ev ++ to_be_bytes 8 (issued_at_unix ev))
       (cpu_quote ev) = true.
Proof.
  unfold MockVerifier_verify. split.
  - intros E.
    destruct (decide (cpu_quote_kind ev <> Mock)) as [|Hk]; [done|].
    destruct (ct_eq _ _) eqn:Hc; [|done]. apply ct_eq_spec in Hc. cbn [negb] in E.
    destruct (Z.ltb_spec (max_age_sec ctx) (saturating_sub (now_unix_ctx ctx) (issued_at_unix ev)));
      [done|].
    destruct (head (cert_chain ev)) as [c|]; [|done]. cbn [ok_or result_bind] in E.
    destruct (decide (length c <> 32%nat)) as [|Hl]; [done|].
    destruct (decide (c <> trust_root v)) as [|Ht]; [done|].
    destruct (decide (length (cpu_quote ev) <> 64%nat)) as [|Hq]; [done|].
    destruct (ed25519_verify _ _ _) eqn:Hv; [|done].
    apply dec_stable in Hk, Hl, Ht, Hq. subst c. split_and!; try done; lia.
  - intros (Hk & Hc & Hage & Hh & Hl & Hq & Hv).
    rewrite decide_False by (intros Hn; by apply Hn).
    rewrite (proj2 (ct_eq_spec _ _) Hc). cbn [negb].
    destruct (Z.ltb_spec (max_age_sec ctx) (saturating_sub (now_unix_ctx ctx) (issued_at_unix ev)));
      [lia|].
    rewrite Hh. cbn [ok_or result_bind].
    rewrite !decide_False by (intros Hn; by apply Hn). by rewrite Hv.
Qed.

Section Bundle.
Context {R : Type} `{!MlKem R, !MlKemLaws R, !X25519 R, !Ed25519, !Ed25519Laws, !Subtle, !SubtleLaws,
  !Sha2, !Postcard Evidence, !PostcardLaws Evidence}.

(** The evidence a bundle built by the identity carries. *)
Lemma build_bundle_shape (t : TeeIdentity R) nonce now :
  exists b, TeeIdentity_build_bundle t nonce now = Some b
  /\ id_pk b = TeeIdentity_id_pk t /\ spk_pk_x25519 b = tee_spk_pk_x25519 t
  /\ pq_pk_mlkem b = ml_kem_pk_bytes (tee_pq_pk_mlkem t)
  /\ bundle_signature b = ed25519_sign (id_sk t)
       (SIG_DOMAIN_BUNDLE ++ id_pk b ++ spk_pk_x25519 b ++ pq_pk_mlkem b ++ bundle_evidence b)
  /\ decode_evidence (bundle_evidence b)
     = Ok (MockIssuer_issue (attest_issuer t)
             (bundle_report_data (id_pk b) (spk_pk_x25519 b) (pq_pk_mlkem b) nonce (weight_commit t))
             now).
Proof.
  unfold TeeIdentity_build_bundle, encode_evidence, decode_evidence.
  match goal with |- context [encode_msg ?e] => destruct (encode_msg_ok e) as (l & He & Hd) end.
  rewrite He. eexists. split; [reflexivity|]. cbn. split_and!; done.
Qed.

Lemma verify_issued (i : MockIssuer) rd now ctx tr :
  MockVerifier_verify {| trust_root := tr |} (MockIssuer_issue i rd now) ctx = Ok tt <->
  rd = expected_report_data ctx /\ saturating_sub (now_unix_ctx ctx) now <= max_age_sec ctx
  /\ tr = MockIssuer_verifying_key i.
Proof.
  rewrite MockVerifier_verify_Ok. cbn. split.
  - intros (_ & Hr & Ha & Ht & _). split_and!; [done|done|congruence].
  - intros (Hr & Ha & ->). unfold MockIssuer_verifying_key.
    split_and!; auto using ed25519_public_len, ed25519_sign_len, ed25519_sign_verify.
Qed.

(** The message under [bundle_report_data], for the keys of a bundle. *)
Definition bundle_message (b : PreKeyBundle) (nonce wc : bytes) : bytes :=
  lit "ULLM-v1 bundle-attest" ++ id_pk b ++ spk_pk_x25519 b ++ pq_pk_mlkem b ++ nonce ++ wc.

Lemma bundle_message_inj b n1 w1 n2 w2 :
  length n1 = length n2 -> bundle_message b n1 w1 = bundle_message b n2 w2 -> n1 = n2 /\ w1 = w2.
Proof. intros Hn E. do 4 apply app_inv_head in E. by apply app_inj_length_1 in E. Qed.

Lemma report_data_bundle_iff b n1 w1 n2 w2 :
  length n1 = length n2 ->
  bundle_report_data (id_pk b) (spk_pk_x25519 b) (pq_pk_mlkem b) n1 w1
  = bundle_report_data (id_pk b) (spk_pk_x25519 b) (pq_pk_mlkem b) n2 w2 <->
  (n1 = n2 /\ w1 = w2) \/ sha512_collide (bundle_message b n1 w1) (bundle_message b n2 w2).
Proof.
  intros Hn. split.
  - intros [E|C]%sha512_eq_or; [left|by right]. by eapply bundle_message_inj.
  - by intros [[-> ->]|[_ E]].
Qed.

(** The pre-keys of an identity are key pairs. *)
Definition identity_wf (t : TeeIdentity R) : Prop :=
  tee_spk_pk_x25519 t = x25519_public (tee_spk_sk_x25519 t)
  /\ exists r r', ml_kem_keypair r = ((tee_pq_sk_mlkem t, tee_pq_pk_mlkem t), r').

Lemma identity_random_wf `{!Ed25519Gen R} (r : R) wc : identity_wf (TeeIdentity_random r wc).1.
Proof.
  unfold TeeIdentity_random. destruct (ed25519_generate r) as [i r1].
  destruct (x25519_random r1) as [s r2]. destruct (ml_kem_keypair r2) as [[q p] r3] eqn:Hk.
  destruct (MockIssuer_random r3) as [a r4]. split; [done|]. by exists r2, r3.
Qed.

(** The check of a built bundle comes down to the check of its evidence. *)
Lemma verify_built_bundle (t : TeeIdentity R) nonce now b nonce' wc' tr now' age :
  TeeIdentity_build_bundle t nonce now = Some b ->
  verify_bundle b nonce' wc' tr now' age
  = let? _ := MockVerifier_verify {| trust_root := tr |}
      (MockIssuer_issue (attest_issuer t)
         (bundle_report_data (id_pk b) (spk_pk_x25519 b) (pq_pk_mlkem b) nonce (weight_commit t)) now)
      {| expected_report_data := bundle_report_data (id_pk b) (spk_pk_x25519 b) (pq_pk_mlkem b) nonce' wc';
         now_unix_ctx := now'; max_age_sec := age |} in
    Ok (TeeIdentity_id_pk t).
Proof.
  intros Hb. destruct (build_bundle_shape t nonce now) as (b' & Hb' & Hid & Hspk & Hpq & Hsig & Hev).
  rewrite Hb in Hb'. injection Hb' as <-.
  unfold verify_bundle. rewrite Hsig, Hev, <- Hid.
  assert (Hvalid : ed25519_pk_valid (id_pk b) = true) by (rewrite Hid; apply ed25519_public_valid).
  assert (Hver : forall m, ed25519_verify (id_pk b) m (ed25519_sign (id_sk t) m) = true)
    by (intros m; rewrite Hid; apply ed25519_sign_verify).
  by rewrite Hvalid, Hver.
Qed.

(** C12. A client accepts the bundle of a TEE exactly when it should: the check
    of [verify_bundle] on what [build_bundle] produced succeeds if and only if
    the client trusts that TEE's attestation key, the evidence is no older than
    the limit, and the client asked with that nonce and expects that TEE's
    model, or else the two messages hashed for the report data, the TEE's and
    the client's, which differ in nothing but nonce and model, have one
    SHA-512; and on success it returns the TEE's identity key. *)
Theorem bundle_accepted_iff (t : TeeIdentity R) nonce now nonce' wc' tr now' age :
  length nonce = 32%nat -> length nonce' = 32%nat ->
  exists b, TeeIdentity_build_bundle t nonce now = Some b /\
  (forall pk, verify_bundle b nonce' wc' tr now' age = Ok pk <->
   pk = TeeIdentity_id_pk t
   /\ tr = MockIssuer_verifying_key (attest_issuer t)
   /\ saturating_sub now' now <= age
   /\ ((nonce = nonce' /\ weight_commit t = wc')
       \/ sha512_collide (bundle_message b nonce (weight_commit t)) (bundle_message b nonce' wc'))).
Proof.
  intros Hn Hn'. destruct (build_bundle_shape t nonce now) as (b & Hb & _).
  exists b. split; [done|]. rewrite (verify_built_bundle t nonce now b) by done.
  intros pk. rewrite <- report_data_bundle_iff by congruence. rewrite result_bind_Ok. split.
  - intros ([] & Hv & [= <-]). apply verify_issued in Hv as (Hr & Ha & Ht). by split_and!.
  - intros (-> & Ht & Ha & Hr). exists tt. split; [|done]. by apply verify_issued.
Qed.
End Bundle.

Lemma bundle_accepted_iff_witness :
  let t := (TeeIdentity_random 3 (replicate 32 Byte.x05)).1 in
  let nonce := replicate 32 Byte.x01 in
  exists b, TeeIdentity_build_bundle t nonce 1000 = Some b
    /\ verify_bundle b nonce (weight_commit t) (MockIssuer_verifying_key (attest_issuer t)) 1030
         NONCE_TTL_DEFAULT_SEC = Ok (TeeIdentity_id_pk t).
Proof.
  intros t nonce.
  destruct (bundle_accepted_iff t nonce 1000 nonce (weight_commit t)
    (MockIssuer_verifying_key (attest_issuer t)) 1030 NONCE_TTL_DEFAULT_SEC) as (b & Hb & Hok);
    [done..|].
  refine (ex_intro _ b (conj Hb (proj2 (Hok _) _))).
  split; [reflexivity|]. split; [reflexivity|]. split; [vm_compute; congruence|]. left. split; reflexivity.
Defined.
