(* ===== verification/Quotes.v ===== *)
(** * ullm-attest: TDX quotes, SEV-SNP reports and their signatures

    [crates/ullm-attest/src]: [tdx.rs], [snp.rs] and [signature.rs].  A parser
    is a function on the cursor the source threads through its reads; [reads]
    says what bytes a parser consumes for the value it returns, and composes.
    The P-256 and P-384 crates are interfaces. *)

From S2P Require Import Prelude RustStd RustText Core Crates.
From Stdlib Require Import Lia.

Local Open Scope Z_scope.

(** ** The cursor

    [tdx.rs] and [snp.rs] each have one; they differ in the error of a read
    past the end, which is given the length asked for and what remains. *)
Record Cursor := { buf : bytes; pos : nat }.

Definition Cursor_new (l : bytes) : Cursor := {| buf := l; pos := 0 |}.
Definition remaining (c : Cursor) : nat := length (buf c) - pos c.

Abbreviation Reader A := (Cursor -> Result (A * Cursor)).

Definition rret {A} (a : A) : Reader A := fun c => Ok (a, c).
Definition rbind {A B} (p : Reader A) (k : A -> Reader B) : Reader B := fun c =>
  let? (a, c) := p c in k a c.

Notation "'let&' x ':=' p 'in' k" := (rbind p (fun x => k))
  (at level 10, x name, p at level 200, k at level 200) : ullm_scope.

Section Cursor.
Context (past_end : nat -> nat -> Error).

Definition read_slice (n : nat) : Reader bytes := fun c =>
  if decide (remaining c < n)%nat then Err (past_end n (remaining c)) else
  Ok (slice (pos c) (pos c + n) (buf c), {| buf := buf c; pos := pos c + n |}).

Definition read_array (n : nat) : Reader bytes := let& s := read_slice n in rret s.

Definition read_u8 : Reader byte := let& s := read_array 1 in rret (default Byte.x00 (head s)).
Definition read_u16_le : Reader Z := let& s := read_array 2 in rret (from_le_bytes s).
Definition read_u32_le : Reader Z := let& s := read_array 4 in rret (from_le_bytes s).
Definition read_u64_le : Reader Z := let& s := read_array 8 in rret (from_le_bytes s).
End Cursor.

(** ** tdx.rs *)

Definition HEADER_LEN : nat := 48.
Definition TD_REPORT_LEN : nat := 584.
Definition ECDSA_P256_SIGNATURE_LEN : nat := 64.
Definition ECDSA_P256_PUBLIC_KEY_LEN : nat := 64.
Definition TEE_TYPE_TDX : Z := 0x81.
Definition ATT_KEY_TYPE_ECDSA_P256 : Z := 2.

Record QuoteHeader := {
  version : Z;
  att_key_type : Z;
  tee_type : Z;
  qe_vendor_id : bytes;
  user_data : bytes;
}.

Record TdReport := {
  tee_tcb_svn : bytes;
  mrseam : bytes;
  mrsignerseam : bytes;
  seamattributes : bytes;
  tdattributes : bytes;
  xfam : bytes;
  mrtd : bytes;
  mrconfigid : bytes;
  mrowner : bytes;
  mrownerconfig : bytes;
  rtmr0 : bytes;
  rtmr1 : bytes;
  rtmr2 : bytes;
  rtmr3 : bytes;
  td_report_data : bytes;   (** [report_data] *)
}.

Record TdxSignatureData := {
  ecdsa_signature : bytes;
  attestation_key : bytes;
  cert_data : bytes;
}.

Record TdxQuote := { header : QuoteHeader; td_report : TdReport; tdx_signature : TdxSignatureData }.

Definition TdxQuote_report_data (q : TdxQuote) : bytes := td_report_data (td_report q).

Definition znat (n : nat) : bytes := fmt_dec (Z.of_nat n).

Definition tdx_past_end (n rem : nat) : Error :=
  AttestationFailed (lit "read past end (" ++ znat n ++ lit " requested, " ++ znat rem ++ lit " remain)").

Definition parse_header : Reader QuoteHeader := fun c =>
  if decide (remaining c < HEADER_LEN)%nat then
    Err (AttestationFailed (lit "TDX quote shorter than header (" ++ znat (remaining c) ++ lit " bytes)"))
  else
  (let& version := read_u16_le tdx_past_end in
   let& att_key_type := read_u16_le tdx_past_end in
   let& tee_type := read_u32_le tdx_past_end in
   let& _reserved := read_u32_le tdx_past_end in
   let& qe_vendor_id := read_array tdx_past_end 16 in
   let& user_data := read_array tdx_past_end 20 in
   rret {| version := version; att_key_type := att_key_type; tee_type := tee_type;
           qe_vendor_id := qe_vendor_id; user_data := user_data |}) c.

Definition parse_td_report : Reader TdReport := fun c =>
  if decide (remaining c < TD_REPORT_LEN)%nat then
    Err (AttestationFailed (lit "TD report truncated (" ++ znat (remaining c) ++ lit " bytes remain)"))
  else
  let arr := read_array tdx_past_end in
  (let& tee_tcb_svn := arr 16%nat in
   let& mrseam := arr 48%nat in
   let& mrsignerseam := arr 48%nat in
   let& seamattributes := arr 8%nat in
   let& tdattributes := arr 8%nat in
   let& xfam := arr 8%nat in
   let& mrtd := arr 48%nat in
   let& mrconfigid := arr 48%nat in
   let& mrowner := arr 48%nat in
   let& mrownerconfig := arr 48%nat in
   let& rtmr0 := arr 48%nat in
   let& rtmr1 := arr 48%nat in
   let& rtmr2 := arr 48%nat in
   let& rtmr3 := arr 48%nat in
   let& report_data := arr 64%nat in
   rret {| tee_tcb_svn := tee_tcb_svn; mrseam := mrseam; mrsignerseam := mrsignerseam;
           seamattributes := seamattributes; tdattributes := tdattributes; xfam := xfam;
           mrtd := mrtd; mrconfigid := mrconfigid; mrowner := mrowner;
           mrownerconfig := mrownerconfig; rtmr0 := rtmr0; rtmr1 := rtmr1; rtmr2 := rtmr2;
           rtmr3 := rtmr3; td_report_data := report_data |}) c.

Definition TdxQuote_parse (l : bytes) : Result TdxQuote :=
  let? (header, c) := parse_header (Cursor_new l) in
  if negb (tee_type header =? TEE_TYPE_TDX) then
    Err (AttestationFailed (lit "expected TEE_TYPE_TDX, got 0x" ++ fmt_hex (tee_type header)))
  else if negb (att_key_type header =? ATT_KEY_TYPE_ECDSA_P256) then
    Err (AttestationFailed (lit "expected ECDSA-P256 attestation key, got "
                            ++ fmt_dec (att_key_type header)))
  else
  let? (td_report, c) := parse_td_report c in
  let? (sig_len, c) := read_u32_le tdx_past_end c in
  let sig_len := Z.to_nat sig_len in
  if decide (remaining c < sig_len)%nat then
    Err (AttestationFailed (lit "signature_data truncated: declared " ++ znat sig_len
                            ++ lit " bytes, " ++ znat (remaining c) ++ lit " remain"))
  else if decide (sig_len < ECDSA_P256_SIGNATURE_LEN + ECDSA_P256_PUBLIC_KEY_LEN)%nat then
    Err (AttestationFailed (lit "signature_data shorter than fixed prefix"))
  else
  let? (sig_bytes, c) := read_slice tdx_past_end sig_len c in
  let key_end := (ECDSA_P256_SIGNATURE_LEN + ECDSA_P256_PUBLIC_KEY_LEN)%nat in
  Ok {| header := header;
        td_report := td_report;
        tdx_signature := {|
          ecdsa_signature := slice 0 ECDSA_P256_SIGNATURE_LEN sig_bytes;
          attestation_key := slice ECDSA_P256_SIGNATURE_LEN key_end sig_bytes;
          cert_data := drop key_end sig_bytes |} |}.

Definition zeros (n : nat) : bytes := replicate n Byte.x00.

Definition synthesize_quote (report_data mrtd : bytes) : bytes :=
  to_le_bytes 2 4 ++ to_le_bytes 2 ATT_KEY_TYPE_ECDSA_P256 ++ to_le_bytes 4 TEE_TYPE_TDX
  ++ to_le_bytes 4 0 ++ zeros 16 ++ zeros 20
  ++ zeros 16 ++ zeros 48 ++ zeros 48 ++ zeros 8 ++ zeros 8 ++ zeros 8
  ++ mrtd ++ zeros 48 ++ zeros 48 ++ zeros 48 ++ zeros 48 ++ zeros 48 ++ zeros 48 ++ zeros 48
  ++ report_data
  ++ to_le_bytes 4 (Z.of_nat (ECDSA_P256_SIGNATURE_LEN + ECDSA_P256_PUBLIC_KEY_LEN))
  ++ zeros ECDSA_P256_SIGNATURE_LEN ++ zeros ECDSA_P256_PUBLIC_KEY_LEN.

(** ** snp.rs *)

Definition REPORT_LEN : nat := 1184.
Definition SIGNATURE_LEN : nat := 512.

Record SnpReport := {
  snp_version : Z;
  guest_svn : Z;
  snp_policy : Z;            (** [policy] *)
  family_id : bytes;
  image_id : bytes;
  vmpl : Z;
  signature_algo : Z;
  current_tcb : Z;
  platform_info : Z;
  flags : Z;
  snp_report_data : bytes;   (** [report_data] *)
  measurement : bytes;
  host_data : bytes;
  id_key_digest : bytes;
  author_key_digest : bytes;
  report_id : bytes;
  report_id_ma : bytes;
  reported_tcb : Z;
  chip_id : bytes;
  committed_tcb : Z;
  launch_tcb : Z;
  snp_signature : bytes;     (** [signature] *)
}.

Definition snp_past_end (n rem : nat) : Error := AttestationFailed (lit "SNP report truncated").

(** The reads of [SnpReport::parse], in order. *)
Definition read_snp_report : Reader SnpReport :=
  let arr := read_array snp_past_end in
  let u8 := read_u8 snp_past_end in
  let u32 := read_u32_le snp_past_end in
  let u64 := read_u64_le snp_past_end in
  let& version := u32 in
  let& guest_svn := u32 in
  let& policy := u64 in
  let& family_id := arr 16%nat in
  let& image_id := arr 16%nat in
  let& vmpl := u32 in
  let& signature_algo := u32 in
  let& current_tcb := u64 in
  let& platform_info := u64 in
  let& flags := u32 in
  let& _reserved_0 := u32 in
  let& report_data := arr 64%nat in
  let& measurement := arr 48%nat in
  let& host_data := arr 32%nat in
  let& id_key_digest := arr 48%nat in
  let& author_key_digest := arr 48%nat in
  let& report_id := arr 32%nat in
  let& report_id_ma := arr 32%nat in
  let& reported_tcb := u64 in
  let& _cpuid_fam_id := u8 in
  let& _cpuid_mod_id := u8 in
  let& _cpuid_step := u8 in
  let& _reserved_1 := arr 21%nat in
  let& chip_id := arr 64%nat in
  let& committed_tcb := u64 in
  let& _current_build := u8 in
  let& _current_minor := u8 in
  let& _current_major := u8 in
  let& _reserved_2 := u8 in
  let& _committed_build := u8 in
  let& _committed_minor := u8 in
  let& _committed_major := u8 in
  let& _reserved_3 := u8 in
  let& launch_tcb := u64 in
  let& _reserved_4 := arr 168%nat in
  let& signature := arr SIGNATURE_LEN in
  rret {| snp_version := version; guest_svn := guest_svn; snp_policy := policy; family_id := family_id;
          image_id := image_id; vmpl := vmpl; signature_algo := signature_algo;
          current_tcb := current_tcb; platform_info := platform_info; flags := flags;
          snp_report_data := report_data; measurement := measurement; host_data := host_data;
          id_key_digest := id_key_digest; author_key_digest := author_key_digest;
          report_id := report_id; report_id_ma := report_id_ma; reported_tcb := reported_tcb;
          chip_id := chip_id; committed_tcb := committed_tcb; launch_tcb := launch_tcb;
          snp_signature := signature |}.

Definition SnpReport_parse (l : bytes) : Result SnpReport :=
  if decide (length l < REPORT_LEN)%nat then
    Err (AttestationFailed (lit "SNP report shorter than " ++ znat REPORT_LEN ++ lit " bytes (got "
                            ++ znat (length l) ++ lit ")"))
  else
  let? (r, _) := read_snp_report (Cursor_new l) in Ok r.

Definition SnpReport_report_data (r : SnpReport) : bytes := snp_report_data r.

(** [out[i..i + x.len()].copy_from_slice(x)]. *)
Definition copy_at (i : nat) (x out : bytes) : bytes := take i out ++ x ++ drop (i + length x) out.

Definition synthesize_report (report_data measurement : bytes) : bytes :=
  let out := zeros REPORT_LEN in
  let out := copy_at 0 (to_le_bytes 4 3) out in
  let out := copy_at 80 report_data out in
  copy_at 144 measurement out.

(** ** signature.rs *)

Inductive curve := P256 | P384.

(** The [ecdsa] types of the [p256] and [p384] crates: keys from SEC1 bytes,
    signatures from fixed-size bytes, [normalize_s] and [verify]. *)
Class Ecdsa (c : curve) := {
  EcdsaKey : Type;
  EcdsaSignature : Type;
  key_from_sec1 : bytes -> option EcdsaKey;
  signature_from_slice : bytes -> option EcdsaSignature;
  normalize_s : EcdsaSignature -> option EcdsaSignature;
  ecdsa_verify : EcdsaKey -> bytes -> EcdsaSignature -> bool;
}.

Definition SNP_SIGNED_PREFIX : nat := 0x2A0.

Definition tdx_signed_body (quote_bytes : bytes) : Result bytes :=
  let need := (HEADER_LEN + TD_REPORT_LEN)%nat in
  if decide (length quote_bytes < need)%nat then
    Err (AttestationFailed (lit "tdx quote shorter than signed-body length (" ++ znat need ++ lit " bytes)"))
  else Ok (take need quote_bytes).

Definition verify_tdx_quote_signature `{!Ecdsa P256} (quote : TdxQuote) (raw_quote_bytes : bytes)
  : Result unit :=
  let failed := AttestationFailed (lit "tdx signature verification failed") in
  let? body := tdx_signed_body raw_quote_bytes in
  let sec1 := Byte.x04 :: attestation_key (tdx_signature quote) in
  let? vk := ok_or (key_from_sec1 sec1) failed in
  let? sig := ok_or (signature_from_slice (ecdsa_signature (tdx_signature quote))) failed in
  let sig := default sig (normalize_s sig) in
  if ecdsa_verify vk body sig then Ok tt else Err failed.

Definition snp_signed_body (report_bytes : bytes) : Result bytes :=
  if decide (length report_bytes < REPORT_LEN)%nat then
    Err (AttestationFailed (lit "snp report shorter than " ++ znat REPORT_LEN ++ lit " bytes"))
  else Ok (take SNP_SIGNED_PREFIX report_bytes).

Definition verify_snp_report_signature `{!Ecdsa P384} (report : SnpReport) (raw_report_bytes : bytes)
    (vcek_uncompressed : bytes) : Result unit :=
  let failed := AttestationFailed (lit "snp signature verification failed") in
  let? body := snp_signed_body raw_report_bytes in
  let? vk := ok_or (key_from_sec1 vcek_uncompressed) failed in
  let sig_block := snp_signature report in
  if decide (length sig_block < SIGNATURE_LEN)%nat then
    Err (AttestationFailed (lit "snp signature block truncated"))
  else
  let r_be := (fun i => default Byte.x00 (sig_block !! (47 - i)%nat)) <$> seq 0 48 in
  let s_be := (fun i => default Byte.x00 (sig_block !! (0x48 + 47 - i)%nat)) <$> seq 0 48 in
  let? sig := ok_or (signature_from_slice (r_be ++ s_be)) failed in
  let sig := default sig (normalize_s sig) in
  if ecdsa_verify vk body sig then Ok tt else Err failed.

(** ** What a parser consumes *)

Definition rest (c : Cursor) : bytes := drop (pos c) (buf c).
Definition cursor_ok (c : Cursor) : Prop := (pos c <= length (buf c))%nat.
Definition advance (n : nat) (c : Cursor) : Cursor := {| buf := buf c; pos := pos c + n |}.

(** [reads p P]: on a cursor inside its buffer, [p] returns [x] exactly when
    the bytes ahead start with some [w] that [P] relates to [x], and it moves
    over [w]. *)
Definition reads {A} (p : Reader A) (P : A -> bytes -> Prop) : Prop :=
  forall c x c', cursor_ok c ->
  p c = Ok (x, c') <-> exists w, P x w /\ w `prefix_of` rest c /\ c' = advance (length w) c.

Lemma remaining_rest c : remaining c = length (rest c).
Proof. unfold remaining, rest. by rewrite length_drop. Qed.

Lemma advance_ok c w : cursor_ok c -> w `prefix_of` rest c -> cursor_ok (advance (length w) c).
Proof.
  intros Hc Hw%prefix_length. unfold cursor_ok, rest, advance in *. rewrite length_drop in Hw. cbn. lia.
Qed.

Lemma rest_advance c w k : rest c = w ++ k -> rest (advance (length w) c) = k.
Proof.
  unfold rest, advance. cbn. intros E. by rewrite <- drop_drop, E, drop_app_length.
Qed.

Lemma advance_0 c : advance 0 c = c.
Proof. destruct c. unfold advance. cbn. f_equal. lia. Qed.

Lemma advance_add c n m : advance m (advance n c) = advance (n + m) c.
Proof. unfold advance. cbn. f_equal. lia. Qed.

Lemma reads_ext {A} (p : Reader A) (P Q : A -> bytes -> Prop) :
  reads p P -> (forall x w, P x w <-> Q x w) -> reads p Q.
Proof. intros H E c x c' Hc. rewrite (H c x c' Hc). by setoid_rewrite E. Qed.

Lemma reads_ret {A} (a : A) : reads (rret a) (fun x w => x = a /\ w = []).
Proof.
  intros c x c' _. unfold rret. split.
  - intros [= <- <-]. exists []. rewrite advance_0. split_and!; [done|done|apply prefix_nil|done].
  - intros (w & [-> ->] & _ & ->). by rewrite advance_0.
Qed.

Lemma reads_bind {A B} (p : Reader A) (k : A -> Reader B) P Q :
  reads p P -> (forall x, reads (k x) (Q x)) ->
  reads (rbind p k) (fun y w => exists x w1 w2, P x w1 /\ Q x y w2 /\ w = w1 ++ w2).
Proof.
  intros Hp Hk c y c' Hc. unfold rbind. split.
  - intros E. apply result_bind_Ok in E as ([x c1] & E1 & E2).
    apply Hp in E1 as (w1 & HP & Hw1 & ->); [|done].
    apply Hk in E2 as (w2 & HQ & [k2 Hw2] & ->); [|by apply advance_ok].
    exists (w1 ++ w2). rewrite advance_add, length_app. split_and!; [by exists x, w1, w2| |done].
    destruct Hw1 as [k1 Hw1]. apply rest_advance in Hw1 as Hr. exists k2. rewrite Hw1.
    rewrite Hr in Hw2. by rewrite Hw2, <- app_assoc.
  - intros (w & (x & w1 & w2 & HP & HQ & ->) & [k2 Hw] & ->). rewrite <- app_assoc in Hw.
    apply result_bind_Ok. exists (x, advance (length w1) c).
    assert (Hw1 : w1 `prefix_of` rest c) by (rewrite Hw; by eexists). split.
    + apply Hp; [done|]. by exists w1.
    + apply Hk; [by apply advance_ok|]. exists w2. apply rest_advance in Hw. rewrite Hw.
      split_and!; [done|by eexists|]. by rewrite advance_add, length_app.
Qed.

Lemma reads_map {A B} (p : Reader A) (f : A -> B) P :
  reads p P -> reads (let& x := p in rret (f x)) (fun y w => exists x, P x w /\ y = f x).
Proof.
  intros Hp. eapply reads_ext; [apply reads_bind; [exact Hp|intros; apply reads_ret]|].
  intros y w. split.
  - intros (x & w1 & w2 & HP & [-> ->] & ->). rewrite app_nil_r. by exists x.
  - intros (x & HP & ->). exists x, w, []. by rewrite app_nil_r.
Qed.

(** A length check in front of a parser that always needs that much. *)
Lemma reads_guard {A} (n : nat) (e : Cursor -> Error) (p : Reader A) P :
  reads p P -> (forall x w, P x w -> (n <= length w)%nat) ->
  reads (fun c => if decide (remaining c < n)%nat then Err (e c) else p c) P.
Proof.
  intros Hp Hn c x c' Hc. rewrite <- (Hp c x c' Hc). case_decide as D; [|done].
  split; [done|]. intros E. exfalso. apply Hp in E as (w & HP & Hw%prefix_length & _); [|done].
  apply Hn in HP. rewrite remaining_rest in D. lia.
Qed.

Section Reads.
Context (past_end : nat -> nat -> Error).

Lemma reads_slice n : reads (read_slice past_end n) (fun x w => x = w /\ length w = n).
Proof.
  intros c x c' Hc. unfold read_slice, slice. rewrite remaining_rest. unfold rest.
  rewrite Nat.add_sub_swap, Nat.sub_diag, Nat.add_0_l by lia. case_decide as D.
  - split; [done|]. intros (w & [-> Hl] & Hw%prefix_length & _). lia.
  - split.
    + intros [= <- <-]. eexists. split_and!; [done|rewrite length_take; lia| |].
      * exists (drop n (drop (pos c) (buf c))). by rewrite take_drop.
      * unfold advance. f_equal. rewrite length_take. lia.
    + intros (w & [-> <-] & [k Hw] & ->). rewrite Hw, take_app_length. done.
Qed.

Lemma reads_array n : reads (read_array past_end n) (fun x w => x = w /\ length w = n).
Proof.
  eapply reads_ext; [apply reads_bind; [apply reads_slice|intros; apply reads_ret]|].
  intros x w. split.
  - intros (? & ? & ? & [-> Hl] & [-> ->] & ->). by rewrite app_nil_r.
  - intros [-> Hl]. exists w, w, []. rewrite app_nil_r. naive_solver.
Qed.

Lemma reads_uint n (p : Reader Z) :
  p = (let& s := read_array past_end n in rret (from_le_bytes s)) ->
  reads p (fun x w => w = to_le_bytes n x /\ 0 <= x < 2 ^ (Z.of_nat n * 8)).
Proof.
  intros ->. eapply reads_ext; [apply reads_bind; [apply reads_array|intros; apply reads_ret]|].
  intros x w. split.
  - intros (? & l & ? & [-> Hl] & [-> ->] & ->). rewrite app_nil_r. split.
    + by rewrite to_from_le_bytes.
    + pose proof (from_le_bytes_bound l) as Hb. by rewrite Hl, Z.mul_comm in Hb.
  - intros [-> Hx]. eexists _, _, []. split_and!; [reflexivity|apply length_to_le_bytes|
      by rewrite from_to_le_bytes|done|by rewrite app_nil_r].
Qed.

Lemma reads_u16 : reads (read_u16_le past_end) (fun x w => w = to_le_bytes 2 x /\ is_u16 x).
Proof. by apply (reads_uint 2). Qed.
Lemma reads_u32 : reads (read_u32_le past_end) (fun x w => w = to_le_bytes 4 x /\ is_u32 x).
Proof. by apply (reads_uint 4). Qed.
End Reads.

(** ** The layout of a TDX quote *)

Definition header_bytes (h : QuoteHeader) (reserved : Z) : bytes :=
  to_le_bytes 2 (version h) ++ to_le_bytes 2 (att_key_type h) ++ to_le_bytes 4 (tee_type h)
  ++ to_le_bytes 4 reserved ++ qe_vendor_id h ++ user_data h.

Definition header_wf (h : QuoteHeader) : Prop :=
  is_u16 (version h) /\ is_u16 (att_key_type h) /\ is_u32 (tee_type h)
  /\ length (qe_vendor_id h) = 16%nat /\ length (user_data h) = 20%nat.

Definition td_report_bytes (t : TdReport) : bytes :=
  tee_tcb_svn t ++ mrseam t ++ mrsignerseam t ++ seamattributes t ++ tdattributes t ++ xfam t
  ++ mrtd t ++ mrconfigid t ++ mrowner t ++ mrownerconfig t ++ rtmr0 t ++ rtmr1 t ++ rtmr2 t
  ++ rtmr3 t ++ td_report_data t.

Definition td_report_wf (t : TdReport) : Prop :=
  length (tee_tcb_svn t) = 16%nat /\ length (mrseam t) = 48%nat /\ length (mrsignerseam t) = 48%nat
  /\ length (seamattributes t) = 8%nat /\ length (tdattributes t) = 8%nat /\ length (xfam t) = 8%nat
  /\ length (mrtd t) = 48%nat /\ length (mrconfigid t) = 48%nat /\ length (mrowner t) = 48%nat
  /\ length (mrownerconfig t) = 48%nat /\ length (rtmr0 t) = 48%nat /\ length (rtmr1 t) = 48%nat
  /\ length (rtmr2 t) = 48%nat /\ length (rtmr3 t) = 48%nat /\ length (td_report_data t) = 64%nat.

Definition signature_bytes (s : TdxSignatureData) : bytes :=
  ecdsa_signature s ++ attestation_key s ++ cert_data s.

(** A quote of the right kind whose arrays have their sizes and whose
    signature data has a length a [u32] can declare. *)
Definition tdx_wf (q : TdxQuote) : Prop :=
  header_wf (header q) /\ tee_type (header q) = TEE_TYPE_TDX
  /\ att_key_type (header q) = ATT_KEY_TYPE_ECDSA_P256 /\ td_report_wf (td_report q)
  /\ length (ecdsa_signature (tdx_signature q)) = ECDSA_P256_SIGNATURE_LEN
  /\ length (attestation_key (tdx_signature q)) = ECDSA_P256_PUBLIC_KEY_LEN
  /\ is_u32 (Z.of_nat (length (signature_bytes (tdx_signature q)))).

Definition tdx_bytes (q : TdxQuote) (reserved : Z) : bytes :=
  header_bytes (header q) reserved ++ td_report_bytes (td_report q)
  ++ to_le_bytes 4 (Z.of_nat (length (signature_bytes (tdx_signature q))))
  ++ signature_bytes (tdx_signature q).

(** Existentials and conjunctions of a composed [reads]. *)
Ltac unpack_reads :=
  repeat match goal with
  | H : exists _, _ |- _ => destruct H
  | H : _ /\ _ |- _ => destruct H
  end; subst.

Ltac solve_reads :=
  repeat first [apply reads_u16 | apply reads_u32 | apply reads_array | apply reads_ret | apply reads_map
               | (apply reads_bind; [|intros ?])].

Ltac pack_reads :=
  repeat match goal with
  | |- exists _, _ => eexists
  | |- _ /\ _ => split
  end; try reflexivity; assumption.

Lemma header_bytes_len h reserved : header_wf h -> length (header_bytes h reserved) = HEADER_LEN.
Proof. intros (_ & _ & _ & H1 & H2). unfold header_bytes, HEADER_LEN. solve_len. Qed.

Lemma td_report_bytes_len t : td_report_wf t -> length (td_report_bytes t) = TD_REPORT_LEN.
Proof. unfold td_report_wf, td_report_bytes, TD_REPORT_LEN. intros H. destruct_and!. solve_len. Qed.

Lemma reads_header :
  reads parse_header (fun h w => header_wf h /\ exists reserved, is_u32 reserved /\ w = header_bytes h reserved).
Proof.
  apply reads_guard.
  - eapply reads_ext; [solve_reads|]. intros h w. cbn beta. split.
    + intros H. unpack_reads. unfold header_wf, header_bytes. cbn.
      split; [done|]. by eexists.
    + intros ((? & ? & ? & ? & ?) & reserved & ? & ->). destruct h as [v k t q u]. cbn in *.
      unfold header_bytes. cbn. pack_reads.
  - intros x w (Hx & r & _ & ->). by rewrite header_bytes_len.
Qed.

Lemma reads_td_report :
  reads parse_td_report (fun t w => td_report_wf t /\ w = td_report_bytes t).
Proof.
  apply reads_guard.
  - eapply reads_ext; [solve_reads|]. intros t w. cbn beta. split.
    + intros H. unpack_reads. unfold td_report_wf, td_report_bytes. cbn.
      done.
    + intros [Hwf ->]. destruct t. unfold td_report_wf in Hwf. cbn in *. destruct_and!.
      unfold td_report_bytes. cbn. pack_reads.
  - intros x w (Hx & ->). by rewrite td_report_bytes_len.
Qed.

Lemma rest_new l : rest (Cursor_new l) = l.
Proof. unfold rest, Cursor_new. cbn. by rewrite drop_0. Qed.

Lemma new_ok l : cursor_ok (Cursor_new l).
Proof. unfold cursor_ok. cbn. lia. Qed.

(** A read that succeeds splits what is ahead. *)
Lemma reads_step {A} (p : Reader A) P c x c' :
  reads p P -> cursor_ok c -> p c = Ok (x, c') ->
  exists w, P x w /\ rest c = w ++ rest c' /\ cursor_ok c'.
Proof.
  intros Hp Hc E. apply Hp in E as (w & HP & Hw & ->); [|done]. exists w.
  split; [done|]. split; [|by apply advance_ok]. destruct Hw as [k Hk].
  by rewrite (rest_advance c w k Hk).
Qed.

(** A read succeeds when the right bytes are ahead. *)
Lemma reads_go {A} (p : Reader A) P c x w k :
  reads p P -> cursor_ok c -> P x w -> rest c = w ++ k ->
  exists c', p c = Ok (x, c') /\ rest c' = k /\ cursor_ok c'.
Proof.
  intros Hp Hc HP Hr. exists (advance (length w) c).
  assert (Hw : w `prefix_of` rest c) by (rewrite Hr; by eexists). split_and!.
  - apply Hp; [done|]. by exists w.
  - by apply rest_advance.
  - by apply advance_ok.
Qed.

Lemma tdx_parse_sound l q : TdxQuote_parse l = Ok q ->
  tdx_wf q /\ exists reserved trailing, is_u32 reserved /\ l = tdx_bytes q reserved ++ trailing.
Proof.
  unfold TdxQuote_parse. intros E. rewrite <- (rest_new l).
  apply result_bind_Ok in E as ([h c1] & E1 & E).
  apply (reads_step _ _ _ _ _ reads_header (new_ok _)) in E1
    as (w1 & (Hh & reserved & Hres & ->) & -> & Hc1).
  destruct (Z.eqb_spec (tee_type h) TEE_TYPE_TDX) as [Ht|]; [|done]. cbn [negb] in E.
  destruct (Z.eqb_spec (att_key_type h) ATT_KEY_TYPE_ECDSA_P256) as [Hk|]; [|done]. cbn [negb] in E.
  apply result_bind_Ok in E as ([t c2] & E2 & E).
  apply (reads_step _ _ _ _ _ reads_td_report Hc1) in E2 as (w2 & [Htd ->] & -> & Hc2).
  apply result_bind_Ok in E as ([sl c3] & E3 & E).
  apply (reads_step _ _ _ _ _ (reads_u32 _) Hc2) in E3 as (w3 & [-> Hsl] & -> & Hc3).
  case_decide as D1; [done|]. case_decide as D2; [done|].
  apply result_bind_Ok in E as ([sb c4] & E4 & E). apply Ok_inj in E. subst q.
  apply (reads_step _ _ _ _ _ (reads_slice _ _) Hc3) in E4 as (w4 & [-> Hl4] & -> & Hc4).
  unfold ECDSA_P256_SIGNATURE_LEN, ECDSA_P256_PUBLIC_KEY_LEN, is_u32 in *.
  assert (Hsb : slice 0 64 w4 ++ slice 64 (64 + 64) w4 ++ drop (64 + 64) w4 = w4).
  { unfold slice. rewrite drop_0, !Nat.sub_0_r, <- drop_drop.
    replace (64 + 64 - 64)%nat with 64%nat by lia. by rewrite !take_drop. }
  assert (Hz : Z.of_nat (length w4) = sl) by lia.
  split.
  - unfold tdx_wf, signature_bytes. cbn [header td_report tdx_signature ecdsa_signature attestation_key
      cert_data]. rewrite Hsb, Hz.
    split_and!; try done; try lia; rewrite length_slice; unfold ECDSA_P256_SIGNATURE_LEN,
      ECDSA_P256_PUBLIC_KEY_LEN; lia.
  - exists reserved, (rest c4). split; [done|]. unfold tdx_bytes, signature_bytes.
    cbn [header td_report tdx_signature ecdsa_signature attestation_key cert_data].
    by rewrite Hsb, Hz, <- !app_assoc.
Qed.

Lemma tdx_parse_complete q reserved trailing :
  tdx_wf q -> is_u32 reserved -> TdxQuote_parse (tdx_bytes q reserved ++ trailing) = Ok q.
Proof.
  intros (Hh & Ht & Hk & Htd & Hs & Ha & Hl) Hres.
  pose proof (rest_new (tdx_bytes q reserved ++ trailing)) as Hr. unfold tdx_bytes in *.
  rewrite <- !app_assoc in *. unfold TdxQuote_parse.
  destruct (reads_go _ _ _ (header q) _ _ reads_header (new_ok _) (conj Hh (ex_intro _ reserved (conj Hres eq_refl))) Hr)
    as (c1 & -> & Hr1 & Hc1). cbn [result_bind].
  rewrite Ht, Hk. cbn [Z.eqb TEE_TYPE_TDX ATT_KEY_TYPE_ECDSA_P256 Pos.eqb negb].
  destruct (reads_go _ _ _ (td_report q) _ _ reads_td_report Hc1 (conj Htd eq_refl) Hr1)
    as (c2 & -> & Hr2 & Hc2). cbn [result_bind].
  destruct (reads_go _ _ _ _ _ _ (reads_u32 tdx_past_end) Hc2 (conj eq_refl Hl) Hr2)
    as (c3 & -> & Hr3 & Hc3). cbn [result_bind]. rewrite Nat2Z.id.
  rewrite decide_False by (rewrite remaining_rest, Hr3, length_app; lia).
  rewrite decide_False by (unfold signature_bytes; rewrite !length_app; lia).
  destruct (reads_go _ _ _ _ _ _ (reads_slice tdx_past_end _) Hc3 (conj eq_refl eq_refl) Hr3)
    as (c4 & -> & _). cbn [result_bind].
  destruct q as [h t [s a c]]. unfold signature_bytes.
  cbn [header td_report tdx_signature ecdsa_signature attestation_key cert_data] in *.
  rewrite slice_app_exact by done. rewrite slice_app_skip by lia.
  rewrite Hs. rewrite slice_app_exact by lia.
  rewrite (app_assoc s a c), drop_app_length' by (rewrite length_app; lia). done.
Qed.

(** ** The layout of an SNP report *)

Definition le_at (i n : nat) (l : bytes) : Z := from_le_bytes (slice i (i + n) l).
Definition bytes_at (i n : nat) (l : bytes) : bytes := slice i (i + n) l.

(** The report by offsets, as the firmware interface documents it. *)
Definition snp_at (l : bytes) : SnpReport := {|
  snp_version := le_at 0x00 4 l;
  guest_svn := le_at 0x04 4 l;
  snp_policy := le_at 0x08 8 l;
  family_id := bytes_at 0x10 16 l;
  image_id := bytes_at 0x20 16 l;
  vmpl := le_at 0x30 4 l;
  signature_algo := le_at 0x34 4 l;
  current_tcb := le_at 0x38 8 l;
  platform_info := le_at 0x40 8 l;
  flags := le_at 0x48 4 l;
  snp_report_data := bytes_at 0x50 64 l;
  measurement := bytes_at 0x90 48 l;
  host_data := bytes_at 0xC0 32 l;
  id_key_digest := bytes_at 0xE0 48 l;
  author_key_digest := bytes_at 0x110 48 l;
  report_id := bytes_at 0x140 32 l;
  report_id_ma := bytes_at 0x160 32 l;
  reported_tcb := le_at 0x180 8 l;
  chip_id := bytes_at 0x1A0 64 l;
  committed_tcb := le_at 0x1E0 8 l;
  launch_tcb := le_at 0x1F0 8 l;
  snp_signature := bytes_at 0x2A0 512 l;
|}.

Lemma read_array_at e l p n : (p + n <= length l)%nat ->
  read_array e n {| buf := l; pos := p |} = Ok (slice p (p + n) l, {| buf := l; pos := p + n |}).
Proof.
  intros H. unfold read_array, rbind, read_slice, remaining. cbn. by rewrite decide_False by lia.
Qed.

(** One step of a sequence of reads at known positions. *)
Lemma read_step {A B} (p : Reader A) (k : A -> Reader B) c a c' :
  p c = Ok (a, c') -> rbind p k c = k a c'.
Proof. intros E. unfold rbind. by rewrite E. Qed.

Lemma read_le_at e l p n (r : Reader Z) : (p + n <= length l)%nat ->
  r = (let& s := read_array e n in rret (from_le_bytes s)) ->
  r {| buf := l; pos := p |} = Ok (le_at p n l, {| buf := l; pos := p + n |}).
Proof. intros H ->. erewrite read_step by (by apply read_array_at). done. Qed.

Lemma read_u8_at e l p : (p + 1 <= length l)%nat ->
  exists b, read_u8 e {| buf := l; pos := p |} = Ok (b, {| buf := l; pos := p + 1 |}).
Proof. intros H. unfold read_u8. erewrite read_step by (by apply read_array_at). by eexists. Qed.

Lemma read_u8_skip {B} e l p (k : byte -> Reader B) r : (p + 1 <= length l)%nat ->
  (forall b, k b {| buf := l; pos := p + 1 |} = r) ->
  rbind (read_u8 e) k {| buf := l; pos := p |} = r.
Proof.
  intros H Hk. destruct (read_u8_at e l p H) as [b Hb]. by erewrite read_step by exact Hb.
Qed.

Ltac snp_step :=
  match goal with
  | |- rbind (read_u8 _) _ _ = _ =>
      apply read_u8_skip; [lia|intros _]
  | |- rbind (read_array _ _) _ _ = _ =>
      erewrite read_step by (apply read_array_at; lia); cbn [Nat.add]
  | |- rbind _ _ _ = _ =>
      erewrite read_step by (first [apply (read_le_at snp_past_end _ _ 4); [lia|reflexivity]
                                   |apply (read_le_at snp_past_end _ _ 8); [lia|reflexivity]]);
      cbn [Nat.add]
  end.

Lemma read_snp_report_at l : (REPORT_LEN <= length l)%nat ->
  read_snp_report (Cursor_new l) = Ok (snp_at l, {| buf := l; pos := REPORT_LEN |}).
Proof.
  unfold REPORT_LEN. intros Hlen. unfold read_snp_report, Cursor_new, SIGNATURE_LEN. cbv zeta.
  repeat snp_step.
  reflexivity.
Qed.

(** A report whose arrays have their sizes and whose integers fit. *)
Definition snp_wf (r : SnpReport) : Prop :=
  is_u32 (snp_version r) /\ is_u32 (guest_svn r) /\ is_u64 (snp_policy r)
  /\ length (family_id r) = 16%nat /\ length (image_id r) = 16%nat
  /\ is_u32 (vmpl r) /\ is_u32 (signature_algo r) /\ is_u64 (current_tcb r)
  /\ is_u64 (platform_info r) /\ is_u32 (flags r)
  /\ length (snp_report_data r) = 64%nat /\ length (measurement r) = 48%nat
  /\ length (host_data r) = 32%nat /\ length (id_key_digest r) = 48%nat
  /\ length (author_key_digest r) = 48%nat /\ length (report_id r) = 32%nat
  /\ length (report_id_ma r) = 32%nat /\ is_u64 (reported_tcb r) /\ length (chip_id r) = 64%nat
  /\ is_u64 (committed_tcb r) /\ is_u64 (launch_tcb r) /\ length (snp_signature r) = SIGNATURE_LEN.

Lemma le_at_bound i n l : (i + n <= length l)%nat -> 0 <= le_at i n l < 2 ^ (8 * Z.of_nat n).
Proof.
  intros H. unfold le_at. pose proof (from_le_bytes_bound (slice i (i + n) l)) as B.
  rewrite length_slice in B by lia. by replace (i + n - i)%nat with n in B by lia.
Qed.

Lemma bytes_at_len i n l : (i + n <= length l)%nat -> length (bytes_at i n l) = n.
Proof. intros H. unfold bytes_at. rewrite length_slice; lia. Qed.

Lemma snp_at_wf l : (REPORT_LEN <= length l)%nat -> snp_wf (snp_at l).
Proof.
  unfold REPORT_LEN. intros H. unfold snp_wf, snp_at, SIGNATURE_LEN, is_u32, is_u64. 
  cbn [snp_version guest_svn snp_policy family_id image_id vmpl signature_algo current_tcb platform_info
       flags snp_report_data measurement host_data id_key_digest author_key_digest report_id
       report_id_ma reported_tcb chip_id committed_tcb launch_tcb snp_signature].
  split_and!; first [apply bytes_at_len; lia|apply (le_at_bound _ 4); lia|apply (le_at_bound _ 8); lia].
Qed.

Lemma snp_parse_ok l r : SnpReport_parse l = Ok r <-> (REPORT_LEN <= length l)%nat /\ r = snp_at l.
Proof.
  unfold SnpReport_parse. case_decide as D.
  - split; [done|]. intros [H _]. lia.
  - rewrite read_snp_report_at by lia. cbn [result_bind]. split.
    + intros [= <-]. split; [lia|done].
    + by intros [_ ->].
Qed.

Lemma slice_take {A} i j k (l : list A) : (j <= k)%nat -> slice i j (take k l) = slice i j l.
Proof.
  intros H. unfold slice. rewrite skipn_firstn_comm, take_take. f_equal. lia.
Qed.

(** The report without its signature. *)
Definition snp_signed_fields (r : SnpReport) : SnpReport := {|
  snp_version := snp_version r; guest_svn := guest_svn r; snp_policy := snp_policy r;
  family_id := family_id r; image_id := image_id r; vmpl := vmpl r;
  signature_algo := signature_algo r; current_tcb := current_tcb r;
  platform_info := platform_info r; flags := flags r; snp_report_data := snp_report_data r;
  measurement := measurement r; host_data := host_data r; id_key_digest := id_key_digest r;
  author_key_digest := author_key_digest r; report_id := report_id r;
  report_id_ma := report_id_ma r; reported_tcb := reported_tcb r; chip_id := chip_id r;
  committed_tcb := committed_tcb r; launch_tcb := launch_tcb r; snp_signature := [] |}.

Lemma snp_at_prefix l : snp_signed_fields (snp_at l) = snp_signed_fields (snp_at (take SNP_SIGNED_PREFIX l)).
Proof.
  unfold snp_signed_fields, snp_at, le_at, bytes_at, SNP_SIGNED_PREFIX.
  cbn [snp_version guest_svn snp_policy family_id image_id vmpl signature_algo current_tcb platform_info
       flags snp_report_data measurement host_data id_key_digest author_key_digest report_id
       report_id_ma reported_tcb chip_id committed_tcb launch_tcb].
  rewrite !slice_take by lia. reflexivity.
Qed.

Lemma header_bytes_inj h h' r r' k k' : header_wf h -> header_wf h' ->
  header_bytes h r ++ k = header_bytes h' r' ++ k' -> h = h' /\ k = k'.
Proof.
  intros (V & K & T & Q & U) (V' & K' & T' & Q' & U') E. unfold header_bytes in E.
  rewrite <- !app_assoc in E.
  do 6 (apply app_inj_length_1 in E as [? E]; [|rewrite ?length_to_le_bytes; congruence]).
  destruct h, h'. cbn in *. split; [|done].
  f_equal; try done; (eapply to_le_bytes_inj; [| |eassumption]); unfold is_u16, is_u32 in *; cbn; lia.
Qed.

Lemma td_report_bytes_inj t t' : td_report_wf t -> td_report_wf t' ->
  td_report_bytes t = td_report_bytes t' -> t = t'.
Proof.
  unfold td_report_wf, td_report_bytes. intros H H' E. destruct t, t'. cbn in *. destruct_and!.
  do 14 (apply app_inj_length_1 in E as [? E]; [|congruence]). by subst.
Qed.

(** The signed part of a quote that parses. *)
Lemma tdx_signed_body_shape l q : TdxQuote_parse l = Ok q ->
  exists reserved, tdx_signed_body l = Ok (header_bytes (header q) reserved ++ td_report_bytes (td_report q)).
Proof.
  intros ((Hh & _ & _ & Ht & _) & reserved & trailing & _ & ->)%tdx_parse_sound. exists reserved.
  unfold tdx_signed_body, tdx_bytes. rewrite <- !app_assoc, !length_app.
  rewrite header_bytes_len, td_report_bytes_len by done. rewrite decide_False by lia.
  f_equal. rewrite app_assoc. apply take_app_length'.
  by rewrite length_app, header_bytes_len, td_report_bytes_len.
Qed.

(** ** Examples *)

(** What the two synthesizers produce parses back. *)
Lemma synthesize_quote_shape rd m : length rd = 64%nat -> length m = 48%nat ->
  exists q, tdx_wf q /\ synthesize_quote rd m = tdx_bytes q 0 ++ []
    /\ mrtd (td_report q) = m /\ TdxQuote_report_data q = rd /\ version (header q) = 4
    /\ cert_data (tdx_signature q) = [].
Proof.
  intros Hrd Hm.
  exists {| header := {| version := 4; att_key_type := 2; tee_type := 0x81; qe_vendor_id := zeros 16;
                         user_data := zeros 20 |};
            td_report := {| tee_tcb_svn := zeros 16; mrseam := zeros 48; mrsignerseam := zeros 48;
              seamattributes := zeros 8; tdattributes := zeros 8; xfam := zeros 8; mrtd := m;
              mrconfigid := zeros 48; mrowner := zeros 48; mrownerconfig := zeros 48;
              rtmr0 := zeros 48; rtmr1 := zeros 48; rtmr2 := zeros 48; rtmr3 := zeros 48;
              td_report_data := rd |};
            tdx_signature := {| ecdsa_signature := zeros 64; attestation_key := zeros 64; cert_data := [] |} |}.
  split_and!; try done.
  unfold synthesize_quote, tdx_bytes, header_bytes, td_report_bytes, signature_bytes.
  cbn [header td_report tdx_signature version att_key_type tee_type qe_vendor_id user_data
    tee_tcb_svn mrseam mrsignerseam seamattributes tdattributes xfam mrtd mrconfigid mrowner
    mrownerconfig rtmr0 rtmr1 rtmr2 rtmr3 td_report_data ecdsa_signature attestation_key cert_data].
  by rewrite <- !app_assoc, !app_nil_r.
Qed.

Lemma synthesize_report_len rd m : length rd = 64%nat -> length m = 48%nat ->
  length (synthesize_report rd m) = REPORT_LEN.
Proof.
  intros Hrd Hm. unfold synthesize_report, copy_at, zeros, REPORT_LEN.
  rewrite !length_app, !length_take, !length_drop, !length_app, !length_take, !length_drop,
    !length_app, !length_take, !length_drop, length_replicate, length_to_le_bytes, Hrd, Hm. lia.
Qed.

(** A stand-in for the curves: the signature is a checksum keyed with the
    public key; it is normalized already. *)
#[export] Instance toy_ecdsa (c : curve) : Ecdsa c := {|
  EcdsaKey := bytes; EcdsaSignature := bytes;
  key_from_sec1 l := if decide (head l = Some Byte.x04) then Some l else None;
  signature_from_slice := Some;
  normalize_s _ := None;
  ecdsa_verify k m s := bool_decide (s = to_le_bytes (length s) (Z.of_nat (length m)));
|}.

(** Reading a block backwards byte by byte reverses it. *)
Lemma rev_block (l : bytes) i : (i + 48 <= length l)%nat ->
  (fun j => default Byte.x00 (l !! (i + 47 - j)%nat)) <$> seq 0 48 = rev (slice i (i + 48) l).
Proof.
  intros H. apply list_eq_same_length with 48%nat.
  - rewrite length_rev, length_slice; lia.
  - by rewrite length_fmap, length_seq.
  - intros j x y Hj Hx Hy.
    rewrite list_lookup_fmap, lookup_seq_lt in Hx by done. cbn in Hx. injection Hx as <-.
    rewrite rev_alt in Hy. fold (reverse (slice i (i + 48) l)) in Hy. rewrite reverse_lookup in Hy by (rewrite length_slice; lia).
    rewrite length_slice in Hy by lia. unfold slice in Hy. rewrite lookup_take_lt in Hy by lia.
    rewrite lookup_drop in Hy. replace (i + 47 - j)%nat with (i + (i + 48 - i - S j))%nat by lia.
    by rewrite Hy.
Qed.

(** ** Theorems *)

(** C24. The TDX parser accepts exactly the documented layout: [parse] returns
    a quote if and only if the input is that quote's header (with any reserved
    word), TD report, declared signature length and signature data, laid out
    byte for byte, followed by anything; and the quote is well-formed (TDX, an
    ECDSA-P256 key, every array of its size).  So encoding and parsing are
    inverse, a quote is never cut short, and a truncated one never parses. *)
Theorem tdx_parse_iff l q :
  TdxQuote_parse l = Ok q <->
  tdx_wf q /\ exists reserved trailing, is_u32 reserved /\ l = tdx_bytes q reserved ++ trailing.
Proof.
  split; [apply tdx_parse_sound|]. intros (Hq & reserved & trailing & Hr & ->).
  by apply tdx_parse_complete.
Qed.

(** C25. The SNP parser, which reads forty fields one after the other, is the
    offset table of the firmware interface: every input of at least 1184 bytes
    parses to the fields at their documented offsets, and a shorter one is
    refused with a message that gives its length. *)
Theorem snp_parse_layout l :
  SnpReport_parse l =
  if decide (length l < REPORT_LEN)%nat
  then Err (AttestationFailed (lit "SNP report shorter than 1184 bytes (got " ++ znat (length l) ++ lit ")"))
  else Ok (snp_at l).
Proof.
  unfold SnpReport_parse. case_decide; [done|]. by rewrite read_snp_report_at by lia.
Qed.

(** What a checked TDX signature vouches for: if the signature check passes
    on a parsed quote, the quote's own attestation key verified exactly the
    bytes of its header and TD report, and any other quote with the same
    signed bytes has the same header and the same measurements. *)
Theorem tdx_signature_covers `{!Ecdsa P256} l q :
  TdxQuote_parse l = Ok q -> verify_tdx_quote_signature q l = Ok tt ->
  (exists reserved vk sig,
     key_from_sec1 (Byte.x04 :: attestation_key (tdx_signature q)) = Some vk
     /\ signature_from_slice (ecdsa_signature (tdx_signature q)) = Some sig
     /\ ecdsa_verify vk (header_bytes (header q) reserved ++ td_report_bytes (td_report q))
          (default sig (normalize_s sig)) = true)
  /\ forall l' q', TdxQuote_parse l' = Ok q' -> tdx_signed_body l' = tdx_signed_body l ->
     header q' = header q /\ td_report q' = td_report q.
Proof.
  intros Hq Hv. destruct (tdx_signed_body_shape l q Hq) as [reserved Hb]. split.
  - unfold verify_tdx_quote_signature in Hv. rewrite Hb in Hv. cbn [result_bind] in Hv. inv_ok.
    by exists reserved, x, x0.
  - intros l' q' Hq' E. destruct (tdx_signed_body_shape l' q' Hq') as [r' Hb'].
    rewrite Hb, Hb' in E. apply Ok_inj in E.
    apply tdx_parse_sound in Hq as [(Hh & _ & _ & Ht & _) _].
    apply tdx_parse_sound in Hq' as [(Hh' & _ & _ & Ht' & _) _].
    apply header_bytes_inj in E as [-> E]; [|done|done]. split; [done|].
    by apply td_report_bytes_inj.
Qed.

(** The synthetic quote with the signature the stand-in curve accepts. *)
Definition demo_quote : bytes :=
  take 636 (synthesize_quote (replicate 64 Byte.x03) (replicate 48 Byte.x09))
  ++ to_le_bytes 64 632 ++ zeros 64.

Lemma tdx_signature_covers_witness :
  exists q, TdxQuote_parse demo_quote = Ok q /\ verify_tdx_quote_signature q demo_quote = Ok tt
    /\ mrtd (td_report q) = replicate 48 Byte.x09
    /\ (forall l' q', TdxQuote_parse l' = Ok q' -> tdx_signed_body l' = tdx_signed_body demo_quote ->
        header q' = header q /\ td_report q' = td_report q).
Proof.
  destruct (TdxQuote_parse demo_quote) as [q|e] eqn:Hq; [|vm_compute in Hq; discriminate Hq].
  exists q.
  assert (Hv : verify_tdx_quote_signature q demo_quote = Ok tt)
    by (vm_compute in Hq; injection Hq as <-; vm_compute; reflexivity).
  assert (Hm : mrtd (td_report q) = replicate 48 Byte.x09)
    by (vm_compute in Hq; injection Hq as <-; reflexivity).
  split; [reflexivity|]. split; [exact Hv|]. split; [exact Hm|].
  exact (proj2 (tdx_signature_covers demo_quote q Hq Hv)).
Defined.

(** The signed part of an SNP report is exactly everything but the
    signature: the check hands the curve the first 672 bytes, the signature
    field starts right after them, every other field of the report is a
    function of them, and the two halves of the signature are the
    little-endian numbers at offsets 0 and 72 of that field. *)
Theorem snp_signature_covers `{!Ecdsa P384} l r vcek :
  SnpReport_parse l = Ok r -> verify_snp_report_signature r l vcek = Ok tt ->
  (exists body vk sig,
     snp_signed_body l = Ok body /\ body ++ snp_signature r = take REPORT_LEN l
     /\ key_from_sec1 vcek = Some vk
     /\ signature_from_slice (rev (slice 0 48 (snp_signature r)) ++ rev (slice 72 120 (snp_signature r)))
        = Some sig
     /\ ecdsa_verify vk body (default sig (normalize_s sig)) = true)
  /\ forall l' r', SnpReport_parse l' = Ok r' -> snp_signed_body l' = snp_signed_body l ->
     snp_signed_fields r' = snp_signed_fields r.
Proof.
  intros [Hl ->]%snp_parse_ok Hv. pose proof (snp_at_wf l Hl) as Hwf.
  assert (Hs : length (snp_signature (snp_at l)) = SIGNATURE_LEN) by apply Hwf. clear Hwf.
  assert (Hbody : snp_signed_body l = Ok (take SNP_SIGNED_PREFIX l))
    by (unfold snp_signed_body; by rewrite decide_False by lia).
  split.
  - unfold verify_snp_report_signature in Hv. rewrite Hbody in *. cbn [result_bind] in Hv. inv_ok.
    unfold SIGNATURE_LEN in Hs.
    pose proof (rev_block (snp_signature (snp_at l)) 0 ltac:(lia)) as R0.
    pose proof (rev_block (snp_signature (snp_at l)) 72 ltac:(lia)) as R1.
    cbn [Nat.add] in R0, R1. cbn [Nat.add] in H0. rewrite R0, R1 in H0.
    exists (take SNP_SIGNED_PREFIX l), x, x0. split_and!; try done.
    cbn [snp_at snp_signature]. unfold bytes_at, slice, SNP_SIGNED_PREFIX, REPORT_LEN.
    rewrite <- (take_drop 0x2A0 (take 1184 l)), take_take, skipn_firstn_comm.
    f_equal; f_equal; lia.
  - intros l' r' [Hl' ->]%snp_parse_ok E. rewrite Hbody in E. unfold snp_signed_body in E.
    rewrite decide_False in E by lia. apply Ok_inj in E.
    by rewrite snp_at_prefix, E, <- snp_at_prefix.
Qed.

Lemma snp_signature_covers_witness :
  let l := synthesize_report (replicate 64 Byte.x0b) (replicate 48 Byte.x16) in
  let sig := rev (slice 0 48 (to_le_bytes 96 672)) ++ zeros 24 ++ rev (slice 48 96 (to_le_bytes 96 672)) in
  let l := copy_at 672 sig l in
  exists r, SnpReport_parse l = Ok r /\ measurement r = replicate 48 Byte.x16
    /\ verify_snp_report_signature r l (Byte.x04 :: zeros 96) = Ok tt
    /\ forall l' r', SnpReport_parse l' = Ok r' -> snp_signed_body l' = snp_signed_body l ->
       snp_signed_fields r' = snp_signed_fields r.
Proof.
  intros l0 sig l. exists (snp_at l).
  assert (Hl : SnpReport_parse l = Ok (snp_at l))
    by (apply snp_parse_ok; split; [apply Nat.leb_le; vm_compute; reflexivity|reflexivity]).
  assert (Hv : verify_snp_report_signature (snp_at l) l (Byte.x04 :: zeros 96) = Ok tt)
    by (vm_compute; reflexivity).
  split; [exact Hl|]. split; [vm_compute; reflexivity|]. split; [exact Hv|].
  exact (proj2 (snp_signature_covers l (snp_at l) (Byte.x04 :: zeros 96) Hl Hv)).
Defined.
