(* ===== verification/Nvidia.v ===== *)
(** * ullm-attest: NVIDIA attestation payloads

    [crates/ullm-attest/src/nvidia.rs]: the compact JWS form with its base64url
    decoder, and the plain JSON form.  The derived JSON deserializer of the
    payload is an interface. *)

From S2P Require Import Prelude RustStd RustText Core Crates.
From Stdlib Require Import Lia.

Local Open Scope Z_scope.

Record NvidiaPayload {X : Type} := {
  nv_nonce : bytes;          (** [nonce] *)
  arch : bytes;
  gpu_uuid : bytes;
  vbios_version : bytes;
  driver_version : bytes;
  measurement_hex : bytes;
  extra : X;
}.
Arguments NvidiaPayload X : clear implicits.

(** [serde_json::from_slice] at that type: the free-form claims it collects and
    the text of its error. *)
Class NvidiaJson := {
  json_map : Type;
  nvidia_from_json : bytes -> result (NvidiaPayload json_map) bytes;
}.

Definition DOT : byte := Byte.x2e.
Definition PAD : byte := Byte.x3d.

(** The value of a character of the base64url alphabet. *)
Definition b64url_value (ch : Z) : option Z :=
  if (65 <=? ch) && (ch <=? 90) then Some (ch - 65)
  else if (97 <=? ch) && (ch <=? 122) then Some (ch - 97 + 26)
  else if (48 <=? ch) && (ch <=? 57) then Some (ch - 48 + 52)
  else if ch =? 45 then Some 62
  else if ch =? 95 then Some 63
  else None.

Section Nvidia.
Context `{!UnicodeTables}.

(** The loop over the characters: [buf] is a [u32] whose high bits fall off. *)
Fixpoint b64url_loop (cs : list Z) (buf bits : Z) (out : bytes) : Result bytes :=
  match cs with
  | [] => Ok out
  | ch :: cs =>
      match b64url_value ch with
      | None => Err (AttestationFailed (lit "bad b64url char " ++ char_debug ch))
      | Some v =>
          let buf := Z.lor (Z.shiftl buf 6 mod 2 ^ 32) v in
          let bits := bits + 6 in
          if 8 <=? bits then
            let bits := bits - 8 in
            b64url_loop cs buf bits (out ++ [byte.of_Z (Z.land (Z.shiftr buf bits) 0xFF)])
          else b64url_loop cs buf bits out
      end
  end.

Definition b64url_decode (s : bytes) : Result bytes :=
  b64url_loop (chars (trim_end_matches PAD s)) 0 0 [].

Context `{!NvidiaJson}.

Record NvidiaQuote := {
  payload : NvidiaPayload json_map;
  nv_signature : bytes;      (** [signature] *)
  signed_message : bytes;
}.

Definition NvidiaQuote_parse (l : bytes) : Result NvidiaQuote :=
  if negb (utf8_valid l) then Err (AttestationFailed (lit "NRAS evidence is not UTF-8")) else
  match split_byte DOT l with
  | [hdr; pl; sig] =>
      let? payload_bytes := b64url_decode pl in
      let? payload := map_err (fun e => AttestationFailed (lit "JWS payload: " ++ e))
                              (nvidia_from_json payload_bytes) in
      let? signature := b64url_decode sig in
      Ok {| payload := payload; nv_signature := signature; signed_message := hdr ++ DOT :: pl |}
  | _ =>
      let? payload := map_err (fun e => AttestationFailed (lit "NRAS payload: " ++ e))
                              (nvidia_from_json l) in
      Ok {| payload := payload; nv_signature := []; signed_message := l |}
  end.

Definition nonce_hex (q : NvidiaQuote) : bytes := nv_nonce (payload q).
End Nvidia.

(** ** The encoder RFC 4648 gives, as the reference for the decoder *)

Definition b64url_char (v : Z) : byte :=
  if v <? 26 then byte.of_Z (65 + v)
  else if v <? 52 then byte.of_Z (97 + (v - 26))
  else if v <? 62 then byte.of_Z (48 + (v - 52))
  else if v =? 62 then Byte.x2d else Byte.x5f.

(** The [n] base-64 digits of a number, most significant first. *)
Fixpoint sextets (n : nat) (x : Z) : list Z :=
  match n with
  | O => []
  | S n => sextets n (x / 64) ++ [x mod 64]
  end.

Definition sextet_value (vs : list Z) : Z := foldl (fun acc v => acc * 64 + v) 0 vs.

(** [n] bytes take [ceil (8 n / 6)] characters, the last filled with zeros. *)
Definition b64url_encode (l : bytes) : bytes :=
  let n := length l in
  let m := ((4 * n + 2) / 3)%nat in
  b64url_char <$> sextets m (from_be_bytes l * 2 ^ (6 * Z.of_nat m - 8 * Z.of_nat n)).

(** ** Lemmas *)

Lemma b64url_value_char v : 0 <= v < 64 ->
  b64url_value (uval (b64url_char v)) = Some v /\ is_ascii (b64url_char v) = true
  /\ b64url_char v <> PAD /\ b64url_char v <> DOT.
Proof.
  intros Hv.
  set (ok v := bool_decide (b64url_value (uval (b64url_char v)) = Some v) && is_ascii (b64url_char v)
    && bool_decide (b64url_char v <> PAD) && bool_decide (b64url_char v <> DOT)).
  assert (F : forallb ok (List.map Z.of_nat (List.seq 0 64)) = true) by (vm_compute; reflexivity).
  rewrite List.forallb_forall in F. specialize (F v). unfold ok in F.
  rewrite !andb_true_iff, !bool_decide_eq_true in F. destruct F as [[[? ?] ?] ?]; [|done].
  apply List.in_map_iff. exists (Z.to_nat v). split; [lia|]. apply List.in_seq. lia.
Qed.

Lemma length_sextets n x : length (sextets n x) = n.
Proof. revert x. induction n as [|n IH]; intros x; cbn; [done|]. rewrite length_app, IH. cbn. lia. Qed.

Lemma sextets_range n x : Forall (fun v => 0 <= v < 64) (sextets n x).
Proof.
  revert x. induction n as [|n IH]; intros x; cbn; [constructor|]. apply Forall_app. split; [done|].
  constructor; [apply Z.mod_pos_bound; lia|constructor].
Qed.

Lemma sextet_value_snoc vs v : sextet_value (vs ++ [v]) = sextet_value vs * 64 + v.
Proof. unfold sextet_value. by rewrite foldl_app. Qed.

Lemma sextet_value_sextets n x : 0 <= x < 64 ^ Z.of_nat n -> sextet_value (sextets n x) = x.
Proof.
  revert x. induction n as [|n IH]; intros x Hx.
  - change (64 ^ Z.of_nat 0) with 1 in Hx. unfold sextet_value. cbn. lia.
  - cbn [sextets]. rewrite sextet_value_snoc, IH.
    + pose proof (Z.div_mod x 64). lia.
    + rewrite Nat2Z.inj_succ, Z.pow_succ_r in Hx by lia.
      split; [apply Z.div_pos; lia|apply Z.div_lt_upper_bound; lia].
Qed.

Lemma to_be_bytes_snoc n x :
  to_be_bytes (S n) x = to_be_bytes n (x / 256) ++ [byte.of_Z x].
Proof.
  unfold to_be_bytes. change (le_split (S n) x) with (byte.of_Z x :: le_split n (Z.shiftr x 8)).
  cbn [rev]. by rewrite Z.shiftr_div_pow2 by lia.
Qed.

Lemma byte_of_Z_mod x : byte.of_Z (x mod 256) = byte.of_Z x.
Proof. apply byte.unsigned_inj. rewrite !byte.unsigned_of_Z. unfold byte.wrap. by rewrite Zmod_mod. Qed.

(** Shifting in one more sextet, in 32 bits. *)
Lemma b64url_shift x v : 0 <= v < 64 ->
  Z.lor (Z.shiftl (x mod 2 ^ 32) 6 mod 2 ^ 32) v = (x * 64 + v) mod 2 ^ 32.
Proof.
  intros Hv. rewrite Z.shiftl_mul_pow2 by lia. change (2 ^ 6) with 64.
  rewrite Z.mul_mod_idemp_l by lia.
  assert (E : (x * 64) mod 2 ^ 32 = (x mod 2 ^ 26) * 64).
  { change (2 ^ 32) with (2 ^ 26 * 64). by rewrite Z.mul_mod_distr_r by lia. }
  assert (B : 0 <= x mod 2 ^ 26 < 2 ^ 26) by (apply Z.mod_pos_bound; lia).
  rewrite E, <- Z.add_nocarry_lor.
  - rewrite <- Z.add_mod_idemp_l by lia. rewrite E. symmetry. apply Z.mod_small. lia.
  - apply Z.bits_inj'. intros i Hi. rewrite Z.land_spec, Z.bits_0.
    change 64 with (2 ^ 6). rewrite <- Z.shiftl_mul_pow2 by lia.
    destruct (decide (i < 6)).
    + by rewrite Z.shiftl_spec_low by lia.
    + rewrite <- (Z.mod_small v (2 ^ 6)) by lia.
      rewrite Z.mod_pow2_bits_high by lia. apply andb_false_r.
Qed.

Lemma mod32_div_mod x c : 0 <= c <= 24 -> (x mod 2 ^ 32 / 2 ^ c) mod 256 = (x / 2 ^ c) mod 256.
Proof.
  intros Hc. change 256 with (2 ^ 8). rewrite <- !Z.shiftr_div_pow2 by lia.
  apply Z.bits_inj'. intros i Hi. destruct (decide (i < 8)).
  - rewrite !Z.mod_pow2_bits_low, !Z.shiftr_spec, Z.mod_pow2_bits_low by lia. done.
  - by rewrite !Z.mod_pow2_bits_high by lia.
Qed.

Section Decode.
Context `{!UnicodeTables}.

(** The state after [k] sextets of value [x]: [buf] is [x] in 32 bits, [bits]
    of them are not in the output, which is the rest of [x]. *)
Lemma b64url_loop_spec vs k x :
  Forall (fun v => 0 <= v < 64) vs ->
  let n := (k + length vs)%nat in
  let y := foldl (fun acc v => acc * 64 + v) x vs in
  b64url_loop (uval <$> (b64url_char <$> vs)) (x mod 2 ^ 32) (6 * Z.of_nat k mod 8)
    (to_be_bytes (6 * k / 8) (x / 2 ^ (6 * Z.of_nat k mod 8)))
  = Ok (to_be_bytes (6 * n / 8) (y / 2 ^ (6 * Z.of_nat n mod 8))).
Proof.
  intros Hvs. revert k x. induction Hvs as [|v vs Hv Hvs IH]; intros k x; cbn zeta.
  - cbn [length fmap list_fmap b64url_loop foldl]. by rewrite Nat.add_0_r.
  - cbn [fmap list_fmap b64url_loop foldl length].
    destruct (b64url_value_char v Hv) as [-> _].
    rewrite b64url_shift by done.
    replace (k + S (length vs))%nat with (S k + length vs)%nat by lia.
    rewrite <- (IH (S k) (x * 64 + v)). clear IH.
    set (b := 6 * Z.of_nat k mod 8). assert (Hb : 0 <= b < 8) by (apply Z.mod_pos_bound; lia).
    assert (Hk : 6 * Z.of_nat k = 8 * Z.of_nat (6 * k / 8) + b).
    { unfold b. rewrite Nat2Z.inj_div, Nat2Z.inj_mul. apply Z.div_mod. lia. }
    destruct (Z.leb_spec 8 (b + 6)).
    + assert (Eb : 6 * Z.of_nat (S k) mod 8 = b - 2)
        by (rewrite Nat2Z.inj_succ; symmetry; apply (Z.mod_unique _ _ (Z.of_nat (6 * k / 8) + 1)); lia).
      assert (En : (6 * S k / 8 = S (6 * k / 8))%nat)
        by (symmetry; apply (Nat.div_unique _ _ _ (Z.to_nat (b - 2))); lia).
      rewrite Eb, En, to_be_bytes_snoc. replace (b + 6 - 8) with (b - 2) by lia. f_equal. f_equal.
      * f_equal. rewrite Z.div_div by (try apply Z.pow_nonzero; lia).
        change 256 with (2 ^ 8). rewrite <- Z.pow_add_r by lia.
        replace (b - 2 + 8) with (6 + b) by lia. rewrite Z.pow_add_r by lia.
        rewrite <- Z.div_div by (try apply Z.pow_nonzero; lia).
        change (2 ^ 6) with 64. by rewrite Z.div_add_l, (Z.div_small v), Z.add_0_r by lia.
      * f_equal. rewrite Z.shiftr_div_pow2 by lia. change 0xFF with (Z.ones 8).
        rewrite Z.land_ones by lia. change (2 ^ 8) with 256.
        rewrite <- (byte_of_Z_mod (_ / _)). f_equal.
        by apply mod32_div_mod; lia.
    + assert (Hb0 : b = 0) by lia.
      assert (Eb : 6 * Z.of_nat (S k) mod 8 = 6)
        by (rewrite Nat2Z.inj_succ; symmetry; apply (Z.mod_unique _ _ (Z.of_nat (6 * k / 8))); lia).
      assert (En : (6 * S k / 8 = 6 * k / 8)%nat)
        by (symmetry; apply (Nat.div_unique _ _ _ 6); lia).
      rewrite Eb, En, Hb0. f_equal. f_equal. change (2 ^ 6) with 64.
      rewrite Z.div_add_l, (Z.div_small v), Z.add_0_r by lia. by rewrite Z.pow_0_r, Z.div_1_r.
Qed.

Lemma b64url_chars vs : Forall (fun v => 0 <= v < 64) vs ->
  Forall (fun c => is_ascii c = true) (b64url_char <$> vs)
  /\ (PAD ∉ (b64url_char <$> vs)) /\ (DOT ∉ (b64url_char <$> vs)).
Proof.
  induction 1 as [|v vs Hv _ (IH1 & IH2 & IH3)]; cbn; [split_and!; [constructor|set_solver|set_solver]|].
  destruct (b64url_value_char v Hv) as (_ & Ha & Hp & Hd).
  split_and!; [by constructor|set_solver|set_solver].
Qed.

(** The decoder computes the number its characters spell, in bytes, and drops
    the bits that do not fill one. *)
Lemma b64url_decode_value vs k : Forall (fun v => 0 <= v < 64) vs ->
  b64url_decode ((b64url_char <$> vs) ++ replicate k PAD)
  = Ok (to_be_bytes (6 * length vs / 8) (sextet_value vs / 2 ^ (6 * Z.of_nat (length vs) mod 8))).
Proof.
  intros Hvs. destruct (b64url_chars vs Hvs) as (Ha & Hp & _). unfold b64url_decode.
  rewrite trim_end_matches_app, trim_end_matches_id.
  - rewrite (proj2 (lossy_ascii _ Ha)). apply (b64url_loop_spec vs 0 0 Hvs).
  - intros Hl. apply Hp. by apply last_Some_elem_of.
Qed.

Lemma b64url_encode_dec l k : b64url_decode (b64url_encode l ++ replicate k PAD) = Ok l.
Proof.
  unfold b64url_encode. set (n := length l). set (m := ((4 * n + 2) / 3)%nat).
  assert (Hm : (3 * m <= 4 * n + 2 < 3 * m + 3)%nat).
  { pose proof (Nat.div_mod_eq (4 * n + 2) 3). pose proof (Nat.mod_upper_bound (4 * n + 2) 3). lia. }
  set (x := from_be_bytes l). pose proof (from_be_bytes_bound l) as Hx. fold n x in Hx.
  set (d := 6 * Z.of_nat m - 8 * Z.of_nat n). assert (Hd : 0 <= d < 8) by lia.
  rewrite b64url_decode_value by apply sextets_range. rewrite length_sextets.
  rewrite sextet_value_sextets.
  - replace (6 * Z.of_nat m mod 8) with d
      by (apply (Z.mod_unique _ _ (Z.of_nat n)); lia).
    rewrite Z.div_mul by (apply Z.pow_nonzero; lia).
    replace (6 * m / 8)%nat with n by (apply (Nat.div_unique _ _ _ (Z.to_nat d)); lia).
    f_equal. by apply to_from_be_bytes.
  - assert (0 < 2 ^ d) by (apply Z.pow_pos_nonneg; lia). split; [apply Z.mul_nonneg_nonneg; lia|].
    change 64 with (2 ^ 6). rewrite <- Z.pow_mul_r by lia.
    replace (6 * Z.of_nat m) with (8 * Z.of_nat n + d) by lia. rewrite Z.pow_add_r by lia. nia.
Qed.

Lemma b64url_encode_clean l :
  Forall (fun c => is_ascii c = true) (b64url_encode l) /\ (DOT ∉ b64url_encode l).
Proof. destruct (b64url_chars _ (sextets_range ((4 * length l + 2) / 3)
  (from_be_bytes l * 2 ^ (6 * Z.of_nat ((4 * length l + 2) / 3) - 8 * Z.of_nat (length l))))) as (? & _ & ?). done. Qed.

Context `{!NvidiaJson}.

Definition jws (h p s : bytes) : bytes :=
  b64url_encode h ++ DOT :: b64url_encode p ++ DOT :: b64url_encode s.

Lemma jws_split h p s : split_byte DOT (jws h p s) = [b64url_encode h; b64url_encode p; b64url_encode s]
  /\ utf8_valid (jws h p s) = true.
Proof.
  destruct (b64url_encode_clean h) as [Ah Dh], (b64url_encode_clean p) as [Ap Dp],
    (b64url_encode_clean s) as [As Ds]. unfold jws. split.
  - by rewrite split_byte_app, split_byte_app, split_byte_none.
  - apply utf8_valid_ascii. apply Forall_app. split; [done|]. constructor; [done|].
    apply Forall_app. split; [done|]. by constructor.
Qed.

(** The base64url decoder inverts the RFC 4648 encoder for every byte string
    and any amount of padding, although it keeps only 32 bits of its
    accumulator. *)
Theorem b64url_roundtrip l k : b64url_decode (b64url_encode l ++ replicate k PAD) = Ok l.
Proof. apply b64url_encode_dec. Qed.

(** Parsing NVIDIA evidence by its two forms: a compact JWS of any header,
    payload and signature yields the parsed payload, that signature, and as
    signed message exactly the header and payload text; any UTF-8 text that
    does not have exactly two dots is parsed as the JSON payload itself, with
    no signature; other bytes are refused.  Errors of the JSON parser are
    passed on. *)
Theorem nvidia_parse_forms :
  (forall h p s, NvidiaQuote_parse (jws h p s) =
     match nvidia_from_json p with
     | Ok pl => Ok {| payload := pl; nv_signature := s;
                      signed_message := b64url_encode h ++ DOT :: b64url_encode p |}
     | Err e => Err (AttestationFailed (lit "JWS payload: " ++ e))
     end)
  /\ (forall l, utf8_valid l = true -> length (split_byte DOT l) <> 3%nat -> NvidiaQuote_parse l =
     match nvidia_from_json l with
     | Ok pl => Ok {| payload := pl; nv_signature := []; signed_message := l |}
     | Err e => Err (AttestationFailed (lit "NRAS payload: " ++ e))
     end)
  /\ (forall l, utf8_valid l = false ->
      NvidiaQuote_parse l = Err (AttestationFailed (lit "NRAS evidence is not UTF-8"))).
Proof.
  split_and!.
  - intros h p s. unfold NvidiaQuote_parse. destruct (jws_split h p s) as [-> ->]. cbn [negb].
    pose proof (b64url_encode_dec p 0) as Hp. pose proof (b64url_encode_dec s 0) as Hs.
    cbn [replicate] in Hp, Hs. rewrite app_nil_r in Hp, Hs. rewrite Hp. cbn [result_bind].
    destruct (nvidia_from_json p); cbn [map_err result_bind]; [|done]. by rewrite Hs.
  - intros l Hu Hd. unfold NvidiaQuote_parse. rewrite Hu. cbn [negb].
    destruct (split_byte DOT l) as [|a [|b [|c [|d ps]]]]; try done;
      by destruct (nvidia_from_json l).
  - intros l Hu. unfold NvidiaQuote_parse. by rewrite Hu.
Qed.

(** A plain JSON payload whose text has exactly two dots, such as one naming a
    driver version, is taken for a JWS: the part between the dots is decoded
    as base64url and handed to the JSON parser, which refuses it. *)
Lemma plain_json_two_dots (l : bytes) :
  l = Byte.x7b :: Byte.x22 :: lit "driver_version" ++ [Byte.x22; Byte.x3a; Byte.x22]
      ++ lit "550.54.15" ++ [Byte.x22; Byte.x7d] ->
  (forall b pl, nvidia_from_json b = Ok pl -> utf8_valid b = true) ->
  exists e, NvidiaQuote_parse l = Err e.
Proof.
  intros -> Hj. unfold NvidiaQuote_parse.
  match goal with |- context [utf8_valid ?x] =>
    replace (utf8_valid x) with true by (vm_compute; reflexivity) end. cbn [negb].
  match goal with |- context [split_byte ?c ?x] =>
    let y := eval vm_compute in (split_byte c x) in
    replace (split_byte c x) with y by (vm_compute; reflexivity) end.
  match goal with |- context [b64url_decode ?x] =>
    replace (b64url_decode x) with (@Ok bytes Error [Byte.xe7]) by (vm_compute; reflexivity) end.
  cbn [result_bind]. destruct (nvidia_from_json [Byte.xe7]) as [pl|e] eqn:E; cbn [map_err result_bind].
  - apply Hj in E. vm_compute in E. done.
  - by eexists.
Qed.
End Decode.

(** Stand-ins for the Unicode tables and the JSON deserializer: an object with
    all claims absent. *)
#[export] Instance toy_unicode : UnicodeTables :=
  {| char_printable c := (32 <=? c) && negb (c =? 127); grapheme_extend _ := false |}.

#[export] Instance toy_nvidia_json : NvidiaJson := {|
  json_map := unit;
  nvidia_from_json l :=
    if utf8_valid l && bool_decide (head l = Some Byte.x7b) then
      Ok {| nv_nonce := []; arch := []; gpu_uuid := []; vbios_version := []; driver_version := [];
            measurement_hex := []; extra := tt |}
    else Err (lit "expected value");
|}.
