(* ===== verification/RealVerifier.v ===== *)
(** * ullm-attest: the verifier of real quotes

    [crates/ullm-attest/src/real_verifier.rs]: freshness, channel binding,
    measurement allowlists and the optional TDX signature check over the
    parsers of [Quotes] and [Nvidia], as an instance of the [Verifier] class. *)

From S2P Require Import Prelude RustStd RustText Core Crates Toy Crypto Handshake Attest Quotes Nvidia.
From Stdlib Require Import Lia.

Local Open Scope Z_scope.

(** ** real_verifier.rs *)

Definition ct_eq_report_data `{Subtle} (a b : bytes) : bool := ct_eq a b.

Record MeasurementPolicy := {
  allowed_mrtd : gset bytes;
  allowed_snp_measurement : gset bytes;
  allowed_nvidia_measurements_hex : gset bytes;
}.

Record RealVerifier := { policy : MeasurementPolicy; check_signatures : bool }.

Definition RealVerifier_new (p : MeasurementPolicy) : RealVerifier :=
  {| policy := p; check_signatures := false |}.

Definition with_signature_check (v : RealVerifier) (on : bool) : RealVerifier :=
  {| policy := policy v; check_signatures := on |}.

Definition hex (b : bytes) : bytes := concat ((fun c => fmt_hex_pad 2 (uval c)) <$> b).

(** [!set.is_empty() && !set.contains(x)]. *)
Definition not_allowed (s : gset bytes) (x : bytes) : bool :=
  bool_decide (s <> ∅) && bool_decide (x ∉ s).

Section Verify.
Context `{!Subtle, !Sha2, !Ecdsa P256, !UnicodeTables, !NvidiaJson}.

Definition verify_cpu (v : RealVerifier) (evidence : Evidence) : Result unit :=
  match cpu_quote_kind evidence with
  | Tdx =>
      let? q := TdxQuote_parse (cpu_quote evidence) in
      if negb (ct_eq_report_data (TdxQuote_report_data q) (ev_report_data evidence)) then
        Err (AttestationFailed (lit "TDX REPORT_DATA != envelope report_data"))
      else if not_allowed (allowed_mrtd (policy v)) (mrtd (td_report q)) then
        Err (AttestationFailed (lit "MRTD " ++ hex (mrtd (td_report q)) ++ lit " not in allowlist"))
      else if check_signatures v then verify_tdx_quote_signature q (cpu_quote evidence)
      else Ok tt
  | Snp =>
      let? r := SnpReport_parse (cpu_quote evidence) in
      if negb (ct_eq_report_data (snp_report_data r) (ev_report_data evidence)) then
        Err (AttestationFailed (lit "SNP REPORT_DATA != envelope report_data"))
      else if not_allowed (allowed_snp_measurement (policy v)) (measurement r) then
        Err (AttestationFailed (lit "SNP MEASUREMENT " ++ hex (measurement r) ++ lit " not in allowlist"))
      else Ok tt
  | Mock => Err (AttestationFailed (lit "RealVerifier received a Mock quote"))
  end.

Definition verify_gpu (v : RealVerifier) (evidence : Evidence) : Result unit :=
  if decide (gpu_quote evidence = []) then Ok tt else
  let? nv := NvidiaQuote_parse (gpu_quote evidence) in
  if not_allowed (allowed_nvidia_measurements_hex (policy v)) (measurement_hex (payload nv)) then
    Err (AttestationFailed (lit "NVIDIA measurement " ++ measurement_hex (payload nv)
                            ++ lit " not in allowlist"))
  else Ok tt.

Definition RealVerifier_verify (v : RealVerifier) (evidence : Evidence) (ctx : VerificationContext)
  : Result unit :=
  if max_age_sec ctx <? saturating_sub (now_unix_ctx ctx) (issued_at_unix evidence) then
    Err (StaleAttestation (max_age_sec ctx))
  else if negb (ct_eq_report_data (ev_report_data evidence) (expected_report_data ctx)) then
    Err (AttestationFailed (lit "report_data mismatch"))
  else
  let? _ := verify_cpu v evidence in
  verify_gpu v evidence.

(** [Result::ok]. *)
Definition res_ok {A E} (r : result A E) : option A := match r with Ok a => Some a | Err _ => None end.

Definition RealVerifier_attestation_identity (v : RealVerifier) (evidence : Evidence) : option bytes :=
  h ← match cpu_quote_kind evidence with
      | Tdx =>
          q ← res_ok (TdxQuote_parse (cpu_quote evidence));
          Some (lit "ullm/attest-id/tdx/v1" ++ attestation_key (tdx_signature q)
                ++ cert_data (tdx_signature q))
      | Snp =>
          r ← res_ok (SnpReport_parse (cpu_quote evidence));
          Some (lit "ullm/attest-id/snp/v1" ++ chip_id r ++ snp_signature r)
      | Mock => None
      end;
  let h :=
    if decide (gpu_quote evidence = []) then h else
    match NvidiaQuote_parse (gpu_quote evidence) with
    | Ok nv => h ++ lit "|nras|" ++ signed_message nv ++ nv_signature nv
    | Err _ => h
    end in
  Some (sha256 h).

#[export] Instance RealVerifier_Verifier : Verifier RealVerifier := {|
  verify := RealVerifier_verify;
  attestation_identity := RealVerifier_attestation_identity;
|}.
End Verify.

(** ** Lemmas *)

Lemma not_allowed_false s x : not_allowed s x = false <-> s = ∅ \/ x ∈ s.
Proof.
  unfold not_allowed. rewrite andb_false_iff, !bool_decide_eq_false. split.
  - intros [H|H]; [left; by apply dec_stable|right; by apply dec_stable].
  - intros [H|H]; [left; by intros ?|right; by intros ?].
Qed.

(** Where the parsed fields lie in the bytes of a quote. *)
Lemma tdx_offsets l q : TdxQuote_parse l = Ok q ->
  slice 184 232 l = mrtd (td_report q) /\ slice 568 632 l = TdxQuote_report_data q
  /\ (632 <= length l)%nat.
Proof.
  intros ((Hh & _ & _ & Ht & _) & reserved & trailing & _ & ->)%tdx_parse_sound.
  unfold tdx_bytes. rewrite <- !app_assoc.
  pose proof (header_bytes_len _ reserved Hh) as Lh. pose proof (td_report_bytes_len _ Ht) as Lt.
  unfold HEADER_LEN, TD_REPORT_LEN in *. split_and!; [| |rewrite !length_app; lia].
  all: rewrite slice_app_skip by lia; rewrite Lh; unfold td_report_bytes, TdxQuote_report_data;
    unfold td_report_wf in Ht; destruct_and!; rewrite <- !app_assoc;
    repeat (rewrite slice_app_skip by lia;
            match goal with H : length _ = ?n |- context [(_ - length _)%nat] => rewrite !H; cbn [Nat.sub] end).
  - by rewrite slice_app_exact.
  - by rewrite slice_app_exact.
Qed.

Lemma tdx_key_offset l q : TdxQuote_parse l = Ok q -> slice 700 764 l = attestation_key (tdx_signature q).
Proof.
  intros ((Hh & _ & _ & Ht & Hs & Hk & _) & reserved & trailing & _ & ->)%tdx_parse_sound.
  pose proof (header_bytes_len _ reserved Hh) as Lh. pose proof (td_report_bytes_len _ Ht) as Lt.
  unfold HEADER_LEN, TD_REPORT_LEN, ECDSA_P256_SIGNATURE_LEN, ECDSA_P256_PUBLIC_KEY_LEN in *.
  unfold tdx_bytes, signature_bytes. rewrite <- !app_assoc.
  rewrite slice_app_skip by lia. rewrite Lh. rewrite slice_app_skip by lia. rewrite Lt.
  rewrite slice_app_skip by (rewrite length_to_le_bytes; lia). rewrite length_to_le_bytes.
  rewrite slice_app_skip by lia. rewrite Hs. by rewrite slice_app_exact by lia.
Qed.

Section Theorems.
Context `{!Subtle, !SubtleLaws, !Sha2, !Ecdsa P256, !UnicodeTables, !NvidiaJson}.

Definition allowed (s : gset bytes) (x : bytes) : Prop := s = ∅ \/ x ∈ s.

(** What the CPU branch of the check establishes. *)
Inductive cpu_accepted (v : RealVerifier) (ev : Evidence) : Prop :=
| accepted_tdx q :
    cpu_quote_kind ev = Tdx -> TdxQuote_parse (cpu_quote ev) = Ok q ->
    TdxQuote_report_data q = ev_report_data ev ->
    allowed (allowed_mrtd (policy v)) (mrtd (td_report q)) ->
    (check_signatures v = true -> verify_tdx_quote_signature q (cpu_quote ev) = Ok tt) ->
    cpu_accepted v ev
| accepted_snp r :
    cpu_quote_kind ev = Snp -> SnpReport_parse (cpu_quote ev) = Ok r ->
    snp_report_data r = ev_report_data ev ->
    allowed (allowed_snp_measurement (policy v)) (measurement r) ->
    cpu_accepted v ev.

Definition gpu_accepted (v : RealVerifier) (ev : Evidence) : Prop :=
  gpu_quote ev = [] \/ exists nv, NvidiaQuote_parse (gpu_quote ev) = Ok nv
    /\ allowed (allowed_nvidia_measurements_hex (policy v)) (measurement_hex (payload nv)).

Lemma verify_cpu_iff v ev : verify_cpu v ev = Ok tt <-> cpu_accepted v ev.
Proof.
  unfold verify_cpu, ct_eq_report_data. split.
  - destruct (cpu_quote_kind ev) eqn:Hk; [| |done]; intros E; inv_ok.
    + apply negb_false_iff, ct_eq_spec in Heqb. apply not_allowed_false in Heqb0.
      by eapply accepted_tdx; try done; intros C; congruence.
    + apply negb_false_iff, ct_eq_spec in Heqb. apply not_allowed_false in Heqb0.
      by eapply accepted_tdx; try done; intros C; congruence.
    + apply negb_false_iff, ct_eq_spec in Heqb. apply not_allowed_false in Heqb0.
      by eapply accepted_snp.
  - intros [q Hk Hp Hr Ha Hs|r Hk Hp Hr Ha]; rewrite Hk, Hp; cbn [result_bind];
      apply ct_eq_spec in Hr; rewrite Hr; apply not_allowed_false in Ha; rewrite Ha; cbn [negb]; [|done].
    destruct (check_signatures v); [by apply Hs|done].
Qed.

Lemma verify_gpu_iff v ev : verify_gpu v ev = Ok tt <-> gpu_accepted v ev.
Proof.
  unfold verify_gpu, gpu_accepted. case_decide as D; [split; [by left|done]|]. split.
  - intros E. inv_ok. right. eexists. split; [eassumption|]. by apply not_allowed_false.
  - intros [?|(nv & -> & Ha)]; [done|]. cbn [result_bind]. apply not_allowed_false in Ha. by rewrite Ha.
Qed.

Lemma real_verify_iff v ev ctx :
  RealVerifier_verify v ev ctx = Ok tt <->
  saturating_sub (now_unix_ctx ctx) (issued_at_unix ev) <= max_age_sec ctx
  /\ ev_report_data ev = expected_report_data ctx /\ cpu_accepted v ev /\ gpu_accepted v ev.
Proof.
  unfold RealVerifier_verify, ct_eq_report_data.
  destruct (Z.ltb_spec (max_age_sec ctx) (saturating_sub (now_unix_ctx ctx) (issued_at_unix ev)));
    [split; [done|lia]|].
  destruct (ct_eq _ _) eqn:Hc; cbn [negb].
  - apply ct_eq_spec in Hc. rewrite result_bind_Ok. setoid_rewrite verify_gpu_iff. split.
    + intros ([] & Hcpu%verify_cpu_iff & ?). split_and!; [lia|done..].
    + intros (_ & _ & Hcpu & ?). exists tt. by rewrite verify_cpu_iff.
  - split; [done|]. intros (_ & E & _). apply ct_eq_spec in E. congruence.
Qed.


(** *** The identity of an attestation *)

Definition set_cert (q : TdxQuote) (c : bytes) : TdxQuote := {|
  header := header q; td_report := td_report q;
  tdx_signature := {| ecdsa_signature := ecdsa_signature (tdx_signature q);
                      attestation_key := attestation_key (tdx_signature q); cert_data := c |} |}.

Definition set_cpu_quote (ev : Evidence) (l : bytes) : Evidence := {|
  cpu_quote_kind := cpu_quote_kind ev; cpu_quote := l; gpu_quote := gpu_quote ev;
  cert_chain := cert_chain ev; ev_report_data := ev_report_data ev;
  issued_at_unix := issued_at_unix ev |}.

(** A certificate blob that fits the declared length. *)
Definition cert_fits (c : bytes) : Prop := 128 + Z.of_nat (length c) < 2 ^ 32.

(** Other certificate data in a quote that parses: it still parses, to the same
    header, report, signature and key, and the signed bytes are the same. *)
Lemma swap_cert l q c : TdxQuote_parse l = Ok q -> cert_fits c ->
  exists l', TdxQuote_parse l' = Ok (set_cert q c) /\ tdx_signed_body l' = tdx_signed_body l.
Proof.
  intros Hq Hc. pose proof Hq as ((Hh & Ht & Hk & Htd & Hs & Ha & _) & reserved & trailing & Hr & El)%tdx_parse_sound.
  assert (Hwf : tdx_wf (set_cert q c)).
  { split_and!; try done; cbn [set_cert tdx_signature]; unfold signature_bytes;
      cbn [ecdsa_signature attestation_key cert_data]; unfold ECDSA_P256_SIGNATURE_LEN,
      ECDSA_P256_PUBLIC_KEY_LEN, cert_fits, is_u32 in *; rewrite !length_app, Hs, Ha; lia. }
  exists (tdx_bytes (set_cert q c) reserved ++ []). split; [by apply tdx_parse_complete|].
  assert (B : forall q' t, header q' = header q -> td_report q' = td_report q ->
    tdx_signed_body (tdx_bytes q' reserved ++ t)
    = Ok (header_bytes (header q) reserved ++ td_report_bytes (td_report q))).
  { intros q' t E1 E2. unfold tdx_signed_body, tdx_bytes. rewrite E1, E2, <- !app_assoc, !length_app.
    rewrite header_bytes_len, td_report_bytes_len by done. rewrite decide_False by lia.
    f_equal. rewrite app_assoc. apply take_app_length'.
    by rewrite length_app, header_bytes_len, td_report_bytes_len. }
  rewrite El. rewrite (B (set_cert q c)), (B q); done.
Qed.

Lemma swap_cert_accepted v ev ctx q c :
  RealVerifier_verify v ev ctx = Ok tt -> cpu_quote_kind ev = Tdx ->
  TdxQuote_parse (cpu_quote ev) = Ok q -> cert_fits c ->
  exists l', TdxQuote_parse l' = Ok (set_cert q c)
    /\ tdx_signed_body l' = tdx_signed_body (cpu_quote ev)
    /\ RealVerifier_verify v (set_cpu_quote ev l') ctx = Ok tt.
Proof.
  intros (Hage & Hrd & Hcpu & Hgpu)%real_verify_iff Hk Hq Hc.
  destruct (swap_cert _ _ c Hq Hc) as (l' & Hl' & Hb). exists l'. split_and!; [done|done|].
  apply real_verify_iff. split_and!; [done|done| |exact Hgpu].
  destruct Hcpu as [q' _ Hq' Hr Ha Hs|r Hk' _ _ _]; [|congruence]. rewrite Hq in Hq'.
  injection Hq' as <-. apply (accepted_tdx _ _ (set_cert q c)); try done.
  intros C. specialize (Hs C). unfold verify_tdx_quote_signature in *. cbn [set_cpu_quote cpu_quote].
  by rewrite Hb.
Qed.

(** The message under the identity of a TDX quote. *)
Definition tdx_id_message (q : TdxQuote) : bytes :=
  lit "ullm/attest-id/tdx/v1" ++ attestation_key (tdx_signature q) ++ cert_data (tdx_signature q).

Lemma tdx_identity v ev q : cpu_quote_kind ev = Tdx -> gpu_quote ev = [] ->
  TdxQuote_parse (cpu_quote ev) = Ok q ->
  RealVerifier_attestation_identity v ev
  = Some (sha256 (tdx_id_message q)).
Proof.
  intros Hk Hg Hq. unfold RealVerifier_attestation_identity. rewrite Hk, Hg, Hq. cbn.
  by rewrite decide_True.
Qed.

(** The identity the verifier derives from a TDX quote names the attestation
    key together with the certificate data: two quotes without GPU evidence
    have one identity exactly when both agree, unless the two different
    messages hashed for the identities have one SHA-256.
    Since no signature covers the certificate data, whoever holds one accepted
    quote can give it any other identity: for all certificate data there is
    evidence with the same signed bytes that is accepted as well. *)
Theorem tdx_identity_spec v ev1 ev2 q1 q2 :
  cpu_quote_kind ev1 = Tdx -> cpu_quote_kind ev2 = Tdx -> gpu_quote ev1 = [] -> gpu_quote ev2 = [] ->
  TdxQuote_parse (cpu_quote ev1) = Ok q1 -> TdxQuote_parse (cpu_quote ev2) = Ok q2 ->
  let same := attestation_key (tdx_signature q1) = attestation_key (tdx_signature q2)
              /\ cert_data (tdx_signature q1) = cert_data (tdx_signature q2) in
  (same -> RealVerifier_attestation_identity v ev1 = RealVerifier_attestation_identity v ev2)
  /\ (RealVerifier_attestation_identity v ev1 = RealVerifier_attestation_identity v ev2 ->
      same \/ sha256_collide (tdx_id_message q1) (tdx_id_message q2))
  /\ forall ctx c, RealVerifier_verify v ev1 ctx = Ok tt -> cert_fits c -> exists l q',
       TdxQuote_parse l = Ok q' /\ cert_data (tdx_signature q') = c
       /\ attestation_key (tdx_signature q') = attestation_key (tdx_signature q1)
       /\ tdx_signed_body l = tdx_signed_body (cpu_quote ev1)
       /\ RealVerifier_verify v (set_cpu_quote ev1 l) ctx = Ok tt.
Proof.
  intros K1 K2 G1 G2 P1 P2 same.
  rewrite (tdx_identity v ev1 q1), (tdx_identity v ev2 q2) by done. split_and!.
  - unfold tdx_id_message. by intros [-> ->].
  - intros E. apply (inj Some), sha256_eq_or in E as [E|C]; [|by right]. left.
    apply app_inv_head in E. apply app_inj_length_1 in E; [done|].
    apply tdx_parse_sound in P1 as [(_ & _ & _ & _ & _ & L1 & _) _].
    apply tdx_parse_sound in P2 as [(_ & _ & _ & _ & _ & L2 & _) _]. congruence.
  - intros ctx c Hv Hc. destruct (swap_cert_accepted v ev1 ctx q1 c Hv K1 P1 Hc) as (l & Hl & Hb & Ha).
    by exists l, (set_cert q1 c).
Qed.
End Theorems.

Definition demo_evidence : Evidence := {|
  cpu_quote_kind := Tdx; cpu_quote := demo_quote; gpu_quote := []; cert_chain := [];
  ev_report_data := replicate 64 Byte.x03; issued_at_unix := 100 |}.

Definition demo_verifier : RealVerifier :=
  with_signature_check (RealVerifier_new
    {| allowed_mrtd := {[replicate 48 Byte.x09]}; allowed_snp_measurement := ∅;
       allowed_nvidia_measurements_hex := ∅ |}) true.

Definition demo_ctx : VerificationContext :=
  {| expected_report_data := replicate 64 Byte.x03; now_unix_ctx := 110; max_age_sec := 60 |}.

Lemma demo_accepted : RealVerifier_verify demo_verifier demo_evidence demo_ctx = Ok tt.
Proof. vm_compute. reflexivity. Qed.


Lemma tdx_identity_spec_witness :
  exists q, TdxQuote_parse demo_quote = Ok q
  /\ exists l q', TdxQuote_parse l = Ok q' /\ cert_data (tdx_signature q') = [Byte.x01]
     /\ RealVerifier_verify demo_verifier (set_cpu_quote demo_evidence l) demo_ctx = Ok tt.
Proof.
  destruct (TdxQuote_parse demo_quote) as [q|e] eqn:Hq; [|vm_compute in Hq; discriminate Hq].
  exists q. split; [reflexivity|].
  destruct (tdx_identity_spec demo_verifier demo_evidence demo_evidence q q eq_refl eq_refl eq_refl eq_refl Hq Hq)
    as (_ & _ & Hm).
  destruct (Hm demo_ctx [Byte.x01] demo_accepted) as (l & q' & Hl & Hc & _ & _ & Hv); [reflexivity|].
  exists l, q'. split; [exact Hl|]. split; [exact Hc|exact Hv].
Defined.
