(* ===== verification/Federation.v ===== *)
(** * ullm-federation: multi-vendor quorum, build admission, provider pool

    [crates/ullm-federation/src]: [multi_vendor.rs], [build.rs] and [pool.rs].
    A boxed [dyn Verifier] is a type with its [Verifier] instance and a value. *)

From S2P Require Import Prelude RustStd RustText Core Crates Toy Crypto Handshake Attest Quotes Nvidia RealVerifier.
From stdpp Require Import fin_sets.
From Stdlib Require Import Lia.

Local Open Scope Z_scope.

(** ** multi_vendor.rs *)

Module VendorKind.
Inductive t := Tdx | Snp | Nvidia | Arm | Mock.
End VendorKind.

#[export] Instance VendorKind_eq_dec : EqDecision VendorKind.t.
Proof. solve_decision. Defined.

Definition VendorKind_index (k : VendorKind.t) : nat :=
  match k with
  | VendorKind.Tdx => 0 | VendorKind.Snp => 1 | VendorKind.Nvidia => 2
  | VendorKind.Arm => 3 | VendorKind.Mock => 4
  end.

Definition VendorKind_of_index (n : nat) : option VendorKind.t :=
  [VendorKind.Tdx; VendorKind.Snp; VendorKind.Nvidia; VendorKind.Arm; VendorKind.Mock] !! n.

#[export] Program Instance VendorKind_countable : Countable VendorKind.t :=
  inj_countable VendorKind_index VendorKind_of_index _.
Next Obligation. by intros []. Qed.

Definition VendorKind_debug (k : VendorKind.t) : bytes :=
  match k with
  | VendorKind.Tdx => lit "Tdx" | VendorKind.Snp => lit "Snp" | VendorKind.Nvidia => lit "Nvidia"
  | VendorKind.Arm => lit "Arm" | VendorKind.Mock => lit "Mock"
  end.

Definition admits_cpu_kind (self : VendorKind.t) (k : QuoteKind) : bool :=
  match k with
  | Mock => true
  | _ =>
      match self, k with
      | VendorKind.Tdx, Tdx => true
      | VendorKind.Snp, Snp => true
      | VendorKind.Nvidia, (Tdx | Snp) => true
      | VendorKind.Arm, (Tdx | Snp) => true
      | VendorKind.Mock, _ => false
      | _, _ => false
      end
  end.

Record DynVerifier := { dyn_type : Type; dyn_class : Verifier dyn_type; dyn_value : dyn_type }.

Definition dyn_verify (d : DynVerifier) : Evidence -> VerificationContext -> Result unit :=
  @verify _ (dyn_class d) (dyn_value d).
Definition dyn_identity (d : DynVerifier) : Evidence -> option bytes :=
  @attestation_identity _ (dyn_class d) (dyn_value d).

Record VendorVerifier := { kind : VendorKind.t; verifier : DynVerifier }.

Definition VendorVerifier_new `{C : Verifier V} (k : VendorKind.t) (v : V) : VendorVerifier :=
  {| kind := k; verifier := {| dyn_type := V; dyn_class := C; dyn_value := v |} |}.

Record MultiVendorVerifier := { verifiers : list VendorVerifier; threshold_k : nat }.

(** The loop of [new] over the vendors with the set of kinds seen. *)
Fixpoint disjoint_kinds (vs : list VendorVerifier) (kinds : gset VendorKind.t) : Result unit :=
  match vs with
  | [] => Ok tt
  | v :: vs =>
      if decide (kind v ∈ kinds) then
        Err (Other (lit "duplicate vendor kind " ++ VendorKind_debug (kind v)
                    ++ lit " — federation requires disjoint vendors"))
      else disjoint_kinds vs ({[kind v]} ∪ kinds)
  end.

Definition MultiVendorVerifier_new (vs : list VendorVerifier) (k : nat) : Result MultiVendorVerifier :=
  if decide (k = O \/ length vs < k)%nat then
    Err (Other (lit "threshold_k=" ++ znat k ++ lit " invalid for n=" ++ znat (length vs)))
  else
  let? _ := disjoint_kinds vs ∅ in
  Ok {| verifiers := vs; threshold_k := k |}.

(** The passing kinds and identities, through the loop over the slots. *)
Fixpoint slot_loop (slots : list (VendorVerifier * Evidence)) (ctx : VerificationContext)
    (kinds : gset VendorKind.t) (ids : gset bytes) : gset VendorKind.t * gset bytes :=
  match slots with
  | [] => (kinds, ids)
  | (slot, evidence) :: slots =>
      if negb (admits_cpu_kind (kind slot) (cpu_quote_kind evidence)) then slot_loop slots ctx kinds ids
      else if negb (is_ok (dyn_verify (verifier slot) evidence ctx)) then slot_loop slots ctx kinds ids
      else match dyn_identity (verifier slot) evidence with
      | None => slot_loop slots ctx kinds ids
      | Some id =>
          if decide (id ∈ ids) then slot_loop slots ctx kinds ids
          else slot_loop slots ctx ({[kind slot]} ∪ kinds) ({[id]} ∪ ids)
      end
  end.

Definition MultiVendorVerifier_verify (m : MultiVendorVerifier) (evidences : list Evidence)
    (ctx : VerificationContext) : Result (gset VendorKind.t) :=
  if decide (length evidences <> length (verifiers m)) then
    Err (Other (lit "expected " ++ znat (length (verifiers m)) ++ lit " evidences, got "
                ++ znat (length evidences)))
  else
  let '(passing_kinds, passing_identities) := slot_loop (zip (verifiers m) evidences) ctx ∅ ∅ in
  if decide (size passing_identities < threshold_k m)%nat then
    Err (AttestationFailed (lit "k-of-n failed: " ++ znat (size passing_identities)
                            ++ lit " distinct attestation identities, threshold " ++ znat (threshold_k m)))
  else Ok passing_kinds.

(** ** build.rs *)

Definition BuildHash_of `{Sha2} (image_bytes : bytes) : bytes := sha256 image_bytes.

Record ProviderManifest := { provider_id : bytes; build_hash : bytes; region : bytes }.

Record ReproducibleBuildVerifier (V : Type) := { inner : V; allowed_builds : gset bytes }.
Arguments inner {V}.
Arguments allowed_builds {V}.

Definition ReproducibleBuildVerifier_new {V} (v : V) (builds : list bytes) : ReproducibleBuildVerifier V :=
  {| inner := v; allowed_builds := list_to_set builds |}.

Definition ReproducibleBuildVerifier_verify `{Verifier V, !Hex} (v : ReproducibleBuildVerifier V)
    (evidence : Evidence) (ctx : VerificationContext) : Result unit :=
  let? _ := verify (inner v) evidence ctx in
  let? carrier := ok_or (last (cert_chain evidence)) (AttestationFailed (lit "missing build-hash carrier")) in
  if decide (length carrier <> 32%nat) then
    Err (AttestationFailed (lit "build-hash carrier must be 32 bytes"))
  else if decide (carrier ∉ allowed_builds v) then
    Err (AttestationFailed (lit "build hash " ++ hex_encode carrier ++ lit " not in admission allowlist"))
  else Ok tt.

#[export] Instance ReproducibleBuildVerifier_Verifier `{Verifier V, !Hex} :
  Verifier (ReproducibleBuildVerifier V) := {|
  verify := ReproducibleBuildVerifier_verify;
  attestation_identity v := attestation_identity (inner v);
|}.

(** ** pool.rs *)

Record Provider := { manifest : ProviderManifest; vendor : VendorKind.t; url : bytes; healthy : bool }.

Record ProviderPool := { providers : list Provider }.

Definition ProviderPool_new (ps : list Provider) : ProviderPool := {| providers := ps |}.

Record RoutingPlan := { plan_providers : list Provider }.

Fixpoint plan_loop (ps : list Provider) (k : nat) (chosen : list Provider) (seen : gset VendorKind.t)
  : Result RoutingPlan :=
  match ps with
  | [] => Err (Other (lit "only " ++ znat (length chosen) ++ lit " vendor-disjoint healthy providers; needed "
                      ++ znat k))
  | p :: ps =>
      if negb (healthy p) then plan_loop ps k chosen seen
      else if decide (vendor p ∈ seen) then plan_loop ps k chosen seen
      else
        let chosen := chosen ++ [p] in
        let seen := {[vendor p]} ∪ seen in
        if decide (length chosen = k) then Ok {| plan_providers := chosen |}
        else plan_loop ps k chosen seen
  end.

Definition plan_disjoint (pool : ProviderPool) (k : nat) : Result RoutingPlan :=
  if decide (k = O) then Err (Other (lit "k must be > 0")) else
  plan_loop (providers pool) k [] ∅.

(** ** The quorum *)

(** The identity a slot contributes, if its evidence is of a kind it admits and
    its verifier accepts it. *)
Definition slot_id (ctx : VerificationContext) (s : VendorVerifier * Evidence) : option bytes :=
  if admits_cpu_kind (kind s.1) (cpu_quote_kind s.2) && is_ok (dyn_verify (verifier s.1) s.2 ctx)
  then dyn_identity (verifier s.1) s.2 else None.

Definition slot_ids (ctx : VerificationContext) (slots : list (VendorVerifier * Evidence)) : gset bytes :=
  list_to_set (omap (slot_id ctx) slots).

Lemma slot_loop_step ctx s slots kinds ids :
  slot_loop (s :: slots) ctx kinds ids =
  match slot_id ctx s with
  | Some id => if decide (id ∈ ids) then slot_loop slots ctx kinds ids
               else slot_loop slots ctx ({[kind s.1]} ∪ kinds) ({[id]} ∪ ids)
  | None => slot_loop slots ctx kinds ids
  end.
Proof.
  destruct s as [slot ev]. unfold slot_id. cbn.
  destruct (admits_cpu_kind _ _); cbn; [|done]. by destruct (is_ok _).
Qed.

(** The slots that are counted: one per new identity. *)
Fixpoint counted (ctx : VerificationContext) (slots : list (VendorVerifier * Evidence)) (ids : gset bytes)
  : list (VendorVerifier * Evidence) :=
  match slots with
  | [] => []
  | s :: slots =>
      match slot_id ctx s with
      | Some id => if decide (id ∈ ids) then counted ctx slots ids
                   else s :: counted ctx slots ({[id]} ∪ ids)
      | None => counted ctx slots ids
      end
  end.

Lemma counted_sublist ctx slots ids : counted ctx slots ids `sublist_of` slots.
Proof.
  revert ids. induction slots as [|s slots IH]; intros ids; cbn; [done|].
  destruct (slot_id ctx s); [case_decide|]; by constructor.
Qed.

Lemma counted_passing ctx slots ids :
  Forall (fun s => exists id, slot_id ctx s = Some id /\ id ∉ ids) (counted ctx slots ids).
Proof.
  revert ids. induction slots as [|s slots IH]; intros ids; cbn; [constructor|].
  destruct (slot_id ctx s) as [id|] eqn:E; [case_decide|]; [apply IH| |apply IH].
  constructor; [by eexists|]. eapply Forall_impl; [apply IH|]. intros s' (i & ? & ?). exists i. set_solver.
Qed.

Lemma counted_NoDup ctx slots ids : NoDup (omap (slot_id ctx) (counted ctx slots ids)).
Proof.
  revert ids. induction slots as [|s slots IH]; intros ids; cbn; [constructor|].
  destruct (slot_id ctx s) as [id|] eqn:E; [case_decide|]; [apply IH| |apply IH].
  cbn. rewrite E. constructor; [|apply IH]. intros (s' & Hin & Hs')%list_elem_of_omap.
  pose proof (counted_passing ctx slots ({[id]} ∪ ids)) as F. rewrite Forall_forall in F.
  destruct (F s' Hin) as (i & Hi & Hn). rewrite Hs' in Hi. injection Hi as <-. set_solver.
Qed.

Lemma union_absorb `{Countable A} (x : A) (a c : gset A) : x ∈ c -> a ∪ c = {[x]} ∪ a ∪ c.
Proof. set_solver. Qed.

Lemma union_swap `{Countable A} (x : A) (a c : gset A) : {[x]} ∪ a ∪ c = a ∪ ({[x]} ∪ c).
Proof. set_solver. Qed.

Lemma counted_ids ctx slots ids :
  slot_ids ctx (counted ctx slots ids) ∪ ids = slot_ids ctx slots ∪ ids.
Proof.
  revert ids. induction slots as [|s slots IH]; intros ids; cbn; [done|]. unfold slot_ids in *. cbn.
  destruct (slot_id ctx s) as [id|] eqn:E; [case_decide as D|]; cbn; [|rewrite E; cbn|apply IH].
  - rewrite IH. by apply union_absorb.
  - rewrite !union_swap. apply IH.
Qed.

Lemma slot_loop_spec ctx slots kinds ids :
  slot_loop slots ctx kinds ids
  = (list_to_set ((fun s => kind s.1) <$> counted ctx slots ids) ∪ kinds, slot_ids ctx slots ∪ ids).
Proof.
  revert kinds ids. induction slots as [|s slots IH]; intros kinds ids.
  - cbn. f_equal; set_solver.
  - rewrite slot_loop_step. cbn [counted]. unfold slot_ids. cbn [omap list_omap].
    destruct (slot_id ctx s) as [id|] eqn:E; [case_decide as D|]; rewrite IH; unfold slot_ids.
    + cbn. f_equal. by apply union_absorb.
    + cbn. by rewrite !union_swap.
    + done.
Qed.

Lemma disjoint_kinds_NoDup vs seen : disjoint_kinds vs seen = Ok tt ->
  NoDup (kind <$> vs) /\ Forall (fun v => kind v ∉ seen) vs.
Proof.
  revert seen. induction vs as [|v vs IH]; intros seen; cbn; [split; constructor|].
  case_decide as D; [done|]. intros [H1 H2]%IH. split.
  - constructor; [|done]. intros (v' & Ek & Hin)%list_elem_of_fmap. rewrite Forall_forall in H2.
    specialize (H2 v' Hin). set_solver.
  - constructor; [done|]. eapply Forall_impl; [exact H2|]. set_solver.
Qed.

Lemma quorum_new_ok vs k m : MultiVendorVerifier_new vs k = Ok m ->
  verifiers m = vs /\ threshold_k m = k /\ (0 < k <= length vs)%nat /\ NoDup (kind <$> vs).
Proof.
  unfold MultiVendorVerifier_new. case_decide as D; [done|]. intros E. inv_ok. destruct x.
  apply disjoint_kinds_NoDup in H as [H _]. cbn. split_and!; [done|done|lia|lia|done].
Qed.

Lemma omap_length_some {A B} (f : A -> option B) l :
  Forall (fun x => is_Some (f x)) l -> length (omap f l) = length l.
Proof. induction 1 as [|x l [y Hy] _ IH]; cbn; [done|]. rewrite Hy. cbn. by rewrite IH. Qed.

(** As many slots are counted as there are identities. *)
Lemma counted_length ctx slots : length (counted ctx slots ∅) = size (slot_ids ctx slots).
Proof.
  pose proof (counted_ids ctx slots ∅) as E. rewrite !(right_id_L ∅ (∪)) in E.
  rewrite <- E. unfold slot_ids. rewrite size_list_to_set by apply counted_NoDup.
  symmetry. apply omap_length_some. eapply Forall_impl; [apply counted_passing|].
  intros s (id & ? & _). by exists id.
Qed.

Lemma zip_kinds (vs : list VendorVerifier) (evs : list Evidence) : length evs = length vs ->
  (fun s : VendorVerifier * Evidence => kind s.1) <$> zip vs evs = kind <$> vs.
Proof.
  intros Hl. rewrite <- (fst_zip vs evs) at 2 by lia. by rewrite <- list_fmap_compose.
Qed.

(** [s] is the slot at position [i], it contributes the identity [id], and no
    earlier slot contributes [id]. *)
Definition first_with_identity (ctx : VerificationContext) (slots : list (VendorVerifier * Evidence))
    (i : nat) (s : VendorVerifier * Evidence) (id : bytes) : Prop :=
  slots !! i = Some s /\ slot_id ctx s = Some id
  /\ forall j s', (j < i)%nat -> slots !! j = Some s' -> slot_id ctx s' <> Some id.

Lemma first_with_identity_cons ctx x slots i s id :
  first_with_identity ctx (x :: slots) i s id <->
  (i = O /\ s = x /\ slot_id ctx x = Some id)
  \/ exists i', i = S i' /\ slot_id ctx x <> Some id /\ first_with_identity ctx slots i' s id.
Proof.
  unfold first_with_identity. split.
  - destruct i as [|i]; cbn; intros (Hs & Hid & Hf); [left; by injection Hs as ->|right].
    exists i. split; [done|]. split; [apply (Hf O x); [lia|done]|]. split_and!; [done|done|].
    intros j s' Hj. apply (Hf (S j)). lia.
  - intros [(-> & -> & Hid)|(i' & -> & Hx & Hs & Hid & Hf)]; (split; [done|]; split; [done|]).
    + intros j s' Hj. lia.
    + intros [|j] s' Hj; [intros [= <-]; done|]. apply Hf. lia.
Qed.

(** The counted slots are the first ones with their identity. *)
Lemma elem_of_counted ctx slots ids s :
  s ∈ counted ctx slots ids <-> exists i id, first_with_identity ctx slots i s id /\ id ∉ ids.
Proof.
  revert ids. induction slots as [|x slots IH]; intros ids; cbn.
  - split; [by intros ?%elem_of_nil|]. by intros (i & id & (Hs & _) & _).
  - setoid_rewrite first_with_identity_cons.
    destruct (slot_id ctx x) as [idx|] eqn:E; [case_decide as D|]; rewrite ?elem_of_cons, IH.
    + split; [intros (i & id & Hf & Hn); exists (S i), id|intros (i & id & [(_ & _ & [= ->])|(i' & _ & _ & Hf)] & Hn)].
      * split; [right|done]. exists i. split_and!; [done|congruence|done].
      * done.
      * by exists i', id.
    + split; [intros [->|(i & id & Hf & Hn)]|].
      * exists O, idx. split; [by left|done].
      * exists (S i), id. split; [right; exists i|]; set_solver.
      * intros (i & id & [(_ & -> & _)|(i' & _ & Hne & Hf)] & Hn); [by left|right].
        exists i', id. split; [done|]. set_solver.
    + split; [intros (i & id & Hf & Hn); exists (S i), id|intros (i & id & [(_ & _ & [=])|(i' & _ & _ & Hf)] & Hn)].
      * split; [right|done]. by exists i.
      * by exists i', id.
Qed.

(** C17. The k-of-n check is a quorum of distinct attestation identities.  On a
    federation with pairwise different vendors and one evidence per slot, let
    the identities be those of the slots whose verifier accepts evidence of a
    kind they admit.  [verify] succeeds exactly when at least [k] of them are
    different; the returned set then has one vendor per identity, the vendor
    of the first slot, in the order of the federation, that carries it, and no
    other.  So no evidence, however often it is submitted under whatever
    label, counts twice under one identity.  It otherwise fails with an
    attestation error. *)
Theorem quorum_sound_complete vs k m evs ctx :
  MultiVendorVerifier_new vs k = Ok m -> length evs = length vs ->
  match MultiVendorVerifier_verify m evs ctx with
  | Ok kinds =>
      (k <= size (slot_ids ctx (zip vs evs)))%nat
      /\ size kinds = size (slot_ids ctx (zip vs evs))
      /\ forall kd, kd ∈ kinds <->
           exists i s id, first_with_identity ctx (zip vs evs) i s id /\ kind s.1 = kd
  | Err e => (size (slot_ids ctx (zip vs evs)) < k)%nat /\ exists msg, e = AttestationFailed msg
  end.
Proof.
  intros (Hvs & Hk & Hb & Hnd)%quorum_new_ok Hlen. unfold MultiVendorVerifier_verify. rewrite Hvs, Hk.
  rewrite decide_False by (intros Hn; by apply Hn). rewrite slot_loop_spec, !(right_id_L ∅ (∪)).
  case_decide as D; [split; [lia|by eexists]|]. split; [lia|].
  assert (Hkn : NoDup ((fun s => kind s.1) <$> counted ctx (zip vs evs) ∅)).
  { eapply sublist_NoDup; [|apply fmap_sublist, counted_sublist]. by rewrite zip_kinds. }
  split; [by rewrite size_list_to_set, length_fmap, counted_length|].
  intros kd. rewrite elem_of_list_to_set, list_elem_of_fmap. setoid_rewrite elem_of_counted. split.
  - intros (s & -> & i & id & Hf & _). by exists i, s, id.
  - intros (i & s & id & Hf & <-). exists s. split; [done|]. exists i, id. split; [done|set_solver].
Qed.

(** Two issuers of the mock backend, as the slots of a federation of two. *)
Definition demo_issuer (n : nat) : MockIssuer := {| signing := replicate 32 (byte.of_Z (Z.of_nat n)) |}.
Definition demo_slot (k : VendorKind.t) (n : nat) : VendorVerifier :=
  VendorVerifier_new k {| trust_root := MockIssuer_verifying_key (demo_issuer n) |}.

Lemma quorum_sound_complete_witness :
  let rd := replicate 64 Byte.x03 in
  let vs := [demo_slot VendorKind.Tdx 1; demo_slot VendorKind.Snp 2] in
  let m := {| verifiers := vs; threshold_k := 2 |} in
  let evs := [MockIssuer_issue (demo_issuer 1) rd 100; MockIssuer_issue (demo_issuer 2) rd 100] in
  let ctx := {| expected_report_data := rd; now_unix_ctx := 100; max_age_sec := 60 |} in
  exists kinds, MultiVendorVerifier_verify m evs ctx = Ok kinds /\ (2 <= size kinds)%nat
    /\ VendorKind.Snp ∈ kinds.
Proof.
  intros rd vs m evs ctx.
  assert (Hn : MultiVendorVerifier_new vs 2 = Ok m) by reflexivity.
  pose proof (quorum_sound_complete vs 2 m evs ctx Hn eq_refl) as Q.
  destruct (MultiVendorVerifier_verify m evs ctx) as [kinds|e] eqn:E.
  - exists kinds. split; [reflexivity|]. destruct Q as (Hk & -> & Hin). split; [exact Hk|].
    apply Hin. set (s1 := (demo_slot VendorKind.Tdx 1, MockIssuer_issue (demo_issuer 1) rd 100)).
    set (s2 := (demo_slot VendorKind.Snp 2, MockIssuer_issue (demo_issuer 2) rd 100)).
    exists 1%nat, s2, (default [] (slot_id ctx s2)).
    assert (H2 : bool_decide (slot_id ctx s2 = Some (default [] (slot_id ctx s2)))
      && negb (bool_decide (slot_id ctx s1 = slot_id ctx s2))
      = true) by (vm_compute; reflexivity).
    apply andb_true_iff in H2 as [H2 H1]. apply bool_decide_eq_true in H2.
    apply negb_true_iff, bool_decide_eq_false in H1.
    split; [|reflexivity]. split; [reflexivity|]. split; [exact H2|].
    intros [|j] s' Hj; [|lia]. intros [= <-]. rewrite <- H2. exact H1.
  - exfalso. assert (Hok : is_ok (MultiVendorVerifier_verify m evs ctx) = true) by (vm_compute; reflexivity).
    rewrite E in Hok. discriminate Hok.
Defined.

(** *** What the identity of [RealVerifier] lets through *)

Section OneNode.
Context `{!Subtle, !SubtleLaws, !Sha2, !Ecdsa P256, !UnicodeTables, !NvidiaJson}.

Lemma real_slot_id (v : RealVerifier) k ev ctx id :
  admits_cpu_kind k (cpu_quote_kind ev) = true -> RealVerifier_verify v ev ctx = Ok tt ->
  RealVerifier_attestation_identity v ev = Some id ->
  slot_id ctx (VendorVerifier_new k v, ev) = Some id.
Proof.
  intros Ha Hv Hi. unfold slot_id, dyn_verify, dyn_identity.
  cbn [fst snd VendorVerifier_new kind verifier dyn_class dyn_value verify attestation_identity
       RealVerifier_Verifier]. by rewrite Ha, Hv.
Qed.

(** One signed TDX quote can meet a threshold of two: the identity hashes
    certificate data no signature covers, and an NVIDIA slot admits a TDX quote
    and does not ask for a GPU one.  For every evidence accepted by a
    [RealVerifier], signature check on or off, there is a second one with the
    same signed bytes such that a federation of a TDX and an NVIDIA slot with
    that verifier accepts the pair as two vendors, unless the identity
    messages of the two, which differ, have one SHA-256. *)
Theorem one_node_meets_quorum (v : RealVerifier) ev ctx :
  RealVerifier_verify v ev ctx = Ok tt -> cpu_quote_kind ev = Tdx -> gpu_quote ev = [] ->
  exists m ev2 q q2,
    TdxQuote_parse (cpu_quote ev) = Ok q /\ TdxQuote_parse (cpu_quote ev2) = Ok q2
    /\ MultiVendorVerifier_new [VendorVerifier_new VendorKind.Tdx v; VendorVerifier_new VendorKind.Nvidia v] 2 = Ok m
    /\ tdx_signed_body (cpu_quote ev2) = tdx_signed_body (cpu_quote ev)
    /\ (MultiVendorVerifier_verify m [ev; ev2] ctx = Ok {[VendorKind.Tdx; VendorKind.Nvidia]}
        \/ sha256_collide (tdx_id_message q) (tdx_id_message q2)).
Proof.
  intros Hv Hk Hg. pose proof Hv as (_ & _ & [q _ Hq _ _ _|r Hk' _ _ _] & _)%real_verify_iff; [|congruence].
  set (c := match cert_data (tdx_signature q) with [] => [Byte.x00] | _ => [] end).
  assert (Hc : c <> cert_data (tdx_signature q)) by (subst c; by destruct (cert_data (tdx_signature q))).
  destruct (swap_cert_accepted v ev ctx q c Hv Hk Hq) as (l' & Hl' & Hb & Ha).
  { unfold cert_fits, c. by destruct (cert_data (tdx_signature q)). }
  eexists _, (set_cpu_quote ev l'), q, (set_cert q c).
  split; [done|]. split; [done|]. split; [reflexivity|]. split; [done|].
  pose proof (tdx_identity v ev q Hk Hg Hq) as I1.
  pose proof (tdx_identity v (set_cpu_quote ev l') (set_cert q c) Hk Hg Hl') as I2.
  set (id1 := sha256 _) in I1. set (id2 := sha256 _) in I2.
  destruct (decide (id1 = id2)) as [E|Hne].
  { right. unfold id1, id2 in E. apply sha256_eq_or in E as [E|C]; [|done].
    apply app_inv_head, app_inv_head in E. by destruct Hc. }
  left. unfold MultiVendorVerifier_verify. cbn [verifiers length threshold_k].
  rewrite decide_False by (intros Hn; by apply Hn). rewrite slot_loop_spec. cbn [zip zip_with counted].
  assert (S1 : slot_id ctx (VendorVerifier_new VendorKind.Tdx v, ev) = Some id1).
  { by apply real_slot_id; rewrite ?Hk. }
  assert (S2 : slot_id ctx (VendorVerifier_new VendorKind.Nvidia v, set_cpu_quote ev l') = Some id2).
  { by apply real_slot_id; cbn [set_cpu_quote cpu_quote_kind]; rewrite ?Hk. }
  rewrite S1, S2, (decide_False (P := id1 ∈ _)), (decide_False (P := id2 ∈ _)) by set_solver.
  rewrite !(right_id_L ∅ (∪)). unfold slot_ids. cbn [omap list_omap]. rewrite S1, S2.
  rewrite size_list_to_set by (repeat constructor; set_solver).
  by rewrite decide_False by (cbn; lia).
Qed.
End OneNode.

Lemma one_node_meets_quorum_witness :
  exists m ev2 q q2, threshold_k m = 2%nat /\ tdx_signed_body (cpu_quote ev2) = tdx_signed_body demo_quote
    /\ (MultiVendorVerifier_verify m [demo_evidence; ev2] demo_ctx
        = Ok {[VendorKind.Tdx; VendorKind.Nvidia]}
        \/ sha256_collide (tdx_id_message q) (tdx_id_message q2)).
Proof.
  destruct (one_node_meets_quorum demo_verifier demo_evidence demo_ctx demo_accepted eq_refl eq_refl)
    as (m & ev2 & q & q2 & _ & _ & Hm & Hb & Hr).
  exists m, ev2, q, q2. split; [by injection Hm as <-|]. split; [exact Hb|exact Hr].
Defined.

(** ** Build admission *)

Definition set_chain (ev : Evidence) (chain : list bytes) : Evidence := {|
  cpu_quote_kind := cpu_quote_kind ev; cpu_quote := cpu_quote ev; gpu_quote := gpu_quote ev;
  cert_chain := chain; ev_report_data := ev_report_data ev; issued_at_unix := issued_at_unix ev |}.

Lemma build_verify_iff `{Verifier V, !Hex} (v : ReproducibleBuildVerifier V) ev ctx :
  ReproducibleBuildVerifier_verify v ev ctx = Ok tt <->
  verify (inner v) ev ctx = Ok tt
  /\ exists h, last (cert_chain ev) = Some h /\ length h = 32%nat /\ h ∈ allowed_builds v.
Proof.
  unfold ReproducibleBuildVerifier_verify. rewrite result_bind_Ok. split.
  - intros ([] & Hi & E). split; [done|]. inv_ok. exists x.
    split_and!; [done|by apply dec_stable|by apply dec_stable].
  - intros (Hi & h & Hl & Hh & Ha). exists tt. split; [done|]. rewrite Hl. cbn [ok_or result_bind].
    by rewrite !decide_False by (intros Hn; by apply Hn).
Qed.

(** Admission by build hash: the wrapper accepts exactly when the inner
    verifier does and the last element of the certificate chain is an allowed
    32-byte hash.  That element is not part of what either backend
    authenticates: if the inner verifier accepts some evidence, then with any
    allowed hash appended to its chain the wrapper accepts it too, whatever
    image the platform runs. *)
Theorem build_admission `{!Subtle, !SubtleLaws, !Sha2, !Ed25519, !Ecdsa P256, !UnicodeTables, !NvidiaJson, !Hex}
    (builds : list bytes) ev ctx :
  (forall V `{Verifier V} (v : V),
     ReproducibleBuildVerifier_verify (ReproducibleBuildVerifier_new v builds) ev ctx = Ok tt <->
     verify v ev ctx = Ok tt
     /\ exists h, last (cert_chain ev) = Some h /\ length h = 32%nat /\ h ∈ builds)
  /\ (forall (v : RealVerifier) h, RealVerifier_verify v ev ctx = Ok tt -> h ∈ builds -> length h = 32%nat ->
      ReproducibleBuildVerifier_verify (ReproducibleBuildVerifier_new v builds)
        (set_chain ev (cert_chain ev ++ [h])) ctx = Ok tt)
  /\ (forall (v : MockVerifier) h, MockVerifier_verify v ev ctx = Ok tt -> h ∈ builds -> length h = 32%nat ->
      ReproducibleBuildVerifier_verify (ReproducibleBuildVerifier_new v builds)
        (set_chain ev (cert_chain ev ++ [h])) ctx = Ok tt).
Proof.
  split_and!.
  - intros V HV v. rewrite build_verify_iff. cbn [ReproducibleBuildVerifier_new inner allowed_builds].
    by setoid_rewrite elem_of_list_to_set.
  - intros v h Hv Hh Hl. apply build_verify_iff. split; [exact Hv|]. exists h.
    cbn [ReproducibleBuildVerifier_new allowed_builds set_chain cert_chain].
    by rewrite last_snoc, elem_of_list_to_set.
  - intros v h Hv Hh Hl. apply build_verify_iff. split.
    + apply MockVerifier_verify_Ok in Hv as (? & ? & ? & Hc & ? & ? & ?).
      apply MockVerifier_verify_Ok. split_and!; try done.
      cbn [set_chain cert_chain ReproducibleBuildVerifier_new inner].
      by destruct (cert_chain ev).
    + exists h. cbn [ReproducibleBuildVerifier_new allowed_builds set_chain cert_chain].
      by rewrite last_snoc, elem_of_list_to_set.
Qed.

(** ** Routing plans *)

(** The first healthy provider of every vendor not seen before, in order. *)
Fixpoint firsts (ps : list Provider) (seen : gset VendorKind.t) : list Provider :=
  match ps with
  | [] => []
  | p :: ps =>
      if healthy p && bool_decide (vendor p ∉ seen) then p :: firsts ps ({[vendor p]} ∪ seen)
      else firsts ps seen
  end.

Definition healthy_vendors (ps : list Provider) : gset VendorKind.t :=
  list_to_set (vendor <$> List.filter healthy ps).

Lemma firsts_spec ps seen :
  firsts ps seen `sublist_of` ps
  /\ Forall (fun p => healthy p = true /\ vendor p ∉ seen) (firsts ps seen)
  /\ NoDup (vendor <$> firsts ps seen)
  /\ list_to_set (vendor <$> firsts ps seen) ∪ seen = healthy_vendors ps ∪ seen.
Proof.
  revert seen. induction ps as [|p ps IH]; intros seen; [cbn; split_and!; constructor|]. cbn.
  unfold healthy_vendors in *. cbn [List.filter].
  destruct (healthy p) eqn:Hp; cbn [andb].
  - case_bool_decide as D; cbn.
    + destruct (IH ({[vendor p]} ∪ seen)) as (S & F & N & E). split_and!.
      * by constructor.
      * constructor; [done|]. eapply Forall_impl; [exact F|]. set_solver.
      * constructor; [|done]. intros (p' & Ev & Hin)%list_elem_of_fmap.
        rewrite Forall_forall in F. destruct (F p' Hin). set_solver.
      * by rewrite !union_swap.
    + destruct (IH seen) as (S & F & N & E). split_and!; [by constructor|done|done|].
      rewrite E. by apply union_absorb.
  - destruct (IH seen) as (S & F & N & E). split_and!; [by constructor|done..].
Qed.

Lemma plan_loop_spec ps k chosen seen : (length chosen < k)%nat ->
  plan_loop ps k chosen seen =
  if decide (k <= length chosen + length (firsts ps seen))%nat
  then Ok {| plan_providers := take k (chosen ++ firsts ps seen) |}
  else Err (Other (lit "only " ++ znat (length chosen + length (firsts ps seen))
                   ++ lit " vendor-disjoint healthy providers; needed " ++ znat k)).
Proof.
  revert chosen seen. induction ps as [|p ps IH]; intros chosen seen Hk.
  - cbn. rewrite Nat.add_0_r, decide_False by lia. done.
  - cbn [plan_loop firsts]. destruct (healthy p); cbn [negb andb]; [|by apply IH].
    case_decide as D; [rewrite bool_decide_eq_false_2 by (intros Hn; by apply Hn); by apply IH|].
    rewrite bool_decide_eq_true_2 by done. cbn [length]. case_decide as Dk.
    + rewrite length_app in Dk. cbn in Dk. rewrite decide_True by lia. do 2 f_equal.
      rewrite (app_assoc chosen [p] (firsts ps ({[vendor p]} ∪ seen)) : chosen ++ p :: _ = _). symmetry. apply take_app_length'. by rewrite length_app.
    + rewrite length_app in Dk. cbn in Dk. rewrite IH by (rewrite length_app; cbn; lia).
      rewrite length_app, <- app_assoc. cbn [length app].
      by replace (length chosen + 1 + length (firsts ps ({[vendor p]} ∪ seen)))%nat
        with (length chosen + S (length (firsts ps ({[vendor p]} ∪ seen))))%nat by lia.
Qed.

(** [plan_disjoint] is complete and minimal: for [k > 0] it succeeds exactly
    when the healthy providers come from at least [k] vendors; the plan then
    has exactly [k] providers, all healthy, pairwise of different vendors and
    in the order of the pool; otherwise the error says how many vendors there
    were. *)
Theorem plan_disjoint_spec pool k : k <> O ->
  let n := size (healthy_vendors (providers pool)) in
  match plan_disjoint pool k with
  | Ok plan =>
      (k <= n)%nat /\ length (plan_providers plan) = k
      /\ plan_providers plan `sublist_of` providers pool
      /\ Forall (fun p => healthy p = true) (plan_providers plan)
      /\ NoDup (vendor <$> plan_providers plan)
  | Err e => (n < k)%nat
      /\ e = Other (lit "only " ++ znat n ++ lit " vendor-disjoint healthy providers; needed " ++ znat k)
  end.
Proof.
  intros Hk n. unfold plan_disjoint. rewrite decide_False by done.
  rewrite plan_loop_spec by (cbn; lia). cbn [length app Nat.add].
  destruct (firsts_spec (providers pool) ∅) as (S & F & N & E). rewrite !(right_id_L ∅ (∪)) in E.
  assert (Hn : length (firsts (providers pool) ∅) = n).
  { unfold n. rewrite <- E, size_list_to_set, length_fmap by done. done. }
  rewrite Hn. case_decide; cbn [plan_providers].
  - split_and!; [done|rewrite length_take; lia| | |].
    + etrans; [apply sublist_take|done].
    + apply Forall_take. eapply Forall_impl; [exact F|]. by intros ? [].
    + rewrite fmap_take. eapply sublist_NoDup; [exact N|apply sublist_take].
  - split; [lia|done].
Qed.

Definition demo_provider (k : VendorKind.t) (h : bool) : Provider :=
  {| manifest := {| provider_id := []; build_hash := []; region := [] |}; vendor := k; url := []; healthy := h |}.

Lemma plan_disjoint_spec_witness :
  let pool := {| providers := [demo_provider VendorKind.Tdx false; demo_provider VendorKind.Snp true;
                               demo_provider VendorKind.Snp true; demo_provider VendorKind.Arm true] |} in
  exists plan, plan_disjoint pool 2 = Ok plan /\ NoDup (vendor <$> plan_providers plan).
Proof.
  intros pool. pose proof (plan_disjoint_spec pool 2 ltac:(discriminate)) as Q.
  destruct (plan_disjoint pool 2) as [plan|e] eqn:E; [|vm_compute in E; discriminate E].
  exists plan. split; [reflexivity|]. exact (proj2 (proj2 (proj2 (proj2 Q)))).
Defined.
