(* ===== verification/Receipts.v ===== *)
(** * ullm-receipts: signed usage receipts, and the digests they carry

    [crates/ullm-receipts/src/lib.rs], and the digest functions of
    [crates/ullm-tee/src/service.rs] that fill a receipt. *)

From S2P Require Import Prelude RustStd Core Crates Toy.
From Stdlib Require Import Lia.

Local Open Scope Z_scope.

Record Receipt := {
  tenant : TenantId;
  session : SessionId;
  model : bytes;
  input_tokens : Z;
  output_tokens : Z;
  epoch : Z;
  issued_at_unix : Z;
  kv_blocks_cloaked : Z;
  output_digest_hex : bytes;
  output_string_digest_hex : bytes;
  weight_commit_hex : bytes;
  activation_commits_hex : list bytes;
}.

#[export] Instance Receipt_eq_dec : EqDecision Receipt.
Proof. solve_decision. Defined.

(** An encoding linear in the size of the fields. *)
#[export] Instance Receipt_countable : Countable Receipt.
Proof.
  refine (inj_countable (A := list positive)
    (fun r => [encode (tenant r); encode (session r); encode (model r); encode (input_tokens r);
               encode (output_tokens r); encode (epoch r); encode (issued_at_unix r);
               encode (kv_blocks_cloaked r); encode (output_digest_hex r);
               encode (output_string_digest_hex r); encode (weight_commit_hex r);
               encode (activation_commits_hex r)])
    (fun l => match l with
     | [a; b; c; d; e; f; g; h; i; j; k; l] =>
         a ← decode a; b ← decode b; c ← decode c; d ← decode d; e ← decode e; f ← decode f;
         g ← decode g; h ← decode h; i ← decode i; j ← decode j; k ← decode k; l ← decode l;
         Some (Build_Receipt a b c d e f g h i j k l)
     | _ => None
     end) _).
  intros []. cbn [tenant session model input_tokens output_tokens epoch issued_at_unix
  kv_blocks_cloaked output_digest_hex output_string_digest_hex weight_commit_hex activation_commits_hex].
  by rewrite !decode_encode.
Defined.

(** 64 hexadecimal digits. *)
Definition is_hex64 (s : bytes) : bool :=
  (Z.of_nat (length s) =? 64) && forallb is_ascii_hexdigit s.

Definition Receipt_validate_structural (r : Receipt) : Result unit :=
  if negb (Z.of_nat (length (weight_commit_hex r)) =? 64) then Err BadReceipt else
  if negb (forallb is_ascii_hexdigit (weight_commit_hex r)) then Err BadReceipt else
  if negb (forallb is_hex64 (activation_commits_hex r)) then Err BadReceipt else
  if negb (is_hex64 (output_digest_hex r)) then Err BadReceipt else
  if negb (is_hex64 (output_string_digest_hex r)) then Err BadReceipt else
  Ok tt.

Record SignedReceipt := { receipt : Receipt; signature : bytes }.

Record ReceiptEnvelope := { signed_receipt : SignedReceipt; zk_layer_proofs : list bytes }.

#[export] Instance SignedReceipt_eq_dec : EqDecision SignedReceipt.
Proof. solve_decision. Defined.
#[export] Instance ReceiptEnvelope_eq_dec : EqDecision ReceiptEnvelope.
Proof. solve_decision. Defined.

#[export] Instance ReceiptEnvelope_countable : Countable ReceiptEnvelope.
Proof.
  refine (inj_countable (A := list positive)
    (fun e => [encode (receipt (signed_receipt e)); encode (signature (signed_receipt e));
               encode (zk_layer_proofs e)])
    (fun l => match l with
     | [a; b; c] => a ← decode a; b ← decode b; c ← decode c;
         Some (Build_ReceiptEnvelope (Build_SignedReceipt a b) c)
     | _ => None
     end) _).
  intros [[] ?]. cbn [receipt signed_receipt signature zk_layer_proofs].
  by rewrite !decode_encode.
Defined.

Record ReceiptSigner := { key : bytes }.

Section Sign.
Context `{!Ed25519, !Postcard Receipt}.

(** [None] is the panic of the [expect]. *)
Definition canonical_bytes (r : Receipt) : option bytes :=
  match postcard_to_allocvec r with Ok l => Some l | Err _ => None end.

Definition ReceiptSigner_verifying_key (s : ReceiptSigner) : bytes := ed25519_public (key s).

Definition ReceiptSigner_sign (s : ReceiptSigner) (r : Receipt) : option (Result SignedReceipt) :=
  match Receipt_validate_structural r with
  | Err e => Some (Err e)
  | Ok _ =>
      l ← canonical_bytes r;
      Some (Ok {| receipt := r; signature := ed25519_sign (key s) l |})
  end.

Definition verify_receipt (signed : SignedReceipt) (tee_pk : bytes) : option (Result unit) :=
  match Receipt_validate_structural (receipt signed) with
  | Err e => Some (Err e)
  | Ok _ =>
      l ← canonical_bytes (receipt signed);
      Some (if ed25519_verify tee_pk l (signature signed) then Ok tt else Err BadReceipt)
  end.
End Sign.

(** ** service.rs: the digests *)

Section Digests.
Context `{!Sha2}.

Definition compute_token_id_digest (input_hash : bytes) (ids : list Z) : bytes :=
  let count := Z.min (Z.of_nat (length ids)) u32_max in
  sha256 (lit "ULLM-v1 token-id-digest" ++ input_hash ++ to_le_bytes 4 count
          ++ flat_map (to_le_bytes 4) ids).

Definition compute_output_string_digest (input_hash output_bytes : bytes) : bytes :=
  sha256 (lit "ULLM-v1 string-digest" ++ input_hash ++ output_bytes).

Definition compute_output_digest (input_hash output_bytes : bytes) : bytes :=
  compute_output_string_digest input_hash output_bytes.
End Digests.

(** [(bytes.len() as u32).div_ceil(4)]. *)
Definition approx_token_count (l : bytes) : Z := (Z.of_nat (length l) mod 2 ^ 32 + 3) / 4.

(** ** Lemmas *)

Lemma is_hex64_hex `{HexLaws} l : length l = 32%nat -> is_hex64 (hex_encode l) = true.
Proof.
  intros Hl. unfold is_hex64. rewrite hex_encode_len, Hl. cbn.
  apply List.forallb_forall. intros c Hc. pose proof (hex_encode_digits l) as F.
  rewrite Forall_forall in F. by apply F, list_elem_of_In.
Qed.

(** A receipt whose four kinds of digest are hex of 32 bytes is well-formed. *)
Lemma validate_structural_hex `{HexLaws} r d s w cs :
  output_digest_hex r = hex_encode d -> output_string_digest_hex r = hex_encode s ->
  weight_commit_hex r = hex_encode w -> activation_commits_hex r = hex_encode <$> cs ->
  length d = 32%nat -> length s = 32%nat -> length w = 32%nat ->
  Forall (fun c => length c = 32%nat) cs ->
  Receipt_validate_structural r = Ok tt.
Proof.
  intros Hd Hs Hw Hc Ld Ls Lw Lc. unfold Receipt_validate_structural.
  rewrite Hd, Hs, Hw, Hc. pose proof (is_hex64_hex w Lw) as W. unfold is_hex64 in W.
  apply andb_prop in W as [-> ->]. cbn [negb].
  assert (forallb is_hex64 (hex_encode <$> cs) = true) as ->.
  { apply List.forallb_forall. intros x Hx.
    apply list_elem_of_In, list_elem_of_fmap in Hx as (c & -> & Hin).
    apply is_hex64_hex. rewrite Forall_forall in Lc. by apply Lc. }
  by rewrite (is_hex64_hex d), (is_hex64_hex s).
Qed.

Lemma flat_map_le_inj ids1 ids2 :
  Forall is_u32 ids1 -> Forall is_u32 ids2 ->
  flat_map (to_le_bytes 4) ids1 = flat_map (to_le_bytes 4) ids2 -> ids1 = ids2.
Proof.
  intros H1. revert ids2. induction H1 as [|x l Hx Hl IH]; intros [|y l2] H2 E; [done|..].
  - apply (f_equal length) in E. cbn [flat_map] in E.
    rewrite length_app, length_to_le_bytes in E. simpl in E. lia.
  - apply (f_equal length) in E. cbn [flat_map] in E.
    rewrite length_app, length_to_le_bytes in E. simpl in E. lia.
  - apply Forall_cons in H2 as [Hy H2]. cbn [flat_map] in E.
    apply app_inj_length_1 in E as [E1 E2]; [|by rewrite !length_to_le_bytes].
    apply to_le_bytes_inj in E1; [|exact Hx|exact Hy]. f_equal; [done|]. by apply IH.
Qed.

Lemma canonical_bytes_ok `{PostcardLaws Receipt} r :
  exists l, canonical_bytes r = Some l /\ postcard_to_allocvec r = Ok l.
Proof.
  unfold canonical_bytes. destruct (postcard_infallible r) as [l ->]. by exists l.
Qed.

Lemma sign_ok `{Ed25519Laws} `{PostcardLaws Receipt} s r :
  Receipt_validate_structural r = Ok tt ->
  exists signed, ReceiptSigner_sign s r = Some (Ok signed) /\ receipt signed = r
    /\ verify_receipt signed (ReceiptSigner_verifying_key s) = Some (Ok tt).
Proof.
  intros Hv. destruct (canonical_bytes_ok r) as (l & Hl & _).
  exists {| receipt := r; signature := ed25519_sign (key s) l |}.
  unfold ReceiptSigner_sign, verify_receipt. cbn [receipt signature].
  rewrite Hv, Hl. cbn. split; [done|]. split; [done|].
  unfold ReceiptSigner_verifying_key. by rewrite ed25519_sign_verify.
Qed.

(** ** Claims *)

(** The signer signs exactly the structurally valid receipts, never
    panics, returns the receipt unchanged, and what it signs verifies under
    its key; a malformed receipt is refused by the signer and by the verifier
    with [BadReceipt], whatever the key and the signature. *)
Theorem receipt_sign_verify `{Ed25519Laws} `{PostcardLaws Receipt} s r :
  match Receipt_validate_structural r with
  | Ok _ => exists signed, ReceiptSigner_sign s r = Some (Ok signed) /\ receipt signed = r
      /\ verify_receipt signed (ReceiptSigner_verifying_key s) = Some (Ok tt)
  | Err e => e = BadReceipt /\ ReceiptSigner_sign s r = Some (Err BadReceipt)
      /\ forall pk sig, verify_receipt {| receipt := r; signature := sig |} pk = Some (Err BadReceipt)
  end.
Proof.
  destruct (Receipt_validate_structural r) as [[]|e] eqn:Hv.
  - by apply sign_ok.
  - assert (e = BadReceipt) as ->.
    { revert Hv. unfold Receipt_validate_structural. by repeat case_match; intros [= <-]. }
    unfold ReceiptSigner_sign, verify_receipt. cbn [receipt]. by rewrite Hv.
Qed.

Definition demo_receipt : Receipt := {|
  tenant := lit "acme"; session := replicate 16 Byte.x01; model := lit "llama";
  input_tokens := 42; output_tokens := 128; epoch := 0; issued_at_unix := 1700000000;
  kv_blocks_cloaked := 0; output_digest_hex := replicate 64 Byte.x30;
  output_string_digest_hex := replicate 64 Byte.x33; weight_commit_hex := replicate 64 Byte.x31;
  activation_commits_hex := [replicate 64 Byte.x32] |}.

Lemma receipt_sign_verify_witness :
  exists signed, ReceiptSigner_sign {| key := [Byte.x07] |} demo_receipt = Some (Ok signed)
    /\ receipt signed = demo_receipt
    /\ verify_receipt signed (ReceiptSigner_verifying_key {| key := [Byte.x07] |}) = Some (Ok tt).
Proof. exact (receipt_sign_verify {| key := [Byte.x07] |} demo_receipt). Defined.

(** The signature covers every field: a receipt that verifies under the
    signer's key with the signature made for [r] is [r], or the signature of
    [r]'s bytes also verifies for different bytes (a forgery). *)
Theorem receipt_signature_covers `{Ed25519} `{PostcardLaws Receipt} s r signed r' :
  ReceiptSigner_sign s r = Some (Ok signed) ->
  verify_receipt {| receipt := r'; signature := signature signed |} (ReceiptSigner_verifying_key s)
    = Some (Ok tt) ->
  r' = r \/ exists l l', l' <> l /\ signature signed = ed25519_sign (key s) l
    /\ ed25519_verify (ReceiptSigner_verifying_key s) l' (signature signed) = true.
Proof.
  unfold ReceiptSigner_sign, verify_receipt. cbn [receipt signature].
  destruct (Receipt_validate_structural r) as [[]|]; [|done].
  destruct (Receipt_validate_structural r') as [[]|]; [|done].
  destruct (canonical_bytes_ok r) as (l & -> & Hl), (canonical_bytes_ok r') as (l' & -> & Hl').
  cbn. intros [= <-]. cbn [signature].
  destruct (ed25519_verify _ _ _) eqn:Hv; [|done]. intros _.
  destruct (decide (l' = l)) as [->|Hne].
  - left. apply postcard_inj. congruence.
  - right. by exists l, l'.
Qed.

Lemma receipt_signature_covers_witness :
  exists signed, ReceiptSigner_sign {| key := [Byte.x07] |} demo_receipt = Some (Ok signed)
  /\ (demo_receipt = demo_receipt \/ exists l l', l' <> l
      /\ signature signed = ed25519_sign [Byte.x07] l
      /\ ed25519_verify (ReceiptSigner_verifying_key {| key := [Byte.x07] |}) l' (signature signed) = true).
Proof.
  destruct (sign_ok {| key := [Byte.x07] |} demo_receipt ltac:(vm_compute; reflexivity)) as ([r sig] & Hs & Hr & Hv).
  cbn in Hr. subst r. eexists. split; [exact Hs|].
  exact (receipt_signature_covers {| key := [Byte.x07] |} demo_receipt _ demo_receipt Hs Hv).
Defined.

(** The message under [compute_token_id_digest]. *)
Definition token_id_message (h : bytes) (ids : list Z) : bytes :=
  lit "ULLM-v1 token-id-digest" ++ h ++ to_le_bytes 4 (Z.min (Z.of_nat (length ids)) u32_max)
  ++ flat_map (to_le_bytes 4) ids.

(** The token digest of a receipt determines the prompt hash and the whole
    token-id sequence (for token ids of 32 bits), and never equals a digest
    of output text, unless the two messages hashed for the two digests, which
    are then different, have one SHA-256.  The 32-bit length prefix
    is not what makes this hold, so a stream longer than it counts is covered too. *)
Theorem token_digest_binds `{Sha2} h1 h2 ids1 ids2 out :
  length h1 = 32%nat -> length h2 = 32%nat -> Forall is_u32 ids1 -> Forall is_u32 ids2 ->
  (compute_token_id_digest h1 ids1 = compute_token_id_digest h2 ids2 ->
   (h1 = h2 /\ ids1 = ids2) \/ sha256_collide (token_id_message h1 ids1) (token_id_message h2 ids2))
  /\ (compute_token_id_digest h1 ids1 = compute_output_string_digest h2 out ->
      sha256_collide (token_id_message h1 ids1) (lit "ULLM-v1 string-digest" ++ h2 ++ out)).
Proof.
  intros L1 L2 F1 F2. split; intros E; apply sha256_eq_or in E as [E|C]; auto.
  - left. apply app_inv_head in E. apply app_inj_length_1 in E as [-> E]; [|congruence].
    apply app_inj_length_1 in E as [_ E]; [|by rewrite !length_to_le_bytes].
    split; [done|]. by apply flat_map_le_inj.
  - by injection E.
Qed.

Lemma token_digest_binds_witness :
  let h := replicate 32 Byte.x09 in
  compute_token_id_digest h [100; 200] = compute_token_id_digest h [100; 200]
  /\ ((h = h /\ [100; 200] = [100; 200])
      \/ sha256_collide (token_id_message h [100; 200]) (token_id_message h [100; 200])).
Proof.
  intros h. split; [reflexivity|].
  apply (token_digest_binds h h [100; 200] [100; 200] []); try reflexivity;
    repeat (apply Forall_cons; split); try constructor; unfold is_u32; lia.
Defined.
