(* ===== verification/Threshold.v ===== *)
(** * ullm-threshold: t-of-n signing

    [crates/ullm-threshold/src/dkg.rs], [participant.rs] and [sign.rs]: the
    dealing of key shares, the two rounds of a signing participant, and the
    aggregation into one Ed25519 signature.  [frost_ed25519] is an
    interface; errors carry the crate's own texts. *)

From S2P Require Import Prelude RustStd Core Crates Toy Receipts.
From stdpp Require Import gmap fin_map_dom.
From Stdlib Require Import Lia.

Local Open Scope Z_scope.

(** ** frost_ed25519

    Its errors are given by their [Display] texts.  A [BTreeMap] that is
    iterated is the list of its bindings in the order of the keys. *)
Class Frost (R : Type) := {
  Identifier : Type;
  identifier_eq_dec :: EqDecision Identifier;
  identifier_countable :: Countable Identifier;
  SecretShare : Type;
  KeyPackage : Type;
  PublicKeyPackage : Type;
  SigningShare : Type;
  SigningNonces : Type;
  SigningCommitments : Type;
  SigningPackage : Type;
  SignatureShare : Type;
  FrostSignature : Type;
  FrostVerifyingKey : Type;
  (** maximum, then minimum number of signers *)
  generate_with_dealer : Z -> Z -> R ->
    result (list (Identifier * SecretShare) * PublicKeyPackage) bytes * R;
  key_package_try_from : SecretShare -> result KeyPackage bytes;
  signing_share : KeyPackage -> SigningShare;
  round1_commit : SigningShare -> R -> (SigningNonces * SigningCommitments) * R;
  SigningPackage_new : gmap Identifier SigningCommitments -> bytes -> SigningPackage;
  round2_sign : SigningPackage -> SigningNonces -> KeyPackage -> result SignatureShare bytes;
  frost_aggregate : SigningPackage -> gmap Identifier SignatureShare -> PublicKeyPackage ->
    result FrostSignature bytes;
  frost_signature_serialize : FrostSignature -> result bytes bytes;
  verifying_key : PublicKeyPackage -> FrostVerifyingKey;
  frost_vk_serialize : FrostVerifyingKey -> result bytes bytes;
}.

Section FrostVocabulary.
Context {R : Type} `{Frost R}.

(** A nonce and commitment that round 1 gives for a key package. *)
Definition produced (kp : KeyPackage) (n : SigningNonces) (c : SigningCommitments) : Prop :=
  exists r, (round1_commit (signing_share kp) r).1 = (n, c).

(** Nonces and commitments of signers that hold the key packages [kps]. *)
Definition round1_ok (kps : gmap Identifier KeyPackage) (nonces : gmap Identifier SigningNonces)
    (commits : gmap Identifier SigningCommitments) : Prop :=
  forall id c, commits !! id = Some c ->
    exists kp n, kps !! id = Some kp /\ nonces !! id = Some n /\ produced kp n c.

(** Shares that round 2 gives for the signers of [commits]. *)
Definition round2_ok (kps : gmap Identifier KeyPackage) (nonces : gmap Identifier SigningNonces)
    (pkg : SigningPackage) (shares : gmap Identifier SignatureShare) : Prop :=
  forall id s, shares !! id = Some s ->
    exists kp n, kps !! id = Some kp /\ nonces !! id = Some n /\ round2_sign pkg n kp = Ok s.
End FrostVocabulary.

(** What RFC 9591 and the crate document.  [dealt t pub kps]: the key
    packages are the outcome of one dealing with threshold [t]. *)
Class FrostLaws R `{Frost R, !Ed25519} := {
  dealt : Z -> PublicKeyPackage -> gmap Identifier KeyPackage -> Prop;

  (** a dealing needs a threshold of at least two and as many signers *)
  generate_spec n t r : is_ok (generate_with_dealer n t r).1 = true <-> 2 <= t <= n;
  generate_dealt n t r shares pub r' :
    generate_with_dealer n t r = (Ok (shares, pub), r') ->
    Z.of_nat (length shares) = n /\ NoDup (shares.*1)
    /\ exists kps, Forall2 (fun s kp => key_package_try_from s.2 = Ok kp) shares kps
                   /\ dealt t pub (list_to_map (zip (shares.*1) kps));
  (** round 2 accepts a package with enough commitments, its own among them *)
  round2_sign_ok t pub kps nonces commits msg id kp n :
    dealt t pub kps -> round1_ok kps nonces commits -> t <= Z.of_nat (size commits) ->
    is_Some (commits !! id) -> kps !! id = Some kp -> nonces !! id = Some n ->
    is_ok (round2_sign (SigningPackage_new commits msg) n kp) = true;
  (** shares of every committed signer aggregate to a signature exactly when
      there are enough of them *)
  frost_aggregate_ok t pub kps nonces commits msg shares :
    dealt t pub kps -> round1_ok kps nonces commits ->
    round2_ok kps nonces (SigningPackage_new commits msg) shares -> dom shares = dom commits ->
    is_ok (frost_aggregate (SigningPackage_new commits msg) shares pub) = true
    <-> t <= Z.of_nat (size commits);
  (** the crate checks the signature it returns, and its encodings are those
      of RFC 8032 *)
  frost_aggregate_verifies commits msg shares pub sig vk s :
    frost_aggregate (SigningPackage_new commits msg) shares pub = Ok sig ->
    frost_vk_serialize (verifying_key pub) = Ok vk -> frost_signature_serialize sig = Ok s ->
    ed25519_verify vk msg s = true;
  frost_signature_bytes sig : exists s, frost_signature_serialize sig = Ok s /\ length s = 64%nat;
  frost_vk_bytes t pub kps : dealt t pub kps ->
    exists vk, frost_vk_serialize (verifying_key pub) = Ok vk /\ length vk = 32%nat
               /\ ed25519_pk_valid vk = true;
}.

Section Threshold.
Context {R : Type} `{FrostLaws R}.

(** ** dkg.rs *)
Record KeyShares := {
  key_packages : gmap Identifier KeyPackage;
  public_pkg : PublicKeyPackage;
}.

(** The loop over the dealt shares. *)
Fixpoint key_packages_of (shares : list (Identifier * SecretShare)) (kps : gmap Identifier KeyPackage) :
  Result (gmap Identifier KeyPackage) :=
  match shares with
  | [] => Ok kps
  | (id, share) :: shares =>
      let? kp := map_err (fun e => Other (lit "FROST KeyPackage: " ++ e)) (key_package_try_from share) in
      key_packages_of shares (<[id := kp]> kps)
  end.

Definition distribute_with_trusted_dealer (threshold_t num_n : Z) (rng : R) : Result KeyShares * R :=
  let '(dealt_r, rng) := generate_with_dealer num_n threshold_t rng in
  (let? (secret_shares, public_pkg) :=
     map_err (fun e => Other (lit "FROST DKG failed: " ++ e)) dealt_r in
   let? key_packages := key_packages_of secret_shares ∅ in
   Ok {| key_packages := key_packages; public_pkg := public_pkg |}, rng).

Definition distribute : Z -> Z -> R -> Result KeyShares * R := distribute_with_trusted_dealer.

(** ** participant.rs *)
Record Participant := { id : Identifier; key_package : KeyPackage }.

Definition Participant_commit (p : Participant) (rng : R) : (SigningNonces * SigningCommitments) * R :=
  round1_commit (signing_share (key_package p)) rng.

Definition Participant_sign (p : Participant) (signing_package : SigningPackage) (nonces : SigningNonces) :
  Result SignatureShare :=
  map_err (fun e => Other (lit "FROST sign: " ++ e)) (round2_sign signing_package nonces (key_package p)).

(** ** sign.rs *)
Definition aggregate (signing_package : SigningPackage) (shares : gmap Identifier SignatureShare)
    (public_pkg : PublicKeyPackage) : Result bytes :=
  let? sig := map_err (fun e => Other (lit "FROST aggregate: " ++ e))
                (frost_aggregate signing_package shares public_pkg) in
  let? b := map_err (fun e => Other (lit "sig bytes: " ++ e)) (frost_signature_serialize sig) in
  if (length b =? 64)%nat then Ok b else Err (Other (lit "FROST signature not 64 bytes")).

(** The first argument is the text of ed25519-dalek's [SignatureError]. *)
Definition group_verifying_key (vk_error : bytes) (public_pkg : PublicKeyPackage) : Result bytes :=
  let? b := map_err (fun e => Other (lit "vk serialize: " ++ e))
              (frost_vk_serialize (verifying_key public_pkg)) in
  if (length b =? 32)%nat then
    if ed25519_pk_valid b then Ok b else Err (Other (lit "vk parse: " ++ vk_error))
  else Err (Other (lit "FROST vk not 32 bytes")).

(** Round 1: every participant commits; a repeated identifier overwrites. *)
Fixpoint sign_round1 (rng : R) (participants : list Participant)
    (nonces : gmap Identifier SigningNonces) (commits : gmap Identifier SigningCommitments) :
  gmap Identifier SigningNonces * gmap Identifier SigningCommitments * R :=
  match participants with
  | [] => (nonces, commits, rng)
  | p :: participants =>
      let '((n, c), rng) := Participant_commit p rng in
      sign_round1 rng participants (<[id p := n]> nonces) (<[id p := c]> commits)
  end.

(** Round 2; [None] is the panic of the [expect]. *)
Fixpoint sign_round2 (signing_package : SigningPackage) (nonces : gmap Identifier SigningNonces)
    (participants : list Participant) (shares : gmap Identifier SignatureShare) :
  option (Result (gmap Identifier SignatureShare)) :=
  match participants with
  | [] => Some (Ok shares)
  | p :: participants =>
      n ← nonces !! id p;
      match Participant_sign p signing_package n with
      | Ok share => sign_round2 signing_package nonces participants (<[id p := share]> shares)
      | Err e => Some (Err e)
      end
  end.

Definition sign_once (rng : R) (participants : list Participant) (public_pkg : PublicKeyPackage)
    (message : bytes) : option (Result bytes) * R :=
  let '(nonces, commits, rng) := sign_round1 rng participants ∅ ∅ in
  let signing_package := SigningPackage_new commits message in
  (r ← sign_round2 signing_package nonces participants ∅;
   Some (let? shares := r in aggregate signing_package shares public_pkg), rng).

(** ** The dealing *)

Lemma key_packages_of_spec shares kps l :
  Forall2 (fun s kp => key_package_try_from s.2 = Ok kp) shares l -> NoDup (shares.*1) ->
  (forall i, i ∈ shares.*1 -> kps !! i = None) ->
  key_packages_of shares kps = Ok (list_to_map (zip (shares.*1) l) ∪ kps).
Proof.
  intros Hl. revert kps. induction Hl as [|[i sh] kp shares l Hkp _ IH]; intros kps Hnd Hfresh; simpl.
  - by rewrite (left_id ∅ (∪)).
  - simpl in Hkp. rewrite Hkp. simpl. inversion Hnd as [|? ? Hi Hnd']; subst.
    rewrite IH; [|done|].
    + f_equal. rewrite <- insert_union_l, insert_union_r; [done|].
      apply not_elem_of_list_to_map_1. intros Hin. apply Hi.
      apply list_elem_of_fmap in Hin as ([j x] & -> & Hin). by apply elem_of_zip_l in Hin.
    + intros j Hj. rewrite lookup_insert_ne; [|by intros ->]. apply Hfresh. by right.
Qed.

(** A dealing succeeds exactly for [2 <= t <= n], with [n] key packages. *)
Lemma distribute_spec (t n : Z) r :
  (is_ok (distribute_with_trusted_dealer t n r).1 = true <-> 2 <= t <= n)
  /\ forall ks, (distribute_with_trusted_dealer t n r).1 = Ok ks ->
       dealt t (public_pkg ks) (key_packages ks) /\ Z.of_nat (size (key_packages ks)) = n.
Proof.
  unfold distribute_with_trusted_dealer. rewrite <- (generate_spec n t r).
  destruct (generate_with_dealer n t r) as [[[shares pub]|e] r'] eqn:E; simpl; [|done].
  apply generate_dealt in E as (Hlen & Hnd & kps & Hkps & Hd).
  rewrite (key_packages_of_spec shares ∅ kps), map_union_empty; [|done..]. split; [done|].
  rewrite ?map_union_empty. simpl. intros ks Eks. apply Ok_inj in Eks as <-. split; [exact Hd|]. simpl.
  pose proof (Forall2_length _ _ _ Hkps) as Hl.
  rewrite <- size_dom, dom_list_to_map_L, fst_zip; [|by rewrite length_fmap, Hl].
  rewrite size_list_to_set, length_fmap; done.
Qed.

(** ** The two rounds *)

(** A participant that holds the key package dealt to its identifier. *)
Definition holds (kps : gmap Identifier KeyPackage) (p : Participant) : Prop :=
  kps !! id p = Some (key_package p).

Definition signers (participants : list Participant) : gset Identifier :=
  list_to_set (id <$> participants).

Lemma sign_round1_spec kps ps r nonces commits nonces' commits' r' :
  Forall (holds kps) ps -> round1_ok kps nonces commits -> dom nonces = dom commits ->
  sign_round1 r ps nonces commits = (nonces', commits', r') ->
  round1_ok kps nonces' commits' /\ dom nonces' = dom commits' /\ dom commits' = dom commits ∪ signers ps.
Proof.
  intros Hps. revert r nonces commits.
  induction Hps as [|p ps Hp _ IH]; intros r nonces commits Hok Hdom; simpl.
  - intros [= <- <- <-]. split; [done|]. split; [done|]. unfold signers. set_solver.
  - unfold Participant_commit. destruct (round1_commit _ r) as [[n c] r1] eqn:E.
    intros (Hok' & Hd' & Hc')%IH.
    + split; [done|]. split; [done|]. rewrite Hc', dom_insert_L. unfold signers. set_solver.
    + intros i c' Hi. destruct (decide (i = id p)) as [->|Hne].
      * rewrite lookup_insert_eq in Hi. injection Hi as <-. exists (key_package p), n.
        rewrite lookup_insert_eq. split; [done|]. split; [done|]. exists r. by rewrite E.
      * rewrite lookup_insert_ne in Hi by done. rewrite lookup_insert_ne by done. by apply Hok.
    + by rewrite !dom_insert_L, Hdom.
Qed.

(** Round 2 does not panic; it ends with a share of every signer, or with
    the error of a participant whose package had too few commitments. *)
Lemma sign_round2_spec t pub kps nonces commits msg ps shares :
  dealt t pub kps -> round1_ok kps nonces commits -> dom nonces = dom commits ->
  Forall (holds kps) ps -> signers ps ⊆ dom commits ->
  round2_ok kps nonces (SigningPackage_new commits msg) shares ->
  exists res, sign_round2 (SigningPackage_new commits msg) nonces ps shares = Some res
    /\ match res with
       | Ok shares' => round2_ok kps nonces (SigningPackage_new commits msg) shares'
                       /\ dom shares' = dom shares ∪ signers ps
       | Err _ => Z.of_nat (size commits) < t
       end.
Proof.
  intros Hd Hr1 Hdom Hps Hsub. revert shares.
  induction Hps as [|p ps Hp _ IH]; intros shares Hsh; simpl.
  - eexists. split; [done|]. split; [done|]. unfold signers. set_solver.
  - unfold signers in Hsub. simpl in Hsub.
    assert (Hc : id p ∈ dom commits) by set_solver. pose proof Hc as Hn.
    rewrite <- Hdom in Hn. apply elem_of_dom in Hc, Hn as [n Hn]. rewrite Hn. simpl.
    unfold Participant_sign. destruct (round2_sign _ n (key_package p)) as [s|e] eqn:E; simpl.
    + destruct (IH ltac:(unfold signers; set_solver) (<[id p := s]> shares)) as (res & -> & Hres).
      * intros i s' [[<- <-]|[_ Hi]]%lookup_insert_Some; [|by apply Hsh]. by eexists _, _.
      * eexists. split; [done|]. destruct res; [|done]. destruct Hres as [? ->]. split; [done|].
        unfold signers. set_solver.
    + eexists. split; [done|]. destruct (Z.le_gt_cases t (Z.of_nat (size commits))) as [Hle|]; [|lia].
      pose proof (round2_sign_ok _ _ _ _ _ msg _ _ _ Hd Hr1 Hle Hc Hp Hn) as Hok. by rewrite E in Hok.
Qed.

Lemma group_verifying_key_ok e t pub kps :
  dealt t pub kps -> exists vk, group_verifying_key e pub = Ok vk
    /\ frost_vk_serialize (verifying_key pub) = Ok vk /\ ed25519_pk_valid vk = true.
Proof.
  intros (vk & Hvk & Hl & Hv)%frost_vk_bytes. exists vk. unfold group_verifying_key.
  by rewrite Hvk; simpl; rewrite Hl, Hv.
Qed.

(** The aggregation of well-formed shares. *)
Lemma aggregate_spec t pub kps nonces commits msg shares vk :
  dealt t pub kps -> round1_ok kps nonces commits ->
  round2_ok kps nonces (SigningPackage_new commits msg) shares -> dom shares = dom commits ->
  frost_vk_serialize (verifying_key pub) = Ok vk ->
  match aggregate (SigningPackage_new commits msg) shares pub with
  | Ok sig => t <= Z.of_nat (size commits) /\ length sig = 64%nat /\ ed25519_verify vk msg sig = true
  | Err _ => Z.of_nat (size commits) < t
  end.
Proof.
  intros Hd H1' H2 Hdom Hvk. pose proof (frost_aggregate_ok _ _ _ _ _ _ _ Hd H1' H2 Hdom) as Hagg.
  unfold aggregate. destruct (frost_aggregate _ shares pub) as [sig|e] eqn:E; simpl in *.
  - destruct (frost_signature_bytes sig) as (s & Hs & Hl). rewrite Hs. simpl. rewrite Hl. simpl.
    split; [by apply Hagg|]. split; [done|]. by eapply frost_aggregate_verifies.
  - apply Z.nle_gt. intros Hle. by apply Hagg in Hle.
Qed.

Lemma sign_once_spec vk_error t pub kps r ps msg :
  dealt t pub kps -> Forall (holds kps) ps ->
  exists vk res, group_verifying_key vk_error pub = Ok vk
    /\ (sign_once r ps pub msg).1 = Some res
    /\ match res with
       | Ok sig => t <= Z.of_nat (size (signers ps)) /\ length sig = 64%nat
                   /\ ed25519_verify vk msg sig = true
       | Err _ => Z.of_nat (size (signers ps)) < t
       end.
Proof.
  intros Hd Hps.
  destruct (group_verifying_key_ok vk_error _ _ _ Hd) as (vk & Hg & Hvk & _). exists vk.
  unfold sign_once. destruct (sign_round1 r ps ∅ ∅) as [[nonces commits] r1] eqn:E1.
  apply (sign_round1_spec kps) in E1 as (Hr1 & Hdom & Hcs); [|done|by intros ? ? ?%lookup_empty_Some|done].
  rewrite dom_empty_L, (left_id_L ∅ (∪)) in Hcs.
  destruct (sign_round2_spec _ _ _ _ _ msg ps ∅ Hd Hr1 Hdom Hps) as (res & -> & Hres);
    [by rewrite Hcs|by intros ? ? ?%lookup_empty_Some|].
  simpl. eexists. split; [done|]. split; [done|].
  rewrite <- Hcs, size_dom. destruct res as [shares|e]; simpl; [|done].
  destruct Hres as [Hr2 Hds]. rewrite dom_empty_L, (left_id_L ∅ (∪)), <- Hcs in Hds.
  by eapply aggregate_spec.
Qed.

(** C13. Threshold signing is exact: with key shares dealt for a threshold
    [t], a [sign_once] of any list of participants that hold dealt packages
    returns (it does not panic); it yields a 64-byte signature that verifies
    under the group key exactly when at least [t] different participants are
    in the list (one that is listed twice counts once), and an error
    otherwise. *)
Theorem sign_once_exact vk_error t n r0 ks r ps msg :
  (distribute_with_trusted_dealer t n r0).1 = Ok ks -> Forall (holds (key_packages ks)) ps ->
  exists vk res, group_verifying_key vk_error (public_pkg ks) = Ok vk
    /\ (sign_once r ps (public_pkg ks) msg).1 = Some res
    /\ match res with
       | Ok sig => t <= Z.of_nat (size (signers ps)) /\ length sig = 64%nat
                   /\ ed25519_verify vk msg sig = true
       | Err _ => Z.of_nat (size (signers ps)) < t
       end.
Proof.
  intros Hks Hps. apply (distribute_spec t n r0) in Hks as [Hd _]. by apply (sign_once_spec vk_error _ _ _ _ _ _ Hd).
Qed.

(** A receipt whose canonical bytes enough operators sign is accepted by the
    verifier of single-signer receipts, under the group key. *)
Lemma threshold_receipt_verifies `{!Postcard Receipt} t n r0 ks r ps rcpt l e :
  (distribute_with_trusted_dealer t n r0).1 = Ok ks -> Forall (holds (key_packages ks)) ps ->
  t <= Z.of_nat (size (signers ps)) ->
  Receipt_validate_structural rcpt = Ok tt -> canonical_bytes rcpt = Some l ->
  exists vk sig, group_verifying_key e (public_pkg ks) = Ok vk
    /\ (sign_once r ps (public_pkg ks) l).1 = Some (Ok sig)
    /\ verify_receipt {| receipt := rcpt; signature := sig |} vk = Some (Ok tt).
Proof.
  intros Hks Hps Ht Hv Hl. apply (distribute_spec t n r0) in Hks as [Hd _].
  destruct (sign_once_spec e _ _ _ r ps l Hd Hps) as (vk & [sig|] & Hg & Hs & Hres); [|lia].
  exists vk, sig. split; [done|]. split; [done|]. destruct Hres as (_ & _ & Hver).
  unfold verify_receipt. simpl. rewrite Hv, Hl. simpl. by rewrite Hver.
Qed.

End Threshold.

(** ** A concrete scheme

    Every share carries the key and the threshold; a signer checks the number
    of commitments and its own, and the aggregate is the key's signature when
    the signers of the package all gave a share. *)
Record toy_share := { ts_id : nat; ts_key : bytes; ts_min : Z }.

#[local] Instance toy_frost : Frost Z := {|
  Identifier := nat;
  SecretShare := toy_share;
  KeyPackage := toy_share;
  PublicKeyPackage := toy_share;
  SigningShare := toy_share;
  SigningNonces := Z;
  SigningCommitments := Z;
  SigningPackage := gmap nat Z * bytes;
  SignatureShare := nat;
  FrostSignature := bytes;
  FrostVerifyingKey := bytes;
  generate_with_dealer n t r :=
    let '(sk, r) := fill_bytes 32 r in
    (if (2 <=? t) && (t <=? n) then
       Ok ((fun i => (i, {| ts_id := i; ts_key := sk; ts_min := t |})) <$> seq 1 (Z.to_nat n),
           {| ts_id := 0; ts_key := sk; ts_min := t |})
     else Err (lit "min_signers must be at least 2 and not larger than max_signers"), r);
  key_package_try_from s := Ok s;
  signing_share kp := kp;
  round1_commit _ r := ((r, r), r + 1);
  SigningPackage_new commits msg := (commits, msg);
  round2_sign pkg n kp :=
    if Z.of_nat (size pkg.1) <? ts_min kp then Err (lit "Incorrect number of commitments.")
    else if bool_decide (pkg.1 !! ts_id kp = Some n) then Ok (ts_id kp)
    else Err (lit "The Signing Package must contain the participant's Commitment.");
  frost_aggregate pkg shares pub :=
    if (ts_min pub <=? Z.of_nat (size pkg.1)) && bool_decide (dom shares = dom pkg.1)
    then Ok (ed25519_sign (ts_key pub) pkg.2) else Err (lit "Unknown identifier.");
  frost_signature_serialize s := if (length s =? 64)%nat then Ok s else Ok (replicate 64 Byte.x00);
  verifying_key pub := ed25519_public (ts_key pub);
  frost_vk_serialize vk := Ok vk;
|}.

Definition toy_dealt (t : Z) (pub : toy_share) (kps : gmap nat toy_share) : Prop :=
  ts_min pub = t /\ forall i kp, kps !! i = Some kp -> ts_id kp = i /\ ts_min kp = t.

#[local] Instance toy_frost_laws : FrostLaws Z.
Proof.
  refine {| dealt := toy_dealt |}; simpl.
  - intros n t r.
    destruct (Z.leb_spec 2 t), (Z.leb_spec t n); simpl; split; intros; try lia; done.
  - intros n t r shares pub r'.
    destruct (Z.leb_spec 2 t), (Z.leb_spec t n); simpl; intros [= <- <- <-].
    rewrite length_fmap, length_seq, <- list_fmap_compose, list_fmap_id.
    split; [lia|]. split; [apply NoDup_seq|].
    exists ((fun i => {| ts_id := i; ts_key := to_be_bytes 32 r; ts_min := t |}) <$> seq 1 (Z.to_nat n)).
    split; [apply Forall2_fmap, Forall_Forall2_diag, Forall_true; done|].
    split; [done|]. intros i kp Hi. apply elem_of_list_to_map_2 in Hi.
    rewrite zip_with_fmap_r, zip_with_diag in Hi.
    by apply list_elem_of_fmap in Hi as (j & [= -> ->] & _).
  - intros t pub kps nonces commits msg i kp n [_ Hd] Hr1 Ht [c Hc] Hkp Hn.
    destruct (Hd _ _ Hkp) as [Hid Hmin]. rewrite Hmin.
    destruct (Z.ltb_spec (Z.of_nat (size commits)) t); [lia|].
    destruct (Hr1 _ _ Hc) as (kp' & n' & _ & Hn' & r & [= -> <-]). 
    pose proof (eq_trans (eq_sym Hn) Hn') as [= ->].
    by rewrite bool_decide_eq_true_2 by (by rewrite Hid).
  - intros t pub kps nonces commits msg shares [<- _] _ _ Hdom.
    rewrite (bool_decide_eq_true_2 (dom shares = dom commits)), andb_true_r by done.
    destruct (Z.leb_spec (ts_min pub) (Z.of_nat (size commits))); simpl; split; intros; try lia; done.
  - intros commits msg shares pub sig vk s E [= <-].
    destruct ((ts_min pub <=? _) && _) in E; [|done]. injection E as <-.
    destruct (Nat.eqb_spec (length (toy_sig (digest 32 (ts_key pub)) msg)) 64) as [_|Hne];
      [|by destruct Hne; apply length_to_be_bytes].
    intros [= <-]. by apply bool_decide_eq_true_2.
  - intros s. destruct (Nat.eqb_spec (length s) 64); eexists; split; done.
  - intros t pub kps _. eexists. split; [done|].
    split; [apply length_to_be_bytes|]. apply bool_decide_eq_true_2, length_to_be_bytes.
Defined.

Definition demo_kp (i : nat) : toy_share :=
  {| ts_id := i; ts_key := (fill_bytes (R := Z) 32 5).1; ts_min := 2 |}.
Definition demo_participant (i : nat) : Participant := {| id := i : Identifier; key_package := demo_kp i |}.

Definition demo_shares : KeyShares :=
  {| key_packages := list_to_map ((fun i => (i, demo_kp i)) <$> [3; 2; 1]%nat) : gmap Identifier KeyPackage;
     public_pkg := demo_kp 0 |}.

Lemma demo_shares_dealt : (distribute_with_trusted_dealer 2 3 5).1 = Ok demo_shares.
Proof. reflexivity. Qed.

Lemma demo_holds l :
  Forall (fun i => i = 1 \/ i = 2 \/ i = 3)%nat l ->
  Forall (holds (key_packages demo_shares)) (demo_participant <$> l).
Proof.
  intros Hl. apply Forall_fmap. refine (Forall_impl _ _ _ Hl _).
  intros i [->|[->| ->]]; reflexivity.
Qed.

Lemma sign_once_exact_witness :
  (exists vk sig, group_verifying_key [] (public_pkg demo_shares) = Ok vk
     /\ (sign_once 9 (demo_participant <$> [1; 3; 1]%nat) (public_pkg demo_shares) (lit "m")).1
        = Some (Ok sig)
     /\ ed25519_verify vk (lit "m") sig = true)
  /\ exists e, (sign_once 9 (demo_participant <$> [2; 2]%nat) (public_pkg demo_shares) (lit "m")).1
               = Some (Err e).
Proof.
  split.
  - destruct (sign_once_exact [] 2 3 5 _ 9 (demo_participant <$> [1; 3; 1]%nat) (lit "m") demo_shares_dealt)
      as (vk & [sig|] & Hg & Hs & Hres); [apply demo_holds; repeat constructor; lia| |by vm_compute in Hres].
    exists vk, sig. split; [exact Hg|]. split; [exact Hs|]. apply Hres.
  - destruct (sign_once_exact [] 2 3 5 _ 9 (demo_participant <$> [2; 2]%nat) (lit "m") demo_shares_dealt)
      as (vk & [sig|e] & Hg & Hs & Hres); [apply demo_holds; repeat constructor; lia| |by exists e].
    destruct Hres as [Hres _]. by vm_compute in Hres.
Defined.
