(* ===== verification/KvCloak.v ===== *)
(** * ullm-kvcloak: the byte cloak and its at-rest sealing

    [crates/ullm-kvcloak/src]: [cloak.rs], [seal.rs].  Fixed-size arrays are
    lists; every index the loops use is in range, which
    [derive_permutation_perm] shows for the permutation. *)

From S2P Require Import Prelude RustStd Core Crates Toy Crypto.
From Stdlib Require Import Lia.

Local Open Scope nat_scope.

(** ** Permutations in place *)

(** [slice::swap]. *)
Definition swap {A} (l : list A) (i j : nat) : list A :=
  match l !! i, l !! j with
  | Some x, Some y => <[i := y]> (<[j := x]> l)
  | _, _ => l
  end.

(** [for i in (1..n).rev() { j = rnd(i) % (i+1); out.swap(i, j) }], with
    [i] the next index. *)
Fixpoint fisher_yates {A} (i : nat) (rnd : nat -> Z) (out : list A) : list A :=
  match i with
  | O => out
  | S i' =>
      let j := Z.to_nat (rnd i mod (Z.of_nat i + 1)) in
      fisher_yates i' rnd (swap out i j)
  end.

(** [out[k] = buf[perm[k]]] for every [k]. *)
Definition gather {A} `{Inhabited A} (perm : list nat) (buf : list A) : list A :=
  (fun src => buf !!! src) <$> perm.

(** [buf[perm[k]] = l[k]] for every [k], in order. *)
Definition scatter {A} (perm : list nat) (l : list A) (buf : list A) : list A :=
  foldl (fun buf pv => <[pv.1 := pv.2]> buf) buf (zip perm l).

(** ** cloak.rs *)

Definition CLOAK_BLOCK_LEN : nat := 256.

Record CloakKey := {
  transform_key : bytes;
  permute_seed : bytes;
  session_nonce : bytes;
}.

Definition CloakKey_random `{Rng R} (rng : R) : CloakKey * R :=
  let '(t, rng) := fill_bytes 32 rng in
  let '(p, rng) := fill_bytes 32 rng in
  let '(n, rng) := fill_bytes 16 rng in
  ({| transform_key := t; permute_seed := p; session_nonce := n |}, rng).

Definition CloakKey_from_parts (t p n : bytes) : CloakKey :=
  {| transform_key := t; permute_seed := p; session_nonce := n |}.

Section Cloak.
Context `{!Hkdf}.

Definition apply_keystream (key session_nonce : bytes) (position : Z) (buf : bytes) : bytes :=
  let hk := hkdf_extract session_nonce key in
  let info := lit "ULLM-v1 kv-keystream" ++ to_be_bytes 8 position in
  let ks := hkdf_expand hk info CLOAK_BLOCK_LEN in
  zip_with byte_xor buf ks.

Definition derive_permutation (seed session_nonce : bytes) (position : Z) : list nat :=
  let hk := hkdf_extract session_nonce seed in
  let info := lit "ULLM-v1 kv-permute" ++ to_be_bytes 8 position in
  let bytes_needed := (CLOAK_BLOCK_LEN - 1) * 4 in
  let rand_bytes := hkdf_expand hk info bytes_needed in
  fisher_yates (CLOAK_BLOCK_LEN - 1)
    (fun i => let off := (i - 1) * 4 in from_be_bytes (slice off (off + 4) rand_bytes))
    (List.seq 0 CLOAK_BLOCK_LEN).

Definition cloak (key : CloakKey) (position : Z) (kv : bytes) : bytes :=
  let buf := apply_keystream (transform_key key) (session_nonce key) position kv in
  let perm := derive_permutation (permute_seed key) (session_nonce key) position in
  gather perm buf.

Definition uncloak (key : CloakKey) (position : Z) (cloaked : bytes) : bytes :=
  let perm := derive_permutation (permute_seed key) (session_nonce key) position in
  let buf := scatter perm cloaked (replicate CLOAK_BLOCK_LEN Byte.x00) in
  apply_keystream (transform_key key) (session_nonce key) position buf.
End Cloak.

(** ** seal.rs *)

Record SealedCloakedBlock := { sealed_nonce : bytes; sealed_ciphertext : bytes }.

Definition derive_nonce (session : SessionId) (position : Z) : bytes :=
  take 4 session ++ to_be_bytes 8 position.

Definition aad_bytes (tenant : TenantId) (session : SessionId) (position : Z) : bytes :=
  lit "ULLM-v1 kv-at-rest" ++ tenant ++ [Byte.xff] ++ session ++ to_be_bytes 8 position.

Section Seal.
Context `{!Aead}.

Definition seal_block (kek : SealedKek) (tenant : TenantId) (session : SessionId) (position : Z)
    (cloaked : bytes) : SealedCloakedBlock :=
  let nonce := derive_nonce session position in
  let aad := aad_bytes tenant session position in
  let ct := seal kek nonce aad cloaked in
  {| sealed_nonce := nonce; sealed_ciphertext := ct |}.

Definition unseal_block (kek : SealedKek) (tenant : TenantId) (session : SessionId) (position : Z)
    (sealed : SealedCloakedBlock) : result bytes SealError :=
  let expected_nonce := derive_nonce session position in
  if decide (sealed_nonce sealed <> expected_nonce) then Err SealOpen else
  let aad := aad_bytes tenant session position in
  let? pt := unseal kek (sealed_nonce sealed) aad (sealed_ciphertext sealed) in
  if decide (length pt <> CLOAK_BLOCK_LEN) then Err SealOpen else Ok pt.
End Seal.

(** ** Lemmas on permutations *)

Lemma swap_length {A} (l : list A) i j : length (swap l i j) = length l.
Proof. unfold swap. repeat case_match; by rewrite ?length_insert. Qed.

Lemma swap_perm {A} (l : list A) i j : swap l i j ≡ₚ l.
Proof.
  unfold swap. destruct (l !! i) as [x|] eqn:Hi, (l !! j) as [y|] eqn:Hj; try done.
  by apply Permutation_insert_swap.
Qed.

Lemma fisher_yates_perm {A} i rnd (l : list A) : fisher_yates i rnd l ≡ₚ l.
Proof.
  revert l. induction i as [|i IH]; intros l; [done|]. cbn [fisher_yates].
  by rewrite IH, swap_perm.
Qed.

Section Gather.
Context {A : Type} `{!Inhabited A}.

Lemma scatter_length perm (l buf : list A) : length (scatter perm l buf) = length buf.
Proof.
  unfold scatter. generalize (zip perm l) as pvs. intros pvs. revert buf.
  induction pvs as [|[p v] pvs IH]; intros buf; [done|]. cbn. by rewrite IH, length_insert.
Qed.

Lemma scatter_lookup perm (l buf : list A) i p v :
  NoDup perm -> perm !! i = Some p -> l !! i = Some v -> p < length buf ->
  scatter perm l buf !! p = Some v.
Proof.
  unfold scatter. revert l buf i. induction perm as [|q perm IH]; intros [|w l] buf i Hnd Hp Hl Hlt; try done.
  apply NoDup_cons in Hnd as [Hq Hnd]. cbn [zip zip_with foldl fst snd].
  destruct i as [|i]; simpl in Hp, Hl.
  - simplify_eq. clear IH.
    assert (Hkeep : forall (l buf : list A), buf !! p = Some v ->
      foldl (fun buf pv => <[pv.1 := pv.2]> buf) buf (zip perm l) !! p = Some v).
    { clear l buf Hlt Hnd. induction perm as [|r perm IH]; intros [|x l] buf Hb; cbn; try done.
      apply IH; [set_solver|]. rewrite list_lookup_insert_ne; [done|]. set_solver. }
    apply Hkeep. apply list_lookup_insert_eq. done.
  - apply (IH l _ i); try done. by rewrite length_insert.
Qed.

(** Scattering by a permutation of the indices undoes gathering by it. *)
Lemma scatter_gather perm (l buf : list A) :
  perm ≡ₚ List.seq 0 (length l) -> length buf = length l -> scatter perm (gather perm l) buf = l.
Proof.
  intros Hp Hlen. apply list_eq. intros k.
  destruct (decide (k < length l)) as [Hk|Hk].
  - assert (Hin : k ∈ perm) by (rewrite Hp; apply elem_of_seq; lia).
    apply list_elem_of_lookup in Hin as [i Hi].
    destruct (lookup_lt_is_Some_2 l k Hk) as [v Hv]. rewrite Hv.
    apply (scatter_lookup _ _ _ i); [rewrite Hp; apply NoDup_seq|done| |lia].
    unfold gather. rewrite list_lookup_fmap, Hi. cbn. f_equal. by apply list_lookup_total_correct.
  - rewrite !lookup_ge_None_2; [done|lia|]. rewrite scatter_length. lia.
Qed.

Lemma gather_length perm (l : list A) : length (gather perm l) = length perm.
Proof. unfold gather. apply length_fmap. Qed.
End Gather.

(** ** Lemmas on the cloak *)

Lemma byte_xor_involutive x y : byte_xor (byte_xor x y) y = x.
Proof.
  rewrite <- (byte.of_Z_unsigned (byte_xor (byte_xor x y) y)), !unsigned_byte_xor.
  by rewrite Z.lxor_assoc, Z.lxor_nilpotent, Z.lxor_0_r, byte.of_Z_unsigned.
Qed.

Section CloakLemmas.
Context `{!Hkdf, !HkdfLaws}.

Lemma derive_permutation_perm seed n position :
  derive_permutation seed n position ≡ₚ List.seq 0 CLOAK_BLOCK_LEN.
Proof. apply fisher_yates_perm. Qed.

Lemma keystream_involutive key n position buf :
  length buf = CLOAK_BLOCK_LEN ->
  apply_keystream key n position (apply_keystream key n position buf) = buf.
Proof.
  intros Hb. unfold apply_keystream.
  set (ks := hkdf_expand _ _ _). assert (Hks : length ks = length buf).
  { subst ks. rewrite hkdf_expand_len; [done|]. unfold CLOAK_BLOCK_LEN. lia. }
  clearbody ks. clear Hb. revert ks Hks. induction buf as [|x buf IH]; intros [|k ks] Hks; try done.
  cbn [zip_with]. rewrite byte_xor_involutive. f_equal. apply IH. simpl in Hks. lia.
Qed.

Lemma keystream_length key n position buf :
  length buf = CLOAK_BLOCK_LEN -> length (apply_keystream key n position buf) = CLOAK_BLOCK_LEN.
Proof.
  intros Hb. unfold apply_keystream. rewrite length_zip_with, hkdf_expand_len by (unfold CLOAK_BLOCK_LEN; lia).
  lia.
Qed.
End CloakLemmas.

Section SealLemmas.
Context `{!Aead, !AeadLaws}.

(** The suffix after the tenant has a fixed length, so the associated data
    determines all three parts. *)
Lemma aad_bytes_inj t1 s1 p1 t2 s2 p2 :
  length s1 = 16 -> length s2 = 16 -> is_u64 p1 -> is_u64 p2 ->
  aad_bytes t1 s1 p1 = aad_bytes t2 s2 p2 -> t1 = t2 /\ s1 = s2 /\ p1 = p2.
Proof.
  intros L1 L2 P1 P2 E. unfold aad_bytes in E. apply app_inv_head in E.
  assert (Hlen : length t1 = length t2).
  { apply (f_equal length) in E. rewrite !length_app, !length_to_be_bytes in E. simpl in E. lia. }
  apply app_inj_length_1 in E as [-> E]; [|done]. apply app_inv_head in E.
  apply app_inj_length_1 in E as [-> E]; [|congruence].
  by apply to_be_bytes_inj in E as ->.
Qed.

Lemma unseal_block_Ok kek t s p b d :
  unseal_block kek t s p b = Ok d <->
  sealed_nonce b = derive_nonce s p /\ length d = CLOAK_BLOCK_LEN
  /\ sealed_ciphertext b = seal kek (derive_nonce s p) (aad_bytes t s p) d.
Proof.
  unfold unseal_block. split.
  - case_decide as Hn; [done|]. rewrite Hn. intros E.
    destruct (unseal _ _ _ _) as [pt|] eqn:Hu; cbn in E; [|done]. apply unseal_spec in Hu.
    case_decide as Hl; [done|]. by injection E as <-.
  - intros (Hn & Hl & Hc). rewrite decide_False by (intros Hc'; by apply Hc').
    rewrite Hn, (proj2 (unseal_spec _ _ _ _ _) Hc). cbn [result_bind].
    by rewrite decide_False by (intros Hc'; by apply Hc').
Qed.
End SealLemmas.

(** Two messages with different associated data and one ciphertext. *)
Definition gcmsiv_confusion `{Aead} : Prop :=
  exists k n a1 a2 m1 m2, a1 <> a2 /\ gcmsiv_encrypt k n a1 m1 = gcmsiv_encrypt k n a2 m2.

(** ** Claims *)

(** [uncloak] inverts [cloak] for every key and position, on every block;
    the permutation the key derives is a bijection of the block's indices,
    and the cloaked block has the block's length. *)
Theorem cloak_roundtrip `{HkdfLaws} key position kv :
  length kv = CLOAK_BLOCK_LEN ->
  uncloak key position (cloak key position kv) = kv
  /\ length (cloak key position kv) = CLOAK_BLOCK_LEN
  /\ derive_permutation (permute_seed key) (session_nonce key) position ≡ₚ List.seq 0 CLOAK_BLOCK_LEN.
Proof.
  intros Hkv. pose proof (keystream_length (transform_key key) (session_nonce key) position kv Hkv) as Hb.
  pose proof (derive_permutation_perm (permute_seed key) (session_nonce key) position) as Hp.
  split; [|split; [|done]].
  - unfold uncloak, cloak. rewrite scatter_gather; [by apply keystream_involutive|by rewrite Hb|].
    by rewrite length_replicate.
  - unfold cloak. rewrite gather_length, Hp. apply length_seq.
Qed.

Lemma cloak_roundtrip_witness :
  let key := CloakKey_from_parts [Byte.x01] [Byte.x02] [Byte.x03] in
  let kv := replicate 256 Byte.x55 in
  uncloak key 7 (cloak key 7 kv) = kv
  /\ bool_decide (cloak key 7 kv = kv) = false.
Proof.
  intros key kv. split; [exact (proj1 (cloak_roundtrip key 7 kv eq_refl))|].
  vm_compute. reflexivity.
Defined.

(** Sealing binds the context: a block sealed for (tenant, session,
    position) unseals there to itself, and if it unseals anywhere else, under
    the same key, then AES-GCM-SIV encrypts two messages under different
    associated data to one ciphertext. *)
Theorem sealed_block_context `{AeadLaws} kek t s p c t' s' p' :
  length s = 16 -> length s' = 16 -> is_u64 p -> is_u64 p' -> length c = CLOAK_BLOCK_LEN ->
  unseal_block kek t s p (seal_block kek t s p c) = Ok c
  /\ forall d, unseal_block kek t' s' p' (seal_block kek t s p c) = Ok d ->
     (t' = t /\ s' = s /\ p' = p /\ d = c) \/ gcmsiv_confusion.
Proof.
  intros Ls Ls' Hp Hp' Lc. split; [by apply unseal_block_Ok|].
  intros d (Hn & Ld & Hc)%unseal_block_Ok. cbn [sealed_nonce sealed_ciphertext seal_block] in Hn, Hc.
  rewrite <- Hn in Hc.
  destruct (decide (aad_bytes t s p = aad_bytes t' s' p')) as [Ha|Ha].
  - left. rewrite <- Ha in Hc. apply aad_bytes_inj in Ha as (-> & -> & ->); [|done..].
    split_and!; try done. apply unseal_spec in Hc.
    pose proof (proj2 (unseal_spec kek (derive_nonce s' p') (aad_bytes t' s' p') _ c) eq_refl) as Hd.
    rewrite Hd in Hc. by injection Hc.
  - right. by exists kek, (derive_nonce s p), (aad_bytes t s p), (aad_bytes t' s' p'), c, d.
Qed.

Lemma sealed_block_context_witness :
  let s := replicate 16 Byte.x07 in let c := replicate 256 Byte.xaa in
  unseal_block [Byte.x01] (lit "acme") s 5 (seal_block [Byte.x01] (lit "acme") s 5 c) = Ok c.
Proof.
  intros s c.
  apply (sealed_block_context [Byte.x01] (lit "acme") s 5 c (lit "acme") s 5);
    reflexivity || (unfold is_u64; lia).
Defined.
