(* ===== verification/Model.v ===== *)
(** * ullm-model and ullm-mpc: the verifiable model and its two-party evaluation

    [crates/ullm-model/src]: [model.rs], [commit.rs], [trace.rs];
    [crates/ullm-mpc/src]: [share.rs], [party.rs], [transcript.rs].  The
    Pallas field and the Poseidon permutation are third-party code and are
    parameters: the field by the laws of a field, Poseidon by none.
    Fixed-size arrays are lists with a length invariant. *)

From S2P Require Import Prelude RustStd Core Crates Toy.
From Stdlib Require Import Lia Ring Ring_theory Field_theory.

Local Open Scope nat_scope.

(** ** pasta_curves::Fp and the Poseidon primitive *)

Class Pasta := {
  Fp : Type;
  fp_eq_dec : EqDecision Fp;
  fzero : Fp;
  fone : Fp;
  fadd : Fp -> Fp -> Fp;
  fsub : Fp -> Fp -> Fp;
  fmul : Fp -> Fp -> Fp;
  fneg : Fp -> Fp;
  finvert : Fp -> option Fp;
  fp_from_u64 : Z -> Fp;
  from_repr_vartime : bytes -> option Fp;
  to_repr : Fp -> bytes;
  poseidon_hash : list Fp -> Fp;   (** [ConstantLength<n>] over [n] elements *)
}.
#[export] Existing Instance fp_eq_dec.

Class PastaLaws `{Pasta} : Prop := {
  fp_ring : ring_theory fzero fone fadd fmul fsub fneg (@eq Fp);
  fp_one_nonzero : fone <> fzero;
  finvert_spec x y : finvert x = Some y <-> x <> fzero /\ fmul x y = fone;
  finvert_some x : x <> fzero -> is_Some (finvert x);
  to_repr_len x : length (to_repr x) = 32;
  from_to_repr x : from_repr_vartime (to_repr x) = Some x;
  (** [p > 2^254], so a value whose top two bits are clear is canonical. *)
  from_repr_clamped l : length l = 32 ->
    (byte.unsigned (l !!! 31%nat) < 64)%Z -> is_Some (from_repr_vartime l);
}.

#[export] Instance Fp_inhabited `{Pasta} : Inhabited Fp := populate fzero.

Declare Scope fp_scope.
Delimit Scope fp_scope with F.
Infix "+" := fadd : fp_scope.
Infix "-" := fsub : fp_scope.
Infix "*" := fmul : fp_scope.
Notation "0" := fzero : fp_scope.
Notation "1" := fone : fp_scope.

(** ** commit.rs, and [fp_to_bytes]/[fp_from_bytes] of ullm-zk *)

Definition VEC_DIM : nat := 8.
Definition NUM_LAYERS : nat := 8.

Section Model.
Context `{!Pasta}.

Abbreviation vec := (list Fp).

Definition fp_to_bytes (f : Fp) : bytes := to_repr f.
Definition fp_from_bytes (l : bytes) : result Fp bytes :=
  ok_or (from_repr_vartime l) (lit "fp_from_bytes: non-canonical input (>= p)").

(** [None] is the failed [assert_eq!] on the length. *)
Definition vector_commit_native (data : vec) : option Fp :=
  if decide (length data = VEC_DIM) then Some (poseidon_hash data) else None.

Definition vector_commit (data : vec) : option bytes := fp_to_bytes <$> vector_commit_native data.

(** ** model.rs *)

Record Layer := { w : list vec; b : vec }.

Record Model := { layers : list Layer; model_weight_commit : bytes }.

(** SHA-256, the top two bits cleared; [None] is the failed [expect]. *)
Definition fp_from_wide `{!Sha2} (l : bytes) : option Fp :=
  let arr := sha256 l in
  let clamped := <[31 := byte.of_Z (Z.land (byte.unsigned (arr !!! 31%nat)) 0x3F)]> arr in
  from_repr_vartime clamped.

(** The [n] field elements read at offset [off], 64 bytes each. *)
Definition read_elems `{!Sha2} (raw : bytes) (off n : nat) : option vec :=
  mapM (fun k => fp_from_wide (slice (off + 64 * k) (off + 64 * k + 64) raw)) (List.seq 0 n).

Definition compute_weight_commit `{!Sha2} (ls : list Layer) : bytes :=
  let absorbed := lit "ULLM-v1 model"
    ++ flat_map (fun l => flat_map (flat_map to_repr) (w l) ++ flat_map to_repr (b l)) ls in
  take 32 (sha512 absorbed).

Definition layer_from_raw `{!Sha2} (raw : bytes) : option Layer :=
  ws ← mapM (fun i => read_elems raw (64 * VEC_DIM * i) VEC_DIM) (List.seq 0 VEC_DIM);
  bs ← read_elems raw (64 * VEC_DIM * VEC_DIM) VEC_DIM;
  Some {| w := ws; b := bs |}.

Definition Model_from_seed `{!Sha2, !Hkdf} (seed : bytes) : option Model :=
  let hk := hkdf_extract (lit "ULLM-v1 model seed") seed in
  let per_layer_bytes := (VEC_DIM * VEC_DIM + VEC_DIM) * 64 in
  ls ← mapM (fun layer_idx =>
         let info := lit "weights/" ++ to_be_bytes 4 (Z.of_nat layer_idx) in
         layer_from_raw (hkdf_expand hk info per_layer_bytes)) (List.seq 0 NUM_LAYERS);
  Some {| layers := ls; model_weight_commit := compute_weight_commit ls |}.

(** [acc = init; for j { acc += row[j] * x[j] }]. *)
Definition dot (init : Fp) (row x : vec) : Fp :=
  foldl (fun acc rx => (acc + rx.1 * rx.2)%F) init (zip row x).

Definition layer_apply (l : Layer) (cur : vec) : vec :=
  zip_with (fun row bi => dot bi row cur) (w l) (b l).

Record Trace := { activations : list vec }.

(** The activations after the current one. *)
Fixpoint run_layers (f : Layer -> vec -> vec) (ls : list Layer) (cur : vec) : list vec :=
  match ls with
  | [] => []
  | l :: ls => let next := f l cur in next :: run_layers f ls next
  end.

Definition Model_run (m : Model) (input : vec) : Trace :=
  {| activations := input :: run_layers layer_apply (layers m) input |}.

(** The commitment of the [w || b] data of one layer; out of range indexes
    panic. *)
Definition Model_layer_weight_commit (m : Model) (layer_idx : nat) : option Fp :=
  l ← layers m !! layer_idx;
  vector_commit_native (concat (w l) ++ b l).

(** ** trace.rs *)

Record TraceCommits := { field : list Fp; commit_bytes : list bytes }.

Definition Trace_commits (t : Trace) : option TraceCommits :=
  cs ← mapM vector_commit_native (activations t);
  Some {| field := cs; commit_bytes := fp_to_bytes <$> cs |}.

Definition Trace_input (t : Trace) : option vec := head (activations t).
Definition Trace_output (t : Trace) : option vec := last (activations t).

(** [encode_prompt_to_fp] of the TEE service; the watcher has the same
    function. *)
Definition encode_prompt_to_fp (input_hash : bytes) : vec :=
  (fun i => fp_from_u64 (from_le_bytes (slice (4 * i) (4 * i + 4) input_hash)))
    <$> List.seq 0 VEC_DIM.

(** ** share.rs *)

Class FpRandom (R : Type) := { fp_random : R -> Fp * R }.

Definition share_value `{!FpRandom R} (value : Fp) (rng : R) : (Fp * Fp) * R :=
  let '(s0, rng) := fp_random rng in
  let s1 := (value - s0)%F in
  ((s0, s1), rng).

Fixpoint share_vector `{!FpRandom R} (v : vec) (rng : R) : (vec * vec) * R :=
  match v with
  | [] => (([], []), rng)
  | x :: v =>
      let '((a, c), rng) := share_value x rng in
      let '((s0, s1), rng) := share_vector v rng in
      ((a :: s0, c :: s1), rng)
  end.

Definition reconstruct (s0 s1 : Fp) : Fp := (s0 + s1)%F.

Definition reconstruct_vector (s0 s1 : vec) : vec := zip_with fadd s0 s1.

(** ** party.rs *)

Inductive PartyId := Zero | One.

Definition owns_bias (p : PartyId) : bool := match p with Zero => true | One => false end.

Definition party_layer (id : PartyId) (l : Layer) (cur : vec) : vec :=
  zip_with (fun row bi => dot (if owns_bias id then bi else fzero) row cur) (w l) (b l).

Definition Party_run_share (id : PartyId) (m : Model) (input_share : vec) : list vec :=
  input_share :: run_layers (party_layer id) (layers m) input_share.

(** ** transcript.rs *)

Record ClientTranscript := {
  ct_input : vec;
  output : vec;
  per_layer_outputs : list vec;
}.

Record MpcResponse := { party0_shares : list vec; party1_shares : list vec }.

Definition MpcSession_run `{!FpRandom R} (m : Model) (rng : R) (input : vec)
  : option (ClientTranscript * MpcResponse) * R :=
  let '((s0, s1), rng) := share_vector input rng in
  let shares0 := Party_run_share Zero m s0 in
  let shares1 := Party_run_share One m s1 in
  (per_layer ← mapM (fun i => x ← shares0 !! i; y ← shares1 !! i; Some (reconstruct_vector x y))
                 (List.seq 0 (NUM_LAYERS + 1));
   out ← last per_layer;
   Some ({| ct_input := input; output := out; per_layer_outputs := per_layer |},
         {| party0_shares := shares0; party1_shares := shares1 |}), rng).
End Model.

(** ** Well-formed models *)

Section WF.
Context `{!Pasta, !PastaLaws}.
Add Ring FpRing : fp_ring.

Definition is_vec (v : list Fp) : Prop := length v = VEC_DIM.

Definition layer_wf (l : Layer) : Prop := is_vec (b l) /\ length (w l) = VEC_DIM /\ Forall is_vec (w l).
Definition model_wf (m : Model) : Prop := length (layers m) = NUM_LAYERS /\ Forall layer_wf (layers m).

Lemma length_run_layers f ls cur : length (run_layers f ls cur) = length ls.
Proof. revert cur. induction ls; intros; simpl; [done|]. by f_equal. Qed.

Lemma layer_apply_vec l cur : layer_wf l -> is_vec (layer_apply l cur).
Proof. intros (Hb & Hw & _). unfold is_vec, layer_apply. rewrite length_zip_with, Hb, Hw. done. Qed.

Lemma party_layer_vec id l cur : layer_wf l -> is_vec (party_layer id l cur).
Proof. intros (Hb & Hw & _). unfold is_vec, party_layer. rewrite length_zip_with, Hb, Hw. done. Qed.

Lemma run_layers_vec f ls cur :
  (forall l v, layer_wf l -> is_vec (f l v)) -> Forall layer_wf ls -> Forall is_vec (run_layers f ls cur).
Proof.
  intros Hf Hls. revert cur. induction Hls as [|l ls Hl Hls IH]; intros cur; simpl; constructor; auto.
Qed.

(** The dot product is linear in the pair (initial value, vector). *)
Lemma dot_add i0 i1 row x y :
  length x = length y ->
  dot (i0 + i1)%F row (zip_with fadd x y) = (dot i0 row x + dot i1 row y)%F.
Proof.
  unfold dot. revert i0 i1 x y. induction row as [|r row IH]; intros i0 i1 [|a x] [|c y] Hl; try done.
  cbn [zip_with zip foldl fst snd].
  replace (i0 + i1 + r * (a + c))%F with ((i0 + r * a) + (i1 + r * c))%F by ring.
  apply IH. simpl in Hl. lia.
Qed.

(** One layer: the two parties' outputs add up to the layer's output. *)
Lemma party_layers_add l x y :
  length x = length y ->
  zip_with fadd (party_layer Zero l x) (party_layer One l y) = layer_apply l (zip_with fadd x y).
Proof.
  intros Hl. unfold party_layer, layer_apply. cbn [owns_bias].
  generalize (w l) (b l). intros ws. induction ws as [|row ws IH]; intros [|bi bs]; try done.
  cbn [zip_with]. f_equal; [|apply IH]. rewrite <- dot_add by done. f_equal. ring.
Qed.

Lemma run_shares_add ls x y :
  Forall layer_wf ls -> length x = length y ->
  zip_with (zip_with fadd) (run_layers (party_layer Zero) ls x) (run_layers (party_layer One) ls y)
  = run_layers layer_apply ls (zip_with fadd x y).
Proof.
  intros Hls. revert x y. induction Hls as [|l ls Hl Hls IH]; intros x y Hxy; [done|].
  cbn [run_layers zip_with]. rewrite <- party_layers_add by done. f_equal. apply IH.
  by rewrite !party_layer_vec.
Qed.

Lemma share_vector_spec `{!FpRandom R} (v : list Fp) (rng rng' : R) s0 s1 :
  share_vector v rng = ((s0, s1), rng') ->
  zip_with fadd s0 s1 = v /\ length s0 = length v /\ length s1 = length v.
Proof.
  revert rng rng' s0 s1. induction v as [|x v IH]; intros rng rng' s0 s1; cbn [share_vector].
  - by intros [= <- <- <-].
  - unfold share_value. destruct (fp_random rng) as [r rng1].
    destruct (share_vector v rng1) as [[t0 t1] rng2] eqn:E. intros [= <- <- <-].
    destruct (IH _ _ _ _ E) as (Hv & L0 & L1). cbn. rewrite Hv, L0, L1. split_and!; try done.
    f_equal. ring.
Qed.

(** Reading the first [n] pairs of two lists of that length. *)
Lemma mapM_zip {A B} (f : A -> A -> B) (l1 l2 : list A) n :
  length l1 = n -> length l2 = n ->
  mapM (fun i => x ← l1 !! i; y ← l2 !! i; Some (f x y)) (List.seq 0 n) = Some (zip_with f l1 l2).
Proof.
  intros L1 L2. apply mapM_Some, Forall2_same_length_lookup_2.
  - rewrite length_seq, length_zip_with. lia.
  - intros i k z Hi Hz. apply lookup_seq in Hi as [-> Hlt]. cbn [plus].
    apply lookup_zip_with_Some in Hz as (x & y & -> & Hx & Hy). by rewrite Hx, Hy.
Qed.

(** ** A model derived from a seed is well-formed *)

Lemma land_3F (x : byte) : (Z.land (byte.unsigned x) 0x3F < 64)%Z.
Proof.
  change 0x3F%Z with (Z.ones 6). rewrite Z.land_ones by lia.
  pose proof (Z.mod_pos_bound (byte.unsigned x) (2 ^ 6)). lia.
Qed.

Lemma fp_from_wide_some `{!Sha2, !Sha2Laws} l : is_Some (fp_from_wide l).
Proof.
  unfold fp_from_wide. apply from_repr_clamped.
  - by rewrite length_insert, sha256_len.
  - rewrite list_lookup_total_insert_eq by (rewrite sha256_len; lia).
    rewrite byte.unsigned_of_Z. unfold byte.wrap.
    pose proof (land_3F (sha256 l !!! 31)) as Hlt.
    rewrite Z.mod_small; [done|]. split; [|lia]. apply Z.land_nonneg. right. lia.
Qed.

Lemma mapM_total {A B} (f : A -> option B) l :
  (forall x, is_Some (f x)) -> exists k, mapM f l = Some k /\ length k = length l.
Proof.
  intros Hf. destruct (mapM f l) as [k|] eqn:E.
  - exists k. split; [done|]. symmetry. by eapply length_mapM.
  - exfalso. apply mapM_None_1 in E. apply Exists_exists in E as (x & _ & Hx).
    destruct (Hf x) as [y Hy]. congruence.
Qed.

Lemma read_elems_some `{!Sha2, !Sha2Laws} raw off n :
  exists v, read_elems raw off n = Some v /\ length v = n.
Proof.
  destruct (mapM_total (fun k => fp_from_wide (slice (off + 64 * k) (off + 64 * k + 64) raw))
    (List.seq 0 n)) as (v & Hv & Hl); [intros; apply fp_from_wide_some|].
  exists v. by rewrite length_seq in Hl.
Qed.

Lemma mapM_Forall {A B} (f : A -> option B) (P : B -> Prop) l k :
  (forall x y, f x = Some y -> P y) -> mapM f l = Some k -> Forall P k.
Proof.
  intros Hf Hm. apply mapM_Some in Hm. induction Hm; constructor; eauto.
Qed.

Lemma layer_from_raw_some `{!Sha2, !Sha2Laws} raw :
  exists l, layer_from_raw raw = Some l /\ layer_wf l.
Proof.
  unfold layer_from_raw.
  destruct (mapM_total (fun i => read_elems raw (64 * VEC_DIM * i) VEC_DIM) (List.seq 0 VEC_DIM))
    as (ws & Hw & Hlw).
  { intros i. destruct (read_elems_some raw (64 * VEC_DIM * i) VEC_DIM) as (v & -> & _). by eexists. }
  destruct (read_elems_some raw (64 * VEC_DIM * VEC_DIM) VEC_DIM) as (bs & Hb & Hlb).
  rewrite Hw, Hb. eexists. split; [reflexivity|]. split; [done|]. cbn [w].
  split; [by rewrite Hlw, length_seq|].
  eapply mapM_Forall; [|exact Hw]. cbn beta. intros i v Hv.
  destruct (read_elems_some raw (64 * VEC_DIM * i) VEC_DIM) as (v' & Hv' & Hl). by simplify_eq.
Qed.

Lemma length_weight_commit `{!Sha2, !Sha2Laws} ls : length (compute_weight_commit ls) = 32.
Proof. unfold compute_weight_commit. by rewrite length_take, sha512_len. Qed.

Lemma Model_from_seed_some `{!Sha2, !Sha2Laws, !Hkdf} seed :
  exists m, Model_from_seed seed = Some m /\ model_wf m
    /\ model_weight_commit m = compute_weight_commit (layers m).
Proof.
  unfold Model_from_seed.
  match goal with |- context [mapM ?f ?l] => destruct (mapM_total f l) as (ls & Hls & Hlen) end.
  { intros i. match goal with |- is_Some (layer_from_raw ?r) => destruct (layer_from_raw_some r) as (l & -> & _) end.
    by eexists. }
  rewrite Hls. eexists. split; [reflexivity|]. split; [|done]. split.
  - cbn [layers]. by rewrite Hlen, length_seq.
  - eapply mapM_Forall; [|exact Hls]. cbn beta. intros i l Hl.
    match type of Hl with layer_from_raw ?r = _ => destruct (layer_from_raw_some r) as (l' & Hl' & Hwf) end.
    by simplify_eq.
Qed.

Lemma activations_vec m input :
  model_wf m -> is_vec input ->
  Forall is_vec (activations (Model_run m input))
  /\ length (activations (Model_run m input)) = NUM_LAYERS + 1.
Proof.
  intros [Hlen Hls] Hi. cbn [activations Model_run]. split.
  - constructor; [done|]. apply run_layers_vec; [apply layer_apply_vec|done].
  - cbn [length]. rewrite length_run_layers, Hlen. done.
Qed.

Lemma commits_some vs :
  Forall is_vec vs -> mapM vector_commit_native vs = Some (poseidon_hash <$> vs).
Proof.
  intros Hvs. apply mapM_Some. induction Hvs as [|v vs Hv Hvs IH]; cbn; constructor; [|done].
  by apply decide_True.
Qed.
End WF.

(** ** The two-element field, as a concrete instance *)

#[export] Instance toy_pasta : Pasta := {|
  Fp := bool;
  fp_eq_dec := _;
  fzero := false; fone := true;
  fadd := xorb; fsub := xorb; fmul := andb; fneg x := x;
  finvert x := if x then Some true else None;
  fp_from_u64 z := Z.odd z;
  from_repr_vartime l :=
    if decide (length l = 32) then Some (bool_decide (head l = Some Byte.x01)) else None;
  to_repr x := (if x then Byte.x01 else Byte.x00) :: replicate 31 Byte.x00;
  poseidon_hash := foldr xorb false;
|}.

#[export] Instance toy_pasta_laws : PastaLaws.
Proof.
  split; cbn.
  - by constructor; repeat intros [].
  - done.
  - intros [] []; cbn; naive_solver.
  - intros []; [by eexists|done].
  - by intros [].
  - by intros [].
  - intros l -> _. by eexists.
Qed.

#[export] Instance toy_fp_random : FpRandom Z := {| fp_random r := (Z.odd r, (r * 5 + 3)%Z) |}.

(** Running a well-formed model commits to nine activations. *)
Lemma Trace_commits_run `{Pasta} m input :
  model_wf m -> is_vec input ->
  Trace_commits (Model_run m input)
  = Some {| field := poseidon_hash <$> activations (Model_run m input);
            commit_bytes := fp_to_bytes <$> (poseidon_hash <$> activations (Model_run m input)) |}.
Proof.
  intros Hwf Hi. destruct (activations_vec m input Hwf Hi) as [Hv _].
  unfold Trace_commits. by rewrite commits_some by done.
Qed.

Lemma run_commits `{PastaLaws} m input :
  model_wf m -> length input = VEC_DIM ->
  exists cs, Trace_commits (Model_run m input) = Some cs
    /\ length (commit_bytes cs) = NUM_LAYERS + 1
    /\ Forall (fun c => length c = 32) (commit_bytes cs).
Proof.
  intros Hwf Hi. destruct (activations_vec m input Hwf Hi) as [_ Hl].
  eexists. split; [by apply Trace_commits_run|]. cbn [commit_bytes]. split.
  - by rewrite !length_fmap.
  - apply Forall_fmap, Forall_true. intros. apply to_repr_len.
Qed.

(** ** Claims *)

(** The session, with the state of the generator after it. *)
Lemma mpc_session_reconstructs `{PastaLaws} `{!FpRandom R} m (rng : R) input :
  model_wf m -> length input = VEC_DIM ->
  exists tr resp rng', MpcSession_run m rng input = (Some (tr, resp), rng')
    /\ per_layer_outputs tr = activations (Model_run m input)
    /\ Some (output tr) = Trace_output (Model_run m input).
Proof.
  intros [Hlen Hls] Hin. unfold MpcSession_run.
  destruct (share_vector input rng) as [[s0 s1] rng'] eqn:Hs.
  destruct (share_vector_spec _ _ _ _ _ Hs) as (Hsum & Hl0 & Hl1).
  assert (Hrec : zip_with reconstruct_vector (Party_run_share Zero m s0) (Party_run_share One m s1)
                 = activations (Model_run m input)).
  { unfold Party_run_share, Model_run, reconstruct_vector. cbn [zip_with activations].
    rewrite Hsum. f_equal. rewrite run_shares_add, Hsum; [done|done|congruence]. }
  rewrite mapM_zip.
  - rewrite Hrec. cbn [mbind option_bind]. unfold Trace_output.
    destruct (last (activations (Model_run m input))) as [o|] eqn:Ho; [|by apply last_None in Ho].
    by eexists _, _, _.
  - unfold Party_run_share. cbn [length]. rewrite length_run_layers. lia.
  - unfold Party_run_share. cbn [length]. rewrite length_run_layers. lia.
Qed.

(** C36. Two-party evaluation is correct: on every well-formed model and input,
    with any randomness, the session returns, its output is the model's
    output, and the vectors the client reconstructs layer by layer are
    exactly the activations of the plain forward pass, although each party
    only ever computes on its own additive share. *)
Theorem mpc_correct `{PastaLaws} `{!FpRandom R} m (rng : R) input :
  model_wf m -> length input = VEC_DIM ->
  exists tr resp, (MpcSession_run m rng input).1 = Some (tr, resp)
    /\ per_layer_outputs tr = activations (Model_run m input)
    /\ Some (output tr) = Trace_output (Model_run m input).
Proof.
  intros Hm Hin. destruct (mpc_session_reconstructs m rng input Hm Hin) as (tr & resp & rng' & -> & Hr).
  by exists tr, resp.
Qed.

(** The model every party derives from a seed exists (no [expect] fails),
    has 8 layers of 8x8 weights, and runs on any 8-element input to a trace
    of 9 activation vectors that all have commitments. *)
Theorem model_from_seed_total `{PastaLaws} `{Sha2Laws} `{!Hkdf} seed input :
  length input = VEC_DIM ->
  exists m cs, Model_from_seed seed = Some m /\ model_wf m
    /\ Trace_commits (Model_run m input) = Some cs
    /\ length (commit_bytes cs) = NUM_LAYERS + 1
    /\ Forall (fun c => length c = 32) (commit_bytes cs).
Proof.
  intros Hi. destruct (Model_from_seed_some seed) as (m & Hm & Hwf & _).
  destruct (run_commits m input Hwf Hi) as (cs & Hcs). by exists m, cs.
Qed.

(** [layer_weight_commit] never returns: the data of a layer has 72
    elements and [vector_commit_native] asserts 8, so the call panics for
    every layer of every well-formed model. *)
Theorem layer_weight_commit_panics `{Pasta} m i :
  model_wf m -> Model_layer_weight_commit m i = None.
Proof.
  intros [_ Hls]. unfold Model_layer_weight_commit.
  destruct (layers m !! i) as [l|] eqn:Hl; [|done]. cbn.
  eapply Forall_lookup_1 in Hls as (Hb & Hw & Hrows); [|exact Hl].
  apply decide_False. rewrite length_app, Hb.
  destruct (w l) as [|row ws]; [done|]. apply Forall_cons in Hrows as [Hr _].
  simpl. rewrite length_app, Hr. unfold VEC_DIM. lia.
Qed.

Lemma demo_model_wf :
  model_wf {| layers := replicate 8 {| w := replicate 8 (replicate 8 true); b := replicate 8 false |};
              model_weight_commit := [] |}.
Proof.
  split; [done|]. apply Forall_replicate. split; [done|]. split; [done|]. by apply Forall_replicate.
Qed.

Lemma mpc_correct_witness :
  let m := {| layers := replicate 8 {| w := replicate 8 (replicate 8 true); b := replicate 8 false |};
              model_weight_commit := [] |} in
  let input := [true; false; true; true; false; false; true; false] in
  exists tr resp, (MpcSession_run m 12345%Z input).1 = Some (tr, resp)
    /\ per_layer_outputs tr = activations (Model_run m input)
    /\ Some (output tr) = Trace_output (Model_run m input).
Proof. intros m input. exact (mpc_correct m 12345%Z input demo_model_wf eq_refl). Defined.

Lemma model_from_seed_total_witness :
  exists m cs, Model_from_seed (replicate 32 Byte.x2a) = Some m /\ model_wf m
    /\ Trace_commits (Model_run m (replicate 8 true)) = Some cs
    /\ length (commit_bytes cs) = NUM_LAYERS + 1
    /\ Forall (fun c => length c = 32) (commit_bytes cs).
Proof. exact (model_from_seed_total (replicate 32 Byte.x2a) (replicate 8 true) eq_refl). Defined.

Lemma layer_weight_commit_panics_witness :
  Model_layer_weight_commit
    {| layers := replicate 8 {| w := replicate 8 (replicate 8 true); b := replicate 8 false |};
       model_weight_commit := [] |} 3 = None.
Proof. exact (layer_weight_commit_panics _ 3 demo_model_wf). Defined.
