(* ===== verification/Halo2.v ===== *)
(** * Halo2: the interface that the circuits of ullm-zk are written against

    [halo2_proofs] and [halo2_gadgets] are third-party code.  A circuit talks to
    them in two phases, [configure] (columns, gates, permutation columns) and
    [synthesize] (regions, assignments, copies, instance bindings); both are
    modelled by what they ask for: a constraint system, and the sequence of
    layouter events.  Every call of [synthesize] is followed by [?], so what
    the library sees is this sequence up to the first call it rejects.

    [satisfied] is the documented meaning of such a request (the PLONKish
    relation): every gate vanishes on every row of every region, copied cells
    are equal, cells bound to the instance column have its value, and the
    output of a Poseidon gadget is the hash of its inputs.  Key generation,
    proving and verification are the operations of a class; its laws say that
    keys depend on the request without witness values and that proofs of
    satisfied requests verify.  Nothing is assumed about soundness: the
    theorems on circuits quantify over all assignments instead. *)

From S2P Require Import Prelude RustStd Model.
From Stdlib Require Import Lia.

Local Open Scope nat_scope.

(** ** Columns, expressions, constraint systems *)

Inductive ColumnKind := Advice | Fixed | Instance.
Record Column := { kind : ColumnKind; column_index : nat }.
Definition Selector : Type := nat.

#[export] Instance ColumnKind_eq_dec : EqDecision ColumnKind.
Proof. solve_decision. Defined.
#[export] Instance Column_eq_dec : EqDecision Column.
Proof. solve_decision. Defined.

Section Halo2.
Context `{!Pasta}.

(** A query of a fixed or advice column at a rotation, a selector, and the
    ring operations. *)
Inductive Expression :=
| QuerySelector (s : Selector)
| QueryAdvice (c : Column) (rotation : Z)
| QueryFixed (c : Column)
| Sum (e1 e2 : Expression)
| Product (e1 e2 : Expression).

Record Pow5Config := {
  pow5_state : list Column;
  partial_sbox : Column;
  rc_a : list Column;
  rc_b : list Column;
}.
#[export] Instance Pow5Config_eq_dec : EqDecision Pow5Config.
Proof. solve_decision. Defined.

Record ConstraintSystem := {
  num_advice : nat;
  num_fixed : nat;
  num_instance : nat;
  num_selectors : nat;
  gates : list (bytes * list Expression);
  permutation : list Column;
  constants : list Column;
  pow5_chips : list Pow5Config;
}.

Definition cs_empty : ConstraintSystem :=
  {| num_advice := 0; num_fixed := 0; num_instance := 0; num_selectors := 0;
     gates := []; permutation := []; constants := []; pow5_chips := [] |}.

Definition advice_column (cs : ConstraintSystem) : Column * ConstraintSystem :=
  ({| kind := Advice; column_index := num_advice cs |},
   {| num_advice := S (num_advice cs); num_fixed := num_fixed cs; num_instance := num_instance cs;
      num_selectors := num_selectors cs; gates := gates cs; permutation := permutation cs;
      constants := constants cs; pow5_chips := pow5_chips cs |}).
Definition fixed_column (cs : ConstraintSystem) : Column * ConstraintSystem :=
  ({| kind := Fixed; column_index := num_fixed cs |},
   {| num_advice := num_advice cs; num_fixed := S (num_fixed cs); num_instance := num_instance cs;
      num_selectors := num_selectors cs; gates := gates cs; permutation := permutation cs;
      constants := constants cs; pow5_chips := pow5_chips cs |}).
Definition instance_column (cs : ConstraintSystem) : Column * ConstraintSystem :=
  ({| kind := Instance; column_index := num_instance cs |},
   {| num_advice := num_advice cs; num_fixed := num_fixed cs; num_instance := S (num_instance cs);
      num_selectors := num_selectors cs; gates := gates cs; permutation := permutation cs;
      constants := constants cs; pow5_chips := pow5_chips cs |}).
Definition selector (cs : ConstraintSystem) : Selector * ConstraintSystem :=
  (num_selectors cs,
   {| num_advice := num_advice cs; num_fixed := num_fixed cs; num_instance := num_instance cs;
      num_selectors := S (num_selectors cs); gates := gates cs; permutation := permutation cs;
      constants := constants cs; pow5_chips := pow5_chips cs |}).
Definition enable_equality (c : Column) (cs : ConstraintSystem) : ConstraintSystem :=
  {| num_advice := num_advice cs; num_fixed := num_fixed cs; num_instance := num_instance cs;
     num_selectors := num_selectors cs; gates := gates cs; permutation := permutation cs ++ [c];
     constants := constants cs; pow5_chips := pow5_chips cs |}.
Definition enable_constant (c : Column) (cs : ConstraintSystem) : ConstraintSystem :=
  {| num_advice := num_advice cs; num_fixed := num_fixed cs; num_instance := num_instance cs;
     num_selectors := num_selectors cs; gates := gates cs; permutation := permutation cs;
     constants := constants cs ++ [c]; pow5_chips := pow5_chips cs |}.
Definition create_gate (name : bytes) (polys : list Expression) (cs : ConstraintSystem)
  : ConstraintSystem :=
  {| num_advice := num_advice cs; num_fixed := num_fixed cs; num_instance := num_instance cs;
     num_selectors := num_selectors cs; gates := gates cs ++ [(name, polys)];
     permutation := permutation cs; constants := constants cs; pow5_chips := pow5_chips cs |}.

(** The gates and permutation columns of the Poseidon chip are the chip's own;
    the system records which chip was configured on which columns. *)
Definition pow5_configure (state : list Column) (sbox : Column) (rca rcb : list Column)
  (cs : ConstraintSystem) : Pow5Config * ConstraintSystem :=
  let chip := {| pow5_state := state; partial_sbox := sbox; rc_a := rca; rc_b := rcb |} in
  (chip,
   {| num_advice := num_advice cs; num_fixed := num_fixed cs; num_instance := num_instance cs;
      num_selectors := num_selectors cs; gates := gates cs; permutation := permutation cs;
      constants := constants cs; pow5_chips := pow5_chips cs ++ [chip] |}).

(** ** The layouter *)

(** A cell of a region, or the output cell of the [n]-th gadget. *)
Inductive Cell :=
| InRegion (region : nat) (c : Column) (offset : nat)
| GadgetOut (n : nat).

#[export] Instance Cell_eq_dec : EqDecision Cell.
Proof. solve_decision. Defined.

(** [Value<Fp>] is an option. *)
Record AssignedCell := { cell : Cell; value : option Fp }.

Inductive RegionCall :=
| EnableSelector (s : Selector) (offset : nat)
| AssignAdvice (c : Column) (offset : nat) (v : option Fp)
| AssignFixed (c : Column) (offset : nat) (v : Fp)
| ConstrainEqual (l r : Cell).

Inductive Event :=
| AssignRegion (region : nat) (calls : list RegionCall)
| ConstrainInstance (c : Cell) (col : Column) (row : nat)
| PoseidonInit (chip : Pow5Config) (len : nat)
| PoseidonHash (n : nat) (inputs : list Cell) (v : option Fp).

(** Inside a region: its index is read, the calls are written. *)
Definition Region (A : Type) : Type := nat -> A * list RegionCall.
#[export] Instance region_ret : MRet Region := fun _ a _ => (a, []).
#[export] Instance region_bind : MBind Region := fun _ _ k m r =>
  let '(a, c1) := m r in let '(b, c2) := k a r in (b, c1 ++ c2).

Definition enable (s : Selector) (offset : nat) : Region unit := fun _ =>
  (tt, [EnableSelector s offset]).
Definition assign_fixed (c : Column) (offset : nat) (v : Fp) : Region unit := fun _ =>
  (tt, [AssignFixed c offset v]).
Definition assign_advice (c : Column) (offset : nat) (v : option Fp) : Region AssignedCell := fun r =>
  ({| cell := InRegion r c offset; value := v |}, [AssignAdvice c offset v]).
Definition constrain_equal (x y : Cell) : Region unit := fun _ => (tt, [ConstrainEqual x y]).
(** Assigns the value of a cell again, and constrains the two to be equal. *)
Definition copy_advice (x : AssignedCell) (c : Column) (offset : nat) : Region AssignedCell :=
  y ← assign_advice c offset (value x);
  _ ← constrain_equal (cell y) (cell x);
  mret y.

(** At the top: the counters of regions and gadgets, and the events. *)
Record Counters := { next_region : nat; next_gadget : nat }.
Definition Layouter (A : Type) : Type := Counters -> A * list Event * Counters.
#[export] Instance layouter_ret : MRet Layouter := fun _ a st => (a, [], st).
#[export] Instance layouter_bind : MBind Layouter := fun _ _ k m st =>
  let '(a, e1, st) := m st in let '(b, e2, st) := k a st in (b, e1 ++ e2, st).

Definition assign_region {A} (body : Region A) : Layouter A := fun st =>
  let '(a, calls) := body (next_region st) in
  (a, [AssignRegion (next_region st) calls],
   {| next_region := S (next_region st); next_gadget := next_gadget st |}).
Definition constrain_instance (c : Cell) (col : Column) (row : nat) : Layouter unit := fun st =>
  (tt, [ConstrainInstance c col row], st).
(** [Hash::init] for messages of [len] elements, and [hash]. *)
Definition poseidon_init (chip : Pow5Config) (len : nat) : Layouter unit := fun st =>
  (tt, [PoseidonInit chip len], st).
Definition poseidon_gadget (message : list AssignedCell) : Layouter AssignedCell := fun st =>
  let v := poseidon_hash <$> mapM value message in
  ({| cell := GadgetOut (next_gadget st); value := v |},
   [PoseidonHash (next_gadget st) (cell <$> message) v],
   {| next_region := next_region st; next_gadget := S (next_gadget st) |}).

(** [for i in l { acc = f(acc, i)? }]. *)
Fixpoint foldM {M} `{MRet M, MBind M} {A B : Type} (f : A -> B -> M A) (acc : A) (l : list B) : M A :=
  match l with
  | [] => mret acc
  | i :: l => acc ← f acc i; foldM f acc l
  end.

(** ** What a request means *)

Definition Assignment : Type := Cell -> Fp.

Definition enabled (calls : list RegionCall) (s : Selector) (offset : nat) : bool :=
  existsb (fun c => match c with
                    | EnableSelector s' o => (s =? s') && (offset =? o)
                    | _ => false
                    end) calls.

(** The value last assigned; cells of fixed columns are zero by default. *)
Definition fixed_at (calls : list RegionCall) (col : Column) (offset : nat) : Fp :=
  foldl (fun acc c => match c with
                      | AssignFixed col' o v => if bool_decide (col = col' /\ offset = o) then v else acc
                      | _ => acc
                      end) fzero calls.

Fixpoint eval (asg : Assignment) (r : nat) (calls : list RegionCall) (offset : nat) (e : Expression) : Fp :=
  match e with
  | QuerySelector s => if enabled calls s offset then fone else fzero
  | QueryAdvice c rot => asg (InRegion r c (Z.to_nat (Z.of_nat offset + rot)))
  | QueryFixed c => fixed_at calls c offset
  | Sum e1 e2 => fadd (eval asg r calls offset e1) (eval asg r calls offset e2)
  | Product e1 e2 => fmul (eval asg r calls offset e1) (eval asg r calls offset e2)
  end.

Definition call_height (c : RegionCall) : nat :=
  match c with
  | EnableSelector _ o | AssignAdvice _ o _ | AssignFixed _ o _ => S o
  | ConstrainEqual _ _ => 0
  end.
Definition height (calls : list RegionCall) : nat := foldr Nat.max 0 (call_height <$> calls).

Definition gates_hold (cs : ConstraintSystem) (asg : Assignment) (r : nat) (calls : list RegionCall) : Prop :=
  Forall (fun offset => Forall (fun gate => Forall (fun p => eval asg r calls offset p = fzero) (snd gate))
                               (gates cs)) (List.seq 0 (height calls)).

Definition copy_holds (asg : Assignment) (c : RegionCall) : Prop :=
  match c with ConstrainEqual x y => asg x = asg y | _ => True end.

(** Rows of the instance column beyond the given values are zero. *)
Definition instance_at (inst : list Fp) (row : nat) : Fp := default fzero (inst !! row).

Definition event_holds (cs : ConstraintSystem) (inst : list Fp) (asg : Assignment) (e : Event) : Prop :=
  match e with
  | AssignRegion r calls => gates_hold cs asg r calls /\ Forall (copy_holds asg) calls
  | ConstrainInstance c _ row => asg c = instance_at inst row
  | PoseidonInit _ _ => True
  | PoseidonHash n inputs _ => asg (GadgetOut n) = poseidon_hash (asg <$> inputs)
  end.

Definition satisfied (cs : ConstraintSystem) (inst : list Fp) (asg : Assignment) (evs : list Event) : Prop :=
  Forall (event_holds cs inst asg) evs.

(** The assignment has the values that the request gives. *)
Definition call_agrees (asg : Assignment) (r : nat) (c : RegionCall) : Prop :=
  match c with AssignAdvice col o v => v = Some (asg (InRegion r col o)) | _ => True end.
Definition event_agrees (asg : Assignment) (e : Event) : Prop :=
  match e with
  | AssignRegion r calls => Forall (call_agrees asg r) calls
  | PoseidonHash n _ v => v = Some (asg (GadgetOut n))
  | _ => True
  end.
Definition agrees (asg : Assignment) (evs : list Event) : Prop := Forall (event_agrees asg) evs.

(** Key generation sees the request without the values of advice cells. *)
Definition call_shape (c : RegionCall) : RegionCall :=
  match c with AssignAdvice col o _ => AssignAdvice col o None | c => c end.
Definition event_shape (e : Event) : Event :=
  match e with
  | AssignRegion r calls => AssignRegion r (call_shape <$> calls)
  | PoseidonHash n inputs _ => PoseidonHash n inputs None
  | e => e
  end.
Definition shape (evs : list Event) : list Event := event_shape <$> evs.

(** Both cells of every copy, and of every instance binding, are in columns of
    the permutation argument (the output of a gadget always is). *)
Definition cell_permuted (cs : ConstraintSystem) (c : Cell) : bool :=
  match c with InRegion _ col _ => bool_decide (col ∈ permutation cs) | GadgetOut _ => true end.
Definition event_permuted (cs : ConstraintSystem) (e : Event) : bool :=
  match e with
  | AssignRegion _ calls =>
      forallb (fun c => match c with
                        | ConstrainEqual x y => cell_permuted cs x && cell_permuted cs y
                        | _ => true
                        end) calls
  | ConstrainInstance c col _ => cell_permuted cs c && bool_decide (col ∈ permutation cs)
  | PoseidonInit chip _ => bool_decide (chip ∈ pow5_chips cs)
  | PoseidonHash _ inputs _ => forallb (cell_permuted cs) inputs
  end.

(** ** The trait [Circuit] *)

Class Circuit (C : Type) := {
  Config : Type;
  without_witnesses : C -> C;
  configure : ConstraintSystem -> Config * ConstraintSystem;
  synthesize : C -> Config -> Layouter unit;
}.

Definition circuit_system (C : Type) `{!Circuit C} : ConstraintSystem := (configure cs_empty).2.
Definition circuit_events `{!Circuit C} (c : C) : list Event :=
  (synthesize c (configure cs_empty).1 {| next_region := 0; next_gadget := 0 |}).1.2.
End Halo2.

(** ** Key generation, proofs and verification *)

Class Halo2 `{Pasta} := {
  Params : Type;
  VerifyingKey : Type;
  ProvingKey : Type;
  PlonkError : Type;
  params_new : Z -> Params;
  keygen_vk : Params -> ConstraintSystem -> list Event -> result VerifyingKey PlonkError;
  keygen_pk : Params -> VerifyingKey -> ConstraintSystem -> list Event -> result ProvingKey PlonkError;
  (** With a fresh transcript, finalized; the randomness is the caller's. *)
  create_proof {R : Type} : Params -> ProvingKey -> ConstraintSystem -> list Event -> list Fp -> R ->
    result bytes PlonkError * R;
  verify_proof : Params -> VerifyingKey -> list Fp -> bytes -> result unit PlonkError;
}.

Class Halo2Laws `{Halo2} : Prop := {
  (** Keys do not depend on the values of witnesses. *)
  keygen_vk_shape p cs evs evs' : shape evs = shape evs' -> keygen_vk p cs evs = keygen_vk p cs evs';
  keygen_pk_shape p vk cs evs evs' : shape evs = shape evs' -> keygen_pk p vk cs evs = keygen_pk p vk cs evs';
  (** Completeness.  Key generation has checked that every instance row that
      is bound exists, so an instance that ends at a bound row fits. *)
  proof_complete {R : Type} p vk pk cs evs inst (rng : R) asg :
    keygen_vk p cs evs = Ok vk -> keygen_pk p vk cs evs = Ok pk ->
    forallb (event_permuted cs) evs = true ->
    (exists c col row, ConstrainInstance c col row ∈ evs /\ length inst = S row) ->
    agrees asg evs -> satisfied cs inst asg evs ->
    exists proof rng', create_proof p pk cs evs inst rng = (Ok proof, rng')
      /\ verify_proof p vk inst proof = Ok tt;
}.

(** A library that accepts everything shows that the laws can hold. *)
#[export] Instance toy_halo2 : Halo2 (H := toy_pasta) := {|
  Params := unit; VerifyingKey := unit; ProvingKey := unit; PlonkError := unit;
  params_new _ := tt;
  keygen_vk _ _ _ := Ok tt;
  keygen_pk _ _ _ _ := Ok tt;
  create_proof _ _ _ _ _ _ rng := (Ok [], rng);
  verify_proof _ _ _ _ := Ok tt;
|}.

#[export] Instance toy_halo2_laws : Halo2Laws.
Proof. split; intros; [done..|]. by eexists _, _. Qed.

(** ** A program logic for layouters

    [triple P Q m R]: when all events of [m] satisfy [P], they satisfy [Q] and
    the result satisfies [R].  Soundness of a gadget is [P := event_holds];
    completeness is [P := event_agrees] and [Q := event_holds]. *)

Section Triple.
Context `{!Pasta}.

Definition triple {A} (P Q : Event -> Prop) (m : Layouter A) (R : A -> Prop) : Prop :=
  forall st, Forall P (m st).1.2 -> Forall Q (m st).1.2 /\ R (m st).1.1.

Lemma triple_ret {A} P Q (a : A) (R : A -> Prop) : R a -> triple P Q (mret a) R.
Proof. intros HR st _. by split; [constructor|]. Qed.

Lemma triple_bind {A B} P Q (m : Layouter A) (k : A -> Layouter B) S R :
  triple P Q m S -> (forall a, S a -> triple P Q (k a) R) -> triple P Q (m ≫= k) R.
Proof.
  intros Hm Hk st. specialize (Hm st). unfold mbind, layouter_bind.
  destruct (m st) as [[a e1] st1]. specialize (Hk a). cbn [fst snd] in *. unfold triple in Hk.
  specialize (fun HS => Hk HS st1). destruct (k a st1) as [[c e2] st2]. cbn [fst snd] in *.
  rewrite !Forall_app. intros [H1 H2]. destruct (Hm H1) as [? HS]. destruct (Hk HS H2). auto.
Qed.

Lemma triple_weaken {A} P Q (m : Layouter A) (R R' : A -> Prop) :
  triple P Q m R -> (forall a, R a -> R' a) -> triple P Q m R'.
Proof. intros Hm HR st HP. destruct (Hm st HP). auto. Qed.

(** The loop rule: an invariant over the elements done so far. *)
Lemma triple_foldM {A B} P Q (f : A -> B -> Layouter A) (I : list B -> A -> Prop) done l acc :
  (forall ys y acc, y ∈ l -> I ys acc -> triple P Q (f acc y) (I (ys ++ [y]))) ->
  I done acc -> triple P Q (foldM f acc l) (I (done ++ l)).
Proof.
  revert done acc. induction l as [|y l IH]; intros ys acc Hf HI; cbn [foldM].
  - rewrite app_nil_r. by apply triple_ret.
  - eapply triple_bind; [apply Hf; [by left|done]|]. intros acc' HI'.
    rewrite (cons_middle y ys l), app_assoc. apply IH; [|done]. intros. apply Hf; [by right|done].
Qed.
End Triple.

(** ** Witness values do not matter to satisfaction *)

Section Shape.
Context `{!Pasta}.

Lemma enabled_shape calls s o : enabled (call_shape <$> calls) s o = enabled calls s o.
Proof. unfold enabled. induction calls as [|[] calls IH]; cbn; [done|..]; by rewrite IH. Qed.

Lemma fixed_at_shape calls col o : fixed_at (call_shape <$> calls) col o = fixed_at calls col o.
Proof.
  unfold fixed_at. generalize (fzero). induction calls as [|[] calls IH]; intros acc; cbn; [done|..]; apply IH.
Qed.

Lemma height_shape calls : height (call_shape <$> calls) = height calls.
Proof. unfold height. induction calls as [|[] calls IH]; cbn; [done|..]; by rewrite IH. Qed.

Lemma eval_shape asg r calls o e : eval asg r (call_shape <$> calls) o e = eval asg r calls o e.
Proof.
  induction e; cbn; rewrite ?enabled_shape, ?fixed_at_shape; congruence.
Qed.

Lemma gates_hold_shape cs asg r calls :
  gates_hold cs asg r (call_shape <$> calls) <-> gates_hold cs asg r calls.
Proof.
  unfold gates_hold. rewrite height_shape. by setoid_rewrite eval_shape.
Qed.

Lemma event_holds_shape cs inst asg e : event_holds cs inst asg (event_shape e) <-> event_holds cs inst asg e.
Proof.
  destruct e as [r calls| | |]; cbn [event_shape event_holds]; [|done..].
  rewrite gates_hold_shape, Forall_fmap. apply and_iff_compat_l.
  by induction calls as [|[] calls IH]; cbn; rewrite ?Forall_cons, ?IH.
Qed.

Lemma satisfied_shape cs inst asg evs : satisfied cs inst asg (shape evs) <-> satisfied cs inst asg evs.
Proof.
  unfold satisfied, shape. rewrite Forall_fmap. apply Forall_proper; [|done].
  intros e. apply event_holds_shape.
Qed.
End Shape.

(** ** The assignment that a request gives *)

Section Honest.
Context `{!Pasta}.

Definition event_values (e : Event) : list (Cell * option Fp) :=
  match e with
  | AssignRegion r calls =>
      omap (fun c => match c with AssignAdvice col o v => Some (InRegion r col o, v) | _ => None end) calls
  | PoseidonHash n _ v => [(GadgetOut n, v)]
  | _ => []
  end.

Definition assigned (evs : list Event) : list (Cell * option Fp) := flat_map event_values evs.

Fixpoint assoc (l : list (Cell * option Fp)) (c : Cell) : option Fp :=
  match l with
  | [] => None
  | (c', v) :: l => if decide (c = c') then v else assoc l c
  end.

Definition honest_assignment (evs : list Event) : Assignment := fun c => default fzero (assoc (assigned evs) c).

Lemma assoc_elem l c v : NoDup l.*1 -> (c, v) ∈ l -> assoc l c = v.
Proof.
  induction l as [|[c' v'] l IH]; [by intros _ ?%elem_of_nil|].
  cbn [fmap list_fmap fst assoc]. intros [Hn Hd]%NoDup_cons [[= <- <-]|Hin]%elem_of_cons.
  - by rewrite decide_True.
  - rewrite decide_False; [by apply IH|]. intros ->. apply Hn. apply list_elem_of_fmap. by exists (c', v).
Qed.

Definition all_known (evs : list Event) : bool :=
  forallb (fun cv => match cv.2 with Some _ => true | None => false end) (assigned evs).

(** When every cell is assigned once and known, the honest assignment agrees
    with the request. *)
Lemma honest_agrees evs :
  NoDup (assigned evs).*1 -> all_known evs = true -> agrees (honest_assignment evs) evs.
Proof.
  intros Hd Hs. unfold all_known in Hs. rewrite forallb_forall in Hs.
  assert (HV : forall c v, (c, v) ∈ assigned evs -> v = Some (honest_assignment evs c)).
  { intros c v Hin. unfold honest_assignment. rewrite (assoc_elem _ _ _ Hd Hin).
    apply list_elem_of_In in Hin. specialize (Hs _ Hin). by destruct v. }
  apply Forall_forall. intros e He.
  assert (HE : forall cv, cv ∈ event_values e -> cv ∈ assigned evs).
  { intros cv Hcv. apply list_elem_of_In, in_flat_map. exists e.
    by rewrite <- !list_elem_of_In. }
  destruct e as [r calls| | |n ins v]; cbn; [|done..|].
  - apply Forall_forall. intros [|col o v| |] Hc; cbn; try done. apply HV, HE.
    cbn. apply list_elem_of_omap. by eexists.
  - apply HV, HE. cbn. by left.
Qed.
End Honest.
