(* ===== verification/Zk.v ===== *)
(** * ullm-zk: the Poseidon preimage circuit and the layer circuit

    [crates/ullm-zk/src]: [circuit.rs] and [layer.rs].  Both circuits are the
    requests they make of the Halo2 interface; the provers and verifiers are
    the calls around them.  Weights and vectors are lists with the lengths of
    the source's arrays; [expect] on a library error is [None].

    Proved: the layer circuit is satisfiable for a given instance exactly when
    its first two rows are the commitments of some vector and of the layer's
    output on it, whatever the witnesses in the circuit value; an honest proof
    verifies; vectors that open eight commitments chained by layer statements
    are a run of the whole model, or exhibit two vectors with one hash. *)

From S2P Require Import Prelude RustStd Model Halo2.
From Stdlib Require Import Lia Ring Ring_theory.

Local Open Scope nat_scope.

(** [ff::PrimeField::from_u128]; the modulus is above [2^254]. *)
Class PrimeField `{Pasta} := { fp_from_u128 : Z -> Fp }.
Class PrimeFieldLaws `{PrimeField} : Prop := {
  fp_from_u128_inj y z : (0 <= y < 2 ^ 128)%Z -> (0 <= z < 2 ^ 128)%Z ->
    fp_from_u128 y = fp_from_u128 z -> y = z;
  fp_from_u64_inj y z : is_u64 y -> is_u64 z -> fp_from_u64 y = fp_from_u64 z -> y = z;
}.

#[export] Instance toy_prime_field : PrimeField := {| fp_from_u128 z := Z.odd z |}.

#[export] Instance AssignedCell_inhabited `{Pasta} : Inhabited AssignedCell :=
  populate {| cell := GadgetOut 0; value := None |}.

Section Zk.
Context `{!Pasta}.

Abbreviation vec := (list Fp).

(** [n] columns at once, as the array literals of the source allocate them. *)
Fixpoint columns (alloc : ConstraintSystem -> Column * ConstraintSystem) (n : nat) (cs : ConstraintSystem)
  : list Column * ConstraintSystem :=
  match n with
  | O => ([], cs)
  | S n => let '(c, cs) := alloc cs in let '(l, cs) := columns alloc n cs in (c :: l, cs)
  end.

(** The Poseidon chip on fresh columns; both circuits set it up alike. *)
Definition configure_poseidon (cs : ConstraintSystem) : Pow5Config * ConstraintSystem :=
  let '(state, cs) := columns advice_column 3 cs in
  let '(sbox, cs) := advice_column cs in
  let '(rca, cs) := columns fixed_column 3 cs in
  let '(rcb, cs) := columns fixed_column 3 cs in
  let cs := enable_constant (nth 0 rcb {| kind := Fixed; column_index := 0 |}) cs in
  pow5_configure state sbox rca rcb cs.

(** ** circuit.rs *)

Definition K : Z := 7.

Record PreimageConfig := { poseidon2 : Pow5Config; input : Column * Column; instance2 : Column }.

Record PoseidonPreimageCircuit := { pc_x : option Fp; pc_y : option Fp }.

Definition preimage_configure (cs : ConstraintSystem) : PreimageConfig * ConstraintSystem :=
  let '(poseidon, cs) := configure_poseidon cs in
  let '(i0, cs) := advice_column cs in
  let '(i1, cs) := advice_column cs in
  let cs := enable_equality i1 (enable_equality i0 cs) in
  let '(inst, cs) := instance_column cs in
  let cs := enable_equality inst cs in
  ({| poseidon2 := poseidon; input := (i0, i1); instance2 := inst |}, cs).

Definition preimage_synthesize (c : PoseidonPreimageCircuit) (config : PreimageConfig) : Layouter unit :=
  '(cell_x, cell_y) ← assign_region (
    cx ← assign_advice (input config).1 0 (pc_x c);
    cy ← assign_advice (input config).2 0 (pc_y c);
    mret (cx, cy));
  _ ← poseidon_init (poseidon2 config) 2;
  output ← poseidon_gadget [cell_x; cell_y];
  constrain_instance (cell output) (instance2 config) 0.

#[export] Instance preimage_circuit : Circuit PoseidonPreimageCircuit := {|
  without_witnesses _ := {| pc_x := None; pc_y := None |};
  configure := preimage_configure;
  synthesize := preimage_synthesize;
|}.

Definition digest_from_inputs (x y : Fp) : Fp := poseidon_hash [x; y].

(** ** layer.rs *)

Definition TAGGED_LEN : nat := VEC_DIM + 1.
Definition NUM_INSTANCES : nat := 6.
Definition domain_x : Fp := fp_from_u64 0x554c4c4d5f580000.
Definition domain_y : Fp := fp_from_u64 0x554c4c4d5f590000.
Definition LAYER_CIRCUIT_K : Z := 13.

Record LayerConfig := {
  col_a : Column;
  s_arith : Selector;
  qm : Column; ql : Column; qr : Column; qo : Column; qc : Column;
  a_col : Column; b_col : Column; c_col : Column;
  poseidon : Pow5Config;
  instance : Column;
}.

Record LayerCircuit := {
  lc_w : list vec;
  lc_b : vec;
  lc_x : option vec;
  lc_y : option vec;
  layer_idx_fp : Fp;
  session_id_fp : Fp;
  weight_commit_lo : Fp;
  weight_commit_hi : Fp;
}.

Definition layer_without_witnesses (c : LayerCircuit) : LayerCircuit :=
  {| lc_w := lc_w c; lc_b := lc_b c; lc_x := None; lc_y := None;
     layer_idx_fp := fzero; session_id_fp := fzero;
     weight_commit_lo := fzero; weight_commit_hi := fzero |}.

(** [s * (qm*a*b + ql*a + qr*b + qo*c + qc)]. *)
Definition plonk_arithmetic (s : Selector) (m l r o k ac bc cc : Column) : Expression :=
  let av := QueryAdvice ac 0 in
  let bv := QueryAdvice bc 0 in
  let cv := QueryAdvice cc 0 in
  Product (QuerySelector s)
    (Sum (Sum (Sum (Sum (Product (Product (QueryFixed m) av) bv) (Product (QueryFixed l) av))
                   (Product (QueryFixed r) bv))
              (Product (QueryFixed o) cv))
         (QueryFixed k)).

Definition layer_configure (cs : ConstraintSystem) : LayerConfig * ConstraintSystem :=
  let '(a, cs) := advice_column cs in
  let cs := enable_equality a cs in
  let '(ac, cs) := advice_column cs in
  let '(bc, cs) := advice_column cs in
  let '(cc, cs) := advice_column cs in
  let cs := enable_equality cc (enable_equality bc (enable_equality ac cs)) in
  let '(m, cs) := fixed_column cs in
  let '(l, cs) := fixed_column cs in
  let '(r, cs) := fixed_column cs in
  let '(o, cs) := fixed_column cs in
  let '(k, cs) := fixed_column cs in
  let cs := enable_constant k cs in
  let '(s, cs) := selector cs in
  let cs := create_gate (lit "plonk arithmetic") [plonk_arithmetic s m l r o k ac bc cc] cs in
  let '(chip, cs) := configure_poseidon cs in
  let '(inst, cs) := instance_column cs in
  let cs := enable_equality inst cs in
  ({| col_a := a; s_arith := s; qm := m; ql := l; qr := r; qo := o; qc := k;
      a_col := ac; b_col := bc; c_col := cc; poseidon := chip; instance := inst |}, cs).

Definition load_pub_witness (config : LayerConfig) (v : Fp) : Layouter AssignedCell :=
  assign_region (assign_advice (a_col config) 0 (Some v)).

(** The selector and the five fixed cells that open every arithmetic region. *)
Definition assign_gate (config : LayerConfig) (m l r o k : Fp) : Region unit :=
  _ ← enable (s_arith config) 0;
  _ ← assign_fixed (qm config) 0 m;
  _ ← assign_fixed (ql config) 0 l;
  _ ← assign_fixed (qr config) 0 r;
  _ ← assign_fixed (qo config) 0 o;
  assign_fixed (qc config) 0 k.

Definition load_constant (config : LayerConfig) (k : Fp) : Layouter AssignedCell :=
  assign_region (
    _ ← assign_gate config fzero fone fzero fzero (fneg k);
    a_cell ← assign_advice (a_col config) 0 (Some k);
    _ ← assign_advice (b_col config) 0 (Some fzero);
    _ ← assign_advice (c_col config) 0 (Some fzero);
    mret a_cell).

Definition mul_const_by_witness (config : LayerConfig) (k : Fp) (x : AssignedCell)
  : Layouter AssignedCell :=
  assign_region (
    _ ← assign_gate config fzero k fzero (fneg fone) fzero;
    _ ← copy_advice x (a_col config) 0;
    _ ← assign_advice (b_col config) 0 (Some fzero);
    assign_advice (c_col config) 0 ((fun v => k * v)%F <$> value x)).

Definition add (config : LayerConfig) (a b : AssignedCell) : Layouter AssignedCell :=
  assign_region (
    _ ← assign_gate config fzero fone fone (fneg fone) fzero;
    a_cell ← copy_advice a (a_col config) 0;
    b_cell ← copy_advice b (b_col config) 0;
    assign_advice (c_col config) 0 (av ← value a_cell; bv ← value b_cell; Some (av + bv)%F)).

(** The loops that load [x] (from offset 0) and [y] (from offset [VEC_DIM]). *)
Definition load_vector (config : LayerConfig) (offset : nat) (v : option vec) : Layouter (list AssignedCell) :=
  assign_region (
    foldM (fun cells i =>
             cell ← assign_advice (col_a config) (offset + i) ((fun arr => arr !!! i) <$> v);
             mret (cells ++ [cell])) [] (List.seq 0 VEC_DIM)).

(** The body of the loop over the rows of the layer. *)
Definition constrain_row (config : LayerConfig) (bias : Fp) (row : vec)
    (x_cells : list AssignedCell) (y_cell : AssignedCell) : Layouter unit :=
  acc ← load_constant config bias;
  acc ← foldM (fun acc j =>
                 prod ← mul_const_by_witness config (row !!! j) (x_cells !!! j);
                 add config acc prod) acc (List.seq 0 VEC_DIM);
  assign_region (constrain_equal (cell acc) (cell y_cell)).

(** Hash the cells of a vector and bind the hash to a row of the instance. *)
Definition expose_hash (config : LayerConfig) (cells : list AssignedCell) (row : nat) : Layouter unit :=
  _ ← poseidon_init (poseidon config) VEC_DIM;
  commit ← poseidon_gadget cells;
  constrain_instance (cell commit) (instance config) row.

Definition expose_witness (config : LayerConfig) (v : Fp) (row : nat) : Layouter unit :=
  c ← load_pub_witness config v;
  constrain_instance (cell c) (instance config) row.

Definition layer_synthesize (self : LayerCircuit) (config : LayerConfig) : Layouter unit :=
  x_cells ← load_vector config 0 (lc_x self);
  y_cells ← load_vector config VEC_DIM (lc_y self);
  _ ← foldM (fun _ i => constrain_row config (lc_b self !!! i) (lc_w self !!! i) x_cells (y_cells !!! i))
        tt (List.seq 0 VEC_DIM);
  _ ← expose_hash config x_cells 0;
  _ ← expose_hash config y_cells 1;
  _ ← expose_witness config (layer_idx_fp self) 2;
  _ ← expose_witness config (session_id_fp self) 3;
  _ ← expose_witness config (weight_commit_lo self) 4;
  expose_witness config (weight_commit_hi self) 5.

#[export] Instance layer_circuit : Circuit LayerCircuit := {|
  without_witnesses := layer_without_witnesses;
  configure := layer_configure;
  synthesize := layer_synthesize;
|}.

Definition vector_hash_native (v : vec) : Fp := poseidon_hash v.

Definition tagged_vector_hash (tag : Fp) (v : vec) : Fp := poseidon_hash (tag :: v).

Definition split_commit_to_fp `{!PrimeField} (commit : bytes) : Fp * Fp :=
  (fp_from_u128 (from_le_bytes (slice 0 16 commit)), fp_from_u128 (from_le_bytes (slice 16 32 commit))).

Definition session_id_to_fp `{!PrimeField} (sid : bytes) : Fp := fp_from_u128 (from_le_bytes sid).

Definition build_instance `{!PrimeField} (tagged_x tagged_y : Fp) (layer_idx : Z)
    (session_id weight_commit : bytes) : list Fp :=
  let '(w_lo, w_hi) := split_commit_to_fp weight_commit in
  [tagged_x; tagged_y; fp_from_u64 layer_idx; session_id_to_fp session_id; w_lo; w_hi].

(** ** Provers and verifiers of both circuits *)

Context `{!Halo2}.

Record ProverParams := { p_params : Params; p_pk : ProvingKey }.
Record VerifierParams := { v_params : Params; v_vk : VerifyingKey }.

(** Key generation for a circuit without witnesses; [None] is a failed
    [expect]. *)
Definition keygen `{!Circuit C} (k : Z) (empty : C) : option (ProverParams * VerifierParams) :=
  let params := params_new k in
  match keygen_vk params (circuit_system C) (circuit_events empty) with
  | Err _ => None
  | Ok vk =>
      match keygen_pk params vk (circuit_system C) (circuit_events empty) with
      | Err _ => None
      | Ok pk => Some ({| p_params := params; p_pk := pk |}, {| v_params := params; v_vk := vk |})
      end
  end.

Definition prove_circuit `{!Circuit C} {R} (pp : ProverParams) (circuit : C) (inst : list Fp) (rng : R)
  : option bytes * R :=
  match create_proof (p_params pp) (p_pk pp) (circuit_system C) (circuit_events circuit) inst rng with
  | (Ok proof, rng) => (Some proof, rng)
  | (Err _, rng) => (None, rng)
  end.

Definition setup : option (ProverParams * VerifierParams) :=
  keygen K {| pc_x := None; pc_y := None |}.

Definition Prover_prove {R} (pp : ProverParams) (x y digest : Fp) (rng : R) : option bytes * R :=
  prove_circuit pp {| pc_x := Some x; pc_y := Some y |} [digest] rng.

Inductive VerifyError := Invalid.

Definition Verifier_verify (vp : VerifierParams) (digest : Fp) (proof : bytes) : result unit VerifyError :=
  map_err (fun _ => Invalid) (verify_proof (v_params vp) (v_vk vp) [digest] proof).

Record LayerProverParams := { lp_params : ProverParams; lp_layer_idx : Z }.
Record LayerVerifierParams := { lv_params : VerifierParams; lv_layer_idx : Z }.

Definition setup_layer (layer_idx : Z) (ws : list vec) (bs : vec)
  : option (LayerProverParams * LayerVerifierParams) :=
  '(pp, vp) ← keygen LAYER_CIRCUIT_K
    {| lc_w := ws; lc_b := bs; lc_x := None; lc_y := None; layer_idx_fp := fzero;
       session_id_fp := fzero; weight_commit_lo := fzero; weight_commit_hi := fzero |};
  Some ({| lp_params := pp; lp_layer_idx := layer_idx |}, {| lv_params := vp; lv_layer_idx := layer_idx |}).

Definition LayerProver_prove `{!PrimeField} {R} (pp : LayerProverParams) (x y : vec) (x_commit y_commit : Fp)
    (ws : list vec) (bs : vec) (layer_idx : Z) (session_id weight_commit : bytes) (rng : R)
  : option bytes * R :=
  let '(wc_lo, wc_hi) := split_commit_to_fp weight_commit in
  let circuit :=
    {| lc_w := ws; lc_b := bs; lc_x := Some x; lc_y := Some y;
       layer_idx_fp := fp_from_u64 layer_idx; session_id_fp := session_id_to_fp session_id;
       weight_commit_lo := wc_lo; weight_commit_hi := wc_hi |} in
  let inst := build_instance x_commit y_commit layer_idx session_id weight_commit in
  prove_circuit (lp_params pp) circuit inst rng.

Definition LayerVerifier_verify `{!PrimeField} (vp : LayerVerifierParams) (x_commit y_commit : Fp)
    (layer_idx : Z) (session_id weight_commit : bytes) (proof : bytes) : result unit VerifyError :=
  let inst := build_instance x_commit y_commit layer_idx session_id weight_commit in
  map_err (fun _ => Invalid) (verify_proof (v_params (lv_params vp)) (v_vk (lv_params vp)) inst proof).
End Zk.

(** ** The request of the layer circuit *)

Section Request.
Context `{!Pasta}.

(** The request, its values erased, depends on the weights only: keys are the
    same for every session, layer index and witness. *)
Lemma layer_shape c1 c2 :
  lc_w c1 = lc_w c2 -> lc_b c1 = lc_b c2 -> shape (circuit_events c1) = shape (circuit_events c2).
Proof. destruct c1, c2. cbn [lc_w lc_b]. intros -> ->. vm_compute. reflexivity. Qed.

Lemma layer_permuted c : forallb (event_permuted (circuit_system LayerCircuit)) (circuit_events c) = true.
Proof. vm_compute. reflexivity. Qed.

Lemma layer_cells_nodup c : NoDup (assigned (circuit_events c)).*1.
Proof.
  cut (bool_decide (NoDup (assigned (circuit_events c)).*1) = true); [apply bool_decide_eq_true_1|].
  vm_compute. reflexivity.
Qed.

Lemma layer_values_known c x y :
  lc_x c = Some x -> lc_y c = Some y -> all_known (circuit_events c) = true.
Proof. destruct c. cbn [lc_x lc_y]. intros -> ->. vm_compute. reflexivity. Qed.
End Request.

(** ** The preimage circuit *)

Section Preimage.
Context `{!Pasta}.

Abbreviation cs2 := (circuit_system PoseidonPreimageCircuit).
Abbreviation cfg2 := ((preimage_configure cs_empty).1).

Lemma preimage_events (c : PoseidonPreimageCircuit) :
  circuit_events c =
  [AssignRegion 0 [AssignAdvice (input cfg2).1 0 (pc_x c); AssignAdvice (input cfg2).2 0 (pc_y c)];
   PoseidonInit (poseidon2 cfg2) 2;
   PoseidonHash 0 [InRegion 0 (input cfg2).1 0; InRegion 0 (input cfg2).2 0]
     (poseidon_hash <$> mapM value
       [{| cell := InRegion 0 (input cfg2).1 0; value := pc_x c |};
        {| cell := InRegion 0 (input cfg2).2 0; value := pc_y c |}]);
   ConstrainInstance (GadgetOut 0) (instance2 cfg2) 0].
Proof. reflexivity. Qed.

Lemma preimage_gates : gates cs2 = [].
Proof. reflexivity. Qed.

Lemma preimage_sound (c : PoseidonPreimageCircuit) inst asg :
  satisfied cs2 inst asg (circuit_events c) ->
  instance_at inst 0 = digest_from_inputs (asg (InRegion 0 (input cfg2).1 0)) (asg (InRegion 0 (input cfg2).2 0)).
Proof.
  rewrite preimage_events. unfold satisfied. rewrite !Forall_cons. cbn [event_holds].
  intros (_ & _ & HH & HI & _). by rewrite <- HI, HH.
Qed.

Lemma preimage_complete (c : PoseidonPreimageCircuit) inst asg x y :
  pc_x c = Some x -> pc_y c = Some y -> instance_at inst 0 = digest_from_inputs x y ->
  agrees asg (circuit_events c) -> satisfied cs2 inst asg (circuit_events c).
Proof.
  intros Hx Hy HI. rewrite preimage_events, Hx, Hy. unfold agrees, satisfied. rewrite !Forall_cons.
  cbn [event_agrees event_holds]. intros (HR & _ & HH & _). rewrite !Forall_cons in HR.
  destruct HR as (Ax & Ay & _). cbn [call_agrees] in Ax, Ay.
  apply (inj Some) in Ax, Ay. apply (inj Some) in HH. unfold digest_from_inputs in HI.
  split_and!; [|by repeat constructor|done| |by rewrite <- HH|by constructor].
  - unfold gates_hold. rewrite preimage_gates. apply Forall_true. constructor.
  - rewrite <- HH. cbn [fmap list_fmap]. by rewrite Ax, Ay.
Qed.

Lemma preimage_honest x y :
  let evs := circuit_events {| pc_x := Some x; pc_y := Some y |} in agrees (honest_assignment evs) evs.
Proof.
  apply honest_agrees; [|vm_compute; reflexivity].
  cut (bool_decide (NoDup (assigned (circuit_events {| pc_x := Some x; pc_y := Some y |})).*1) = true);
    [apply bool_decide_eq_true_1|]. vm_compute. reflexivity.
Qed.
End Preimage.

(** ** The gates of the layer circuit *)

Section Gates.
Context `{!Pasta, !PastaLaws}.
Add Ring FpRing : fp_ring.

Abbreviation cs := (circuit_system LayerCircuit).
Abbreviation cfg := ((layer_configure cs_empty).1).

Abbreviation A asg r := (asg (InRegion r (a_col cfg) 0)).
Abbreviation B asg r := (asg (InRegion r (b_col cfg) 0)).
Abbreviation C asg r := (asg (InRegion r (c_col cfg) 0)).

Definition gate_calls (m l q o k : Fp) : list RegionCall :=
  [EnableSelector (s_arith cfg) 0; AssignFixed (qm cfg) 0 m; AssignFixed (ql cfg) 0 l;
   AssignFixed (qr cfg) 0 q; AssignFixed (qo cfg) 0 o; AssignFixed (qc cfg) 0 k].

(** The calls that follow: advice cells of the same row, and copies. *)
Definition row_call (c : RegionCall) : Prop :=
  match c with AssignAdvice _ o _ => o = 0 | ConstrainEqual _ _ => True | _ => False end.

Lemma fixed_at_rest calls rest col o :
  Forall row_call rest -> fixed_at (calls ++ rest) col o = fixed_at calls col o.
Proof.
  intros Hr. unfold fixed_at. rewrite foldl_app. generalize (foldl
    (fun acc c => match c with
                  | AssignFixed col' o' v => if bool_decide (col = col' /\ o = o') then v else acc
                  | _ => acc
                  end) fzero calls).
  induction Hr as [|[] rest Hc Hr IH]; intros acc; cbn; [done|done| |done|]; apply IH.
Qed.

Lemma gate_height m l q o k rest : Forall row_call rest -> height (gate_calls m l q o k ++ rest) = 1.
Proof.
  intros Hr. unfold height. rewrite fmap_app, foldr_app.
  assert (foldr Nat.max 0 (call_height <$> rest) <= 1) as Hle.
  { induction Hr as [|[] rest Hc Hr IH]; cbn in *; [lia|done|subst; lia|done|lia]. }
  destruct (foldr Nat.max 0 (call_height <$> rest)) as [|[|]]; [done..|lia].
Qed.

Lemma layer_gates :
  gates cs = [(lit "plonk arithmetic", [plonk_arithmetic (s_arith cfg) (qm cfg) (ql cfg)
    (qr cfg) (qo cfg) (qc cfg) (a_col cfg) (b_col cfg) (c_col cfg)])].
Proof. vm_compute. reflexivity. Qed.

Lemma gate_row m l q o k rest :
  enabled (gate_calls m l q o k ++ rest) (s_arith cfg) 0 = true
  /\ fixed_at (gate_calls m l q o k) (qm cfg) 0 = m
  /\ fixed_at (gate_calls m l q o k) (ql cfg) 0 = l
  /\ fixed_at (gate_calls m l q o k) (qr cfg) 0 = q
  /\ fixed_at (gate_calls m l q o k) (qo cfg) 0 = o
  /\ fixed_at (gate_calls m l q o k) (qc cfg) 0 = k.
Proof. by vm_compute. Qed.

(** In a region that opens with these calls the gate is the equation that the
    comments of the source give. *)
Lemma gate_region asg r m l q o k rest :
  Forall row_call rest ->
  gates_hold cs asg r (gate_calls m l q o k ++ rest)
  <-> (m * A asg r * B asg r + l * A asg r + q * B asg r + o * C asg r + k = 0)%F.
Proof.
  intros Hr. unfold gates_hold. rewrite (gate_height _ _ _ _ _ _ Hr).
  rewrite layer_gates.
  cbn [List.seq]. rewrite !Forall_singleton. cbn [snd]. rewrite Forall_singleton.
  unfold plonk_arithmetic. cbn [eval]. rewrite !fixed_at_rest by done.
  destruct (gate_row m l q o k rest) as (-> & -> & -> & -> & -> & ->).
  change (Z.to_nat (Z.of_nat 0 + 0)) with 0.
  split; intros HE; (etransitivity; [|exact HE]); ring.
Qed.

(** *** The helpers, as events *)

Lemma load_constant_run k st :
  load_constant cfg k st =
  let r := next_region st in
  ({| cell := InRegion r (a_col cfg) 0; value := Some k |},
   [AssignRegion r (gate_calls fzero fone fzero fzero (fneg k) ++
      [AssignAdvice (a_col cfg) 0 (Some k); AssignAdvice (b_col cfg) 0 (Some fzero);
       AssignAdvice (c_col cfg) 0 (Some fzero)])],
   {| next_region := S r; next_gadget := next_gadget st |}).
Proof. reflexivity. Qed.

Lemma mul_run k x st :
  mul_const_by_witness cfg k x st =
  let r := next_region st in
  let v := (fun v => k * v)%F <$> value x in
  ({| cell := InRegion r (c_col cfg) 0; value := v |},
   [AssignRegion r (gate_calls fzero k fzero (fneg fone) fzero ++
      [AssignAdvice (a_col cfg) 0 (value x); ConstrainEqual (InRegion r (a_col cfg) 0) (cell x);
       AssignAdvice (b_col cfg) 0 (Some fzero); AssignAdvice (c_col cfg) 0 v])],
   {| next_region := S r; next_gadget := next_gadget st |}).
Proof. reflexivity. Qed.

Lemma add_run x y st :
  add cfg x y st =
  let r := next_region st in
  let v := av ← value x; bv ← value y; Some (av + bv)%F in
  ({| cell := InRegion r (c_col cfg) 0; value := v |},
   [AssignRegion r (gate_calls fzero fone fone (fneg fone) fzero ++
      [AssignAdvice (a_col cfg) 0 (value x); ConstrainEqual (InRegion r (a_col cfg) 0) (cell x);
       AssignAdvice (b_col cfg) 0 (value y); ConstrainEqual (InRegion r (b_col cfg) 0) (cell y);
       AssignAdvice (c_col cfg) 0 v])],
   {| next_region := S r; next_gadget := next_gadget st |}).
Proof. reflexivity. Qed.

(** *** Soundness and completeness of the helpers *)

Lemma fp_diff_zero (x y : Fp) : (x + fneg y = 0)%F -> x = y.
Proof. intros HE. transitivity (x + fneg y + y)%F; [ring|]. rewrite HE. ring. Qed.

(** A cell holds its value. *)
Definition holds_value (asg : Assignment) (c : AssignedCell) : Prop := value c = Some (asg (cell c)).

Section Helpers.
Context (inst : list Fp) (asg : Assignment).
Abbreviation holds := (event_holds cs inst asg).
Abbreviation given := (event_agrees asg).
Abbreviation anything := (fun _ : Event => True).

(** The region of a helper: its row holds the gate equation and the copies. *)
Lemma helper_holds r m l q o k rest :
  Forall row_call rest ->
  holds (AssignRegion r (gate_calls m l q o k ++ rest))
  <-> (m * A asg r * B asg r + l * A asg r + q * B asg r + o * C asg r + k = 0)%F
      /\ Forall (copy_holds asg) rest.
Proof.
  intros Hr. cbn [event_holds]. rewrite gate_region, Forall_app by done.
  split; [tauto|]. intros [? ?]. split_and!; [done| |done]. by repeat constructor.
Qed.

Lemma helper_given r m l q o k rest :
  given (AssignRegion r (gate_calls m l q o k ++ rest)) -> Forall (call_agrees asg r) rest.
Proof. cbn [event_agrees]. by intros [_ ?]%Forall_app. Qed.

Lemma load_constant_sound k :
  triple holds anything (load_constant cfg k) (fun c => asg (cell c) = k).
Proof.
  intros st. rewrite load_constant_run. cbn [fst snd cell]. rewrite !Forall_singleton.
  intros [HG _]%helper_holds; [|by repeat constructor]. split; [done|].
  apply fp_diff_zero. rewrite <- HG. ring.
Qed.

Lemma mul_sound k x :
  triple holds anything (mul_const_by_witness cfg k x) (fun c => asg (cell c) = k * asg (cell x))%F.
Proof.
  intros st. rewrite mul_run. cbn [fst snd cell]. rewrite !Forall_singleton.
  intros [HG HC]%helper_holds; [|by repeat constructor]. split; [done|].
  apply Forall_cons in HC as [_ [HC _]%Forall_cons]. cbn [copy_holds] in HC.
  symmetry. apply fp_diff_zero. rewrite <- HG, HC. ring.
Qed.

Lemma add_sound x y :
  triple holds anything (add cfg x y) (fun c => asg (cell c) = asg (cell x) + asg (cell y))%F.
Proof.
  intros st. rewrite add_run. cbn [fst snd cell]. rewrite !Forall_singleton.
  intros [HG HC]%helper_holds; [|by repeat constructor]. split; [done|].
  rewrite !Forall_cons in HC. destruct HC as (_ & Hx & _ & Hy & _). cbn [copy_holds] in Hx, Hy.
  symmetry. apply fp_diff_zero. rewrite <- HG, Hx, Hy. ring.
Qed.

Lemma load_constant_complete k :
  triple given holds (load_constant cfg k) (fun c => holds_value asg c /\ asg (cell c) = k).
Proof.
  intros st. rewrite load_constant_run. cbn [fst snd]. rewrite !Forall_singleton.
  intros HA%helper_given. rewrite !Forall_cons in HA. destruct HA as (Ha & Hb & Hc & _).
  cbn [call_agrees] in *. rewrite helper_holds by (by repeat constructor).
  unfold holds_value. cbn [value cell]. apply (inj Some) in Ha. rewrite <- Ha.
  split_and!; [ring|by repeat constructor|done..].
Qed.

Lemma mul_complete k x :
  holds_value asg x ->
  triple given holds (mul_const_by_witness cfg k x)
    (fun c => holds_value asg c /\ asg (cell c) = k * asg (cell x))%F.
Proof.
  intros Hx st. rewrite mul_run. cbn [fst snd]. rewrite !Forall_singleton.
  intros HA%helper_given. rewrite !Forall_cons in HA. destruct HA as (Ha & _ & Hb & Hc & _).
  cbn [call_agrees] in *. rewrite helper_holds by (by repeat constructor).
  unfold holds_value in *. cbn [value cell]. rewrite Hx in *. cbn [fmap option_fmap option_map] in Hc.
  apply (inj Some) in Ha. apply (inj Some) in Hc. rewrite <- Hc, <- Ha.
  split_and!; [ring|repeat constructor; cbn [copy_holds]; congruence|done..].
Qed.

Lemma add_complete x y :
  holds_value asg x -> holds_value asg y ->
  triple given holds (add cfg x y)
    (fun c => holds_value asg c /\ asg (cell c) = asg (cell x) + asg (cell y))%F.
Proof.
  intros Hx Hy st. rewrite add_run. cbn [fst snd]. rewrite !Forall_singleton.
  intros HA%helper_given. rewrite !Forall_cons in HA. destruct HA as (Ha & _ & Hb & _ & Hc & _).
  cbn [call_agrees] in *. rewrite helper_holds by (by repeat constructor).
  unfold holds_value in *. cbn [value cell]. rewrite Hx, Hy in *. cbn [mbind option_bind] in Hc.
  apply (inj Some) in Ha. apply (inj Some) in Hb. apply (inj Some) in Hc. rewrite <- Hc, <- Ha, <- Hb.
  split_and!; [ring|repeat constructor; cbn [copy_holds]; congruence|done..].
Qed.

(** Regions without a selector satisfy every gate. *)
Lemma quiet_region r calls :
  (forall o, enabled calls (s_arith cfg) o = false) ->
  holds (AssignRegion r calls) <-> Forall (copy_holds asg) calls.
Proof.
  intros Hq. cbn [event_holds]. split; [tauto|]. intros HC. split; [|done].
  unfold gates_hold. rewrite layer_gates. apply Forall_true. intros o.
  rewrite Forall_singleton. cbn [snd]. rewrite Forall_singleton.
  unfold plonk_arithmetic. cbn [eval]. rewrite Hq. ring.
Qed.

(** *** Vectors *)

Definition vector_cells (r offset : nat) (v : option (list Fp)) : list AssignedCell :=
  (fun i => {| cell := InRegion r (col_a cfg) (offset + i); value := (fun arr => arr !!! i) <$> v |})
    <$> List.seq 0 VEC_DIM.

Definition vector_calls (offset : nat) (v : option (list Fp)) : list RegionCall :=
  (fun i => AssignAdvice (col_a cfg) (offset + i) ((fun arr => arr !!! i) <$> v)) <$> List.seq 0 VEC_DIM.

Lemma load_vector_run offset v st :
  load_vector cfg offset v st =
  (vector_cells (next_region st) offset v, [AssignRegion (next_region st) (vector_calls offset v)],
   {| next_region := S (next_region st); next_gadget := next_gadget st |}).
Proof. reflexivity. Qed.

(** The values of a list of cells under the assignment. *)
Definition cell_values (cells : list AssignedCell) : list Fp := (asg ∘ cell) <$> cells.

Lemma load_vector_sound offset v :
  triple holds anything (load_vector cfg offset v) (fun cells => length cells = VEC_DIM).
Proof. intros st _. split; [by apply Forall_true|done]. Qed.

Lemma load_vector_complete offset v :
  length v = VEC_DIM ->
  triple given holds (load_vector cfg offset (Some v))
    (fun cells => Forall (holds_value asg) cells /\ cell_values cells = v /\ length cells = VEC_DIM).
Proof.
  intros Hl st. rewrite load_vector_run. cbn [fst snd]. rewrite !Forall_singleton. intros HA.
  cbn [event_agrees] in HA. unfold vector_calls in HA. rewrite Forall_fmap in HA.
  assert (HV : Forall (fun i => v !!! i = asg (InRegion (next_region st) (col_a cfg) (offset + i)))
                      (List.seq 0 VEC_DIM)).
  { eapply Forall_impl; [exact HA|]. intros i HE. by apply (inj Some) in HE. }
  split; [|split_and!; [| |done]].
  - apply quiet_region; [done|]. unfold vector_calls. apply Forall_fmap, Forall_true. done.
  - unfold vector_cells. apply Forall_fmap. eapply Forall_impl; [exact HV|]. intros i HE.
    unfold compose, holds_value. cbn [value cell]. by rewrite <- HE.
  - unfold cell_values, vector_cells. rewrite <- list_fmap_compose.
    apply list_eq_same_length with VEC_DIM; [done|by rewrite length_fmap, length_seq|].
    intros i a c Hi [j [-> Hj]]%list_lookup_fmap_Some Hv. apply lookup_seq in Hj as [-> ?].
    rewrite Forall_forall in HV. unfold compose. cbn [cell]. rewrite <- HV.
    + by apply list_lookup_total_correct.
    + apply list_elem_of_In, in_seq. lia.
Qed.

(** *** Rows *)

Definition row_sum (bias : Fp) (row : list Fp) (cells : list AssignedCell) (js : list nat) : Fp :=
  foldl (fun acc j => acc + row !!! j * asg (cell (cells !!! j)))%F bias js.

Lemma row_sum_snoc bias row cells js j :
  row_sum bias row cells (js ++ [j]) = (row_sum bias row cells js + row !!! j * asg (cell (cells !!! j)))%F.
Proof. unfold row_sum. by rewrite foldl_app. Qed.

Lemma row_sum_dot bias row cells :
  length row = VEC_DIM -> length cells = VEC_DIM ->
  row_sum bias row cells (List.seq 0 VEC_DIM) = dot bias row (cell_values cells).
Proof.
  intros Hr Hc. do 8 (destruct row as [|? row]; [done|]). destruct row; [|done].
  do 8 (destruct cells as [|? cells]; [done|]). by destruct cells.
Qed.

Lemma constrain_row_sound bias row cells y :
  triple holds anything (constrain_row cfg bias row cells y)
    (fun _ => asg (cell y) = row_sum bias row cells (List.seq 0 VEC_DIM)).
Proof.
  unfold constrain_row. eapply triple_bind; [apply load_constant_sound|]. intros c0 E0.
  eapply triple_bind.
  { apply (triple_foldM _ _ _ (fun js acc => asg (cell acc) = row_sum bias row cells js) []); [|done].
    intros js j acc _ HI. eapply triple_bind; [apply mul_sound|]. intros p Hp.
    eapply triple_weaken; [apply add_sound|]. intros c Hc. by rewrite Hc, HI, Hp, row_sum_snoc. }
  intros acc Hacc st He. apply Forall_inv in He as [_ HC%Forall_inv]. cbn in HC.
  split; [by repeat constructor|]. by rewrite <- HC.
Qed.

Lemma constrain_row_complete bias row cells y :
  Forall (holds_value asg) cells -> length cells = VEC_DIM ->
  asg (cell y) = row_sum bias row cells (List.seq 0 VEC_DIM) ->
  triple given holds (constrain_row cfg bias row cells y) (fun _ => True).
Proof.
  intros Hv Hl Hy. unfold constrain_row. eapply triple_bind; [apply load_constant_complete|].
  intros c0 [V0 E0]. eapply triple_bind.
  { apply (triple_foldM _ _ _ (fun js acc =>
      holds_value asg acc /\ asg (cell acc) = row_sum bias row cells js) []); [|done].
    intros js j acc Hj [HV HI]. apply list_elem_of_In, in_seq in Hj.
    assert (Hx : holds_value asg (cells !!! j)).
    { apply Forall_lookup_total_1; [done|lia]. }
    eapply triple_bind; [by apply mul_complete|]. intros p [Vp Hp].
    eapply triple_weaken; [by apply add_complete|]. intros c [Vc Hc]. split; [done|].
    by rewrite Hc, HI, Hp, row_sum_snoc. }
  intros acc [_ Hacc] st _. split; [|done]. apply Forall_singleton, quiet_region; [done|]. apply Forall_singleton. cbn [copy_holds]. by rewrite Hy.
Qed.

(** *** Public inputs *)

Lemma expose_hash_run cells row st :
  expose_hash cfg cells row st =
  let n := next_gadget st in
  (tt, [PoseidonInit (poseidon cfg) VEC_DIM;
        PoseidonHash n (cell <$> cells) (poseidon_hash <$> mapM value cells);
        ConstrainInstance (GadgetOut n) (instance cfg) row],
   {| next_region := next_region st; next_gadget := S n |}).
Proof. reflexivity. Qed.

Lemma expose_witness_run v row st :
  expose_witness cfg v row st =
  let r := next_region st in
  (tt, [AssignRegion r [AssignAdvice (a_col cfg) 0 (Some v)];
        ConstrainInstance (InRegion r (a_col cfg) 0) (instance cfg) row],
   {| next_region := S r; next_gadget := next_gadget st |}).
Proof. reflexivity. Qed.

Lemma expose_hash_sound cells row :
  triple holds anything (expose_hash cfg cells row)
    (fun _ => instance_at inst row = poseidon_hash (cell_values cells)).
Proof.
  intros st. rewrite expose_hash_run. cbn [fst snd]. rewrite !Forall_cons. intros (_ & HH & HI & _).
  cbn [event_holds] in HH, HI. split; [by repeat constructor|]. rewrite <- HI, HH.
  unfold cell_values. by rewrite list_fmap_compose.
Qed.

Lemma mapM_values cells : Forall (holds_value asg) cells -> mapM value cells = Some (cell_values cells).
Proof. intros HV. apply mapM_Some. unfold cell_values. by induction HV; cbn; constructor. Qed.

Lemma expose_hash_complete cells row :
  Forall (holds_value asg) cells -> instance_at inst row = poseidon_hash (cell_values cells) ->
  triple given holds (expose_hash cfg cells row) (fun _ => True).
Proof.
  intros HV HI st. rewrite expose_hash_run, (mapM_values _ HV). cbn [fst snd]. rewrite !Forall_cons.
  intros (_ & HH & _). cbn [event_agrees] in HH. apply (inj Some) in HH. cbn [event_holds].
  rewrite HI, <- HH. split_and!; [done| |done|by constructor|done].
  unfold cell_values. by rewrite list_fmap_compose.
Qed.

Lemma expose_witness_complete v row :
  instance_at inst row = v -> triple given holds (expose_witness cfg v row) (fun _ => True).
Proof.
  intros HI st. rewrite expose_witness_run. cbn [fst snd]. rewrite !Forall_cons.
  intros (HR & _). apply Forall_inv in HR. cbn [call_agrees] in HR. apply (inj Some) in HR.
  rewrite quiet_region by done. cbn [event_holds]. rewrite HI, <- HR. split_and!; by repeat constructor.
Qed.

(** *** The whole circuit *)

Definition circuit_layer (c : LayerCircuit) : Layer := {| w := lc_w c; b := lc_b c |}.

(** Values of the [y] cells that meet every row are the output of the layer. *)
Lemma rows_layer_apply l (f : nat -> Fp) x :
  layer_wf l ->
  Forall (fun i => f i = dot (b l !!! i) (w l !!! i) x) (List.seq 0 VEC_DIM) ->
  f <$> List.seq 0 VEC_DIM = layer_apply l x.
Proof.
  intros (Hb & Hw & _) Hf. unfold layer_apply, is_vec in *. destruct l as [ws bs]. cbn [w b] in *.
  do 8 (destruct bs as [|? bs]; [done|]). destruct bs; [|done].
  do 8 (destruct ws as [|? ws]; [done|]). destruct ws; [|done].
  cbn in Hf. rewrite !Forall_cons in Hf. cbn. by destruct Hf as (-> & -> & -> & -> & -> & -> & -> & -> & _).
Qed.

Lemma cell_values_seq cells :
  length cells = VEC_DIM -> cell_values cells = (fun i => asg (cell (cells !!! i))) <$> List.seq 0 VEC_DIM.
Proof. intros Hl. do 8 (destruct cells as [|? cells]; [done|]). by destruct cells. Qed.

Lemma layer_apply_lookup l x i :
  layer_wf l -> i < VEC_DIM -> layer_apply l x !!! i = dot (b l !!! i) (w l !!! i) x.
Proof.
  intros (Hb & Hw & _) Hi. unfold is_vec, VEC_DIM in *. apply list_lookup_total_correct.
  unfold layer_apply. apply lookup_zip_with_Some. eexists _, _. split; [reflexivity|].
  split; apply list_lookup_lookup_total_lt; lia.
Qed.

Lemma layer_row l i : layer_wf l -> i < VEC_DIM -> length (w l !!! i) = VEC_DIM.
Proof. intros (_ & Hw & Hr) Hi. apply (Forall_lookup_total_1 is_vec); [done|lia]. Qed.

Lemma layer_synthesize_sound c :
  layer_wf (circuit_layer c) ->
  triple holds anything (layer_synthesize c cfg) (fun _ => exists x, is_vec x
    /\ instance_at inst 0 = poseidon_hash x
    /\ instance_at inst 1 = poseidon_hash (layer_apply (circuit_layer c) x)).
Proof.
  intros Hwf. unfold layer_synthesize.
  eapply triple_bind; [apply load_vector_sound|]. intros xs Hxs.
  eapply triple_bind; [apply load_vector_sound|]. intros ys Hys.
  eapply triple_bind.
  { apply (triple_foldM _ _ _ (fun rows _ => Forall (fun i => asg (cell (ys !!! i))
      = dot (lc_b c !!! i) (lc_w c !!! i) (cell_values xs)) rows) []); [|constructor].
    intros rows i [] Hi HI. eapply triple_weaken; [apply constrain_row_sound|]. intros [] HE.
    apply Forall_app. split; [done|]. constructor; [|constructor]. rewrite HE. apply row_sum_dot; [|done].
    apply (layer_row (circuit_layer c)); [done|]. apply list_elem_of_In, in_seq in Hi. lia. }
  intros [] HY%(rows_layer_apply (circuit_layer c)); [|done].
  eapply triple_bind; [apply expose_hash_sound|]. intros [] HX.
  eapply triple_bind; [apply expose_hash_sound|]. intros [] HYI.
  intros st _. split; [by apply Forall_true|]. exists (cell_values xs). split_and!.
  - unfold is_vec, cell_values. by rewrite length_fmap.
  - done.
  - by rewrite HYI, (cell_values_seq ys), HY.
Qed.

Definition public_inputs (c : LayerCircuit) (x : list Fp) : list Fp :=
  [poseidon_hash x; poseidon_hash (layer_apply (circuit_layer c) x); layer_idx_fp c;
   session_id_fp c; weight_commit_lo c; weight_commit_hi c].

Lemma layer_synthesize_complete c x :
  layer_wf (circuit_layer c) -> is_vec x ->
  lc_x c = Some x -> lc_y c = Some (layer_apply (circuit_layer c) x) ->
  (forall row v, public_inputs c x !! row = Some v -> instance_at inst row = v) ->
  triple given holds (layer_synthesize c cfg) (fun _ => True).
Proof.
  intros Hwf Hx Ex Ey Hi. unfold layer_synthesize. rewrite Ex, Ey.
  eapply triple_bind; [by apply load_vector_complete|]. intros xs (Vx & Hxs & Lx).
  eapply triple_bind; [apply load_vector_complete, layer_apply_vec; done|]. intros ys (Vy & Hys & Ly).
  eapply triple_bind.
  { apply (triple_foldM _ _ _ (fun _ _ => True) []); [|done].
    intros rows i [] Hr _. apply list_elem_of_In, in_seq in Hr. apply constrain_row_complete; [done..|].
    rewrite row_sum_dot by first [done | apply (layer_row (circuit_layer c)); [done|lia]].
    rewrite Hxs. change (lc_b c) with (b (circuit_layer c)). change (lc_w c) with (w (circuit_layer c)).
    rewrite <- layer_apply_lookup, <- Hys by (done || lia). unfold cell_values.
    rewrite (list_lookup_total_fmap (asg ∘ cell) ys i) by lia. done. }
  intros _ _.
  repeat (eapply triple_bind; [first [apply expose_hash_complete; [done|rewrite ?Hxs, ?Hys; by apply Hi]
                                     | apply expose_witness_complete; by apply Hi]|]; intros _ _).
  apply expose_witness_complete. by apply Hi.
Qed.
End Helpers.

Lemma layer_events c :
  circuit_events c = (layer_synthesize c cfg {| next_region := 0; next_gadget := 0 |}).1.2.
Proof. reflexivity. Qed.

Local Opaque circuit_events circuit_system.

(** An honest circuit's own assignment satisfies its request. *)
Lemma layer_honest inst c x :
  layer_wf (circuit_layer c) -> is_vec x ->
  lc_x c = Some x -> lc_y c = Some (layer_apply (circuit_layer c) x) ->
  (forall row v, public_inputs c x !! row = Some v -> instance_at inst row = v) ->
  agrees (honest_assignment (circuit_events c)) (circuit_events c)
  /\ satisfied cs inst (honest_assignment (circuit_events c)) (circuit_events c).
Proof.
  intros Hwf Hx Ex Ey Hi.
  assert (HA : agrees (honest_assignment (circuit_events c)) (circuit_events c)).
  { apply honest_agrees; [apply layer_cells_nodup|]. by eapply layer_values_known. }
  split; [done|]. revert HA. generalize (honest_assignment (circuit_events c)).
  rewrite layer_events. intros asg HA.
  by apply (layer_synthesize_complete inst asg c x Hwf Hx Ex Ey Hi).
Qed.

Lemma layer_satisfiable_iff c inst :
  layer_wf (circuit_layer c) ->
  (exists asg, satisfied cs inst asg (circuit_events c))
  <-> exists x, is_vec x /\ instance_at inst 0 = poseidon_hash x
        /\ instance_at inst 1 = poseidon_hash (layer_apply (circuit_layer c) x).
Proof.
  intros Hwf. split.
  - intros [asg Hs]. rewrite layer_events in Hs.
    by apply (layer_synthesize_sound inst asg c Hwf) in Hs as [_ Hs].
  - intros (x & Hx & H0' & H1').
    set (c' := {| lc_w := lc_w c; lc_b := lc_b c; lc_x := Some x;
                  lc_y := Some (layer_apply (circuit_layer c) x);
                  layer_idx_fp := instance_at inst 2; session_id_fp := instance_at inst 3;
                  weight_commit_lo := instance_at inst 4; weight_commit_hi := instance_at inst 5 |}).
    exists (honest_assignment (circuit_events c')).
    rewrite <- satisfied_shape, (layer_shape c c') by done. rewrite satisfied_shape.
    apply (layer_honest inst c' x); [done..|].
    intros row v Hv. by destruct row as [|[|[|[|[|[|]]]]]]; try apply (inj Some) in Hv as <-.
Qed.
End Gates.

(** ** Chains of layer statements *)

Section Chain.
Context `{!Pasta, !PastaLaws}.

(** Consecutive activations of a run. *)
Lemma run_layers_lookup ls cur i l :
  ls !! i = Some l ->
  exists x, (cur :: run_layers layer_apply ls cur) !! i = Some x
    /\ (cur :: run_layers layer_apply ls cur) !! S i = Some (layer_apply l x).
Proof.
  revert cur i. induction ls as [|l' ls IH]; intros cur [|i] Hi; [done..| |].
  - injection Hi as ->. by exists cur.
  - destruct (IH (layer_apply l' cur) i Hi) as (x & Hx & Hy). by exists x.
Qed.

(** Vectors that open a chain of commitments: the [i]-th hashes to the [i]-th
    commitment and its image under the [i]-th layer to the next one. *)
Fixpoint openings (ls : list Layer) (commits : list Fp) (xs : list (list Fp)) : Prop :=
  match ls, commits, xs with
  | [], [_], [] => True
  | l :: ls, c0 :: ((c1 :: _) as commits), x :: xs =>
      is_vec x /\ c0 = vector_hash_native x /\ c1 = vector_hash_native (layer_apply l x)
      /\ openings ls commits xs
  | _, _, _ => False
  end.

(** Where a chain of openings comes apart: the output of layer [i] on its
    vector and the next vector, which differ and have one hash. *)
Definition chain_breaks (ls : list Layer) (xs : list (list Fp)) (i : nat) : Prop :=
  exists l x x', ls !! i = Some l /\ xs !! i = Some x /\ xs !! S i = Some x'
    /\ layer_apply l x <> x' /\ vector_hash_native (layer_apply l x) = vector_hash_native x'.

Lemma chain_sound l ls c commits xs :
  openings (l :: ls) (c :: commits) xs ->
  (exists x xs', xs = x :: xs'
     /\ c :: commits = vector_hash_native <$> (x :: run_layers layer_apply (l :: ls) x))
  \/ exists i, chain_breaks (l :: ls) xs i.
Proof.
  revert l c commits xs. induction ls as [|l' ls IH]; intros l c [|c1 cs] [|x xs]; try done.
  - intros (Hx & -> & -> & Ho). destruct cs, xs; try done. left. by exists x, [].
  - intros (Hx & -> & -> & Ho). apply IH in Ho as [(x' & xs' & -> & E)|(i & l0 & y & y' & Hb)].
    + destruct (decide (layer_apply l x = x')) as [<-|Hne].
      * left. exists x, (layer_apply l x :: xs'). split; [done|]. cbn in E |- *. by rewrite E.
      * right. exists 0, l, x, x'. cbn in E. injection E as E _. done.
    + right. by exists (S i), l0, y, y'.
Qed.

Lemma openings_exist ls commits :
  length commits = S (length ls) ->
  (exists xs, openings ls commits xs) <->
  (forall i l, ls !! i = Some l -> exists x, is_vec x /\ commits !!! i = vector_hash_native x
     /\ commits !!! S i = vector_hash_native (layer_apply l x)).
Proof.
  revert commits. induction ls as [|l ls IH]; intros [|c0 [|c1 cs]] Hlen; try done.
  - split; [done|]. intros _. by exists [].
  - split.
    + intros [[|x xs] Ho]; [done|]. destruct Ho as (Hx & E0 & E1 & Ho). intros [|i] l' Hi.
      * injection Hi as <-. by exists x.
      * apply (proj1 (IH (c1 :: cs) (eq_add_S _ _ Hlen)) (ex_intro _ xs Ho) i l' Hi).
    + intros HS. destruct (HS 0 l eq_refl) as (x & Hx & E0 & E1).
      destruct (proj2 (IH (c1 :: cs) (eq_add_S _ _ Hlen))) as [xs Ho].
      { intros i l' Hi. by apply (HS (S i)). }
      by exists (x :: xs).
Qed.
End Chain.

(** ** Proving and verifying *)

Section Proofs.
Context `{!Pasta, !PastaLaws, !Halo2, !Halo2Laws}.

(** Keys generated without witnesses serve a circuit of the same shape: its
    proof is created and verifies when its own assignment satisfies it. *)
Lemma keygen_prove {R} `{!Circuit C} k (empty c : C) pp vp inst (rng : R) asg :
  keygen k empty = Some (pp, vp) -> shape (circuit_events empty) = shape (circuit_events c) ->
  forallb (event_permuted (circuit_system C)) (circuit_events c) = true ->
  (exists x col row, ConstrainInstance x col row ∈ circuit_events c /\ length inst = S row) ->
  agrees asg (circuit_events c) -> satisfied (circuit_system C) inst asg (circuit_events c) ->
  exists proof rng', prove_circuit pp c inst rng = (Some proof, rng')
    /\ verify_proof (v_params vp) (v_vk vp) inst proof = Ok tt.
Proof.
  unfold keygen. intros HK HS HP HI HA HSat.
  destruct (keygen_vk _ _ _) as [vk|] eqn:Evk; [|done].
  destruct (keygen_pk _ _ _ _) as [pk|] eqn:Epk; [|done]. injection HK as <- <-.
  rewrite (keygen_vk_shape _ _ _ _ HS) in Evk. rewrite (keygen_pk_shape _ _ _ _ _ HS) in Epk.
  destruct (proof_complete _ _ _ _ _ _ rng _ Evk Epk HP HI HA HSat) as (proof & rng' & HC & HV).
  exists proof, rng'. unfold prove_circuit. cbn [p_params p_pk v_params v_vk]. by rewrite HC.
Qed.

Lemma preimage_prove_verify {R} pp vp x y (rng : R) :
  setup = Some (pp, vp) ->
  exists proof rng', Prover_prove pp x y (digest_from_inputs x y) rng = (Some proof, rng')
    /\ Verifier_verify vp (digest_from_inputs x y) proof = Ok tt.
Proof.
  intros HS. unfold setup in HS.
  pose proof (preimage_honest x y) as HA. cbn zeta in HA.
  destruct (keygen_prove K _ {| pc_x := Some x; pc_y := Some y |} pp vp [digest_from_inputs x y] rng
    (honest_assignment (circuit_events {| pc_x := Some x; pc_y := Some y |})) HS) as (proof & rng' & HP & HV).
  - by rewrite !preimage_events.
  - vm_compute. reflexivity.
  - eexists _, _, 0. split; [|done]. rewrite preimage_events. do 3 right. by left.
  - done.
  - by apply (preimage_complete _ _ _ x y).
  - exists proof, rng'. split; [done|]. unfold Verifier_verify. by rewrite HV.
Qed.

Lemma layer_binds_row5 (c : LayerCircuit) :
  exists x col, ConstrainInstance x col 5 ∈ circuit_events c.
Proof.
  assert (HE : existsb (fun e => match e with ConstrainInstance _ _ 5 => true | _ => false end)
                 (circuit_events c) = true) by (vm_compute; reflexivity).
  apply existsb_exists in HE as (e & HE & Hm). apply list_elem_of_In in HE.
  destruct e as [|x col [|[|[|[|[|[|]]]]]]| |]; try done. by eexists _, _.
Qed.

Lemma layer_prove_verify `{!PrimeField} {R} k pp vp ws bs x layer_idx session_id weight_commit (rng : R) :
  let l := {| w := ws; b := bs |} in
  let y := layer_apply l x in
  layer_wf l -> is_vec x -> setup_layer k ws bs = Some (pp, vp) ->
  exists proof rng',
    LayerProver_prove pp x y (poseidon_hash x) (poseidon_hash y) ws bs layer_idx session_id weight_commit rng
      = (Some proof, rng')
    /\ LayerVerifier_verify vp (poseidon_hash x) (poseidon_hash y) layer_idx session_id weight_commit proof
      = Ok tt.
Proof.
  intros l y Hwf Hx HS. unfold setup_layer in HS.
  destruct (keygen _ _) as [[pp' vp']|] eqn:HK; [|done]. cbn in HS. injection HS as <- <-.
  unfold LayerProver_prove, LayerVerifier_verify, split_commit_to_fp.
  set (c := {| lc_w := ws; lc_b := bs; lc_x := Some x; lc_y := Some y; layer_idx_fp := _;
               session_id_fp := _; weight_commit_lo := _; weight_commit_hi := _ |}).
  set (inst := build_instance _ _ _ _ _).
  destruct (layer_honest inst c x Hwf Hx eq_refl eq_refl) as [HA HSat].
  { intros row v Hv. by destruct row as [|[|[|[|[|[|]]]]]]; try apply (inj Some) in Hv as <-. }
  destruct (keygen_prove LAYER_CIRCUIT_K _ c pp' vp' inst rng (honest_assignment (circuit_events c)) HK) as (proof & rng' & HP & HV).
  - by apply layer_shape.
  - apply layer_permuted.
  - destruct (layer_binds_row5 c) as (z & col & Hz). exists z, col, 5. by split.
  - exact HA.
  - exact HSat.
  - exists proof, rng'. split; [exact HP|]. cbn [lv_params]. by rewrite HV.
Qed.
End Proofs.

(** ** Instances and identities *)

Section Identity.
Context `{!Pasta, !PrimeField, !PrimeFieldLaws}.

Lemma le_bytes_range (l : bytes) : (0 <= from_le_bytes l < 2 ^ (Z.of_nat (length l) * 8))%Z.
Proof.
  replace (Z.of_nat (length l) * 8)%Z with (8 * Z.of_nat (length l))%Z by lia. apply le_combine_bound.
Qed.

Lemma from_le_bytes_inj (l k : bytes) : length l = length k -> from_le_bytes l = from_le_bytes k -> l = k.
Proof.
  unfold from_le_bytes. intros Hl HE. rewrite <- (split_le_combine l), <- (split_le_combine k), HE.
  by rewrite Hl.
Qed.

(** A public-input vector determines everything the proof is bound to. *)
Lemma build_instance_inj x1 y1 i1 s1 c1 x2 y2 i2 s2 c2 :
  is_u64 i1 -> is_u64 i2 -> length s1 = 16 -> length s2 = 16 -> length c1 = 32 -> length c2 = 32 ->
  build_instance x1 y1 i1 s1 c1 = build_instance x2 y2 i2 s2 c2 ->
  x1 = x2 /\ y1 = y2 /\ i1 = i2 /\ s1 = s2 /\ c1 = c2.
Proof.
  intros Hi1 Hi2 Hs1 Hs2 Hc1 Hc2 [= -> -> HI HS HLo HHi].
  assert (HU : forall l k : bytes, length l = 16 -> length k = 16 ->
            fp_from_u128 (from_le_bytes l) = fp_from_u128 (from_le_bytes k) -> l = k).
  { intros l k Hl Hk HE. apply from_le_bytes_inj; [congruence|].
    apply fp_from_u128_inj in HE; [done|..].
    - pose proof (le_bytes_range l) as Hr. by rewrite Hl in Hr.
    - pose proof (le_bytes_range k) as Hr. by rewrite Hk in Hr. }
  apply fp_from_u64_inj in HI; [|done..]. apply HU in HS; [|done..].
  apply HU in HLo; [|unfold slice; rewrite length_take, length_drop; lia..].
  apply HU in HHi; [|unfold slice; rewrite length_take, length_drop; lia..].
  split_and!; try done. unfold slice in HLo, HHi. cbn in HLo, HHi.
  rewrite <- (take_drop 16 c1), <- (take_drop 16 c2). f_equal; [done|].
  rewrite !take_ge in HHi by (rewrite length_drop; lia). done.
Qed.
End Identity.

(** ** Layer statements and traces *)

Section Statements.
Context `{!Pasta, !PastaLaws, !PrimeField}.

(** What a proof for a layer is to show: the circuit with the layer's weights
    has a satisfying assignment for the instance. *)
Definition layer_statement (l : Layer) (inst : list Fp) : Prop :=
  exists c asg, circuit_layer c = l /\ satisfied (circuit_system LayerCircuit) inst asg (circuit_events c).

(** The commitments are those of the model's trace on the first vector. *)
Definition traced (m : Model) (commits : list Fp) (xs : list (list Fp)) : Prop :=
  exists x tc, xs !! 0 = Some x /\ Trace_commits (Model_run m x) = Some tc /\ field tc = commits.

Lemma layer_statement_iff l xc yc i sid wc :
  layer_wf l ->
  layer_statement l (build_instance xc yc i sid wc)
  <-> exists x, is_vec x /\ xc = vector_hash_native x /\ yc = vector_hash_native (layer_apply l x).
Proof.
  intros Hwf. split.
  - intros (c & asg & <- & Hs). apply (layer_satisfiable_iff c (build_instance xc yc i sid wc) Hwf).
    by exists asg.
  - intros Hx.
    set (c := {| lc_w := w l; lc_b := b l; lc_x := None; lc_y := None; layer_idx_fp := xc;
                 session_id_fp := xc; weight_commit_lo := xc; weight_commit_hi := xc |}).
    assert (Hc : circuit_layer c = l) by (by destruct l).
    destruct (proj2 (layer_satisfiable_iff c (build_instance xc yc i sid wc) ltac:(by rewrite Hc)))
      as [asg Hs]; [by rewrite Hc|]. by exists c, asg.
Qed.

Lemma statements_open m commits sid wc :
  model_wf m -> length commits = NUM_LAYERS + 1 ->
  (exists xs, openings (layers m) commits xs) <->
  forall i l, layers m !! i = Some l ->
    layer_statement l (build_instance (commits !!! i) (commits !!! S i) (Z.of_nat i) sid wc).
Proof.
  intros [Hlen Hls] Hc. rewrite openings_exist by lia.
  split; intros HS i l Hi; apply (Forall_lookup_1 _ _ _ _ Hls) in Hi as Hwf;
    specialize (HS i l Hi); by apply layer_statement_iff in HS || by apply layer_statement_iff.
Qed.

Lemma openings_traced m commits xs :
  model_wf m -> length commits = NUM_LAYERS + 1 -> openings (layers m) commits xs ->
  traced m commits xs \/ exists i, chain_breaks (layers m) xs i.
Proof.
  intros [Hlen Hls] Hc Ho. destruct commits as [|c cs]; [done|].
  assert (Hv : forall x xs', xs = x :: xs' -> is_vec x).
  { intros x xs' ->. destruct (layers m), cs; try done. by destruct Ho. }
  destruct (layers m) as [|l ls] eqn:El; [done|].
  apply chain_sound in Ho as [(x & xs' & -> & ->)|Hb]; [left|by right].
  exists x. eexists. split_and!; [done|apply Trace_commits_run; [|by eapply Hv]|].
  - unfold model_wf. by rewrite El.
  - cbn [field Model_run activations]. by rewrite <- El.
Qed.
End Statements.

(** ** Claims *)

(** C6. The layer circuit states exactly that the layer was applied: whatever
    witnesses a circuit value holds, its request can be satisfied for an
    instance if and only if rows 0 and 1 are the Poseidon commitments of some
    vector and of the layer's output on it; the identity rows are free.  The
    request without witness values, from which the keys are made, depends on
    the weights only, and every copy is between columns of the permutation. *)
Theorem layer_circuit_sound_complete `{PastaLaws} (c : LayerCircuit) inst :
  layer_wf (circuit_layer c) ->
  ((exists asg, satisfied (circuit_system LayerCircuit) inst asg (circuit_events c))
   <-> exists x, is_vec x /\ instance_at inst 0 = vector_hash_native x
         /\ instance_at inst 1 = vector_hash_native (layer_apply (circuit_layer c) x))
  /\ shape (circuit_events c) = shape (circuit_events (without_witnesses c))
  /\ forallb (event_permuted (circuit_system LayerCircuit)) (circuit_events c) = true.
Proof.
  intros Hwf. split; [by apply layer_satisfiable_iff|]. split; [by apply layer_shape|]. apply layer_permuted.
Qed.

(** Layer statements chain: the circuits of all layers of a model have
    satisfying assignments for the instances built from consecutive
    commitments if and only if the commitments have openings; and whatever
    openings they have, the commitments are those of the trace of the whole
    model on the first vector, or the openings come apart at a layer, which
    exhibits two different vectors with one Poseidon hash. *)
Theorem layer_chain_sound `{PastaLaws} `{!PrimeField} m commits session_id weight_commit :
  model_wf m -> length commits = NUM_LAYERS + 1 ->
  ((exists xs, openings (layers m) commits xs) <->
   forall i l, layers m !! i = Some l ->
     layer_statement l (build_instance (commits !!! i) (commits !!! S i) (Z.of_nat i) session_id weight_commit))
  /\ forall xs, openings (layers m) commits xs ->
       traced m commits xs \/ exists i, chain_breaks (layers m) xs i.
Proof. intros Hm Hlen. split; [by apply statements_open|]. intros xs. by apply openings_traced. Qed.

(** What the TEE computes can be proved: for every layer of a run of a
    well-formed model, keys generated for its weights give a proof for the
    trace's own commitments, whatever the session and the claimed identity, and
    the verifier with the same identity accepts it. *)
Theorem trace_layers_verify `{PastaLaws, !PrimeField, !Halo2, !Halo2Laws} {R} m input i l k pp vp
    layer_idx session_id weight_commit (rng : R) :
  model_wf m -> is_vec input -> layers m !! i = Some l -> setup_layer k (w l) (b l) = Some (pp, vp) ->
  exists x y tc xc yc proof rng',
    activations (Model_run m input) !! i = Some x /\ activations (Model_run m input) !! S i = Some y
    /\ Trace_commits (Model_run m input) = Some tc /\ field tc !! i = Some xc /\ field tc !! S i = Some yc
    /\ LayerProver_prove pp x y xc yc (w l) (b l) layer_idx session_id weight_commit rng = (Some proof, rng')
    /\ LayerVerifier_verify vp xc yc layer_idx session_id weight_commit proof = Ok tt.
Proof.
  intros [Hlen Hls] Hx Hi HS. destruct (activations_vec m input (conj Hlen Hls) Hx) as [Hv _].
  destruct (run_layers_lookup (layers m) input i l Hi) as (x & Ex & Ey).
  change (input :: _) with (activations (Model_run m input)) in Ex, Ey.
  assert (Hxv : is_vec x) by (by eapply Forall_lookup_1; [exact Hv|]).
  destruct l as [ws bs].
  destruct (layer_prove_verify k pp vp ws bs x layer_idx session_id weight_commit rng
    (Forall_lookup_1 _ _ _ _ Hls Hi) Hxv HS) as (proof & rng' & HP & HV).
  eexists x, _, _, _, _, proof, rng'. split_and!; [exact Ex|exact Ey| | | |exact HP|exact HV].
  - by apply Trace_commits_run.
  - cbn [field]. by rewrite list_lookup_fmap, Ex.
  - cbn [field]. by rewrite list_lookup_fmap, Ey.
Qed.

(** ** Witnesses: the layer of ones over the two-element field *)

Definition ones : list bool := replicate 8 true.
Definition ones_layer : Layer := {| w := replicate 8 ones; b := ones |}.
Definition ones_circuit : LayerCircuit :=
  {| lc_w := w ones_layer; lc_b := b ones_layer; lc_x := None; lc_y := None;
     layer_idx_fp := false; session_id_fp := true; weight_commit_lo := true; weight_commit_hi := false |}.
Definition ones_commits : list Fp := replicate 9 false.
Definition ones_model : Model := {| layers := replicate 8 ones_layer; model_weight_commit := [] |}.

Lemma ones_layer_wf : layer_wf ones_layer.
Proof. by repeat constructor. Qed.

Lemma ones_model_wf : model_wf ones_model.
Proof. split; [done|]. repeat constructor. Qed.

Lemma layer_circuit_sound_complete_witness :
  layer_wf (circuit_layer ones_circuit)
  /\ (exists asg, satisfied (circuit_system LayerCircuit) [false; false; true] asg (circuit_events ones_circuit)).
Proof.
  split; [exact ones_layer_wf|].
  apply (proj1 (layer_circuit_sound_complete ones_circuit [false; false; true] ones_layer_wf)).
  exists ones. split; [reflexivity|]. split; vm_compute; reflexivity.
Defined.

Lemma layer_chain_sound_witness :
  openings (layers ones_model) ones_commits (replicate 8 ones)
  /\ (traced ones_model ones_commits (replicate 8 ones)
      \/ exists i, chain_breaks (layers ones_model) (replicate 8 ones) i).
Proof.
  assert (Ho : openings (layers ones_model) ones_commits (replicate 8 ones)) by (vm_compute; tauto).
  split; [exact Ho|].
  exact (proj2 (layer_chain_sound ones_model ones_commits [] [] ones_model_wf eq_refl) _ Ho).
Defined.

Lemma trace_layers_verify_witness :
  exists x y tc xc yc proof rng',
    activations (Model_run ones_model ones) !! 3 = Some x
    /\ activations (Model_run ones_model ones) !! 4 = Some y
    /\ Trace_commits (Model_run ones_model ones) = Some tc
    /\ field tc !! 3 = Some xc /\ field tc !! 4 = Some yc
    /\ LayerProver_prove (R := unit) {| lp_params := {| p_params := tt; p_pk := tt |}; lp_layer_idx := 3 |}
         x y xc yc (w ones_layer) (b ones_layer) 3 [] [] tt = (Some proof, rng')
    /\ LayerVerifier_verify {| lv_params := {| v_params := tt; v_vk := tt |}; lv_layer_idx := 3 |}
         xc yc 3 [] [] proof = Ok tt.
Proof.
  apply (trace_layers_verify ones_model ones 3 ones_layer 3).
  - exact ones_model_wf.
  - reflexivity.
  - reflexivity.
  - vm_compute. reflexivity.
Defined.
