(* ===== verification/Matrix.v ===== *)
(** * ullm-kvcloak: the matrix cloak and the partitioned KV service

    [crates/ullm-kvcloak/src]: [matrix.rs], [spd.rs]. *)

From S2P Require Import Prelude RustStd Core Crates Toy KvCloak Model.
From Stdlib Require Import Lia Ring.

Local Open Scope nat_scope.

(** ** matrix.rs *)

Section Matrix.
Context `{!Pasta}.

Abbreviation vec := (list Fp).

Record MatrixCloakKey := { l : list vec; perm : list nat }.

(** The entry at row [i], column [j]: zero above the diagonal, and never zero
    on it. *)
Definition key_entry `{!Sha2} (raw : bytes) (i j : nat) : option Fp :=
  if decide (i < j) then Some fzero else
  let off := (i * VEC_DIM + j) * 64 in
  v ← fp_from_wide (slice off (off + 64) raw);
  if decide (i = j /\ v = fzero) then Some fone else Some v.

(** [None] is a failed [expect] of [fp_from_wide]. *)
Definition MatrixCloakKey_from_seed `{!Sha2, !Hkdf} (seed : bytes) : option MatrixCloakKey :=
  let hk := hkdf_extract (lit "ULLM-kvcloak-matrix-v1") seed in
  let l_bytes_total := VEC_DIM * VEC_DIM * 64 in
  let raw := hkdf_expand hk (lit "l-and-perm") (l_bytes_total + 64) in
  rows ← mapM (fun i => mapM (fun j => key_entry raw i j) (List.seq 0 VEC_DIM)) (List.seq 0 VEC_DIM);
  let perm_seed_off := l_bytes_total in
  let p := fisher_yates (VEC_DIM - 1)
    (fun i => from_be_bytes (slice (perm_seed_off + i * 8) (perm_seed_off + i * 8 + 8) raw))
    (List.seq 0 VEC_DIM) in
  Some {| l := rows; perm := p |}.

Definition MatrixCloakKey_random `{!Sha2, !Hkdf, !Rng R} (rng : R) : option MatrixCloakKey * R :=
  let '(seed, rng) := fill_bytes 32 rng in
  (MatrixCloakKey_from_seed seed, rng).

(** [out[i] = sum over j <= i of l[i][j] * v[j]]. *)
Definition matvec_lower (l : list vec) (v : vec) : vec :=
  imap (fun i row => dot fzero (take (S i) row) v) l.

(** Forward substitution; [x] holds the solved prefix, [None] is the failed
    [expect] on the inverse of the diagonal entry. *)
Definition solve_step (xo : option vec) (rb : vec * Fp) : option vec :=
  x ← xo;
  let '(row, bi) := rb in
  let acc := foldl (fun acc lx => (acc - lx.1 * lx.2)%F) bi (zip row x) in
  diag ← row !! length x;
  diag_inv ← finvert diag;
  Some (x ++ [(acc * diag_inv)%F]).

Definition inverse_matvec_lower (l : list vec) (b : vec) : option vec :=
  foldl solve_step (Some []) (zip l b).

Definition cloak_vector (key : MatrixCloakKey) (v : vec) : vec :=
  let lv := matvec_lower (l key) v in
  gather (perm key) lv.

Definition uncloak_vector (key : MatrixCloakKey) (cloaked : vec) : option vec :=
  let lv := scatter (perm key) cloaked (replicate VEC_DIM fzero) in
  inverse_matvec_lower (l key) lv.

(** ** spd.rs *)

Record TenantKvStore := { kv_key : MatrixCloakKey; keys : list vec; values : list vec }.

Definition TenantKvStore_new (key : MatrixCloakKey) : TenantKvStore :=
  {| kv_key := key; keys := []; values := [] |}.

Definition TenantKvStore_push (s : TenantKvStore) (k v : vec) : TenantKvStore :=
  {| kv_key := kv_key s;
     keys := keys s ++ [cloak_vector (kv_key s) k];
     values := values s ++ [cloak_vector (kv_key s) v] |}.

(** The outer option is the returned one, the inner a panic while uncloaking. *)
Definition TenantKvStore_recover (s : TenantKvStore) (i : nat) : option (option (vec * vec)) :=
  k ← keys s !! i;
  v ← values s !! i;
  Some (k' ← uncloak_vector (kv_key s) k; v' ← uncloak_vector (kv_key s) v; Some (k', v')).

Definition TenantKvStore_len (s : TenantKvStore) : nat := length (keys s).

Abbreviation SharedAttentionService := (gmap TenantId TenantKvStore).

Definition register_tenant (t : SharedAttentionService) (tenant : TenantId) (key : MatrixCloakKey)
  : SharedAttentionService :=
  match t !! tenant with
  | Some _ => t
  | None => <[tenant := TenantKvStore_new key]> t
  end.

Definition push_kv (t : SharedAttentionService) (tenant : TenantId) (k v : vec)
  : result unit bytes * SharedAttentionService :=
  match t !! tenant with
  | None => (Err (lit "unknown tenant"), t)
  | Some store => (Ok tt, <[tenant := TenantKvStore_push store k v]> t)
  end.

Definition cloaked_view (t : SharedAttentionService) (tenant : TenantId)
  : option (list vec * list vec) :=
  store ← t !! tenant;
  Some (keys store, values store).

Definition spd_tenant_count (t : SharedAttentionService) : nat := size t.
End Matrix.

(** ** Well-formed keys *)

Section Keys.
Context `{!Pasta, !PastaLaws}.
Add Ring FpRing2 : fp_ring.

Definition key_wf (k : MatrixCloakKey) : Prop :=
  length (l k) = VEC_DIM
  /\ (forall i row, l k !! i = Some row ->
        length row = VEC_DIM /\ exists d, row !! i = Some d /\ d <> fzero)
  /\ perm k ≡ₚ List.seq 0 VEC_DIM.

Lemma matvec_length m v : length (matvec_lower m v) = length m.
Proof. unfold matvec_lower. apply length_imap. Qed.

(** Subtracting the terms of a dot product one by one. *)
Lemma unsubtract row x acc0 acc1 :
  foldl (fun acc lx => (acc - lx.1 * lx.2)%F) (acc0 + acc1)%F (zip row x)
  = (acc1 + (acc0 - dot fzero row x))%F.
Proof.
  unfold dot. set (z := zip row x). clearbody z.
  assert (G : forall s acc0 acc1,
    foldl (fun acc lx => (acc - lx.1 * lx.2)%F) (acc0 + acc1)%F z
    = (acc1 + (acc0 + s - foldl (fun acc rx => (acc + rx.1 * rx.2)%F) s z))%F).
  { induction z as [|[r y] z IH]; intros s a0 a1; cbn [foldl fst snd]; [ring|].
    replace (a0 + a1 - r * y)%F with ((a0 - r * y) + a1)%F by ring.
    rewrite (IH (s + r * y)%F). ring. }
  rewrite (G fzero). ring.
Qed.

Lemma dot_snoc init row x r y :
  length row = length x -> dot init (row ++ [r]) (x ++ [y]) = (dot init row x + r * y)%F.
Proof.
  intros Hl. unfold dot. rewrite zip_with_app by done. cbn. by rewrite foldl_app.
Qed.

(** The dot product up to column [i]. *)
Lemma dot_take_S row v i d vi :
  row !! i = Some d -> v !! i = Some vi ->
  dot fzero (take (S i) row) v = (dot fzero row (take i v) + d * vi)%F.
Proof.
  intros Hd Hv. apply lookup_lt_Some in Hd as Ld. apply lookup_lt_Some in Hv as Lv.
  transitivity (dot fzero (take (S i) row) (take (S i) v)).
  { unfold dot. rewrite zip_with_take_r'; [done|]. rewrite length_take. lia. }
  rewrite (take_S_r _ _ _ Hd), (take_S_r _ _ _ Hv), dot_snoc by (rewrite !length_take; lia).
  f_equal. unfold dot. rewrite zip_with_take_l'; [done|]. rewrite length_take. lia.
Qed.

(** One step of forward substitution recovers the next coordinate. *)
Lemma solve_step_correct row v i d vi :
  v !! i = Some vi -> row !! i = Some d -> d <> fzero ->
  solve_step (Some (take i v)) (row, dot fzero (take (S i) row) v) = Some (take (S i) v).
Proof.
  intros Hv Hd Hnz. apply lookup_lt_Some in Hv as Lv.
  unfold solve_step. cbn [mbind option_bind]. rewrite length_take, Nat.min_l, Hd by lia.
  cbn [mbind option_bind]. destruct (finvert_some d Hnz) as [y Hy]. rewrite Hy. cbn [mbind option_bind].
  apply finvert_spec in Hy as [_ Hy]. rewrite (take_S_r _ _ _ Hv). do 3 f_equal.
  rewrite (dot_take_S _ _ _ _ _ Hd Hv), unsubtract.
  transitivity (d * y * vi)%F; [ring|]. rewrite Hy. ring.
Qed.

(** Forward substitution inverts multiplication by a lower-triangular matrix
    with a non-zero diagonal. *)
Lemma inverse_matvec m v n :
  length m = n -> length v = n ->
  (forall i row, m !! i = Some row -> exists d, row !! i = Some d /\ d <> fzero) ->
  inverse_matvec_lower m (matvec_lower m v) = Some v.
Proof.
  intros Hm Hv Hdiag. unfold inverse_matvec_lower, matvec_lower.
  assert (G : forall i, i <= n ->
    foldl solve_step (Some []) (take i (zip m (imap (fun i row => dot fzero (take (S i) row) v) m)))
    = Some (take i v)).
  { induction i as [|i IH]; intros Hi; [done|].
    destruct (lookup_lt_is_Some_2 m i) as [row Hrow]; [lia|].
    destruct (lookup_lt_is_Some_2 v i) as [vi Hvi]; [lia|].
    rewrite (take_S_r _ _ (row, dot fzero (take (S i) row) v)).
    - rewrite foldl_app, IH by lia. cbn [foldl].
      destruct (Hdiag i row Hrow) as (d & Hd & Hnz). by apply (solve_step_correct _ _ _ d vi).
    - apply lookup_zip_with_Some. exists row, (dot fzero (take (S i) row) v).
      by rewrite list_lookup_imap, Hrow. }
  specialize (G n ltac:(lia)). rewrite !take_ge in G; [done|lia|].
  rewrite length_zip_with, length_imap. lia.
Qed.

(** The cloak is linear. *)
Lemma dot_scale a row x : dot fzero row (fmul a <$> x) = (a * dot fzero row x)%F.
Proof.
  unfold dot. assert (G : forall s, foldl (fun acc rx => (acc + rx.1 * rx.2)%F) (a * s)%F (zip row (fmul a <$> x))
    = (a * foldl (fun acc rx => (acc + rx.1 * rx.2)%F) s (zip row x))%F).
  { revert x. induction row as [|r row IH]; intros [|y x] s; try done. cbn.
    rewrite <- IH. f_equal. ring. }
  rewrite <- G. f_equal. ring.
Qed.

Lemma matvec_linear m a c v u :
  length v = length u ->
  matvec_lower m (zip_with fadd (fmul a <$> v) (fmul c <$> u))
  = zip_with fadd (fmul a <$> matvec_lower m v) (fmul c <$> matvec_lower m u).
Proof.
  intros Hl. unfold matvec_lower. apply list_eq. intros i.
  rewrite lookup_zip_with, !list_lookup_fmap, !list_lookup_imap.
  destruct (m !! i) as [row|]; [|done]. cbn. f_equal.
  rewrite <- !dot_scale, <- dot_add by (by rewrite !length_fmap). f_equal. ring.
Qed.

Lemma gather_zip_with p (x y : list Fp) (f : Fp -> Fp -> Fp) :
  Forall (fun i => i < length x /\ i < length y) p ->
  gather p (zip_with f x y) = zip_with f (gather p x) (gather p y).
Proof.
  unfold gather. induction 1 as [|i p [Hx Hy] Hp IH]; [done|]. cbn. rewrite IH. f_equal.
  destruct (lookup_lt_is_Some_2 x i Hx) as [a Ha], (lookup_lt_is_Some_2 y i Hy) as [c Hc].
  rewrite (list_lookup_total_correct _ _ _ Ha), (list_lookup_total_correct _ _ _ Hc).
  apply list_lookup_total_correct. by rewrite lookup_zip_with, Ha, Hc.
Qed.

Lemma gather_fmap p (x : list Fp) (f : Fp -> Fp) :
  Forall (fun i => i < length x) p -> gather p (f <$> x) = f <$> gather p x.
Proof.
  unfold gather. induction 1 as [|i p Hx Hp IH]; [done|]. cbn. rewrite IH. f_equal.
  destruct (lookup_lt_is_Some_2 x i Hx) as [a Ha].
  rewrite (list_lookup_total_correct _ _ _ Ha). apply list_lookup_total_correct.
  by rewrite list_lookup_fmap, Ha.
Qed.

Lemma uncloak_cloak k v : key_wf k -> length v = VEC_DIM -> uncloak_vector k (cloak_vector k v) = Some v.
Proof.
  intros (Hl & Hrows & Hp) Hv. unfold uncloak_vector, cloak_vector.
  rewrite scatter_gather; [|by rewrite matvec_length, Hl|by rewrite length_replicate, matvec_length, Hl].
  apply (inverse_matvec _ _ VEC_DIM); [done|done|]. intros i row Hi. by apply Hrows in Hi as [_ ?].
Qed.

(** ** A key derived from a seed is well-formed *)

Context `{!Sha2, !Sha2Laws, !Hkdf}.

Lemma key_entry_some raw i j :
  exists v, key_entry raw i j = Some v /\ (i = j -> v <> fzero) /\ (i < j -> v = fzero).
Proof.
  unfold key_entry. case_decide as Hij; [exists fzero; split; [done|]; split; [lia|done]|].
  match goal with |- context [fp_from_wide ?x] => destruct (fp_from_wide_some x) as [v ->] end.
  cbn. case_decide as Hz.
  - exists fone. split; [done|]. split; [|lia]. intros _. apply fp_one_nonzero.
  - exists v. split; [done|]. split; [|lia]. intros -> ->. by apply Hz.
Qed.

Lemma from_seed_wf seed : exists k, MatrixCloakKey_from_seed seed = Some k /\ key_wf k.
Proof.
  unfold MatrixCloakKey_from_seed. set (raw := hkdf_expand _ _ _). clearbody raw.
  assert (Hrow : forall i, exists row, mapM (fun j => key_entry raw i j) (List.seq 0 VEC_DIM) = Some row
            /\ length row = VEC_DIM).
  { intros i. destruct (mapM_total (fun j => key_entry raw i j) (List.seq 0 VEC_DIM)) as (row & Hr & Hl).
    - intros j. destruct (key_entry_some raw i j) as (v & -> & _). by eexists.
    - exists row. split; [exact Hr|]. by rewrite Hl, length_seq. }
  destruct (mapM_total (fun i => mapM (fun j => key_entry raw i j) (List.seq 0 VEC_DIM)) (List.seq 0 VEC_DIM))
    as (rows & Hrows & Hlen).
  { intros i. destruct (Hrow i) as (row & -> & _). by eexists. }
  rewrite Hrows. eexists. split; [reflexivity|]. split; [|split]; cbn [l perm].
  - by rewrite Hlen, length_seq.
  - intros i row Hi. apply mapM_Some in Hrows.
    destruct (Forall2_lookup_r _ _ _ _ _ Hrows Hi) as (i' & Hi' & Hm).
    apply lookup_seq in Hi' as [-> Hlt]. cbn [plus] in Hm.
    destruct (Hrow i) as (row' & Hr & Hlr). rewrite Hm in Hr. injection Hr as <-. split; [done|].
    apply mapM_Some in Hm. destruct (lookup_lt_is_Some_2 row i) as [d Hd]; [lia|].
    destruct (Forall2_lookup_r _ _ _ _ _ Hm Hd) as (j & Hj & Hk).
    apply lookup_seq in Hj as [-> _]. cbn [plus] in Hk. exists d. split; [done|].
    destruct (key_entry_some raw i i) as (d' & Hd' & Hnz & _). rewrite Hk in Hd'. injection Hd' as <-.
    by apply Hnz.
  - apply fisher_yates_perm.
Qed.
End Keys.

(** ** What the partitioned service promises

    Abstractly a tenant's store is its key, chosen by the first registration,
    and the plaintext pairs pushed since. *)

Section Spd.
Context `{!Pasta}.

Inductive spd_op :=
| OpRegister (tenant : TenantId) (key : MatrixCloakKey)
| OpPush (tenant : TenantId) (k v : list Fp).

Definition spd_exec (t : gmap TenantId TenantKvStore) (op : spd_op) : gmap TenantId TenantKvStore :=
  match op with
  | OpRegister tenant key => register_tenant t tenant key
  | OpPush tenant k v => (push_kv t tenant k v).2
  end.

Abbreviation spec := (gmap TenantId (MatrixCloakKey * list (list Fp * list Fp))).

Definition spec_exec (s : spec) (op : spd_op) : spec :=
  match op with
  | OpRegister tenant key => partial_alter (fun o => Some (default (key, []) o)) tenant s
  | OpPush tenant k v =>
      alter (fun kp => (kp.1, kp.2 ++ [(k, v)])) tenant s
  end.

Definition op_wf (op : spd_op) : Prop :=
  match op with
  | OpRegister _ key => key_wf key
  | OpPush _ k v => is_vec k /\ is_vec v
  end.

(** The stored vectors are the cloaked pushed ones. *)
Definition store_rel (st : TenantKvStore) (kp : MatrixCloakKey * list (list Fp * list Fp)) : Prop :=
  kv_key st = kp.1 /\ key_wf kp.1 /\ Forall (fun p => is_vec p.1 /\ is_vec p.2) kp.2
  /\ keys st = (cloak_vector kp.1 ∘ fst) <$> kp.2
  /\ values st = (cloak_vector kp.1 ∘ snd) <$> kp.2.

Definition spd_rel (t : gmap TenantId TenantKvStore) (s : spec) : Prop :=
  map_relation (fun _ => store_rel) (fun _ _ => False) (fun _ _ => False) t s.

Lemma spd_rel_lookup t s tenant :
  spd_rel t s -> option_Forall2 store_rel (t !! tenant) (s !! tenant).
Proof.
  intros Hr. specialize (Hr tenant).
  destruct (t !! tenant), (s !! tenant); cbn in Hr; try done; by constructor.
Qed.

Lemma spd_rel_intro t s :
  (forall tenant, option_Forall2 store_rel (t !! tenant) (s !! tenant)) -> spd_rel t s.
Proof. intros Hall tenant. destruct (Hall tenant); done. Qed.

Lemma push_rel st kp k v :
  store_rel st kp -> is_vec k -> is_vec v ->
  store_rel (TenantKvStore_push st k v) (kp.1, kp.2 ++ [(k, v)]).
Proof.
  intros (Hk & Hwf & Hall & Hks & Hvs) Hvk Hvv. unfold TenantKvStore_push, store_rel. cbn.
  rewrite Hk, Hks, Hvs, !fmap_app. split_and!; try done.
  apply Forall_app. split; [done|]. by constructor.
Qed.

Lemma exec_rel t s op : spd_rel t s -> op_wf op -> spd_rel (spd_exec t op) (spec_exec s op).
Proof.
  intros Hr Hop. apply spd_rel_intro. intros x. pose proof (spd_rel_lookup _ _ x Hr) as Hx.
  destruct op as [tenant key|tenant k v]; cbn.
  - unfold register_tenant. pose proof (spd_rel_lookup _ _ tenant Hr) as Ht.
    destruct (decide (x = tenant)) as [->|Hne].
    + rewrite lookup_partial_alter_eq. inversion Ht as [st kp Hrel Et Es|Et Es].
      * rewrite <- Et. cbn. by constructor.
      * rewrite lookup_insert_eq. cbn. constructor. by split_and!; cbn.
    + rewrite lookup_partial_alter_ne by done.
      destruct (t !! tenant); [done|]. by rewrite lookup_insert_ne.
  - destruct Hop as [Hk Hv]. unfold push_kv. pose proof (spd_rel_lookup _ _ tenant Hr) as Ht.
    destruct (decide (x = tenant)) as [->|Hne].
    + rewrite lookup_alter_eq. inversion Ht as [st kp Hrel Et Es|Et Es]; cbn.
      * rewrite lookup_insert_eq. constructor. by apply push_rel.
      * rewrite <- Et. constructor.
    + rewrite lookup_alter_ne by done. destruct (t !! tenant); cbn; [|done].
      by rewrite lookup_insert_ne.
Qed.

Lemma execs_rel ops t s :
  spd_rel t s -> Forall op_wf ops -> spd_rel (foldl spd_exec t ops) (foldl spec_exec s ops).
Proof.
  intros Hr Hops. revert t s Hr. induction Hops as [|op ops Hop Hops IH]; intros t s Hr; [done|].
  cbn. by apply IH, exec_rel.
Qed.

Lemma recover_rel `{!PastaLaws} st kp i :
  store_rel st kp -> TenantKvStore_recover st i = Some <$> kp.2 !! i.
Proof.
  intros (Hk & Hwf & Hall & Hks & Hvs). unfold TenantKvStore_recover.
  rewrite Hks, Hvs, !list_lookup_fmap. destruct (kp.2 !! i) as [[k v]|] eqn:E; [|done]. cbn.
  eapply Forall_lookup_1 in Hall as [Hvk Hvv]; [|exact E]. rewrite Hk.
  rewrite !uncloak_cloak by done. done.
Qed.
End Spd.

(** ** Claims *)

(** The matrix cloak: every seed yields a key (no [expect] fails), whose
    [uncloak_vector] inverts its [cloak_vector] on every vector without
    failing on a zero diagonal, and the cloak is linear, which is what lets
    attention be computed on cloaked vectors. *)
Theorem matrix_cloak_roundtrip `{PastaLaws} `{Sha2Laws} `{!Hkdf} seed :
  exists k, MatrixCloakKey_from_seed seed = Some k /\
  forall v u a c, length v = VEC_DIM -> length u = VEC_DIM ->
    uncloak_vector k (cloak_vector k v) = Some v
    /\ cloak_vector k (zip_with fadd (fmul a <$> v) (fmul c <$> u))
       = zip_with fadd (fmul a <$> cloak_vector k v) (fmul c <$> cloak_vector k u).
Proof.
  destruct (from_seed_wf seed) as (k & Hk & Hwf). exists k. split; [done|].
  intros v u a c Hv Hu. split; [by apply uncloak_cloak|].
  destruct Hwf as (Hl & _ & Hp). unfold cloak_vector. rewrite matvec_linear by congruence.
  assert (Hr : Forall (fun i => i < VEC_DIM) (perm k)).
  { rewrite Hp. apply Forall_forall. intros i Hi. apply elem_of_seq in Hi. lia. }
  rewrite gather_zip_with.
  - by rewrite !gather_fmap by (rewrite matvec_length, Hl; exact Hr).
  - eapply Forall_impl; [exact Hr|]. cbn beta. intros i Hi.
    rewrite !length_fmap, !matvec_length, Hl. done.
Qed.

Lemma matrix_cloak_roundtrip_witness :
  exists k, MatrixCloakKey_from_seed (replicate 32 Byte.x01) = Some k
    /\ uncloak_vector k (cloak_vector k [true; false; true; true; false; false; true; false])
       = Some [true; false; true; true; false; false; true; false].
Proof.
  destruct (matrix_cloak_roundtrip (replicate 32 Byte.x01)) as (k & Hk & Hr).
  exists k. split; [exact Hk|].
  refine (proj1 (Hr _ [true; false; true; true; false; false; true; false] true true _ _)); reflexivity.
Defined.

(** C37. The shared service refines its specification: after any sequence of
    registrations (of well-formed keys) and pushes, each tenant's store holds
    exactly the pairs pushed for that tenant since it was first registered,
    in order: [recover] returns them, [cloaked_view] shows their cloaks under
    the first registered key, and other tenants' operations have no effect. *)
Theorem spd_refines `{PastaLaws} ops tenant :
  Forall op_wf ops ->
  match foldl spec_exec ∅ ops !! tenant with
  | None => foldl spd_exec ∅ ops !! tenant = None /\ cloaked_view (foldl spd_exec ∅ ops) tenant = None
  | Some (key, pairs) => exists st, foldl spd_exec ∅ ops !! tenant = Some st
      /\ (forall i, TenantKvStore_recover st i = Some <$> pairs !! i)
      /\ cloaked_view (foldl spd_exec ∅ ops) tenant
         = Some ((cloak_vector key ∘ fst) <$> pairs, (cloak_vector key ∘ snd) <$> pairs)
  end.
Proof.
  intros Hops. assert (Hr : spd_rel (foldl spd_exec ∅ ops) (foldl spec_exec ∅ ops)).
  { apply execs_rel; [|done]. by intros x. }
  pose proof (spd_rel_lookup _ _ tenant Hr) as Ht. unfold cloaked_view.
  inversion Ht as [st [key pairs] Hrel Et Es|Et Es]; [|done].
  exists st. split; [done|]. split; [intros i; apply (recover_rel st (key, pairs) i Hrel)|].
  destruct Hrel as (_ & _ & _ & Hks & Hvs). cbn in *. by rewrite Hks, Hvs.
Qed.

Lemma spd_refines_witness :
  let key := {| l := imap (fun i _ => <[i := true]> (replicate 8 false)) (replicate 8 tt);
                perm := List.seq 0 8 |} in
  let ops := [OpRegister (lit "a") key; OpPush (lit "a") (replicate 8 true) (replicate 8 false);
              OpPush (lit "b") (replicate 8 true) (replicate 8 true)] in
  exists st, foldl spd_exec ∅ ops !! lit "a" = Some st
    /\ TenantKvStore_recover st 0 = Some (Some (replicate 8 true, replicate 8 false)).
Proof.
  intros key ops.
  assert (Hops : Forall op_wf ops).
  { repeat (apply Forall_cons; split); [|done|done|constructor].
    split; [reflexivity|]. split; [|reflexivity].
    intros i row Hi. assert (Hlt : i < 8) by (apply lookup_lt_Some in Hi; exact Hi).
    do 8 (destruct i as [|i]; [injection Hi as <-; split; [reflexivity|]; by exists true|]). lia. }
  destruct (spd_refines ops (lit "a") Hops) as (st & Hst & Hrec & _).
  exists st. split; [exact Hst|]. exact (Hrec 0).
Defined.
