(* ===== verification/Lru.v ===== *)
(** * Bounded tables with an LRU index

    The nonce registry, the tenant pool and the rate limiter pair a
    [HashMap<K, V>] with a [BTreeSet<(Instant, u64, K)>] that orders the rows
    by last use.  This file has that pair's invariant, [lockstep], and what
    each update of the two does to it.  An [Instant] is a [Z] of nanoseconds;
    a [BTreeSet] is the set of its elements with its order given by
    [stamp_cmp]. *)

From S2P Require Import Prelude RustStd.
From stdpp Require Import gmap fin_sets fin_map_dom.
From Stdlib Require Import Lia.

Local Open Scope Z_scope.

Abbreviation stamp := (Z * Z * bytes)%type.

Definition stamp_cmp (x y : stamp) : comparison :=
  let '(t1, q1, k1) := x in
  let '(t2, q2, k2) := y in
  match t1 ?= t2 with
  | Eq => match q1 ?= q2 with Eq => bytes_cmp k1 k2 | c => c end
  | c => c
  end.

Definition stamp_ltb (x y : stamp) : bool := match stamp_cmp x y with Lt => true | _ => false end.

(** [BTreeSet::iter().next()]. *)
Definition oldest (s : gset stamp) : option stamp :=
  foldr (fun x acc => match acc with
                      | None => Some x
                      | Some y => if stamp_ltb x y then Some x else Some y
                      end) None (elements s).

(** [BTreeSet::range(..bound)]. *)
Definition range_below (bound : stamp) (s : gset stamp) : list stamp :=
  List.filter (fun x => stamp_ltb x bound) (elements s).

Lemma oldest_in s x : oldest s = Some x -> x ∈ s.
Proof.
  intros E. apply elem_of_elements. revert x E. unfold oldest.
  induction (elements s) as [|y l IH]; intros x; cbn; [done|].
  destruct (foldr _ None l) as [z|] eqn:F; [case_match|]; intros [= <-]; [left| |left].
  right. by apply IH.
Qed.

Lemma oldest_None s : oldest s = None -> s = ∅.
Proof.
  intros E. unfold oldest in E.
  apply leibniz_equiv, elements_empty_inv. destruct (elements s) as [|y l]; [done|]. cbn in E.
  by destruct (foldr _ None l); [case_match|].
Qed.

Lemma stamp_ltb_time (x y : stamp) :
  if stamp_ltb x y then x.1.1 <= y.1.1 else y.1.1 <= x.1.1.
Proof.
  destruct x as [[t1 q1] k1], y as [[t2 q2] k2]. unfold stamp_ltb, stamp_cmp. cbn [fst].
  destruct (Z.compare_spec t1 t2); try lia. destruct (q1 ?= q2); [destruct (bytes_cmp k1 k2)| |]; lia.
Qed.

(** No row is older than the oldest. *)
Lemma oldest_min s x y : oldest s = Some x -> y ∈ s -> x.1.1 <= y.1.1.
Proof.
  rewrite <- elem_of_elements. revert x. unfold oldest.
  induction (elements s) as [|z l IH]; intros x; cbn; [done|].
  destruct (foldr _ None l) as [w|] eqn:F.
  - pose proof (stamp_ltb_time z w) as T. specialize (IH w eq_refl).
    destruct (stamp_ltb z w); intros [= <-] [->|Hy]%elem_of_cons; try lia; specialize (IH Hy); lia.
  - intros [= <-] [->|Hy]%elem_of_cons; [lia|].
    destruct l as [|z' l']; [by apply elem_of_nil in Hy|]. cbn in F.
    by destruct (foldr _ None l'); [destruct (stamp_ltb z' _)|].
Qed.

Lemma range_below_in bound s x : x ∈ range_below bound s <-> x ∈ s /\ stamp_ltb x bound = true.
Proof.
  unfold range_below. rewrite list_elem_of_In, List.filter_In, <- list_elem_of_In, elem_of_elements.
  done.
Qed.

Section Lockstep.
Context {V : Type} (stamp_of : V -> Z * Z).

(** The index has exactly one row per entry, stamped with the entry's last
    use. *)
Definition lockstep (m : gmap bytes V) (s : gset stamp) : Prop :=
  forall t q k, (t, q, k) ∈ s <-> exists v, m !! k = Some v /\ stamp_of v = (t, q).

Lemma lockstep_empty : lockstep ∅ ∅.
Proof. intros t q k. rewrite lookup_empty. set_solver. Qed.

Lemma lockstep_size m s : lockstep m s -> size m = size s.
Proof.
  intros L.
  assert (Hs : s = list_to_set ((fun kv => (stamp_of kv.2, kv.1)) <$> map_to_list m)).
  { apply set_eq. intros [[t q] k]. rewrite elem_of_list_to_set, list_elem_of_fmap, (L t q k). split.
    - intros (v & Hv & Hst). exists (k, v). split; [by rewrite <- Hst|]. by apply elem_of_map_to_list.
    - intros ([k' v] & [= Hst ->] & Hin). apply elem_of_map_to_list in Hin. cbn. by exists v. }
  rewrite Hs, size_list_to_set.
  - by rewrite length_fmap, length_map_to_list.
  - apply (NoDup_fmap_1 snd). rewrite <- list_fmap_compose. apply NoDup_fst_map_to_list.
Qed.

(** A new key is added to both. *)
Lemma lockstep_insert m s k v t q :
  lockstep m s -> m !! k = None -> stamp_of v = (t, q) -> lockstep (<[k := v]> m) ({[(t, q, k)]} ∪ s).
Proof.
  intros L Hk Hv t' q' k'. rewrite elem_of_union, elem_of_singleton, (L t' q' k').
  rewrite lookup_insert. case_decide as D.
  - subst k'. rewrite Hk. split.
    + intros [[= -> ->]|(v' & ? & _)]; [by exists v|done].
    + intros (v' & [= <-] & Hst). left. congruence.
  - split; [|by right]. intros [[= _ _ <-]|?]; [done|done].
Qed.

(** A key leaves both. *)
Lemma lockstep_delete m s k v t q :
  lockstep m s -> m !! k = Some v -> stamp_of v = (t, q) ->
  lockstep (delete k m) (s ∖ {[(t, q, k)]}).
Proof.
  intros L Hk Hv t' q' k'. rewrite elem_of_difference, elem_of_singleton, (L t' q' k').
  rewrite lookup_delete. case_decide as D.
  - subst k'. split; [|by intros (? & ? & _)].
    intros [(v' & Hv' & Hst) Hne]. destruct Hne. congruence.
  - split; [by intros [? _]|]. intros Hx. split; [done|]. intros [= _ _ ->]. done.
Qed.

(** The row of the oldest stamp is evicted from both. *)
Lemma lockstep_evict m s t q k :
  lockstep m s -> oldest s = Some (t, q, k) ->
  lockstep (delete k m) (s ∖ {[(t, q, k)]}) /\ (size (delete k m) < size m)%nat.
Proof.
  intros L Ho. apply oldest_in in Ho as Hin. apply (L t q k) in Hin as (v & Hv & Hst).
  split; [by eapply lockstep_delete|].
  rewrite map_size_delete, Hv. cbn. assert (size m <> 0)%nat; [|lia].
  intros Hz. apply map_size_empty_iff in Hz as ->. done.
Qed.

(** A present key is stamped anew: the old row goes, a new one comes. *)
Lemma lockstep_touch m s k v0 t0 q0 v t q :
  lockstep m s -> m !! k = Some v0 -> stamp_of v0 = (t0, q0) -> stamp_of v = (t, q) ->
  lockstep (<[k := v]> m) ({[(t, q, k)]} ∪ s ∖ {[(t0, q0, k)]}).
Proof.
  intros L Hk Hv0 Hv. rewrite <- insert_delete_eq. apply lockstep_insert; [|apply lookup_delete_eq|done].
  by eapply lockstep_delete.
Qed.

(** Dropping a list of rows from both. *)
Lemma lockstep_drop_rows m s l :
  lockstep m s -> (forall x, x ∈ l -> x ∈ s) -> NoDup l ->
  lockstep (foldl (fun m x => delete x.2 m) m l) (foldl (fun s x => s ∖ {[x]}) s l).
Proof.
  revert m s. induction l as [|[[t q] k] l IH]; intros m s L Hl Hnd; [done|]. cbn.
  apply NoDup_cons in Hnd as [Hx Hnd].
  assert (Hin : (t, q, k) ∈ s) by (apply Hl; left).
  apply (L t q k) in Hin as (v & Hv & Hst). apply IH; [by eapply lockstep_delete| |done].
  intros y Hy. apply elem_of_difference. split; [apply Hl; by right|]. set_solver.
Qed.

Lemma drop_rows_lookup (m : gmap bytes V) (l : list stamp) k :
  foldl (fun m x => delete x.2 m) m l !! k = if decide (k ∈ snd <$> l) then None else m !! k.
Proof.
  revert m. induction l as [|[[t q] k'] l IH]; intros m; cbn.
  - by rewrite decide_False by set_solver.
  - rewrite IH, lookup_delete. repeat case_decide; set_solver.
Qed.

Lemma drop_rows_in (s : gset stamp) (l : list stamp) x :
  x ∈ foldl (fun s x => s ∖ {[x]}) s l <-> x ∈ s /\ (x ∉ l).
Proof.
  revert s. induction l as [|y l IH]; intros s; cbn; [set_solver|]. rewrite IH. set_solver.
Qed.
End Lockstep.
