(* ===== verification/Float64.v ===== *)
(** * Binary64 floating point

    Rust's [f64] as the standard library's executable specification of IEEE
    754, at 53 bits of precision: addition, subtraction, multiplication and
    division rounded to nearest even, comparison, [f64::min], [u64 as f64]
    and [Duration::as_secs_f64].  The lemmas follow the values a token bucket
    holds: valid, not NaN and not negative. *)

From S2P Require Import Prelude.
From Corelib Require Export SpecFloat.
From Stdlib Require Import Lia.

Local Open Scope Z_scope.

Abbreviation f64 := spec_float.
Abbreviation PREC := 53.
Abbreviation EMAX := 1024.

Definition f64_add : f64 -> f64 -> f64 := SFadd PREC EMAX.
Definition f64_sub : f64 -> f64 -> f64 := SFsub PREC EMAX.
Definition f64_mul : f64 -> f64 -> f64 := SFmul PREC EMAX.
Definition f64_div : f64 -> f64 -> f64 := SFdiv PREC EMAX.
Definition f64_lt : f64 -> f64 -> bool := SFltb.
Definition f64_ge (x y : f64) : bool := SFleb y x.

(** The smaller of the two; a NaN gives way to the other operand. *)
Definition f64_min (x y : f64) : f64 :=
  match x, y with
  | S754_nan, _ => y
  | _, S754_nan => x
  | _, _ => if SFltb x y then x else y
  end.

(** [u64 as f64]: to nearest, ties to even. *)
Definition f64_of_u64 (z : Z) : f64 := binary_normalize PREC EMAX z 0 false.

(** Seconds plus nanoseconds over [1e9], of a duration in nanoseconds. *)
Definition as_secs_f64 (d : Z) : f64 :=
  f64_add (f64_of_u64 (d / 10 ^ 9)) (f64_div (f64_of_u64 (d mod 10 ^ 9)) (f64_of_u64 (10 ^ 9))).

(** ** Rounding *)

Abbreviation fexp64 := (fexp PREC EMAX).
Abbreviation valid := (fun f => valid_binary PREC EMAX f = true).

Lemma digits2_pos_log2 p : Zpos (digits2_pos p) = Z.log2 (Zpos p) + 1.
Proof.
  induction p as [p IH|p IH|]; cbn [digits2_pos]; [| |done]; rewrite Pos2Z.inj_succ, IH.
  - rewrite (Pos2Z.inj_xI p), Z.log2_succ_double by lia. lia.
  - rewrite (Pos2Z.inj_xO p), Z.log2_double by lia. lia.
Qed.

Lemma Zdigits2_pos m : 0 < m -> Zdigits2 m = Z.log2 m + 1.
Proof. destruct m as [|p|p]; [lia| |lia]. intros _. apply digits2_pos_log2. Qed.

(** The number of digits brackets the number. *)
Lemma Zdigits2_spec m : 0 < m -> 2 ^ (Zdigits2 m - 1) <= m < 2 ^ Zdigits2 m.
Proof.
  intros Hm. rewrite Zdigits2_pos by done. destruct (Z.log2_spec m Hm) as [H1 H2].
  replace (Z.log2 m + 1 - 1) with (Z.log2 m) by lia. unfold Z.succ in H2. done.
Qed.

Lemma Zdigits2_nonneg m : 0 <= Zdigits2 m.
Proof. destruct m; cbn; lia. Qed.

Lemma Zdigits2_mono a b : 0 <= a <= b -> Zdigits2 a <= Zdigits2 b.
Proof.
  intros H. destruct (decide (a = 0)) as [->|]; [apply Zdigits2_nonneg|].
  rewrite !Zdigits2_pos by lia. pose proof (Z.log2_le_mono a b). lia.
Qed.

Lemma Zdigits2_ge m d : 0 <= d -> 2 ^ d <= m -> d + 1 <= Zdigits2 m.
Proof.
  intros Hd Hm. assert (0 < 2 ^ d) by (apply Z.pow_pos_nonneg; lia).
  rewrite Zdigits2_pos by lia. pose proof (Z.log2_le_mono (2 ^ d) m Hm) as H2.
  rewrite Z.log2_pow2 in H2 by lia. lia.
Qed.

Lemma Zdigits2_le m d : 0 <= d -> 0 <= m < 2 ^ d -> Zdigits2 m <= d.
Proof.
  intros Hd Hm. destruct (decide (m = 0)) as [->|]; [done|]. rewrite Zdigits2_pos by lia.
  assert (Z.log2 m < d) by (apply Z.log2_lt_pow2; lia). lia.
Qed.

(** ** Shifting right *)

Lemma shr_1_m r : 0 <= shr_m r -> shr_m (shr_1 r) = shr_m r / 2.
Proof.
  destruct r as [m rr s]. unfold shr_1. cbn [shr_m]. intros H.
  destruct m as [|[p|p|]|p]; cbn [shr_m]; [done| | |done|lia].
  - apply (Z.div_unique _ 2 (Zpos p) 1); lia.
  - apply (Z.div_unique _ 2 (Zpos p) 0); lia.
Qed.

Lemma iter_shr_1_m p r : 0 <= shr_m r -> shr_m (iter_pos shr_1 p r) = shr_m r / 2 ^ Zpos p.
Proof.
  revert r. induction p as [p IH|p IH|]; intros r Hr; cbn [iter_pos].
  - assert (H1 : 0 <= shr_m (shr_1 r)) by (rewrite shr_1_m by done; apply Z.div_pos; lia).
    assert (H2 : 0 <= shr_m (iter_pos shr_1 p (shr_1 r))) by (rewrite IH by done; apply Z.div_pos; lia).
    rewrite !IH, shr_1_m, !Z.div_div by lia. f_equal.
    rewrite (Pos2Z.inj_xI p). replace (2 * Zpos p + 1) with (1 + Zpos p + Zpos p) by lia.
    rewrite !Z.pow_add_r by lia. ring.
  - assert (H2 : 0 <= shr_m (iter_pos shr_1 p r)) by (rewrite IH by done; apply Z.div_pos; lia).
    rewrite !IH, !Z.div_div by lia. f_equal.
    rewrite (Pos2Z.inj_xO p). replace (2 * Zpos p) with (Zpos p + Zpos p) by lia.
    rewrite !Z.pow_add_r by lia. ring.
  - by rewrite shr_1_m.
Qed.

Lemma shr_record_of_loc_m m l : shr_m (shr_record_of_loc m l) = m.
Proof. by destruct l as [|[]]. Qed.

(** What [shr_fexp] does to a mantissa that has at least the digits it needs. *)
Lemma shr_fexp_spec m e l : 0 <= m -> let k := fexp64 (Zdigits2 m + e) - e in
  let '(r, e') := shr_fexp PREC EMAX m e l in
  shr_m r = m / 2 ^ Z.max k 0 /\ e' = e + Z.max k 0.
Proof.
  intros Hm k. unfold shr_fexp. fold k. unfold shr.
  destruct k as [|p|p].
  - rewrite shr_record_of_loc_m, Z.max_id, Z.div_1_r. split; [done|lia].
  - rewrite iter_shr_1_m, shr_record_of_loc_m by (by rewrite shr_record_of_loc_m). done.
  - rewrite shr_record_of_loc_m, Z.max_r, Z.div_1_r by lia. split; [done|lia].
Qed.

Lemma fexp64_eq e : fexp64 e = Z.max (e - 53) (-1074).
Proof. reflexivity. Qed.

Lemma round_nearest_even_cases m l :
  round_nearest_even m l = m \/ round_nearest_even m l = m + 1.
Proof. destruct l as [|[]]; cbn; [by left| |by left|by right]. destruct (Z.even m); auto. Qed.

(** Digits of a quotient by a power of two. *)
Lemma Zdigits2_shift m k : 0 <= m -> 0 <= k -> Zdigits2 m - k <= Zdigits2 (m / 2 ^ k) <= Z.max (Zdigits2 m - k) 0.
Proof.
  intros Hm Hk. assert (Hp : 0 < 2 ^ k) by (apply Z.pow_pos_nonneg; lia).
  destruct (decide (m = 0)) as [->|].
  { rewrite Z.div_0_l by lia. cbn. lia. }
  destruct (Zdigits2_spec m) as [H1 H2]; [lia|]. pose proof (Zdigits2_nonneg m).
  assert (Hq : 0 <= m / 2 ^ k) by (apply Z.div_pos; lia). split.
  - destruct (decide (Zdigits2 m - k <= 0)); [pose proof (Zdigits2_nonneg (m / 2 ^ k)); lia|].
    assert (Zdigits2 m - k - 1 + 1 <= Zdigits2 (m / 2 ^ k)); [|lia].
    apply Zdigits2_ge; [lia|]. apply Z.div_le_lower_bound; [lia|].
    rewrite <- Z.pow_add_r by lia. by replace (k + (Zdigits2 m - k - 1)) with (Zdigits2 m - 1) by lia.
  - apply Zdigits2_le; [lia|]. split; [done|]. apply Z.div_lt_upper_bound; [lia|].
    rewrite <- Z.pow_add_r by lia. eapply Z.lt_le_trans; [exact H2|].
    apply Z.pow_le_mono_r; lia.
Qed.

(** A result of rounding: of the given sign, not NaN, valid. *)
Definition rounded (sx : bool) (f : f64) : Prop :=
  valid f /\ match f with
             | S754_zero s | S754_infinity s | S754_finite s _ _ => s = sx
             | S754_nan => False
             end.

(** The arithmetic of the two shifts: [d] digits at exponent [e] are cut to
    [m1] at [e1], rounded to [m2], and cut again to [m3] at [e2]. *)
Lemma round_digits d e k m1 m2 m3 k2 e1 e2 :
  k = Z.max (d + e - 53) (-1074) - e -> 0 <= k -> 0 <= m1 -> e1 = e + k ->
  d - k <= Zdigits2 m1 <= Z.max (d - k) 0 -> (m2 = m1 \/ m2 = m1 + 1) ->
  k2 = Z.max (Zdigits2 m2 + e1 - 53) (-1074) - e1 ->
  m3 = m2 / 2 ^ Z.max k2 0 -> e2 = e1 + Z.max k2 0 ->
  0 < m3 -> Z.max (Zdigits2 m3 + e2 - 53) (-1074) = e2 /\ e2 <= e1 + 1.
Proof.
  intros Hk Hk0 Hm1 He1 Hd1 Hm2 Hk2 Hm3 He2 Hp.
  assert (Hd2 : Zdigits2 m1 <= Zdigits2 m2) by (apply Zdigits2_mono; lia).
  destruct (Z.le_gt_cases k2 0) as [Hle|Hgt].
  - rewrite Z.max_r in Hm3, He2 by done. rewrite Z.pow_0_r, Z.div_1_r in Hm3. subst m3 e2. lia.
  - assert (Hd : 53 < Zdigits2 m2) by lia. assert (Hs : Zdigits2 m1 <= 53) by lia.
    assert (E2 : m2 = 2 ^ 53).
    { clear Hm3 Hp. assert (Hlt : m1 < 2 ^ 53).
      { destruct (decide (m1 = 0)) as [->|]; [done|].
        destruct (Zdigits2_spec m1) as [_ H]; [lia|]. eapply Z.lt_le_trans; [exact H|].
        apply Z.pow_le_mono_r; lia. }
      destruct (Z.lt_ge_cases m2 (2 ^ 53)) as [H|H]; [|lia].
      pose proof (Zdigits2_le m2 53 ltac:(lia) ltac:(lia)). lia. }
    assert (D2 : Zdigits2 m2 = 54) by (by rewrite E2). assert (Ek : k2 = 1) by lia.
    rewrite Ek in Hm3, He2. rewrite E2 in Hm3. change (2 ^ 53 / 2 ^ Z.max 1 0) with (2 ^ 52) in Hm3.
    assert (D3 : Zdigits2 m3 = 53) by (by rewrite Hm3). lia.
Qed.

(** The mantissa and exponent rounding arrives at. *)
Lemma binary_round_aux_shape sx m e l :
  0 <= m -> e <= fexp64 (Zdigits2 m + e) -> exists m3 e2,
  binary_round_aux PREC EMAX sx m e l =
    match m3 with
    | Z0 => S754_zero sx
    | Zpos p => if e2 <=? EMAX - PREC then S754_finite sx p e2 else S754_infinity sx
    | Zneg _ => S754_nan
    end
  /\ 0 <= m3 /\ (0 < m3 -> fexp64 (Zdigits2 m3 + e2) = e2 /\ e2 <= fexp64 (Zdigits2 m + e) + 1).
Proof.
  intros Hm He. unfold binary_round_aux. rewrite fexp64_eq in He.
  pose proof (shr_fexp_spec m e l Hm) as S1. cbv zeta in S1. rewrite fexp64_eq in S1.
  destruct (shr_fexp PREC EMAX m e l) as [r1 e1].
  remember (Z.max (Zdigits2 m + e - 53) (-1074) - e) as k eqn:Hk.
  rewrite Z.max_l in S1 by lia. destruct S1 as [Hm1 He1].
  assert (Hk0 : 0 <= k) by lia. clear He.
  assert (Hd1 := Zdigits2_shift m k Hm Hk0). rewrite <- Hm1 in Hd1.
  assert (Hp1 : 0 <= shr_m r1) by (rewrite Hm1; apply Z.div_pos; [done|]; by apply Z.pow_pos_nonneg).
  pose proof (round_nearest_even_cases (shr_m r1) (loc_of_shr_record r1)) as Hm2.
  remember (round_nearest_even (shr_m r1) (loc_of_shr_record r1)) as m2 eqn:E2. clear E2 Hm1.
  assert (Hp2 : 0 <= m2) by lia.
  pose proof (shr_fexp_spec m2 e1 loc_Exact Hp2) as S2. cbv zeta in S2. rewrite fexp64_eq in S2.
  destruct (shr_fexp PREC EMAX m2 e1 loc_Exact) as [r2 e2].
  remember (Z.max (Zdigits2 m2 + e1 - 53) (-1074) - e1) as k2 eqn:Hk2. destruct S2 as [Hm3 He2].
  exists (shr_m r2), e2. split; [done|]. split.
  - rewrite Hm3. apply Z.div_pos; [done|]. apply Z.pow_pos_nonneg; [done|]. apply Z.le_max_r.
  - intros Hpos. rewrite !fexp64_eq.
    destruct (round_digits (Zdigits2 m) e k (shr_m r1) m2 (shr_m r2) k2 e1 e2) as [H1 H2]; try done.
    split; [done|]. lia.
Qed.

Lemma binary_round_aux_rounded sx m e l :
  0 <= m -> e <= fexp64 (Zdigits2 m + e) -> rounded sx (binary_round_aux PREC EMAX sx m e l).
Proof.
  intros Hm He. destruct (binary_round_aux_shape sx m e l Hm He) as (m3 & e2 & -> & Hp & Hc).
  destruct m3 as [|p|p]; [done| |lia]. destruct (e2 <=? EMAX - PREC) eqn:El; split; try done.
  cbn [valid_binary]. unfold bounded, canonical_mantissa. rewrite El, andb_true_r. apply Z.eqb_eq.
  by apply Hc.
Qed.

Definition finite (f : f64) : Prop :=
  match f with S754_zero _ | S754_finite _ _ _ => True | _ => False end.

(** Small numbers do not overflow. *)
Lemma binary_round_aux_finite sx m e l :
  0 <= m -> e <= fexp64 (Zdigits2 m + e) -> Zdigits2 m + e <= 1023 ->
  finite (binary_round_aux PREC EMAX sx m e l).
Proof.
  intros Hm He Hd. destruct (binary_round_aux_shape sx m e l Hm He) as (m3 & e2 & -> & Hp & Hc).
  destruct m3 as [|p|p]; [done| |lia]. destruct (Z.leb_spec e2 (EMAX - PREC)) as [|Hgt]; [done|].
  destruct Hc as [_ Hc]; [lia|]. rewrite fexp64_eq in Hc. lia.
Qed.

(** ** Aligning *)

Lemma iter_xO_value m d : Zpos (Pos.iter xO m d) = Zpos m * 2 ^ Zpos d.
Proof.
  induction d as [|d IH] using Pos.peano_ind; [rewrite Z.pow_1_r; cbn; lia|].
  rewrite Pos.iter_succ, Pos2Z.inj_succ, Z.pow_succ_r by lia. lia.
Qed.

Lemma shl_align_spec m e e' :
  Zpos (shl_align m e e').1 = Zpos m * 2 ^ Z.max (e - e') 0 /\ (shl_align m e e').2 = Z.min e e'.
Proof.
  unfold shl_align. destruct (e' - e) as [|p|p] eqn:E; cbn [fst snd].
  - rewrite Z.max_r by lia. rewrite Z.pow_0_r. split; lia.
  - rewrite Z.max_r by lia. rewrite Z.pow_0_r. split; lia.
  - rewrite iter_xO_value. replace (Z.max (e - e') 0) with (Zpos p) by lia. split; [done|lia].
Qed.

Lemma Zdigits2_shl m k : 0 <= k -> Zdigits2 (Zpos m * 2 ^ k) = Zdigits2 (Zpos m) + k.
Proof.
  intros Hk. assert (0 < 2 ^ k) by (apply Z.pow_pos_nonneg; lia).
  rewrite !Zdigits2_pos by lia. rewrite Z.log2_mul_pow2 by lia. lia.
Qed.

(** [binary_round] gives its mantissa the digits it needs. *)
Lemma binary_round_aligned sx m e : exists mz ez,
  binary_round PREC EMAX sx m e = binary_round_aux PREC EMAX sx (Zpos mz) ez loc_Exact
  /\ ez <= fexp64 (Zdigits2 (Zpos mz) + ez) /\ Zdigits2 (Zpos mz) + ez = Zdigits2 (Zpos m) + e.
Proof.
  unfold binary_round. destruct (shl_align_spec m e (fexp64 (Zpos (digits2_pos m) + e))) as [H1 H2].
  destruct (shl_align _ _ _) as [mz ez]. cbn [fst snd] in *. exists mz, ez. split; [done|].
  rewrite H1, Zdigits2_shl by lia.
  change (Zdigits2 (Zpos m)) with (Zpos (digits2_pos m)). rewrite !fexp64_eq in *. lia.
Qed.

Lemma binary_round_rounded sx m e : rounded sx (binary_round PREC EMAX sx m e).
Proof.
  destruct (binary_round_aligned sx m e) as (mz & ez & -> & He & _).
  by apply binary_round_aux_rounded.
Qed.

(** ** Non-negative values *)

Definition nonneg (f : f64) : Prop :=
  valid f /\ match f with
             | S754_zero _ => True
             | S754_infinity s | S754_finite s _ _ => s = false
             | S754_nan => False
             end.

(** Not negative, or NaN. *)
Definition nonneg_or_nan (f : f64) : Prop := f = S754_nan \/ nonneg f.

Lemma rounded_nonneg f : rounded false f -> nonneg f.
Proof. intros [Hv H]. split; [done|]. by destruct f. Qed.

Lemma normalize_nonneg m e : 0 <= m -> nonneg (binary_normalize PREC EMAX m e false).
Proof.
  intros Hm. destruct m as [|p|p]; cbn [binary_normalize]; [done| |lia].
  apply rounded_nonneg, binary_round_rounded.
Qed.

Lemma f64_of_u64_nonneg z : 0 <= z -> nonneg (f64_of_u64 z).
Proof. apply normalize_nonneg. Qed.

(** A [u64] is far from the largest [f64]. *)
Lemma f64_of_u64_finite z : 0 <= z < 2 ^ 64 -> finite (f64_of_u64 z).
Proof.
  intros Hz. destruct z as [|p|p]; cbn [f64_of_u64 binary_normalize]; [done| |lia].
  unfold f64_of_u64. cbn [binary_normalize].
  destruct (binary_round_aligned false p 0) as (mz & ez & -> & He & Hd).
  apply binary_round_aux_finite; [lia|done|]. rewrite Hd.
  pose proof (Zdigits2_le (Zpos p) 64 ltac:(lia) Hz). lia.
Qed.

Lemma f64_add_nonneg x y : nonneg x -> nonneg y -> nonneg (f64_add x y).
Proof.
  intros [Vx Hx] [Vy Hy]. unfold f64_add, SFadd.
  destruct x as [sx|sx| |sx mx ex], y as [sy|sy| |sy my ey]; try done; subst; try done.
  - by destruct sx, sy.
  - apply normalize_nonneg. cbn [cond_Zopp].
    destruct (shl_align_spec mx ex (Z.min ex ey)) as [H1 _], (shl_align_spec my ey (Z.min ex ey)) as [H2 _].
    lia.
Qed.

(** The digits of a valid mantissa. *)
Lemma valid_digits s m e : valid (S754_finite s m e) ->
  Zdigits2 (Zpos m) <= 53 /\ -1074 <= e <= 971 /\ (Zdigits2 (Zpos m) = 53 \/ e = -1074).
Proof.
  cbn [valid_binary]. unfold bounded, canonical_mantissa.
  change (Zpos (digits2_pos m)) with (Zdigits2 (Zpos m)).
  rewrite andb_true_iff, Z.eqb_eq, Z.leb_le, fexp64_eq. intros [H1 H2]. lia.
Qed.

Lemma f64_mul_nonneg x y : nonneg x -> nonneg y -> nonneg_or_nan (f64_mul x y).
Proof.
  intros [Vx Hx] [Vy Hy]. unfold f64_mul, SFmul, nonneg_or_nan.
  destruct x as [sx|sx| |sx mx ex], y as [sy|sy| |sy my ey]; try done; subst; auto;
    try (right; by split).
  right. apply rounded_nonneg, binary_round_aux_rounded; [lia|].
  destruct (valid_digits _ _ _ Vx) as (X1 & X2 & X3), (valid_digits _ _ _ Vy) as (Y1 & Y2 & Y3).
  assert (Hd : Zdigits2 (Zpos mx) + Zdigits2 (Zpos my) - 1 <= Zdigits2 (Zpos (mx * my))).
  { rewrite Pos2Z.inj_mul, !Zdigits2_pos by lia.
    pose proof (Z.log2_mul_below (Zpos mx) (Zpos my) ltac:(lia) ltac:(lia)). lia. }
  assert (Hx1 : 1 <= Zdigits2 (Zpos mx)) by (cbn; lia). assert (Hy1 : 1 <= Zdigits2 (Zpos my)) by (cbn; lia).
  rewrite fexp64_eq. lia.
Qed.

Lemma f64_add_nan x y : nonneg x -> nonneg_or_nan y -> nonneg_or_nan (f64_add x y).
Proof.
  intros Hx [->|Hy]; [|right; by apply f64_add_nonneg]. left. destruct x; try done.
Qed.

(** ** Division, comparison, subtraction, minimum *)

Lemma f64_div_nonneg x my ey : nonneg x -> nonneg (f64_div x (S754_finite false my ey)).
Proof.
  intros [Vx Hx]. unfold f64_div, SFdiv.
  destruct x as [sx|sx| |sx mx ex]; try done; subst; try done.
  unfold SFdiv_core_binary.
  set (d1 := Zdigits2 (Zpos mx)). set (d2 := Zdigits2 (Zpos my)).
  set (e' := Z.min (fexp64 (d1 + ex - (d2 + ey))) (ex - ey)).
  set (m' := match ex - ey - e' with Zpos _ => _ | Z0 => _ | Zneg _ => _ end).
  assert (Hs : 0 <= ex - ey - e') by lia.
  assert (Hm' : m' = Zpos mx * 2 ^ (ex - ey - e')).
  { unfold m'. destruct (ex - ey - e') eqn:E; [lia|by rewrite Z.shiftl_mul_pow2|lia]. }
  pose proof (Z.div_eucl_eq m' (Zpos my) ltac:(lia)) as Hde.
  pose proof (Z.mod_pos_bound m' (Zpos my) ltac:(lia)) as Hmod. unfold Z.modulo in Hmod.
  destruct (Z.div_eucl m' (Zpos my)) as [q r]. cbn [xorb].
  assert (Hm0 : 0 < m') by (rewrite Hm'; apply Z.mul_pos_pos; [lia|apply Z.pow_pos_nonneg; lia]).
  assert (Hq : 0 <= q) by nia.
  apply rounded_nonneg, binary_round_aux_rounded; [done|].
  assert (Hdq : d1 + (ex - ey - e') - d2 <= Zdigits2 q).
  { assert (Ed : Zdigits2 m' = d1 + (ex - ey - e')) by (rewrite Hm', Zdigits2_shl by done; done).
    rewrite <- Ed. destruct (Zdigits2_spec m' Hm0) as [L1 _].
    destruct (Zdigits2_spec (Zpos my) ltac:(lia)) as [_ L2]. fold d2 in L2.
    pose proof (Zdigits2_nonneg q) as Nq. pose proof (Zdigits2_nonneg m') as Nm.
    destruct (Z.le_gt_cases (Zdigits2 m' - d2) 0) as [|Hgt]; [lia|].
    destruct (Z.le_gt_cases (Zdigits2 m' - d2) (Zdigits2 q)) as [|Hlt]; [done|]. exfalso.
    assert (Hd2 : 0 <= d2) by (unfold d2; apply Zdigits2_nonneg).
    assert (Q : q + 1 <= 2 ^ Zdigits2 q).
    { destruct (decide (q = 0)) as [->|]; [done|]. destruct (Zdigits2_spec q); lia. }
    assert (P : 2 ^ Zdigits2 q * 2 ^ d2 <= 2 ^ (Zdigits2 m' - 1)).
    { rewrite <- Z.pow_add_r by lia. apply Z.pow_le_mono_r; lia. }
    assert (m' < (q + 1) * 2 ^ d2) by nia. nia. }
  rewrite fexp64_eq. unfold e' in *. rewrite fexp64_eq in *. lia.
Qed.

Lemma as_secs_f64_nonneg d : 0 <= d -> nonneg (as_secs_f64 d).
Proof.
  intros Hd. unfold as_secs_f64. apply f64_add_nonneg.
  - apply f64_of_u64_nonneg, Z.div_pos; lia.
  - assert (E : exists m e, f64_of_u64 (10 ^ 9) = S754_finite false m e)
      by (eexists _, _; vm_compute; reflexivity).
    destruct E as (m & e & ->). apply f64_div_nonneg, f64_of_u64_nonneg, Z.mod_pos_bound. lia.
Qed.

(** Comparison of non-negative values. *)
Lemma SFleb_refl x : nonneg x -> SFleb x x = true.
Proof.
  intros [_ H]. unfold SFleb, SFcompare. destruct x as [s|s| |s m e]; try done.
  - by destruct s.
  - subst s. rewrite Z.compare_refl. change (Pos.compare_cont Eq m m) with (Pos.compare m m).
    by rewrite Pos.compare_refl.
Qed.

Lemma SFltb_leb x y : SFltb x y = true -> SFleb x y = true.
Proof. unfold SFltb, SFleb. by destruct (SFcompare x y) as [[]|]. Qed.

Lemma f64_min_le x y : nonneg_or_nan x -> nonneg y -> nonneg (f64_min x y) /\ SFleb (f64_min x y) y = true.
Proof.
  intros Hx Hy. unfold f64_min.
  destruct Hx as [->|Hx]; [split; [done|by apply SFleb_refl]|].
  assert (E : nonneg (if SFltb x y then x else y) /\ SFleb (if SFltb x y then x else y) y = true).
  { destruct (SFltb x y) eqn:L; [split; [done|by apply SFltb_leb]|split; [done|by apply SFleb_refl]]. }
  destruct Hx as [_ Hx], Hy as [_ Hy]. by destruct x, y.
Qed.

(** Below a finite value is finite. *)
Lemma SFleb_finite x y : nonneg x -> finite y -> SFleb x y = true -> finite x.
Proof. intros [_ Hx] Hy. destruct x as [s|s| |], y; try done; cbn in Hx; by subst s. Qed.

Lemma SFleb_trans x y z : nonneg x -> nonneg y -> nonneg z ->
  SFleb x y = true -> SFleb y z = true -> SFleb x z = true.
Proof.
  intros [_ Hx] [_ Hy] [_ Hz]. unfold SFleb, SFcompare.
  destruct x as [sx|sx| |sx mx ex], y as [sy|sy| |sy my ey], z as [sz|sz| |sz mz ez]; try done; subst; try done.
  change (Pos.compare_cont Eq mx my) with (Pos.compare mx my).
  change (Pos.compare_cont Eq my mz) with (Pos.compare my mz).
  change (Pos.compare_cont Eq mx mz) with (Pos.compare mx mz).
  destruct (Z.compare_spec ex ey), (Z.compare_spec ey ez), (Z.compare_spec ex ez); try done; try lia;
    destruct (Pos.compare_spec mx my), (Pos.compare_spec my mz), (Pos.compare_spec mx mz); try done; lia.
Qed.

(** What is at least as large can be subtracted from. *)
Lemma f64_sub_nonneg x y : nonneg x -> nonneg y -> finite y -> SFleb y x = true -> nonneg (f64_sub x y).
Proof.
  intros [Vx Hx] [Vy Hy] Fy Hle. unfold f64_sub, SFsub.
  destruct x as [sx|sx| |sx mx ex], y as [sy|sy| |sy my ey]; try done; subst; try done.
  - by destruct sx, sy.
  - apply normalize_nonneg. cbn [cond_Zopp].
    destruct (shl_align_spec mx ex (Z.min ex ey)) as [-> _], (shl_align_spec my ey (Z.min ex ey)) as [-> _].
    unfold SFleb, SFcompare in Hle. change (Pos.compare_cont Eq my mx) with (Pos.compare my mx) in Hle.
    destruct (valid_digits _ _ _ Vx) as (X1 & X2 & X3), (valid_digits _ _ _ Vy) as (Y1 & Y2 & Y3).
    destruct (Z.compare_spec ey ex) as [E|E|E]; [| |done].
    + subst ey. rewrite Z.min_id, Z.sub_diag. change (2 ^ Z.max 0 0) with 1. destruct (Pos.compare_spec my mx); [lia|lia|done].
    + rewrite Z.min_r by lia. rewrite Z.sub_diag, Z.max_l by lia. change (2 ^ Z.max 0 0) with 1.
      assert (Dx : Zdigits2 (Zpos mx) = 53) by lia.
      destruct (Zdigits2_spec (Zpos mx) ltac:(lia)) as [L1 _]. rewrite Dx in L1.
      destruct (Zdigits2_spec (Zpos my) ltac:(lia)) as [_ L2].
      assert (L3 : 2 ^ Zdigits2 (Zpos my) <= 2 ^ 53) by (apply Z.pow_le_mono_r; lia).
      assert (L4 : 2 <= 2 ^ (ex - ey)).
      { change 2 with (2 ^ 1) at 1. apply Z.pow_le_mono_r; lia. }
      change (2 ^ (53 - 1)) with (2 ^ 52) in L1. nia.
Qed.

(** ** Integers below [2^53] are exact *)

Definition exact_rec (m : Z) : shr_record := {| shr_m := m; shr_r := false; shr_s := false |}.

Lemma shr_1_exact m : 0 <= m -> shr_1 (exact_rec (m * 2)) = exact_rec m.
Proof. intros Hm. destruct m as [|p|p]; [done| |lia]. by rewrite <- Pos2Z.inj_mul, Pos.mul_comm. Qed.

Lemma iter_shr_exact p m : 0 <= m -> iter_pos shr_1 p (exact_rec (m * 2 ^ Zpos p)) = exact_rec m.
Proof.
  revert m. induction p as [p IH|p IH|]; intros m Hm; cbn [iter_pos].
  - rewrite (Pos2Z.inj_xI p). replace (2 * Zpos p + 1) with (Zpos p + Zpos p + 1) by lia.
    rewrite !Z.pow_add_r, !Z.mul_assoc, Z.pow_1_r by lia.
    assert (0 < 2 ^ Zpos p) by (apply Z.pow_pos_nonneg; lia).
    rewrite shr_1_exact by nia. rewrite IH by nia. by apply IH.
  - rewrite (Pos2Z.inj_xO p). replace (2 * Zpos p) with (Zpos p + Zpos p) by lia.
    rewrite !Z.pow_add_r, !Z.mul_assoc by lia.
    assert (0 < 2 ^ Zpos p) by (apply Z.pow_pos_nonneg; lia).
    rewrite IH by nia. by apply IH.
  - rewrite Z.pow_1_r. by apply shr_1_exact.
Qed.

(** A mantissa of 53 digits, times a power of two, at a common exponent. *)
Lemma round_aux_exact m k e : Zdigits2 (Zpos m) = 53 -> 0 <= k -> -1074 <= e + k <= 971 ->
  binary_round_aux PREC EMAX false (Zpos m * 2 ^ k) e loc_Exact = S754_finite false m (e + k).
Proof.
  intros Hd Hk He. unfold binary_round_aux.
  assert (S1 : shr_fexp PREC EMAX (Zpos m * 2 ^ k) e loc_Exact = (exact_rec (Zpos m), e + k)).
  { unfold shr_fexp. rewrite fexp64_eq, Zdigits2_shl, Hd by lia.
    replace (Z.max (53 + k + e - 53) (-1074) - e) with k by lia. unfold shr.
    destruct k as [|p|p]; [by rewrite Z.mul_1_r, Z.add_0_r| |lia].
    change (shr_record_of_loc ?x loc_Exact) with (exact_rec x). by rewrite iter_shr_exact. }
  assert (S2 : shr_fexp PREC EMAX (Zpos m) (e + k) loc_Exact = (exact_rec (Zpos m), e + k)).
  { unfold shr_fexp. rewrite fexp64_eq, Hd.
    replace (Z.max (53 + (e + k) - 53) (-1074) - (e + k)) with 0 by lia. done. }
  rewrite S1. change (round_nearest_even _ _) with (Zpos m). rewrite S2.
  change (shr_m (exact_rec (Zpos m))) with (Zpos m).
  destruct (Z.leb_spec (e + k) (EMAX - PREC)); [done|lia].
Qed.

Lemma f64_of_u64_exact z : 0 < z < 2 ^ 53 -> exists m e,
  f64_of_u64 z = S754_finite false m e /\ Zdigits2 (Zpos m) = 53 /\ Zpos m = z * 2 ^ (- e) /\ -52 <= e <= 0.
Proof.
  intros Hz. destruct z as [|p|p]; [lia| |lia]. unfold f64_of_u64. cbn [binary_normalize].
  pose proof (Zdigits2_le (Zpos p) 53 ltac:(lia) ltac:(lia)) as Hd.
  assert (Hd1 : 1 <= Zdigits2 (Zpos p)) by (cbn; lia).
  unfold binary_round. change (Zpos (digits2_pos p)) with (Zdigits2 (Zpos p)).
  rewrite Z.add_0_r, fexp64_eq. set (e := Z.max (Zdigits2 (Zpos p) - 53) (-1074)).
  destruct (shl_align_spec p 0 e) as [H1 H2]. destruct (shl_align p 0 e) as [mz ez].
  cbn [fst snd] in *. rewrite H2.
  assert (He : e = Zdigits2 (Zpos p) - 53) by lia.
  replace (Z.max (0 - e) 0) with (- e) in H1 by lia. rewrite Z.min_r by lia.
  assert (Hdz : Zdigits2 (Zpos mz) = 53) by (rewrite H1, Zdigits2_shl by lia; lia).
  exists mz, e. split_and!; [|done|done|lia|lia].
  pose proof (round_aux_exact mz 0 e Hdz ltac:(lia) ltac:(lia)) as R.
  rewrite Z.pow_0_r, Z.mul_1_r, Z.add_0_r in R. exact R.
Qed.

(** The order of two exact values at exponents [e1] and [e2]. *)
Lemma SFleb_exact m1 e1 m2 e2 : Zdigits2 (Zpos m1) = 53 -> Zdigits2 (Zpos m2) = 53 ->
  SFleb (S754_finite false m1 e1) (S754_finite false m2 e2) = true ->
  forall c, c <= e1 -> c <= e2 -> Zpos m1 * 2 ^ (e1 - c) <= Zpos m2 * 2 ^ (e2 - c).
Proof.
  intros D1 D2 Hle c C1 C2. unfold SFleb, SFcompare in Hle.
  change (Pos.compare_cont Eq m1 m2) with (Pos.compare m1 m2) in Hle.
  assert (P1 : 0 < 2 ^ (e1 - c)) by (apply Z.pow_pos_nonneg; lia).
  destruct (Z.compare_spec e1 e2) as [->|E|E]; [| |done].
  - destruct (Pos.compare_spec m1 m2); [subst; lia|nia|done].
  - destruct (Zdigits2_spec (Zpos m1) ltac:(lia)) as [_ L1]. rewrite D1 in L1.
    destruct (Zdigits2_spec (Zpos m2) ltac:(lia)) as [L2 _]. rewrite D2 in L2.
    change (2 ^ (53 - 1)) with (2 ^ 52) in L2.
    assert (P2 : 2 * 2 ^ (e1 - c) <= 2 ^ (e2 - c)).
    { rewrite <- Z.pow_succ_r by lia. apply Z.pow_le_mono_r; lia. }
    nia.
Qed.

(** Comparing [u64]s below [2^53] as floats compares the numbers. *)
Lemma f64_of_u64_le a b : 0 <= a < 2 ^ 53 -> 0 <= b < 2 ^ 53 ->
  SFleb (f64_of_u64 a) (f64_of_u64 b) = true -> a <= b.
Proof.
  intros Ha Hb. destruct (decide (a = 0)) as [->|]; [lia|].
  destruct (f64_of_u64_exact a) as (ma & ea & -> & Da & Va & Ra); [lia|].
  destruct (decide (b = 0)) as [->|]; [done|].
  destruct (f64_of_u64_exact b) as (mb & eb & -> & Db & Vb & Rb); [lia|].
  intros Hle. pose proof (SFleb_exact ma ea mb eb Da Db Hle (-52) ltac:(lia) ltac:(lia)) as H.
  rewrite Va, Vb, <- !Z.mul_assoc, <- !Z.pow_add_r in H by lia.
  replace (- ea + (ea - -52)) with 52 in H by lia. replace (- eb + (eb - -52)) with 52 in H by lia. lia.
Qed.

(** [0.125]. *)
Definition f64_eighth : f64 := S754_finite false 4503599627370496 (-55).

(** The eighth of such a number is exact too. *)
Lemma f64_eighth_le a b : 0 <= a < 2 ^ 53 -> 0 <= b < 2 ^ 53 ->
  SFleb (f64_of_u64 a) (f64_mul (f64_of_u64 b) f64_eighth) = true -> 8 * a <= b.
Proof.
  intros Ha Hb. destruct (decide (a = 0)) as [->|]; [lia|].
  destruct (f64_of_u64_exact a) as (ma & ea & -> & Da & Va & Ra); [lia|].
  destruct (decide (b = 0)) as [->|]; [done|].
  destruct (f64_of_u64_exact b) as (mb & eb & -> & Db & Vb & Rb); [lia|].
  assert (E : f64_mul (S754_finite false mb eb) f64_eighth = S754_finite false mb (eb - 3)).
  { unfold f64_mul, f64_eighth, SFmul. cbn [xorb].
    change (Zpos (mb * 4503599627370496)) with (Zpos mb * 2 ^ 52).
    rewrite round_aux_exact by lia. f_equal. lia. }
  rewrite E. intros Hle.
  pose proof (SFleb_exact ma ea mb (eb - 3) Da Db Hle (-55) ltac:(lia) ltac:(lia)) as H.
  rewrite Va, Vb, <- !Z.mul_assoc, <- !Z.pow_add_r in H by lia.
  replace (- ea + (ea - -55)) with 55 in H by lia. replace (- eb + (eb - 3 - -55)) with 52 in H by lia. lia.
Qed.

(** ** Zero and the minimum *)

Lemma f64_add_zero_le x s : nonneg x -> nonneg (f64_add x (S754_zero s)) /\ SFleb (f64_add x (S754_zero s)) x = true.
Proof.
  intros Hx. destruct x as [sx|sx| |sx m e]; try (by destruct Hx).
  - cbn. by destruct sx, s.
  - change (f64_add _ _) with (S754_infinity sx). split; [done|by apply SFleb_refl].
  - change (f64_add _ _) with (S754_finite sx m e). split; [done|by apply SFleb_refl].
Qed.

Lemma f64_mul_zero s y : nonneg y -> finite y -> exists s', f64_mul (S754_zero s) y = S754_zero s'.
Proof. intros _ Hf. destruct y; try done; by eexists. Qed.

Lemma SFltb_false_leb x y : nonneg x -> nonneg y -> SFltb x y = false -> SFleb y x = true.
Proof.
  intros [_ Hx] [_ Hy]. unfold SFltb, SFleb, SFcompare.
  destruct x as [sx|sx| |sx mx ex], y as [sy|sy| |sy my ey]; try done; subst; try done.
  change (Pos.compare_cont Eq mx my) with (Pos.compare mx my).
  change (Pos.compare_cont Eq my mx) with (Pos.compare my mx).
  rewrite (Z.compare_antisym ex ey), (Pos.compare_antisym mx my).
  by destruct (ex ?= ey), (mx ?= my)%positive.
Qed.

Lemma f64_min_le_l x y : nonneg x -> nonneg y -> SFleb (f64_min x y) x = true.
Proof.
  intros Hx Hy.
  assert (E : f64_min x y = if SFltb x y then x else y).
  { destruct Hx as [_ Hx], Hy as [_ Hy]. by destruct x, y. }
  rewrite E. destruct (SFltb x y) eqn:L; [by apply SFleb_refl|by apply SFltb_false_leb].
Qed.
