(* ===== verification/RateLimit.v ===== *)
(** * ullm-gateway: the rate limiter

    [crates/ullm-gateway/src/rate_limit.rs]: a token bucket per tenant in a
    table of bounded size with an LRU index.  Tokens are [f64], an [Instant] is
    a number of nanoseconds, given to each call; the mutex makes every call
    atomic. *)

From S2P Require Import Prelude RustStd Lru Float64.
From stdpp Require Import gmap fin_sets fin_map_dom.
From Stdlib Require Import Lia.

Local Open Scope Z_scope.

Record RateLimiterConfig := { bytes_per_sec : Z; burst_bytes : Z; max_tenants : Z }.

Definition RateLimiterConfig_default : RateLimiterConfig :=
  {| bytes_per_sec := 1000000; burst_bytes := 4000000; max_tenants := 16 * 1024 |}.

Record Bucket := { tokens : f64; last_refill : Z; lru_seq : Z }.

Record Inner := {
  buckets : gmap bytes Bucket;
  lru_index : gset stamp;
  next_lru_seq : Z;
  last_eviction : option Z;
}.

Record RateLimiter := { cfg : RateLimiterConfig; inner : Inner }.

Definition RateLimiter_new (c : RateLimiterConfig) : RateLimiter :=
  {| cfg := c;
     inner := {| buckets := ∅; lru_index := ∅; next_lru_seq := 0; last_eviction := None |} |}.

(** [60.0]. *)
Definition EVICTION_COOLDOWN_SECS : f64 := f64_of_u64 60.
(** [0.125]. *)
Definition COLD_BURST_FRACTION : f64 := f64_eighth.

(** [Instant::duration_since], which saturates. *)
Definition duration_since (now t : Z) : Z := Z.max 0 (now - t).

(** Eviction of the oldest bucket when the table is full: whether there was
    one, and the table after it. *)
Definition evict_lru (c : RateLimiterConfig) (i : Inner) : bool * Inner :=
  if (0 <? max_tenants c) && (max_tenants c <=? Z.of_nat (size (buckets i))) then
    match oldest (lru_index i) with
    | Some victim =>
        (true, {| buckets := delete victim.2 (buckets i); lru_index := lru_index i ∖ {[victim]};
                  next_lru_seq := next_lru_seq i; last_eviction := last_eviction i |})
    | None => (false, i)
    end
  else (false, i).

Definition under_pressure (i : Inner) (evicted_now : bool) (now : Z) : bool :=
  evicted_now
  || match last_eviction i with
     | None => false
     | Some t => f64_lt (as_secs_f64 (duration_since now t)) EVICTION_COOLDOWN_SECS
     end.

Definition starting_tokens (c : RateLimiterConfig) (pressure : bool) : f64 :=
  if pressure then f64_mul (f64_of_u64 (burst_bytes c)) COLD_BURST_FRACTION
  else f64_of_u64 (burst_bytes c).

(** A bucket for a tenant that has none. *)
Definition insert_tenant (c : RateLimiterConfig) (i : Inner) (tenant : bytes) (now : Z) : Inner :=
  let '(evicted_now, i) := evict_lru c i in
  let start := starting_tokens c (under_pressure i evicted_now now) in
  let new_seq := next_lru_seq i in
  {| buckets := <[tenant := {| tokens := start; last_refill := now; lru_seq := new_seq |}]> (buckets i);
     lru_index := {[(now, new_seq, tenant)]} ∪ lru_index i;
     next_lru_seq := wrapping_add 64 new_seq 1;
     last_eviction := if evicted_now then Some now else last_eviction i |}.

Definition refill (c : RateLimiterConfig) (b : Bucket) (now : Z) : f64 :=
  let elapsed := as_secs_f64 (duration_since now (last_refill b)) in
  f64_min (f64_add (tokens b) (f64_mul elapsed (f64_of_u64 (bytes_per_sec c)))) (f64_of_u64 (burst_bytes c)).

(** [None] is the panic of the [expect]s. *)
Definition try_charge (r : RateLimiter) (tenant : bytes) (n : Z) (now : Z) : option (bool * RateLimiter) :=
  let c := cfg r in
  let i := inner r in
  let i := if decide (is_Some (buckets i !! tenant)) then i else insert_tenant c i tenant now in
  b ← buckets i !! tenant;
  let new_seq := next_lru_seq i in
  let t := refill c b now in
  let allowed := f64_ge t (f64_of_u64 n) in
  let b' := {| tokens := if allowed then f64_sub t (f64_of_u64 n) else t;
               last_refill := now; lru_seq := new_seq |} in
  Some (allowed,
        {| cfg := c;
           inner := {| buckets := <[tenant := b']> (buckets i);
                       lru_index := {[(now, new_seq, tenant)]}
                                    ∪ lru_index i ∖ {[(last_refill b, lru_seq b, tenant)]};
                       next_lru_seq := wrapping_add 64 new_seq 1;
                       last_eviction := last_eviction i |} |}).

Definition tenant_count (r : RateLimiter) : nat := size (buckets (inner r)).

(** ** The invariant *)

Definition bucket_stamp (b : Bucket) : Z * Z := (last_refill b, lru_seq b).

Definition config_wf (c : RateLimiterConfig) : Prop :=
  is_u64 (bytes_per_sec c) /\ is_u64 (burst_bytes c) /\ 0 <= max_tenants c.

(** Index and table in step, the table within its bound, and no bucket in debt. *)
Definition table_inv (c : RateLimiterConfig) (i : Inner) : Prop :=
  lockstep bucket_stamp (buckets i) (lru_index i)
  /\ (0 < max_tenants c -> Z.of_nat (size (buckets i)) <= max_tenants c)
  /\ map_Forall (fun _ b => nonneg (tokens b)) (buckets i).

Definition limiter_inv (r : RateLimiter) : Prop := config_wf (cfg r) /\ table_inv (cfg r) (inner r).

Lemma burst_nonneg c : config_wf c -> nonneg (f64_of_u64 (burst_bytes c)).
Proof. intros (_ & [H _] & _). by apply f64_of_u64_nonneg. Qed.

Lemma eighth_nonneg : nonneg f64_eighth.
Proof. by split. Qed.

Lemma f64_mul_finite_nonneg x : nonneg x -> finite x -> nonneg (f64_mul x f64_eighth).
Proof.
  intros Hx Hf. destruct (f64_mul_nonneg x f64_eighth Hx eighth_nonneg) as [E|]; [|done]. exfalso.
  destruct x as [s|s| |s m e]; try done. destruct Hx as [V Hs]. cbn in Hs. subst s.
  unfold f64_mul, f64_eighth, SFmul in E. cbn [xorb] in E.
  assert (R : rounded false S754_nan); [|by destruct R].
  rewrite <- E. apply binary_round_aux_rounded; [lia|].
  destruct (valid_digits _ _ _ V) as (D1 & D2 & D3).
  rewrite fexp64_eq. change (Zpos (m * 4503599627370496)) with (Zpos m * 2 ^ 52).
  rewrite Zdigits2_shl by lia. assert (1 <= Zdigits2 (Zpos m)) by (cbn; lia). lia.
Qed.

Lemma starting_tokens_nonneg c p : config_wf c -> nonneg (starting_tokens c p).
Proof.
  intros W. unfold starting_tokens. destruct p; [|by apply burst_nonneg].
  apply f64_mul_finite_nonneg; [by apply burst_nonneg|]. destruct W as (_ & W & _).
  by apply f64_of_u64_finite.
Qed.

Lemma refill_spec c b now : config_wf c -> nonneg (tokens b) ->
  nonneg (refill c b now) /\ SFleb (refill c b now) (f64_of_u64 (burst_bytes c)) = true.
Proof.
  intros W Hb. unfold refill. apply f64_min_le; [|by apply burst_nonneg].
  apply f64_add_nan; [done|]. apply f64_mul_nonneg.
  - apply as_secs_f64_nonneg, Z.le_max_l.
  - destruct W as [[H _] _]. by apply f64_of_u64_nonneg.
Qed.

(** Eviction keeps the table in step and makes room. *)
Lemma evict_lru_spec c i : table_inv c i -> let '(ev, i') := evict_lru c i in
  table_inv c i' /\ buckets i' ⊆ buckets i /\ last_eviction i' = last_eviction i
  /\ next_lru_seq i' = next_lru_seq i
  /\ (0 < max_tenants c -> Z.of_nat (size (buckets i')) < max_tenants c)
  /\ (if ev then 0 < max_tenants c <= Z.of_nat (size (buckets i))
        /\ exists k b, buckets i !! k = Some b /\ buckets i' = delete k (buckets i)
           /\ forall k' b', buckets i !! k' = Some b' -> last_refill b <= last_refill b'
      else buckets i' = buckets i
        /\ (max_tenants c <= 0 \/ Z.of_nat (size (buckets i)) < max_tenants c)).
Proof.
  intros (L & Hsz & Hn). unfold evict_lru.
  destruct (Z.ltb_spec 0 (max_tenants c)) as [Hm|Hm]; cbn [andb];
    [|split_and!; try done; [lia|by left]].
  destruct (Z.leb_spec (max_tenants c) (Z.of_nat (size (buckets i)))) as [Hfull|Hroom];
    [|split_and!; try done; by right].
  destruct (oldest (lru_index i)) as [[[t q] k]|] eqn:Ho.
  - destruct (lockstep_evict _ _ _ _ _ _ L Ho) as [L' Hlt]. cbn [snd].
    pose proof (oldest_in _ _ Ho) as Hin. apply L in Hin as (b & Hb & [= <- <-]).
    split; [|split; [|split; [|split; [|split]]]]; cbn [buckets lru_index last_eviction next_lru_seq].
    + split_and!; cbn [buckets lru_index]; [done|intros M; specialize (Hsz M); lia|]. intros k' b' Hk'. apply (Hn k'). by apply lookup_delete_Some in Hk' as [].
    + apply delete_subseteq.
    + done.
    + done.
    + specialize (Hsz Hm). lia.
    + split; [lia|]. exists k, b. split_and!; [done|done|]. intros k' b' Hk'.
      assert (Hin' : (last_refill b', lru_seq b', k') ∈ lru_index i) by (apply L; by exists b').
      by pose proof (oldest_min _ _ _ Ho Hin').
  - exfalso. apply oldest_None in Ho. pose proof (lockstep_size _ _ _ L) as Hs.
    rewrite Ho, size_empty in Hs. lia.
Qed.

Lemma insert_tenant_spec c i tenant now : config_wf c -> table_inv c i -> buckets i !! tenant = None ->
  let i' := insert_tenant c i tenant now in
  let ev := (evict_lru c i).1 in
  table_inv c i'
  /\ (exists q, buckets i' !! tenant
        = Some {| tokens := starting_tokens c (under_pressure i ev now); last_refill := now; lru_seq := q |})
  /\ (forall k, k <> tenant -> buckets i' !! k = buckets (evict_lru c i).2 !! k).
Proof.
  intros W I Hnone. unfold insert_tenant. pose proof (evict_lru_spec c i I) as E.
  destruct (evict_lru c i) as [ev i1]. destruct E as (I1 & Hsub & Hle & _ & Hroom & _).
  destruct I1 as (L1 & Hsz1 & Hn1). cbn [fst snd].
  assert (Hnone1 : buckets i1 !! tenant = None).
  { destruct (buckets i1 !! tenant) eqn:E; [|done]. eapply lookup_weaken in E; [|exact Hsub]. congruence. }
  assert (Hp : under_pressure i1 ev now = under_pressure i ev now) by (unfold under_pressure; by rewrite Hle).
  rewrite Hp. split_and!; cbn [buckets lru_index].
  - split_and!; cbn [buckets lru_index].
    + by apply lockstep_insert.
    + rewrite map_size_insert, Hnone1. intros Hm. specialize (Hroom Hm). lia.
    + apply map_Forall_insert_2; [|done]. by apply starting_tokens_nonneg.
  - exists (next_lru_seq i1). apply lookup_insert_eq.
  - intros k Hk. by apply lookup_insert_ne.
Qed.

Lemma as_secs_zero : as_secs_f64 0 = S754_zero false.
Proof. vm_compute. reflexivity. Qed.

(** A bucket just made is not refilled. *)
Lemma refill_fresh c b : config_wf c -> nonneg (tokens b) ->
  SFleb (refill c b (last_refill b)) (tokens b) = true.
Proof.
  intros W Hb. unfold refill, duration_since. rewrite Z.sub_diag. change (Z.max 0 0) with 0.
  rewrite as_secs_zero. destruct W as (Wr & Wb & _).
  destruct (f64_mul_zero false (f64_of_u64 (bytes_per_sec c))) as [s ->];
    [by apply f64_of_u64_nonneg, Wr|by apply f64_of_u64_finite|].
  destruct (f64_add_zero_le (tokens b) s Hb) as [Hn Hle].
  assert (Hbn : nonneg (f64_of_u64 (burst_bytes c))) by (by apply f64_of_u64_nonneg, Wb).
  eapply SFleb_trans; [| |exact Hb|by apply f64_min_le_l|done]; [|done].
  apply f64_min_le; [by right|done].
Qed.

(** The bucket a charge is made against: the tenant's own or a new one. *)
Definition charged_bucket (r : RateLimiter) (tenant : bytes) (now : Z) (b : Bucket) : Prop :=
  match buckets (inner r) !! tenant with
  | Some b0 => b = b0
  | None => last_refill b = now
      /\ tokens b = starting_tokens (cfg r) (under_pressure (inner r) (evict_lru (cfg r) (inner r)).1 now)
  end.

Lemma try_charge_spec r tenant n now : limiter_inv r -> is_u64 n -> exists ok r' b,
  try_charge r tenant n now = Some (ok, r') /\ limiter_inv r' /\ cfg r' = cfg r
  /\ charged_bucket r tenant now b /\ nonneg (tokens b)
  /\ ok = f64_ge (refill (cfg r) b now) (f64_of_u64 n)
  /\ (forall k, k <> tenant -> buckets (inner r') !! k =
        buckets (if decide (is_Some (buckets (inner r) !! tenant)) then inner r
                 else (evict_lru (cfg r) (inner r)).2) !! k).
Proof.
  intros [W I] Hn. unfold try_charge.
  set (i := if decide _ then _ else _).
  assert (Hi : table_inv (cfg r) i /\ exists b, buckets i !! tenant = Some b /\ charged_bucket r tenant now b
    /\ (forall k, k <> tenant -> buckets i !! k =
        buckets (if decide (is_Some (buckets (inner r) !! tenant)) then inner r
                 else (evict_lru (cfg r) (inner r)).2) !! k)).
  { unfold i, charged_bucket. case_decide as D.
    - destruct D as [b Hb]. split; [done|]. exists b. rewrite Hb. done.
    - apply eq_None_not_Some in D. rewrite D.
      destruct (insert_tenant_spec (cfg r) (inner r) tenant now W I D) as (I' & (q & Hq) & Ho).
      split; [done|]. eexists. split; [exact Hq|]. done. }
  destruct Hi as [(L & Hsz & Hnn) (b & Hb & Hc & Ho)]. rewrite Hb. cbn [mbind option_bind].
  assert (Hbn : nonneg (tokens b)) by (by apply (Hnn tenant)).
  destruct (refill_spec (cfg r) b now W Hbn) as [Rn Rle].
  eexists _, _, b. split; [reflexivity|]. cbn [cfg inner buckets]. split.
  - split; [done|]. cbn [cfg inner]. split_and!; cbn [buckets lru_index].
    + by eapply lockstep_touch.
    + rewrite map_size_insert, Hb. done.
    + apply map_Forall_insert_2; [|done]. cbn [tokens]. destruct (f64_ge _ _) eqn:G; [|done].
      apply f64_sub_nonneg; [done|by apply f64_of_u64_nonneg, Hn|by apply f64_of_u64_finite|done].
  - split_and!; try done. intros k Hk. rewrite lookup_insert_ne by done. by apply Ho.
Qed.

Lemma limiter_new_inv c : config_wf c -> limiter_inv (RateLimiter_new c).
Proof.
  intros W. split; [done|]. split_and!; cbn; [apply lockstep_empty| |apply map_Forall_empty].
  intros _. rewrite map_size_empty. destruct W. lia.
Qed.

(** The first request for a bundle passes a new limiter. *)
Lemma fresh_charge tenant now :
  exists rl, try_charge (RateLimiter_new RateLimiterConfig_default) tenant 4096 now = Some (true, rl)
    /\ limiter_inv rl.
Proof.
  assert (I0 : limiter_inv (RateLimiter_new RateLimiterConfig_default)) by (apply limiter_new_inv; done).
  destruct (try_charge_spec _ tenant 4096 now I0 ltac:(done)) as (ok & rl & b & -> & I & _ & Hb & _ & -> & _).
  exists rl. split; [|done]. do 2 f_equal. unfold charged_bucket in Hb. cbn [RateLimiter_new inner buckets] in Hb.
  rewrite lookup_empty in Hb. destruct Hb as [Hl Ht].
  unfold refill, duration_since. rewrite Hl, Ht, Z.sub_diag. vm_compute. reflexivity.
Qed.

(** A run of charges, each with its tenant, size and time. *)
Fixpoint run_limiter (r : RateLimiter) (ops : list (bytes * Z * Z)) : option (list bool * RateLimiter) :=
  match ops with
  | [] => Some ([], r)
  | (tenant, n, now) :: ops =>
      '(ok, r) ← try_charge r tenant n now;
      '(oks, r) ← run_limiter r ops;
      Some (ok :: oks, r)
  end.

(** C26. The rate limiter never panics and never loses its bounds: after any
    sequence of charges, at whatever times, there is one answer per charge,
    the table holds at most [max_tenants] buckets (when a limit is set), the
    LRU index has exactly one row per bucket, stamped with its last use, and
    every bucket holds a valid, non-negative number of tokens, never NaN. *)
Theorem rate_limiter_inv c ops :
  config_wf c -> Forall (fun op => is_u64 op.1.2) ops ->
  exists oks r, run_limiter (RateLimiter_new c) ops = Some (oks, r) /\ length oks = length ops
    /\ cfg r = c /\ (0 < max_tenants c -> Z.of_nat (tenant_count r) <= max_tenants c)
    /\ size (lru_index (inner r)) = tenant_count r
    /\ lockstep bucket_stamp (buckets (inner r)) (lru_index (inner r))
    /\ map_Forall (fun _ b => nonneg (tokens b)) (buckets (inner r)).
Proof.
  intros W Hops.
  pose proof (limiter_new_inv c W) as I0.
  assert (G : forall r, limiter_inv r -> cfg r = c -> exists oks r',
    run_limiter r ops = Some (oks, r') /\ length oks = length ops /\ limiter_inv r' /\ cfg r' = c).
  { clear I0. induction Hops as [|[[tenant n] now] ops Hn _ IH]; intros r I Hc.
    - by exists [], r.
    - destruct (try_charge_spec r tenant n now I Hn) as (ok & r1 & b & E & I1 & Hc1 & _).
      destruct (IH r1 I1 ltac:(congruence)) as (oks & r2 & E2 & Hl & I2 & Hc2).
      exists (ok :: oks), r2. cbn [run_limiter]. rewrite E. cbn [mbind option_bind]. rewrite E2.
      cbn. by rewrite Hl. }
  destruct (G (RateLimiter_new c) I0 eq_refl) as (oks & r & E & Hl & [Wr (L & Hsz & Hn)] & Hc).
  exists oks, r. rewrite Hc in *. split_and!; try done. symmetry. by apply (lockstep_size bucket_stamp).
Qed.

Lemma rate_limiter_inv_witness :
  let c := {| bytes_per_sec := 10; burst_bytes := 1000; max_tenants := 1 |} in
  exists oks r,
    run_limiter (RateLimiter_new c)
      [(lit "a", 900, 0); (lit "a", 200, 1000000000); (lit "b", 200, 2000000000); (lit "b", 100, 2000000000)]
    = Some (oks, r) /\ oks = [true; false; false; true] /\ (tenant_count r <= 1)%nat.
Proof.
  intros c.
  destruct (rate_limiter_inv c
    [(lit "a", 900, 0); (lit "a", 200, 1000000000); (lit "b", 200, 2000000000); (lit "b", 100, 2000000000)])
    as (oks & r & E & _ & _ & Hb & _).
  - vm_compute. repeat split; discriminate.
  - repeat (constructor; [vm_compute; split; [discriminate|reflexivity]|]). constructor.
  - exists oks, r. split; [exact E|]. split.
    + apply (f_equal (fmap (M := option) fst)) in E. vm_compute in E. by injection E as <-.
    + assert (H : Z.of_nat (tenant_count r) <= 1) by (apply Hb; reflexivity). lia.
Defined.

(** What one charge can take.  A charge that is allowed never exceeds the
    burst; and a tenant that has no bucket, when making one evicts another or
    an eviction happened within the cooldown, can at once spend at most an
    eighth of it, so that rotating tenant names does not reset the limit.  The
    comparison is of floats, exact for sizes below [2^53]. *)
Theorem charge_bounded r tenant n now r' :
  limiter_inv r -> 0 <= n < 2 ^ 53 -> burst_bytes (cfg r) < 2 ^ 53 ->
  try_charge r tenant n now = Some (true, r') ->
  n <= burst_bytes (cfg r)
  /\ (buckets (inner r) !! tenant = None ->
      under_pressure (inner r) (evict_lru (cfg r) (inner r)).1 now = true ->
      8 * n <= burst_bytes (cfg r)).
Proof.
  intros I Hn Hb E. pose proof I as [W _]. pose proof W as (_ & Wb & _).
  assert (Hn64 : is_u64 n) by (unfold is_u64; lia).
  destruct (try_charge_spec r tenant n now I Hn64) as (ok & r1 & b & E1 & _ & _ & Hc & Hbn & Hok & _).
  rewrite E in E1. injection E1 as <- _. symmetry in Hok. unfold f64_ge in Hok.
  destruct (refill_spec (cfg r) b now W Hbn) as [Rn Rle].
  assert (Nn : nonneg (f64_of_u64 n)) by (apply f64_of_u64_nonneg; lia).
  split.
  - apply f64_of_u64_le; [lia|unfold is_u64 in Wb; lia|].
    eapply SFleb_trans; [done|exact Rn|by apply burst_nonneg|done|done].
  - intros Hnone Hp. unfold charged_bucket in Hc. rewrite Hnone in Hc. destruct Hc as [<- Ht].
    pose proof (refill_fresh (cfg r) b W Hbn) as Hf.
    apply f64_eighth_le; [lia|unfold is_u64 in Wb; lia|].
    change (f64_mul _ f64_eighth) with (starting_tokens (cfg r) true). rewrite Hp in Ht. rewrite <- Ht.
    eapply SFleb_trans; [done|exact Rn|exact Hbn|exact Hok|exact Hf].
Qed.

Lemma charge_bounded_witness :
  let c := {| bytes_per_sec := 10; burst_bytes := 1000; max_tenants := 1 |} in
  exists r r', run_limiter (RateLimiter_new c) [(lit "a", 900, 0)] = Some ([true], r)
    /\ try_charge r (lit "b") 125 2000000000 = Some (true, r') /\ 8 * 125 <= 1000.
Proof.
  intros c.
  assert (H1 : fst <$> run_limiter (RateLimiter_new c) [(lit "a", 900, 0)] = Some [true])
    by (vm_compute; reflexivity).
  destruct (run_limiter (RateLimiter_new c) [(lit "a", 900, 0)]) as [[oks r]|] eqn:E; [|discriminate H1].
  assert (I : limiter_inv r).
  { destruct (try_charge_spec (RateLimiter_new c) (lit "a") 900 0) as (ok & r1 & b & E1 & I1 & _).
    - split; [vm_compute; repeat split; discriminate|]. split; [apply lockstep_empty|].
      split; [vm_compute; discriminate|apply map_Forall_empty].
    - vm_compute. split; [discriminate|reflexivity].
    - cbn [run_limiter] in E. rewrite E1 in E. cbn in E. injection E as _ <-. exact I1. }
  assert (Hoks : oks = [true]) by (by injection H1).
  assert (Hr : r = default r (snd <$> run_limiter (RateLimiter_new c) [(lit "a", 900, 0)])) by (by rewrite E).
  assert (H2 : fst <$> try_charge r (lit "b") 125 2000000000 = Some true)
    by (rewrite Hr; vm_compute; reflexivity).
  destruct (try_charge r (lit "b") 125 2000000000) as [[ok r']|] eqn:E2; [|discriminate H2].
  assert (Hok : ok = true) by (by injection H2).
  subst ok oks. exists r, r'. split; [reflexivity|]. split; [exact E2|].
  assert (Hc : cfg r = c) by (rewrite Hr; vm_compute; reflexivity).
  pose proof (charge_bounded r (lit "b") 125 2000000000 r' I) as B. rewrite Hc in B.
  apply B; [split; [discriminate|reflexivity]|reflexivity|exact E2| |].
  - rewrite Hr. vm_compute. reflexivity.
  - rewrite <- Hc, Hr. vm_compute. reflexivity.
Defined.

(** Tenants do not touch each other's buckets: a charge leaves the bucket of
    every other tenant as it was, except that a tenant with no bucket, when the
    table is full, takes the place of one bucket, and that is one no other was
    used before. *)
Theorem charge_isolated r tenant n now ok r' :
  limiter_inv r -> is_u64 n -> try_charge r tenant n now = Some (ok, r') ->
  (forall k, k <> tenant -> buckets (inner r') !! k = buckets (inner r) !! k)
  \/ (buckets (inner r) !! tenant = None
      /\ 0 < max_tenants (cfg r) <= Z.of_nat (tenant_count r)
      /\ exists v bv, buckets (inner r) !! v = Some bv
         /\ (forall k b, buckets (inner r) !! k = Some b -> last_refill bv <= last_refill b)
         /\ buckets (inner r') !! v = None
         /\ forall k, k <> tenant -> k <> v -> buckets (inner r') !! k = buckets (inner r) !! k).
Proof.
  intros I Hn E. destruct (try_charge_spec r tenant n now I Hn) as (ok1 & r1 & b & E1 & _ & _ & _ & _ & _ & Ho).
  rewrite E in E1. injection E1 as <- <-. destruct I as [W I].
  destruct (decide (is_Some (buckets (inner r) !! tenant))) as [D|D]; [by left|].
  apply eq_None_not_Some in D. pose proof (evict_lru_spec (cfg r) (inner r) I) as V.
  destruct (evict_lru (cfg r) (inner r)) as [ev i1]. cbn [snd] in Ho.
  destruct V as (_ & _ & _ & _ & _ & V). destruct ev.
  - right. destruct V as (Hfull & v & bv & Hv & Hd & Hmin). split; [done|]. split; [done|].
    exists v, bv. assert (v <> tenant) by congruence. split_and!; [done|done| |].
    + rewrite Ho by done. by rewrite Hd, lookup_delete_eq.
    + intros k Hk Hkv. rewrite Ho by done. by rewrite Hd, lookup_delete_ne.
  - left. intros k Hk. rewrite Ho by done. by destruct V as [-> _].
Qed.

Lemma charge_isolated_witness :
  let c := {| bytes_per_sec := 10; burst_bytes := 1000; max_tenants := 0 |} in
  exists ok r', try_charge (RateLimiter_new c) (lit "a") 5 0 = Some (ok, r')
    /\ buckets (inner r') !! lit "b" = None.
Proof.
  intros c. set (r := RateLimiter_new c).
  assert (H1 : fst <$> try_charge r (lit "a") 5 0 = Some true) by (vm_compute; reflexivity).
  destruct (try_charge r (lit "a") 5 0) as [[ok r']|] eqn:E; [|discriminate H1].
  exists ok, r'. split; [reflexivity|].
  destruct (charge_isolated r (lit "a") 5 0 ok r') as [H|(_ & Hm & _)].
  - split; [vm_compute; repeat split; discriminate|]. split; [apply lockstep_empty|].
    split; [vm_compute; discriminate|apply map_Forall_empty].
  - vm_compute. split; [discriminate|reflexivity].
  - exact E.
  - rewrite H; [reflexivity|vm_compute; discriminate].
  - exfalso. vm_compute in Hm. destruct Hm as [Hm _]. discriminate Hm.
Defined.
