(* ===== verification/NonceRegistry.v ===== *)
(** * ullm-tee: the attestation-nonce replay registry

    [crates/ullm-tee/src/nonce_registry.rs].  The clock is an argument of
    [observe]; [origin] is the earliest instant the platform can represent,
    below which [Instant::checked_sub] fails. *)

From S2P Require Import Prelude RustStd Core Lru.
From stdpp Require Import gmap.
From Stdlib Require Import Lia.

Local Open Scope Z_scope.

Definition MAX_TRACKED_NONCES : Z := 128 * 1024.

(** In nanoseconds. *)
Definition NONCE_TTL : Z := NONCE_TTL_DEFAULT_SEC * 10 ^ 9.

Record State := {
  seen : gmap bytes (Z * Z);
  lru : gset stamp;
  next_lru_seq : Z;
}.

Inductive NonceReplay := Replayed.

Definition NonceRegistry_new : State := {| seen := ∅; lru := ∅; next_lru_seq := 0 |}.

Definition checked_sub (origin now d : Z) : option Z :=
  if decide (origin <= now - d) then Some (now - d) else None.

(** [duration_since] saturates at zero. *)
Definition duration_since (now t : Z) : Z := Z.max 0 (now - t).

(** The walk over the expired prefix of the index. *)
Definition gc (st : State) (cutoff : Z) : State :=
  let expired := range_below (cutoff, 0, replicate 32 Byte.x00) (lru st) in
  {| seen := foldl (fun m x => delete x.2 m) (seen st) expired;
     lru := foldl (fun s x => s ∖ {[x]}) (lru st) expired;
     next_lru_seq := next_lru_seq st |}.

(** Cap eviction and insertion. *)
Definition record_nonce (st : State) (now : Z) (nonce : bytes) : State :=
  let '(sn, lr) :=
    if MAX_TRACKED_NONCES <=? Z.of_nat (size (seen st)) then
      match oldest (lru st) with
      | Some x => (delete x.2 (seen st), lru st ∖ {[x]})
      | None => (seen st, lru st)
      end
    else (seen st, lru st) in
  let new_seq := next_lru_seq st in
  {| seen := <[nonce := (now, new_seq)]> sn;
     lru := {[(now, new_seq, nonce)]} ∪ lr;
     next_lru_seq := wrapping_add 64 new_seq 1 |}.

Definition observe (origin : Z) (st : State) (now : Z) (nonce : bytes)
  : result unit NonceReplay * State :=
  let cutoff := default now (checked_sub origin now NONCE_TTL) in
  let st := gc st cutoff in
  match seen st !! nonce with
  | Some (seen_ts, seen_seq) =>
      if duration_since now seen_ts <? NONCE_TTL then (Err Replayed, st)
      else
        let st := {| seen := seen st; lru := lru st ∖ {[(seen_ts, seen_seq, nonce)]};
                     next_lru_seq := next_lru_seq st |} in
        (Ok tt, record_nonce st now nonce)
  | None => (Ok tt, record_nonce st now nonce)
  end.

Definition registry_len (st : State) : nat := size (seen st).

(** ** What it promises: a nonce is accepted iff it was not accepted within
    the last [NONCE_TTL] *)

Abbreviation accepted := (gmap bytes Z).

Definition spec_observe (sp : accepted) (now : Z) (nonce : bytes) : result unit NonceReplay * accepted :=
  match sp !! nonce with
  | Some t => if now - t <? NONCE_TTL then (Err Replayed, sp) else (Ok tt, <[nonce := now]> sp)
  | None => (Ok tt, <[nonce := now]> sp)
  end.

(** A run: observations in time order, the results in the same order. *)
Fixpoint run_registry (origin : Z) (st : State) (ops : list (Z * bytes))
  : list (result unit NonceReplay) * State :=
  match ops with
  | [] => ([], st)
  | (now, nonce) :: ops =>
      let '(r, st) := observe origin st now nonce in
      let '(rs, st) := run_registry origin st ops in
      (r :: rs, st)
  end.

Fixpoint run_spec (sp : accepted) (ops : list (Z * bytes)) : list (result unit NonceReplay) :=
  match ops with
  | [] => []
  | (now, nonce) :: ops => let '(r, sp) := spec_observe sp now nonce in r :: run_spec sp ops
  end.

(** ** Invariant *)

Abbreviation in_step st := (lockstep id (seen st) (lru st)).

Definition registry_inv (st : State) : Prop :=
  in_step st /\ Z.of_nat (size (seen st)) <= MAX_TRACKED_NONCES.

Lemma gc_in_step st cutoff : in_step st -> in_step (gc st cutoff).
Proof.
  intros L. apply lockstep_drop_rows; [done| |].
  - intros x Hx. by apply range_below_in in Hx as [? _].
  - unfold range_below. apply NoDup_ListNoDup, List.NoDup_filter, NoDup_ListNoDup, NoDup_elements.
Qed.

(** GC keeps a row exactly when it is not below the cutoff. *)
Lemma gc_lookup st cutoff n t q :
  in_step st ->
  seen (gc st cutoff) !! n = Some (t, q) <->
  seen st !! n = Some (t, q) /\ stamp_ltb (t, q, n) (cutoff, 0, replicate 32 Byte.x00) = false.
Proof.
  intros L. unfold gc. cbn [seen]. rewrite drop_rows_lookup. case_decide as D.
  - split; [done|]. intros [Hn Hf]. exfalso.
    apply list_elem_of_fmap in D as ([[t' q'] n'] & -> & Hin). cbn [snd] in Hn, Hf.
    apply range_below_in in Hin as [Hin Hlt].
    apply (L t' q' n') in Hin as (v & Hv & Hid). unfold id in Hid. subst v.
    rewrite Hv in Hn. injection Hn as <- <-. congruence.
  - split; [|by intros [? _]]. intros Hn. split; [done|]. apply not_true_iff_false. intros Ht.
    apply D, list_elem_of_fmap. exists (t, q, n). split; [done|].
    apply range_below_in. split; [|done]. apply (L t q n). by exists (t, q).
Qed.

Lemma gc_size st cutoff : (size (seen (gc st cutoff)) <= size (seen st))%nat.
Proof.
  apply map_subseteq_size, map_subseteq_spec. intros n v. unfold gc. cbn [seen].
  rewrite drop_rows_lookup. by case_decide.
Qed.

Lemma stamp_ltb_le t q n c q' n' : stamp_ltb (t, q, n) (c, q', n') = true -> t <= c.
Proof. unfold stamp_ltb. cbn. destruct (Z.compare_spec t c); lia || done. Qed.

Lemma stamp_ltb_before t q n c q' n' : t < c -> stamp_ltb (t, q, n) (c, q', n') = true.
Proof. intros Hlt. unfold stamp_ltb. cbn. destruct (Z.compare_spec t c); lia || done. Qed.

(** Inserting with at most one eviction keeps the table in step and bounded.
    [row] is the row of [nonce] that the caller already removed from the
    index, if there was one. *)
Lemma record_nonce_inv st now nonce :
  lockstep id (delete nonce (seen st)) (lru st) -> Z.of_nat (size (seen st)) <= MAX_TRACKED_NONCES ->
  registry_inv (record_nonce st now nonce).
Proof.
  intros L Hsz. unfold record_nonce.
  destruct (Z.leb_spec MAX_TRACKED_NONCES (Z.of_nat (size (seen st)))) as [Hfull|Hroom].
  - destruct (oldest (lru st)) as [[[t q] k]|] eqn:Ho; cbn [snd].
    + destruct (lockstep_evict _ _ _ _ _ _ L Ho) as [L' Hlt].
      assert (Hk : k <> nonce).
      { apply oldest_in in Ho. apply (L t q k) in Ho as (v & Hv & _). intros ->.
        by rewrite lookup_delete_eq in Hv. }
      split; cbn [seen lru].
      * rewrite <- insert_delete_eq, delete_delete. apply lockstep_insert; [done| |done].
        rewrite lookup_delete_ne by done. apply lookup_delete_eq.
      * assert (Hin : is_Some (seen st !! k)).
        { apply oldest_in in Ho. apply (L t q k) in Ho as (v & Hv & _).
          rewrite lookup_delete_ne in Hv by done. by eexists. }
        assert (size (seen st) <> 0)%nat.
        { intros Hz. apply map_size_empty_iff in Hz. rewrite Hz in Hin. by destruct Hin. }
        pose proof (map_size_delete_Some _ _ Hin). rewrite map_size_insert. case_match; simpl; lia.
    + apply oldest_None in Ho. split; cbn [seen lru].
      * rewrite <- insert_delete_eq. apply lockstep_insert; [by rewrite Ho in *|apply lookup_delete_eq|done].
      * assert (Hz : size (delete nonce (seen st)) = 0%nat)
          by (rewrite (lockstep_size _ _ _ L), Ho; apply size_empty).
        rewrite <- insert_delete_eq, map_size_insert, lookup_delete_eq, Hz.
        unfold MAX_TRACKED_NONCES. simpl. lia.
  - split; cbn [seen lru].
    + rewrite <- insert_delete_eq. apply lockstep_insert; [done|apply lookup_delete_eq|done].
    + rewrite map_size_insert. case_match; simpl; lia.
Qed.

Lemma observe_inv origin st now nonce : registry_inv st -> registry_inv (observe origin st now nonce).2.
Proof.
  intros [L Hsz]. unfold observe.
  set (st1 := gc st _). assert (L1 : in_step st1) by (by apply gc_in_step).
  assert (Hsz1 : Z.of_nat (size (seen st1)) <= MAX_TRACKED_NONCES)
    by (pose proof (gc_size st (default now (checked_sub origin now NONCE_TTL))); subst st1; lia).
  destruct (seen st1 !! nonce) as [[t q]|] eqn:Hn.
  - case_match; [by split|]. cbn [snd]. apply record_nonce_inv; cbn [seen lru]; [|done].
    by eapply lockstep_delete.
  - cbn [snd]. apply record_nonce_inv; [|done]. by rewrite delete_id.
Qed.

(** ** Simulation *)

(** [hist] lists the observations so far, the last at [now0] or before.
    Every row stems from an accepted observation that the specification still
    remembers with the same time. *)
Definition rows_genuine (st : State) (sp : accepted) (hist : list (Z * bytes)) (now0 : Z) : Prop :=
  forall n t q, seen st !! n = Some (t, q) -> sp !! n = Some t /\ t <= now0 /\ (t, n) ∈ hist.

(** Every acceptance within the window still has its row. *)
Definition rows_complete (st : State) (sp : accepted) (now : Z) : Prop :=
  forall n t, sp !! n = Some t -> now - t < NONCE_TTL -> exists q, seen st !! n = Some (t, q).

(** Fewer than the cap were observed in the window that ends at [now]. *)
Definition window_fits (hist : list (Z * bytes)) (now : Z) : Prop :=
  Z.of_nat (length (List.filter (fun op => now - NONCE_TTL <=? op.1) hist)) < MAX_TRACKED_NONCES.

Lemma cutoff_some origin now : origin + NONCE_TTL <= now -> checked_sub origin now NONCE_TTL = Some (now - NONCE_TTL).
Proof. intros H. unfold checked_sub. apply decide_True. lia. Qed.

Lemma gc_genuine st sp hist now0 cutoff :
  in_step st -> rows_genuine st sp hist now0 -> rows_genuine (gc st cutoff) sp hist now0.
Proof. intros L G n t q Hn. apply (gc_lookup st cutoff n t q L) in Hn as [Hn _]. by apply (G n t q). Qed.

Lemma gc_complete st sp now0 now :
  in_step st -> rows_complete st sp now0 -> now0 <= now -> rows_complete (gc st (now - NONCE_TTL)) sp now.
Proof.
  intros L C Hle n t Hn Hlive. destruct (C n t Hn) as [q Hq]; [lia|]. exists q.
  apply (gc_lookup st _ n t q L). split; [done|]. apply not_true_iff_false.
  intros Hlt%stamp_ltb_le. lia.
Qed.

(** After GC the table is no larger than the window. *)
Lemma gc_window st sp hist now0 now :
  in_step st -> rows_genuine st sp hist now0 ->
  (size (seen (gc st (now - NONCE_TTL)))
   <= length (List.filter (fun op => (now - NONCE_TTL <=? op.1)%Z) hist))%nat.
Proof.
  intros L G. rewrite <- (length_fmap snd). rewrite <- size_dom.
  transitivity (size (list_to_set (snd <$> List.filter (fun op => now - NONCE_TTL <=? op.1) hist) : gset bytes)).
  - apply subseteq_size. intros n Hn. apply elem_of_dom in Hn as [[t q] Hn].
    apply (gc_lookup st _ n t q L) in Hn as [Hn Hlt].
    destruct (G n t q Hn) as (_ & _ & Hin).
    apply elem_of_list_to_set, list_elem_of_fmap. exists (t, n). split; [done|].
    rewrite list_elem_of_In, List.filter_In, <- list_elem_of_In. split; [done|]. cbn.
    apply Z.leb_le, Z.nlt_ge. intros Hc. by rewrite stamp_ltb_before in Hlt.
  - generalize (snd <$> List.filter (fun op : Z * bytes => now - NONCE_TTL <=? op.1) hist).
    intros l. induction l as [|x l IH]; cbn; [by rewrite size_empty|].
    rewrite size_union_alt, size_singleton.
    transitivity (1 + size (list_to_set l : gset bytes))%nat; [|lia].
    apply Nat.add_le_mono_l, subseteq_size. set_solver.
Qed.

(** Every rejection is of a nonce accepted less than [NONCE_TTL] ago, and the
    rows stay genuine, whatever the load. *)
Lemma observe_genuine origin st sp hist now0 now nonce :
  registry_inv st -> rows_genuine st sp hist now0 -> now0 <= now ->
  let r := observe origin st now nonce in
  match r.1 with
  | Err _ => (spec_observe sp now nonce).1 = Err Replayed
             /\ rows_genuine r.2 sp (hist ++ [(now, nonce)]) now
  | Ok _ => rows_genuine r.2 (<[nonce := now]> sp) (hist ++ [(now, nonce)]) now
  end.
Proof.
  intros [L _] G Hle r. subst r. unfold observe.
  set (st1 := gc st _). assert (G1 : rows_genuine st1 sp hist now0) by (by apply gc_genuine).
  assert (Hweak : rows_genuine st1 sp (hist ++ [(now, nonce)]) now).
  { intros n t q Hn. destruct (G1 n t q Hn) as (? & ? & ?). split_and!; [done|lia|].
    apply elem_of_app. by left. }
  assert (Hrec : forall lr, rows_genuine (record_nonce {| seen := seen st1; lru := lr;
      next_lru_seq := next_lru_seq st1 |} now nonce) (<[nonce := now]> sp) (hist ++ [(now, nonce)]) now).
  { intros lr n t q. unfold record_nonce. cbn [seen lru next_lru_seq].
    set (e := if _ <=? _ then _ else _).
    assert (He : forall v, e.1 !! n = Some v -> seen st1 !! n = Some v).
    { subst e. intros v. case_match; [|done]. destruct (oldest lr); [|done]. cbn [fst].
      rewrite lookup_delete. by case_decide. }
    destruct e as [sn lr']. cbn [seen fst] in *. rewrite !lookup_insert. case_decide as D.
    - intros [= <- <-]. subst n. split_and!; [done|lia|]. apply elem_of_app. right. by apply list_elem_of_singleton.
    - intros Hn. apply Hweak with q. by apply He. }
  destruct (seen st1 !! nonce) as [[t q]|] eqn:Hn.
  - destruct (Z.ltb_spec (duration_since now t) NONCE_TTL) as [Hlt|Hge]; cbn [fst snd].
    + split; [|done]. destruct (G1 _ _ _ Hn) as (Hsp & Ht & _). unfold spec_observe. rewrite Hsp.
      unfold duration_since in Hlt. destruct (Z.ltb_spec (now - t) NONCE_TTL); [done|lia].
    + apply Hrec.
  - cbn [fst snd]. specialize (Hrec (lru st1)). by destruct st1.
Qed.

(** Below the cap the registry and its specification agree. *)
Lemma observe_refines origin st sp hist now0 now nonce :
  registry_inv st -> rows_genuine st sp hist now0 -> rows_complete st sp now0 -> now0 <= now ->
  origin + NONCE_TTL <= now -> window_fits hist now ->
  (observe origin st now nonce).1 = (spec_observe sp now nonce).1
  /\ rows_complete (observe origin st now nonce).2 (spec_observe sp now nonce).2 now.
Proof.
  intros [L _] G C Hle Horig Hfit. unfold observe. rewrite cutoff_some by done.
  change (default now (Some (now - NONCE_TTL))) with (now - NONCE_TTL).
  pose proof (gc_window _ _ _ _ now L G) as Hsz.
  set (st1 := gc st (now - NONCE_TTL)) in *.
  assert (G1 : rows_genuine st1 sp hist now0) by (by apply gc_genuine).
  assert (C1 : rows_complete st1 sp now) by (by apply (gc_complete st sp now0)).
  assert (Hrec : forall lr, rows_complete (record_nonce {| seen := seen st1; lru := lr;
      next_lru_seq := next_lru_seq st1 |} now nonce) (<[nonce := now]> sp) now).
  { intros lr n t. unfold record_nonce. cbn [seen lru next_lru_seq].
    destruct (Z.leb_spec MAX_TRACKED_NONCES (Z.of_nat (size (seen st1)))) as [Hfull|_].
    { exfalso. unfold window_fits in Hfit. lia. }
    cbn [seen]. rewrite !lookup_insert. case_decide as D; [|by apply C1].
    intros [= <-] _. by exists (next_lru_seq st1). }
  unfold spec_observe. destruct (seen st1 !! nonce) as [[t q]|] eqn:Hn.
  - destruct (G1 _ _ _ Hn) as (Hsp & Ht & _). rewrite Hsp.
    replace (duration_since now t) with (now - t) by (unfold duration_since; lia).
    destruct (Z.ltb_spec (now - t) NONCE_TTL); cbn [fst snd]; split; [done|done|done|apply Hrec].
  - destruct (sp !! nonce) as [t|] eqn:Hsp.
    + destruct (Z.ltb_spec (now - t) NONCE_TTL) as [Hlt|Hge].
      * destruct (C1 _ _ Hsp Hlt) as [q Hq]. congruence.
      * split; [done|]. specialize (Hrec (lru st1)). by destruct st1.
    + split; [done|]. specialize (Hrec (lru st1)). by destruct st1.
Qed.

(** ** Runs *)

(** Times do not go back, starting from [t0]. *)
Fixpoint times_from (t0 : Z) (ops : list (Z * bytes)) : Prop :=
  match ops with
  | [] => True
  | (now, _) :: ops => t0 <= now /\ times_from now ops
  end.

(** At each observation, fewer than the cap fell in the window before it. *)
Fixpoint windows_fit (hist ops : list (Z * bytes)) : Prop :=
  match ops with
  | [] => True
  | op :: ops => window_fits hist op.1 /\ windows_fit (hist ++ [op]) ops
  end.

Lemma run_refines origin st sp hist now0 ops :
  registry_inv st -> rows_genuine st sp hist now0 -> rows_complete st sp now0 ->
  origin + NONCE_TTL <= now0 -> times_from now0 ops -> windows_fit hist ops ->
  (run_registry origin st ops).1 = run_spec sp ops.
Proof.
  revert st sp hist now0. induction ops as [|[now nonce] ops IH]; intros st sp hist now0 I G C Ho Ht Hw; [done|].
  destruct Ht as [Hle Ht], Hw as [Hw1 Hw]. cbn [fst] in Hw1. cbn [run_registry run_spec].
  destruct (observe_refines origin st sp hist now0 now nonce) as [Heq HC]; [done..|lia|done|].
  pose proof (observe_inv origin st now nonce I) as HI.
  pose proof (observe_genuine origin st sp hist now0 now nonce I G Hle) as HG.
  destruct (observe origin st now nonce) as [r st'].
  assert (Hsp : match r with Ok _ => (spec_observe sp now nonce).2 = <[nonce := now]> sp
                | Err _ => (spec_observe sp now nonce).2 = sp end).
  { cbn [fst] in Heq. rewrite Heq. clear. unfold spec_observe.
    destruct (sp !! nonce) as [t|]; [destruct (now - t <? NONCE_TTL)|]; done. }
  destruct (spec_observe sp now nonce) as [r' sp']. cbn [fst snd] in *. subst r'.
  specialize (IH st' sp' (hist ++ [(now, nonce)]) now HI).
  destruct (run_registry origin st' ops) as [rs st'']. cbn [fst]. f_equal. apply IH; try done; [|lia].
  destruct r; [by rewrite Hsp|]. rewrite Hsp. by destruct HG.
Qed.

Lemma run_inv origin st ops : registry_inv st -> registry_inv (run_registry origin st ops).2.
Proof.
  revert st. induction ops as [|[now nonce] ops IH]; intros st I; [done|]. cbn.
  pose proof (observe_inv origin st now nonce I) as I1.
  destruct (observe origin st now nonce) as [r st1]. specialize (IH st1 I1).
  by destruct (run_registry origin st1 ops).
Qed.

Lemma new_inv : registry_inv NonceRegistry_new.
Proof. split; [apply lockstep_empty|]. cbn. rewrite map_size_empty. unfold MAX_TRACKED_NONCES. lia. Qed.

(** ** Claims *)

(** C33. Replay protection.  For observations at non-decreasing times, on a
    platform whose clock is at least [NONCE_TTL] past its origin, and as long
    as fewer than the cap were observed in the window before each one, the
    registry answers exactly as its specification: a nonce is accepted iff it
    was not accepted in the last [NONCE_TTL] nanoseconds (a nonce accepted exactly
    [NONCE_TTL] ago is fresh again). *)
Theorem nonce_registry_refines origin t0 ops :
  origin + NONCE_TTL <= t0 -> times_from t0 ops -> windows_fit [] ops ->
  (run_registry origin NonceRegistry_new ops).1 = run_spec ∅ ops.
Proof.
  intros Ho Ht Hw. apply (run_refines _ _ _ [] t0); try done; [apply new_inv|by intros n t q..].
Qed.

Lemma nonce_registry_refines_witness :
  let a := replicate 32 Byte.x01 in
  let s := 10 ^ 9 in
  let ops := [(100 * s, a); (130 * s, a); (160 * s, a); (161 * s, a)] in
  (run_registry 0 NonceRegistry_new ops).1 = run_spec ∅ ops
  /\ run_spec ∅ ops = [Ok tt; Err Replayed; Ok tt; Err Replayed].
Proof.
  intros a s ops. split; [|vm_compute; reflexivity].
  apply (nonce_registry_refines 0 (100 * s)).
  - vm_compute. congruence.
  - repeat split; vm_compute; congruence.
  - repeat split; vm_compute; reflexivity.
Defined.

(** Bounded memory: after any run, under any load and clock, the map and
    the index have the same number of rows, at most [MAX_TRACKED_NONCES], and
    each row of one corresponds to a row of the other. *)
Theorem nonce_registry_bounded origin ops :
  let st := (run_registry origin NonceRegistry_new ops).2 in
  lockstep id (seen st) (lru st) /\ size (seen st) = size (lru st)
  /\ Z.of_nat (size (seen st)) <= MAX_TRACKED_NONCES.
Proof.
  intros st. destruct (run_inv origin NonceRegistry_new ops new_inv) as [L Hsz].
  split_and!; [done|by apply (lockstep_size id)|done].
Qed.

(** Where the clock is less than [NONCE_TTL] past its origin, the cutoff falls
    back to the present and a replay is accepted. *)
Lemma early_clock_accepts_replay :
  let a := replicate 32 Byte.x01 in
  (run_registry 0 NonceRegistry_new [(10 * 10 ^ 9, a); (11 * 10 ^ 9, a)]).1 = [Ok tt; Ok tt].
Proof. vm_compute. reflexivity. Qed.
