(* ===== verification/TenantPool.v ===== *)
(** * ullm-tee: per-tenant state and session slots

    [crates/ullm-tee/src/tenant.rs].  The clock and the operating system's
    generator are arguments. *)

From S2P Require Import Prelude RustStd Core Crates Toy Crypto KvCloak Lru.
From stdpp Require Import gmap.
From Stdlib Require Import Lia.

Local Open Scope Z_scope.

Definition MAX_TRACKED_TENANTS : Z := 16 * 1024.

Definition INFO_TENANT_SALT : bytes := lit "ULLM-v1 tenant cache salt".
Definition INFO_CLOAK_TRANSFORM : bytes := lit "ULLM-v1 cloak transform".
Definition INFO_CLOAK_PERMUTE : bytes := lit "ULLM-v1 cloak permute".
Definition INFO_CLOAK_NONCE : bytes := lit "ULLM-v1 cloak nonce".

Record TenantState := { salt : bytes; kek : SealedKek; last_seen : Z; lru_seq : Z }.

Record Inner := { map : gmap bytes TenantState; lru : gset stamp; next_lru_seq : Z }.

Record TenantPool := { master : bytes; inner : Inner }.

Definition tenant_stamp (s : TenantState) : Z * Z := (last_seen s, lru_seq s).

Section Pool.
Context `{!Hkdf, !Rng R}.

Definition TenantPool_random (rng : R) : TenantPool * R :=
  let '(m, rng) := fill_bytes 32 rng in
  ({| master := m; inner := {| map := ∅; lru := ∅; next_lru_seq := 0 |} |}, rng).

(** The salt a tenant gets, from the master secret alone. *)
Definition tenant_salt (m : bytes) (tenant : TenantId) : bytes :=
  hkdf_expand (hkdf_extract INFO_TENANT_SALT m) tenant 32.

Definition evict_oldest (i : Inner) : Inner :=
  if MAX_TRACKED_TENANTS <=? Z.of_nat (size (map i)) then
    match oldest (lru i) with
    | Some x => {| map := delete x.2 (map i); lru := lru i ∖ {[x]}; next_lru_seq := next_lru_seq i |}
    | None => i
    end
  else i.

Definition state_for (p : TenantPool) (tenant : TenantId) (now : Z) (rng : R)
  : TenantState * TenantPool * R :=
  let i := inner p in
  let new_seq := next_lru_seq i in
  let next := wrapping_add 64 new_seq 1 in
  match map i !! tenant with
  | Some s =>
      let old_ts := last_seen s in
      let old_seq := lru_seq s in
      let s := {| salt := salt s; kek := kek s; last_seen := now; lru_seq := new_seq |} in
      let i := {| map := <[tenant := s]> (map i);
                  lru := {[(now, new_seq, tenant)]} ∪ lru i ∖ {[(old_ts, old_seq, tenant)]};
                  next_lru_seq := next |} in
      (s, {| master := master p; inner := i |}, rng)
  | None =>
      let i := evict_oldest i in
      let '(kek_bytes, rng) := fill_bytes 32 rng in
      let s := {| salt := tenant_salt (master p) tenant; kek := kek_bytes;
                  last_seen := now; lru_seq := new_seq |} in
      let i := {| map := <[tenant := s]> (map i);
                  lru := {[(now, new_seq, tenant)]} ∪ lru i;
                  next_lru_seq := next |} in
      (s, {| master := master p; inner := i |}, rng)
  end.

Definition tenant_count (p : TenantPool) : nat := size (map (inner p)).

Definition session_cloak_key (master tenant_salt : bytes) (session : SessionId) : CloakKey :=
  let hk := hkdf_extract tenant_salt master in
  let t := hkdf_expand hk (INFO_CLOAK_TRANSFORM ++ session) 32 in
  let p := hkdf_expand hk (INFO_CLOAK_PERMUTE ++ session) 32 in
  let n := hkdf_expand hk (INFO_CLOAK_NONCE ++ session) 16 in
  CloakKey_from_parts t p n.

Record SessionSlot := {
  slot_tenant : TenantId;
  slot_session : SessionId;
  cloak_key : CloakKey;
  slot_kek : SealedKek;
  recorded : list bytes;
}.

Definition allocate (p : TenantPool) (tenant : TenantId) (session : SessionId) (now : Z) (rng : R)
  : SessionSlot * TenantPool * R :=
  let '(state, p, rng) := state_for p tenant now rng in
  let ck := session_cloak_key (master p) (salt state) session in
  ({| slot_tenant := tenant; slot_session := session; cloak_key := ck; slot_kek := kek state;
      recorded := [] |}, p, rng).

Definition record_kv (s : SessionSlot) (position : Z) (raw_kv : bytes) : SessionSlot :=
  let cloaked := cloak (cloak_key s) position raw_kv in
  {| slot_tenant := slot_tenant s; slot_session := slot_session s; cloak_key := cloak_key s;
     slot_kek := slot_kek s; recorded := recorded s ++ [cloaked] |}.

Definition cloaked_count (s : SessionSlot) : nat := length (recorded s).

Definition finalize_seal `{!Aead} (s : SessionSlot) : list SealedCloakedBlock :=
  imap (fun i c => seal_block (slot_kek s) (slot_tenant s) (slot_session s) (Z.of_nat i) c) (recorded s).
End Pool.

(** ** Invariant *)

Section PoolInv.
Context `{!Hkdf, !Rng R}.

Definition pool_inv (p : TenantPool) : Prop :=
  lockstep tenant_stamp (map (inner p)) (lru (inner p))
  /\ Z.of_nat (size (map (inner p))) <= MAX_TRACKED_TENANTS
  /\ map_Forall (fun tenant s => salt s = tenant_salt (master p) tenant) (map (inner p)).

Lemma evict_oldest_inv i :
  lockstep tenant_stamp (map i) (lru i) -> Z.of_nat (size (map i)) <= MAX_TRACKED_TENANTS ->
  lockstep tenant_stamp (map (evict_oldest i)) (lru (evict_oldest i))
  /\ Z.of_nat (size (map (evict_oldest i))) < MAX_TRACKED_TENANTS
  /\ map (evict_oldest i) ⊆ map i.
Proof.
  intros L Hsz. unfold evict_oldest.
  destruct (Z.leb_spec MAX_TRACKED_TENANTS (Z.of_nat (size (map i)))) as [Hfull|Hroom].
  - destruct (oldest (lru i)) as [[[t q] k]|] eqn:Ho; cbn [map lru snd].
    + destruct (lockstep_evict _ _ _ _ _ _ L Ho) as [L' Hlt].
      split_and!; [done|lia|apply delete_subseteq].
    + apply oldest_None in Ho. pose proof (lockstep_size _ _ _ L) as Hs.
      rewrite Ho, size_empty in Hs. unfold MAX_TRACKED_TENANTS in *. lia.
  - done.
Qed.

Lemma state_for_inv p tenant now (rng : R) :
  pool_inv p ->
  let '(s, p', _) := state_for p tenant now rng in
  pool_inv p' /\ master p' = master p /\ map (inner p') !! tenant = Some s
  /\ salt s = tenant_salt (master p) tenant.
Proof.
  intros (L & Hsz & Hsalt). unfold state_for.
  destruct (map (inner p) !! tenant) as [s|] eqn:Ht.
  - assert (Hs : salt s = tenant_salt (master p) tenant) by (by apply (Hsalt tenant)).
    unfold pool_inv. cbn [map inner lru master]. split_and!.
    + by eapply lockstep_touch.
    + rewrite map_size_insert, Ht. done.
    + by apply map_Forall_insert_2.
    + done.
    + apply lookup_insert_eq.
    + done.
  - destruct (evict_oldest_inv (inner p) L Hsz) as (L' & Hsz' & Hsub).
    destruct (fill_bytes 32 rng) as [kb rng'].
    assert (Hnone : map (evict_oldest (inner p)) !! tenant = None).
    { destruct (map (evict_oldest (inner p)) !! tenant) eqn:E; [|done].
      eapply lookup_weaken in E; [|exact Hsub]. congruence. }
    unfold pool_inv. cbn [map inner lru master]. split_and!.
    + by apply lockstep_insert.
    + rewrite map_size_insert, Hnone. lia.
    + apply map_Forall_insert_2; [done|]. intros k v Hk. apply Hsalt. by eapply lookup_weaken.
    + done.
    + apply lookup_insert_eq.
    + done.
Qed.

(** A run of allocations, each at its own time. *)
Fixpoint run_pool (p : TenantPool) (rng : R) (ops : list (TenantId * SessionId * Z)) : TenantPool * R :=
  match ops with
  | [] => (p, rng)
  | (tenant, session, now) :: ops =>
      let '(_, p, rng) := allocate p tenant session now rng in run_pool p rng ops
  end.

Lemma run_pool_inv p (rng : R) ops :
  pool_inv p -> pool_inv (run_pool p rng ops).1 /\ master (run_pool p rng ops).1 = master p.
Proof.
  revert p rng. induction ops as [|[[tenant session] now] ops IH]; intros p rng I; [done|].
  cbn [run_pool]. unfold allocate. pose proof (state_for_inv p tenant now rng I) as Hs.
  destruct (state_for p tenant now rng) as [[s p'] rng']. destruct Hs as (I' & Hm & _).
  destruct (IH p' rng' I') as [I'' Hm'']. split; [done|congruence].
Qed.

Lemma new_pool_inv (rng : R) : pool_inv (TenantPool_random rng).1.
Proof.
  unfold TenantPool_random. destruct (fill_bytes 32 rng) as [m r]. unfold pool_inv.
  cbn [fst map inner lru master]. rewrite map_size_empty.
  split; [apply lockstep_empty|]. split; [done|apply map_Forall_empty].
Qed.
End PoolInv.

Section Slot.
Context `{!Hkdf, !HkdfLaws, !Aead, !AeadLaws}.

Definition record_all (s : SessionSlot) (rows : list bytes) : SessionSlot :=
  foldl (fun s row => record_kv s (Z.of_nat (cloaked_count s)) row) s rows.

Lemma record_all_shape s rows :
  recorded (record_all s rows) = recorded s
    ++ imap (fun i row => cloak (cloak_key s) (Z.of_nat (length (recorded s) + i)) row) rows
  /\ cloak_key (record_all s rows) = cloak_key s /\ slot_kek (record_all s rows) = slot_kek s
  /\ slot_tenant (record_all s rows) = slot_tenant s
  /\ slot_session (record_all s rows) = slot_session s.
Proof.
  revert s. induction rows as [|row rows IH]; intros s; cbn [record_all foldl imap].
  - by rewrite app_nil_r.
  - destruct (IH (record_kv s (Z.of_nat (cloaked_count s)) row)) as (Hr & Hk & He & Ht & Hs).
    unfold record_all in *. rewrite Hr, Hk, He, Ht, Hs.
    split; [|split_and!; reflexivity]. cbn [recorded record_kv cloak_key].
    rewrite <- app_assoc. f_equal. cbn [app]. unfold cloaked_count. rewrite Nat.add_0_r. f_equal.
    apply imap_ext. intros i x _. unfold compose. do 2 f_equal. rewrite length_app. simpl. lia.
Qed.
End Slot.

(** ** Claims *)

(** C35. The pool is bounded and evicting a tenant is harmless for its cloaked
    data: after any run of allocations the table has at most
    [MAX_TRACKED_TENANTS] rows, in step with its index, and the next
    allocation for a tenant derives the session's cloak key from the master
    secret, the tenant and the session alone, the same whether the tenant
    was present, evicted or new. *)
Theorem tenant_pool_inv `{!Hkdf} `{!Rng R} (rng : R) ops tenant session now :
  let p0 := (TenantPool_random rng).1 in
  let '(p, rng') := run_pool p0 (TenantPool_random rng).2 ops in
  let '(slot, p', _) := allocate p tenant session now rng' in
  (tenant_count p' = size (lru (inner p')) /\ Z.of_nat (tenant_count p') <= MAX_TRACKED_TENANTS)
  /\ cloak_key slot = session_cloak_key (master p0) (tenant_salt (master p0) tenant) session
  /\ slot_tenant slot = tenant /\ slot_session slot = session /\ recorded slot = [].
Proof.
  intros p0. pose proof (run_pool_inv p0 (TenantPool_random rng).2 ops (new_pool_inv rng)) as [I Hm].
  destruct (run_pool p0 (TenantPool_random rng).2 ops) as [p rng']. cbn [fst] in I, Hm.
  unfold allocate. pose proof (state_for_inv p tenant now rng' I) as Hs.
  destruct (state_for p tenant now rng') as [[s p'] rng'']. destruct Hs as ((L & Hsz & _) & Hm' & _ & Hsalt).
  split_and!; try done; [by apply (lockstep_size tenant_stamp)|].
  cbn [cloak_key]. by rewrite Hsalt, Hm', Hm.
Qed.

(** What a session seals can be opened: after recording any rows, block
    [i] of [finalize_seal] unseals, under the slot's key and context at
    position [i], to a cloaked block that uncloaks at that position to row [i]. *)
Theorem session_slot_recovers `{HkdfLaws} `{AeadLaws} slot rows i row :
  recorded slot = [] -> length (slot_session slot) = 16%nat ->
  Forall (fun r => length r = CLOAK_BLOCK_LEN) rows -> rows !! i = Some row ->
  exists b c, finalize_seal (record_all slot rows) !! i = Some b
    /\ unseal_block (slot_kek slot) (slot_tenant slot) (slot_session slot) (Z.of_nat i) b = Ok c
    /\ uncloak (cloak_key slot) (Z.of_nat i) c = row.
Proof.
  intros Hr0 Hlen Hrows Hi. destruct (record_all_shape slot rows) as (Hr & Hk & He & Ht & Hs).
  rewrite Hr0 in Hr. cbn [app length] in Hr.
  eapply Forall_lookup_1 in Hrows as Hrow; [|exact Hi].
  set (c := cloak (cloak_key slot) (Z.of_nat i) row).
  exists (seal_block (slot_kek slot) (slot_tenant slot) (slot_session slot) (Z.of_nat i) c), c.
  assert (Hb : length (apply_keystream (transform_key (cloak_key slot)) (session_nonce (cloak_key slot))
                (Z.of_nat i) row) = CLOAK_BLOCK_LEN) by (by apply keystream_length).
  pose proof (derive_permutation_perm (permute_seed (cloak_key slot)) (session_nonce (cloak_key slot))
                (Z.of_nat i)) as Hp.
  split_and!.
  - unfold finalize_seal. rewrite list_lookup_imap, Hr, list_lookup_imap, Hi, He, Ht, Hs. reflexivity.
  - apply unseal_block_Ok. split; [done|]. split; [|done]. subst c. unfold cloak.
    rewrite gather_length, Hp. apply length_seq.
  - subst c. unfold uncloak, cloak.
    rewrite scatter_gather; [by apply keystream_involutive|by rewrite Hb|by rewrite length_replicate].
Qed.

Lemma session_slot_recovers_witness :
  let slot := {| slot_tenant := lit "acme"; slot_session := replicate 16 Byte.x07;
                 cloak_key := CloakKey_from_parts [Byte.x01] [Byte.x02] [Byte.x03];
                 slot_kek := [Byte.x09]; recorded := [] |} in
  let row := replicate 256 Byte.x2a in
  exists b c, finalize_seal (record_all slot [replicate 256 Byte.x00; row]) !! 1%nat = Some b
    /\ unseal_block (slot_kek slot) (slot_tenant slot) (slot_session slot) 1 b = Ok c
    /\ uncloak (cloak_key slot) 1 c = row.
Proof.
  intros slot row.
  refine (session_slot_recovers slot [replicate 256 Byte.x00; row] 1 row eq_refl eq_refl _ eq_refl).
  apply Forall_cons_2; [reflexivity|]. apply Forall_cons_2; [reflexivity|]. apply Forall_nil_2.
Defined.
