(* ===== verification/Gateway.v ===== *)
(** * ullm-gateway: the proxy's endpoints

    [crates/ullm-gateway/src/proxy.rs], but for the relay ([Relay]).  The
    handlers share one state: the rate limiter, the transparency log and the
    cache of the last signed head, each behind its own lock, so a handler is a
    sequence of atomic steps with other requests in between.  The network is
    an argument: [exchange host port request] is what the upstream answers
    until it closes, or the text of the error. *)

From S2P Require Import Prelude RustStd RustText Core Crates Toy Merkle TreeHead Log Lru Float64 RateLimit.
From Stdlib Require Import Lia.

Local Open Scope Z_scope.

(** [(StatusCode, String)]. *)
Abbreviation HttpErr := (Z * bytes)%type.

(** One second, in nanoseconds. *)
Definition STH_CACHE_TTL : Z := 10 ^ 9.

Record GatewayState := {
  tee_base_url : bytes;
  rate_limiter : RateLimiter;
  transparency : Log.State;
  logger_signing_key : bytes;
  gw_log_id : bytes;                          (** [log_id] *)
  sth_cache : option (SignedTreeHead * Z);
}.

Definition set_limiter (g : GatewayState) (r : RateLimiter) : GatewayState :=
  {| tee_base_url := tee_base_url g; rate_limiter := r; transparency := transparency g;
     logger_signing_key := logger_signing_key g; gw_log_id := gw_log_id g; sth_cache := sth_cache g |}.
Definition set_log (g : GatewayState) (l : Log.State) : GatewayState :=
  {| tee_base_url := tee_base_url g; rate_limiter := rate_limiter g; transparency := l;
     logger_signing_key := logger_signing_key g; gw_log_id := gw_log_id g; sth_cache := sth_cache g |}.
Definition set_cache (g : GatewayState) (c : option (SignedTreeHead * Z)) : GatewayState :=
  {| tee_base_url := tee_base_url g; rate_limiter := rate_limiter g; transparency := transparency g;
     logger_signing_key := logger_signing_key g; gw_log_id := gw_log_id g; sth_cache := c |}.

(** ** Request text *)

(** The [x-ullm-tenant] header, [None] when absent or not visible ASCII. *)
Definition tenant_from_headers (h : option bytes) : bytes :=
  let raw := default (lit "anonymous") h in
  if decide (raw = [] \/ 128 < Z.of_nat (length raw)) then lit "anonymous" else
  if negb (forallb (fun b => is_ascii_alphanumeric b || (uval b =? 95) || (uval b =? 45)
                             || (uval b =? 46)) raw)
  then lit "anonymous" else raw.

Definition is_hex_nonce (s : bytes) : bool :=
  bool_decide (length s = 64%nat) && forallb is_ascii_hexdigit s.

Definition parse_bearer_credential (s : bytes) : option bytes :=
  let trimmed := trim_start s in
  let '(scheme, rest) := split_ascii_whitespace trimmed in
  if negb (eq_ignore_ascii_case scheme (lit "Bearer")) then None else
  cred ← rest;
  Some (trim_start cred).

(** The status of the gate: the handler's answer, or an empty 404.  The header
    is [None] when absent or not visible ASCII. *)
Definition metrics_auth_gate `{!Subtle} (expected : bytes) (authorization : option bytes) (answer : bytes)
  : result bytes HttpErr :=
  let presented := default [] (h ← authorization; parse_bearer_credential h) in
  if ct_eq presented expected then Ok answer else Err (404, []).

(** The [/metrics] route of [metrics_router]: the gate stands when the token
    is set and not empty. *)
Definition metrics_route `{!Subtle} (token_env authorization : option bytes) (answer : bytes)
  : result bytes HttpErr :=
  match token_env with
  | Some expected => if decide (expected = []) then Ok answer
                     else metrics_auth_gate expected authorization answer
  | None => Ok answer
  end.

Definition BACKSLASH : byte := Byte.x5c.
Definition QUOTE : byte := Byte.x22.

Definition sanitize_char (c : Z) : bytes :=
  if c =? 92 then [BACKSLASH; BACKSLASH]
  else if c =? 34 then [BACKSLASH; QUOTE]
  else if c =? 10 then [BACKSLASH; Byte.x6e]
  else if c =? 13 then [BACKSLASH; Byte.x72]
  else if is_control c then BACKSLASH :: lit "x" ++ fmt_hex_pad 2 c
  else if (c =? 0xFEFF) || ((0x200B <=? c) && (c <=? 0x200F)) || ((0x202A <=? c) && (c <=? 0x202E))
          || ((0x2066 <=? c) && (c <=? 0x2069))
  then BACKSLASH :: lit "u" ++ fmt_hex_pad 4 c
  else char_utf8 c.

Definition sanitize_metric_label (s : bytes) : bytes := concat (sanitize_char <$> chars s).

Definition NL : bytes := [Byte.x0a].

Definition metrics `{!Sha2, !SerdeJson, !Hex} (g : GatewayState) : bytes :=
  let log_size := status_size (log_status (transparency g)) in
  let bucket_count := Z.of_nat (tenant_count (rate_limiter g)) in
  let log_id := sanitize_metric_label (gw_log_id g) in
  lit "# HELP ullm_gateway_protocol_version Wire protocol version this binary speaks." ++ NL
  ++ lit "# TYPE ullm_gateway_protocol_version gauge" ++ NL
  ++ lit "ullm_gateway_protocol_version " ++ fmt_dec PROTOCOL_VERSION ++ NL
  ++ lit "# HELP ullm_gateway_transparency_log_size Append-only count of entries in the transparency log." ++ NL
  ++ lit "# TYPE ullm_gateway_transparency_log_size gauge" ++ NL
  ++ lit "ullm_gateway_transparency_log_size{log_id=" ++ [QUOTE] ++ log_id ++ [QUOTE] ++ lit "} "
  ++ fmt_dec log_size ++ NL
  ++ lit "# HELP ullm_gateway_rate_limiter_buckets Live tenant bucket count." ++ NL
  ++ lit "# TYPE ullm_gateway_rate_limiter_buckets gauge" ++ NL
  ++ lit "ullm_gateway_rate_limiter_buckets " ++ fmt_dec bucket_count ++ NL.

(** ** The upstream request *)

Record ParsedUrl := { host : bytes; port : Z; path : bytes }.

Definition SLASH : byte := Byte.x2f.

Definition parse_url (url : bytes) : result ParsedUrl bytes :=
  let? (_, rest) := ok_or (split_once (lit "://") url) (lit "bad url") in
  let '(host_port, path) :=
    match split_once [SLASH] rest with
    | Some (hp, p) => (hp, SLASH :: p)
    | None => (rest, [SLASH])
    end in
  match split_once (lit ":") host_port with
  | Some (h, p) =>
      let? port := ok_or (parse_uint 16 p) (parse_uint_error 16 p) in
      Ok {| host := h; port := port; path := path |}
  | None => Ok {| host := host_port; port := 80; path := path |}
  end.

Definition CRLF : bytes := [Byte.x0d; Byte.x0a].

Definition get_request (u : ParsedUrl) : bytes :=
  lit "GET " ++ path u ++ lit " HTTP/1.1" ++ CRLF ++ lit "Host: " ++ host u ++ CRLF
  ++ lit "Connection: close" ++ CRLF ++ CRLF.

(** What [http_get_passthrough] makes of the bytes it read: status and body. *)
Definition parse_response (buf : bytes) : result (Z * bytes) bytes :=
  let? (head, body) := ok_or (split_once (CRLF ++ CRLF) buf) (lit "bad HTTP response") in
  let status_line := match split_once CRLF buf with Some (l, _) => l | None => head end in
  if negb (utf8_valid status_line) then Err (lit "non-utf8 HTTP status line") else
  let? code := ok_or (s ← split_whitespace status_line !! 1%nat; parse_uint 16 s)
                     (lit "malformed HTTP status line: " ++ status_line) in
  if (code <? 100) || (999 <? code) then Err (lit "bad HTTP status code " ++ fmt_dec code)
  else Ok (code, body).

Definition http_get_passthrough (exchange : bytes -> Z -> bytes -> result bytes bytes) (url : bytes)
  : result (Z * bytes) bytes :=
  let? parsed := parse_url url in
  let? buf := exchange (host parsed) (port parsed) (get_request parsed) in
  parse_response buf.

Definition is_success (code : Z) : bool := (200 <=? code) && (code <? 300).

Definition upstream_url (g : GatewayState) (suffix : bytes) : bytes :=
  trim_end_matches SLASH (tee_base_url g) ++ suffix.

Definition attest_url (g : GatewayState) (nonce : bytes) : bytes :=
  upstream_url g (lit "/v1/attest?nonce=" ++ nonce).

(** Body and status, answered as JSON. *)
Definition proxy_devkeys (exchange : bytes -> Z -> bytes -> result bytes bytes) (g : GatewayState)
  : result (Z * bytes) HttpErr :=
  map_err (fun e => (502, e)) (http_get_passthrough exchange (upstream_url g (lit "/v1/devkeys"))).

Section Endpoints.
Context `{!Sha2, !SerdeJson, !Ed25519, !Hex, !LogEntryJson} (io_error_display : IoError -> bytes).

(** ** The log over HTTP *)

Definition transparency_status (g : GatewayState) : LogStatus := log_status (transparency g).
Definition transparency_log (g : GatewayState) : list LogEntry := snapshot (transparency g).

Definition transparency_proof (g : GatewayState) (q_seq : Z) : result InclusionProof HttpErr :=
  let entries := snapshot (transparency g) in
  ok_or (InclusionProof_build entries (Z.to_nat q_seq))
        (404, lit "seq " ++ fmt_dec q_seq ++ lit " out of range (size=" ++ fmt_dec (Z.of_nat (length entries))
              ++ lit ")").

(** The four steps of [transparency_head]: the cache, the barrier, the head
    signed, the cache written.  Other requests may run between them. *)
Definition head_cached (g : GatewayState) (instant : Z) : option SignedTreeHead :=
  match sth_cache g with
  | Some (sth, signed_at) => if instant - signed_at <? STH_CACHE_TTL then Some sth else None
  | None => None
  end.

Definition head_flush (g : GatewayState) (sync_ok : bool) : result unit HttpErr * GatewayState :=
  let '(r, l) := flush (transparency g) sync_ok in
  (map_err (fun e => (500, lit "flush: " ++ io_error_display e)) r, set_log g l).

Definition head_sign (g : GatewayState) (now_ns : Z) : SignedTreeHead :=
  let status := log_status (transparency g) in
  let head := {| size_ := status_size status; root_hex := status_root_hex status;
                 issued_at_unix := now_unix_or_zero now_ns; log_id := gw_log_id g |} in
  SignedTreeHead_sign head (logger_signing_key g).

Definition head_store (g : GatewayState) (sth : SignedTreeHead) (instant : Z) : GatewayState :=
  set_cache g (Some (sth, instant)).

(** The whole handler with nothing in between. *)
Definition transparency_head (g : GatewayState) (instant now_ns : Z) (sync_ok : bool)
  : result SignedTreeHead HttpErr * GatewayState :=
  match head_cached g instant with
  | Some sth => (Ok sth, g)
  | None =>
      match head_flush g sync_ok with
      | (Err e, g) => (Err e, g)
      | (Ok _, g) => let sth := head_sign g now_ns in (Ok sth, head_store g sth instant)
      end
  end.

(** ** [GET /v1/attest] *)

(** [None] is a panic of the rate limiter. *)
Definition proxy_attest (exchange : bytes -> Z -> bytes -> result bytes bytes) (g : GatewayState)
    (tenant_header : option bytes) (q_nonce : bytes) (instant now_ns : Z) (io : append_io)
  : option (result bytes HttpErr * GatewayState) :=
  let tenant := tenant_from_headers tenant_header in
  '(ok, rl) ← try_charge (rate_limiter g) tenant 4096 instant;
  let g := set_limiter g rl in
  Some (
    if negb ok then (Err (429, lit "rate limit"), g) else
    if negb (is_hex_nonce q_nonce) then (Err (400, lit "nonce must be 64 hex chars"), g) else
    match http_get_passthrough exchange (attest_url g q_nonce) with
    | Err e => (Err (502, e), g)
    | Ok (status, body) =>
        if negb (is_success status) then (Err (status, from_utf8_lossy body), g) else
        if decide (32 <= length body)%nat then
          match now_unix now_ns with
          | Err e => (Err (500, lit "transparency log timestamp unavailable: " ++ Error_display e), g)
          | Ok now =>
              let '(r, l) := append (transparency g) (take 32 body) body now io in
              let g := set_log g l in
              match r with
              | Err e => (Err (500, lit "transparency log: " ++ io_error_display e), g)
              | Ok _ => (Ok body, g)
              end
          end
        else (Ok body, g)
    end).
End Endpoints.

(** ** Requests in any order

    The atomic steps requests take on the shared state: a charge (of an
    attestation request or a relayed message), an append, and the four steps
    of a head request.  [flushed] counts head requests past their barrier,
    [signed] holds the heads of those about to write the cache, [published]
    is what head requests have answered. *)

Record Sys := {
  gw : GatewayState; flushed : nat; signed : list SignedTreeHead; published : list SignedTreeHead }.

Section Steps.
Context `{!Sha2, !SerdeJson, !Ed25519, !Hex, !LogEntryJson} (io_error_display : IoError -> bytes).

Inductive sys_step (s : Sys) : Sys -> Prop :=
| step_charge tenant n instant ok rl :
    try_charge (rate_limiter (gw s)) tenant n instant = Some (ok, rl) ->
    sys_step s {| gw := set_limiter (gw s) rl; flushed := flushed s; signed := signed s;
                  published := published s |}
| step_append id_pk ev now io r l :
    append (transparency (gw s)) id_pk ev now io = (r, l) ->
    sys_step s {| gw := set_log (gw s) l; flushed := flushed s; signed := signed s;
                  published := published s |}
| step_head_hit instant sth :
    head_cached (gw s) instant = Some sth ->
    sys_step s {| gw := gw s; flushed := flushed s; signed := signed s;
                  published := published s ++ [sth] |}
| step_head_flush instant sync_ok r g :
    head_cached (gw s) instant = None -> head_flush io_error_display (gw s) sync_ok = (r, g) ->
    sys_step s {| gw := g; flushed := if is_ok r then S (flushed s) else flushed s; signed := signed s;
                  published := published s |}
| step_head_sign now_ns n :
    flushed s = S n ->
    sys_step s {| gw := gw s; flushed := n; signed := signed s ++ [head_sign (gw s) now_ns];
                  published := published s |}
| step_head_store instant sth l1 l2 :
    signed s = l1 ++ sth :: l2 ->
    sys_step s {| gw := head_store (gw s) sth instant; flushed := flushed s; signed := l1 ++ l2;
                  published := published s ++ [sth] |}.

(** The gateway as it starts: a log, no cached head. *)
Definition sys_init (s : Sys) : Prop :=
  sth_cache (gw s) = None /\ flushed s = O /\ signed s = [] /\ published s = [].

(** A head is true of a log when it is the signed head of one of its prefixes. *)
Definition true_head (key id : bytes) (es : list LogEntry) (sth : SignedTreeHead) : Prop :=
  exists n now, (n <= length es)%nat
  /\ sth = SignedTreeHead_sign {| size_ := Z.of_nat n; root_hex := hex_encode (merkle_root (take n es));
                                  issued_at_unix := now; log_id := id |} key.

Lemma true_head_mono key id es es' sth :
  es `prefix_of` es' -> true_head key id es sth -> true_head key id es' sth.
Proof.
  intros [k ->] (n & now & Hn & ->). exists n, now. rewrite length_app. split; [lia|].
  by rewrite take_app_le by lia.
Qed.

(** No step rewrites the log. *)
Lemma append_prefix st id_pk ev now io r l :
  append st id_pk ev now io = (r, l) -> entries st `prefix_of` entries l.
Proof.
  destruct r; intros E.
  - apply append_ok_shape in E as [_ ->]. by apply prefix_app_r.
  - apply append_err_shape in E as [-> _]. done.
Qed.

Lemma flush_entries st ok : entries (flush st ok).2 = entries st.
Proof. unfold flush, sync_data. by destruct (file st), ok. Qed.

(** The invariant: key and log name fixed, the log only grows, and the cached
    head and all signed and published ones are true of it. *)
Definition sys_inv (key id : bytes) (es0 : list LogEntry) (s : Sys) : Prop :=
  let es := entries (transparency (gw s)) in
  logger_signing_key (gw s) = key /\ gw_log_id (gw s) = id /\ es0 `prefix_of` es
  /\ (forall sth t, sth_cache (gw s) = Some (sth, t) -> true_head key id es sth)
  /\ Forall (true_head key id es) (signed s) /\ Forall (true_head key id es) (published s).

Lemma head_sign_true g now_ns :
  true_head (logger_signing_key g) (gw_log_id g) (entries (transparency g)) (head_sign g now_ns).
Proof.
  eexists (length (entries (transparency g))), _. split; [lia|].
  unfold head_sign, log_status. cbn. by rewrite firstn_all.
Qed.

Lemma sys_step_inv key id es0 s s' : sys_inv key id es0 s -> sys_step s s' -> sys_inv key id es0 s'.
Proof.
  intros (Hk & Hid & He & Hc & Hg & Hp) Hstep. unfold sys_inv.
  destruct Hstep as [tenant n instant ok rl E|id_pk ev now io r l E|instant sth E|instant sync_ok r g _ E
                    |now_ns n _|instant sth l1 l2 E].
  - done.
  - apply append_prefix in E. cbn. split_and!; [done|done|by etrans| | |].
    + intros sth t Hs. eapply true_head_mono; [exact E|by eapply Hc].
    + eapply Forall_impl; [exact Hg|]. intros sth. by apply true_head_mono.
    + eapply Forall_impl; [exact Hp|]. intros sth. by apply true_head_mono.
  - split_and!; try done. cbn. apply Forall_app. split; [done|]. constructor; [|done].
    unfold head_cached in E. destruct (sth_cache (gw s)) as [[sth' t]|]; [|done].
    destruct (_ <? _); [|done]. injection E as <-. by eapply Hc.
  - unfold head_flush in E. pose proof (flush_entries (transparency (gw s)) sync_ok) as F.
    destruct (flush (transparency (gw s)) sync_ok) as [r0 l0]. injection E as _ <-. cbn [snd] in F.
    cbn. by rewrite F.
  - split_and!; try done. cbn. apply Forall_app. split; [done|]. constructor; [|done].
    subst. apply head_sign_true.
  - rewrite E in Hg. apply Forall_app in Hg as [Hg1 Hg2]. apply Forall_cons in Hg2 as [Ht Hg2].
    cbn. split_and!; try done.
    + by intros ? ? [= <- _].
    + by apply Forall_app.
    + apply Forall_app. split; [done|]. by constructor.
Qed.

Lemma sys_inv_reachable key id es0 s s' :
  sys_inv key id es0 s -> rtc sys_step s s' -> sys_inv key id es0 s'.
Proof.
  intros I Hr. induction Hr as [|s1 s2 s3 Hs _ IH]; [done|]. apply IH. by eapply sys_step_inv.
Qed.

Lemma sys_init_inv s : sys_init s ->
  sys_inv (logger_signing_key (gw s)) (gw_log_id (gw s)) (entries (transparency (gw s))) s.
Proof. intros (Hc & _ & Hg & Hp). unfold sys_inv. rewrite Hc, Hg, Hp. by split_and!. Qed.

(** The gateway never equivocates.  However charges, appends and head
    requests interleave, and whichever system calls fail, every tree head it
    has ever answered (fresh or from the cache) verifies under its key, names
    its log, and commits to a prefix of the log as it now stands; so two heads
    of one size always carry one root, and the log itself only grows. *)
Theorem heads_never_fork `{!Ed25519Laws} s s' :
  sys_init s -> rtc sys_step s s' ->
  let es := entries (transparency (gw s')) in
  entries (transparency (gw s)) `prefix_of` es
  /\ (forall sth, sth ∈ published s' ->
      SignedTreeHead_verify sth = true /\ logger_pk sth = ed25519_public (logger_signing_key (gw s))
      /\ log_id (head sth) = gw_log_id (gw s)
      /\ exists n, (n <= length es)%nat /\ size_ (head sth) = Z.of_nat n
         /\ root_hex (head sth) = hex_encode (merkle_root (take n es)))
  /\ (forall h1 h2, h1 ∈ published s' -> h2 ∈ published s' ->
      size_ (head h1) = size_ (head h2) -> root_hex (head h1) = root_hex (head h2)).
Proof.
  intros Hi Hr. apply sys_init_inv in Hi. eapply sys_inv_reachable in Hr as (_ & _ & He & _ & _ & Hp); [|exact Hi].
  cbn zeta. rewrite Forall_forall in Hp. split_and!; [done| |].
  - intros sth Hs. destruct (Hp sth Hs) as (n & now & Hn & ->). cbn. split_and!; try done.
    + unfold SignedTreeHead_verify. cbn. by rewrite ed25519_public_valid, ed25519_sign_verify.
    + by exists n.
  - intros h1 h2 P1 P2 E. destruct (Hp h1 P1) as (n1 & t1 & _ & ->), (Hp h2 P2) as (n2 & t2 & _ & ->).
    cbn in *. by apply Nat2Z.inj in E as ->.
Qed.
End Steps.

(** ** Attestation requests *)

Section Attest.
Context `{!Sha2, !SerdeJson, !Ed25519, !Hex, !LogEntryJson} (io_error_display : IoError -> bytes).

(** A request is a charge, then at most one append. *)
Lemma proxy_attest_steps exchange g h nonce instant now_ns io r g' k sg pub :
  proxy_attest io_error_display exchange g h nonce instant now_ns io = Some (r, g') ->
  rtc (sys_step io_error_display) {| gw := g; flushed := k; signed := sg; published := pub |}
                                  {| gw := g'; flushed := k; signed := sg; published := pub |}.
Proof.
  unfold proxy_attest. destruct (try_charge _ _ _ _) as [[ok rl]|] eqn:Et; [|done].
  cbn [mbind option_bind]. intros E.
  set (g1 := set_limiter g rl) in *.
  assert (S1 : rtc (sys_step io_error_display) {| gw := g; flushed := k; signed := sg; published := pub |}
                   {| gw := g1; flushed := k; signed := sg; published := pub |}).
  { apply rtc_once.
    eapply (step_charge io_error_display {| gw := g; flushed := k; signed := sg; published := pub |}). exact Et. }
  destruct ok; cbn [negb] in E; [|by injection E as _ <-].
  destruct (is_hex_nonce nonce); cbn [negb] in E; [|by injection E as _ <-].
  destruct (http_get_passthrough _ _) as [[status body]|e]; [|by injection E as _ <-].
  destruct (is_success status); cbn [negb] in E; [|by injection E as _ <-].
  case_decide; [|by injection E as _ <-].
  destruct (now_unix now_ns) as [now|e]; [|by injection E as _ <-].
  destruct (append (transparency g1) (take 32 body) body now io) as [ra l] eqn:Ea.
  etrans; [exact S1|].
  assert (g' = set_log g1 l) as -> by (destruct ra; by injection E).
  apply rtc_once.
  eapply (step_append io_error_display {| gw := g1; flushed := k; signed := sg; published := pub |}). exact Ea.
Qed.

(** C23. Every bundle the gateway relays is in the log.  When a request for
    attestation is answered with a body, the tenant was charged for it, the
    nonce was 64 hexadecimal digits, the TEE answered exactly that body with a
    success status to a request for exactly that nonce, and the log has one
    more entry, the body's, unless it is too short to be a bundle.  When it is
    answered with an error, which is one of the six the handler has, the log
    has no new entry. *)
Theorem attest_logged exchange g h nonce instant now_ns io r g' :
  proxy_attest io_error_display exchange g h nonce instant now_ns io = Some (r, g') ->
  exists ok rl, try_charge (rate_limiter g) (tenant_from_headers h) 4096 instant = Some (ok, rl)
  /\ rate_limiter g' = rl /\
  match r with
  | Ok body =>
      ok = true /\ is_hex_nonce nonce = true
      /\ (exists status, http_get_passthrough exchange (attest_url g nonce) = Ok (status, body)
            /\ is_success status = true)
      /\ (if decide (32 <= length body)%nat
          then exists now, now_unix now_ns = Ok now
               /\ entries (transparency g') = entries (transparency g)
                  ++ [LogEntry_from_evidence (Z.of_nat (length (entries (transparency g)))) (take 32 body) body now]
          else transparency g' = transparency g)
  | Err (code, msg) =>
      entries (transparency g') = entries (transparency g)
      /\ ((code = 429 /\ ok = false)
          \/ (code = 400 /\ is_hex_nonce nonce = false)
          \/ (code = 502 /\ http_get_passthrough exchange (attest_url g nonce) = Err msg)
          \/ (exists body, http_get_passthrough exchange (attest_url g nonce) = Ok (code, body)
                /\ is_success code = false /\ msg = from_utf8_lossy body)
          \/ (code = 500 /\ is_ok (now_unix now_ns) = false)
          \/ (code = 500 /\ exists e, msg = lit "transparency log: " ++ io_error_display e))
  end.
Proof.
  unfold proxy_attest. destruct (try_charge _ _ _ _) as [[ok rl]|] eqn:Et; [|done].
  cbn [mbind option_bind]. intros E. exists ok, rl. split; [done|].
  change (attest_url (set_limiter g rl) nonce) with (attest_url g nonce) in E.
  destruct ok; cbn [negb] in E; [|injection E as <- <-; split; [done|]; split; [done|]; by left].
  destruct (is_hex_nonce nonce); cbn [negb] in E;
    [|injection E as <- <-; split; [done|]; split; [done|]; right; by left].
  destruct (http_get_passthrough exchange (attest_url g nonce)) as [[status body]|e];
    [|injection E as <- <-; split; [done|]; split; [done|]; do 2 right; by left].
  destruct (is_success status) eqn:Hs; cbn [negb] in E.
  2: { injection E as <- <-. split; [done|]. split; [done|]. do 3 right. left. by exists body. }
  destruct (decide (32 <= length body)%nat) as [D|D].
  - destruct (now_unix now_ns) as [now|e] eqn:Hnow.
    2: { injection E as <- <-. split; [done|]. split; [done|]. do 4 right. by left. }
    cbn [transparency set_limiter] in E.
    destruct (append (transparency g) (take 32 body) body now io) as [[n|e] l] eqn:Ea;
      injection E as <- <-; (split; [done|]).
    + split_and!; [done|done|by exists status|]. rewrite decide_True by done. exists now.
      split; [done|]. cbn. by apply append_ok_shape in Ea as [-> ->].
    + split; [cbn; by apply append_err_shape in Ea as [-> _]|]. do 5 right. split; [done|]. by exists e.
  - injection E as <- <-. split; [done|]. split_and!; [done|done|by exists status|].
    by rewrite decide_False.
Qed.
End Attest.

(** ** Heads and the disk *)

Section Durability.
Context `{!Sha2, !SerdeJson, !Ed25519, !Hex, !LogEntryJson} (io_error_display : IoError -> bytes).

(** What a machine that stops now may find on disk: any prefix of the file
    that includes everything synced. *)
Definition survives (l : Log.State) (on_disk : bytes) : Prop :=
  exists f k, file l = Some f /\ (synced f <= k <= length (content f))%nat /\ on_disk = take k (content f).

(** A fresh head is durable.  When no other request runs between its
    steps, a head request that misses the cache either fails with the sync,
    as a 500 that signs nothing and leaves log and cache as they were, or
    answers a head that every restart reproduces: wherever the machine stops
    afterwards, the reopened log has the size and the root the head signs. *)
Theorem head_backed `{!Sha2Laws, !HexLaws, !LogEntryJsonLaws} g instant now_ns sync_ok f :
  log_inv (transparency g) -> file (transparency g) = Some f -> head_cached g instant = None ->
  match transparency_head io_error_display g instant now_ns sync_ok with
  | (Err (code, _), g') =>
      sync_ok = false /\ code = 500 /\ entries (transparency g') = entries (transparency g)
      /\ sth_cache g' = sth_cache g
  | (Ok sth, g') =>
      sync_ok = true /\ head_cached g' instant = Some sth /\ log_inv (transparency g')
      /\ forall on_disk, survives (transparency g') on_disk ->
         exists l, open_persistent (Some (durably on_disk)) = Ok l
           /\ status_size (log_status l) = size_ (head sth)
           /\ status_root_hex (log_status l) = root_hex (head sth)
  end.
Proof.
  intros (Hnum & Hpol & Hf) Ff Hmiss. rewrite Ff in Hf. destruct Hf as [Hc _].
  unfold transparency_head, head_flush, flush, sync_data. rewrite Hmiss, Ff.
  destruct sync_ok; cbn; [|done]. split_and!; try done.
  - unfold head_cached. cbn. by rewrite Z.sub_diag.
  - split; [done|]. split; [done|]. split; [done|]. unfold durable. cbn.
    rewrite Nat.sub_0_r, firstn_all, Hc. split; [done|]. split; [lia|].
    destruct (fsync_policy _); lia.
  - intros on_disk (f' & k & [= <-] & Hk & ->). cbn in *. rewrite take_ge by lia.
    rewrite Hc. exists (opened (entries (transparency g))). split; [by apply open_whole|done].
Qed.
End Durability.

(** ** The upstream request line *)

(** A tail with one leading slash and no colon stays whole after the scheme
    is split off, and in the path. *)
Lemma split_scheme_tail t x a rest :
  last t <> Some SLASH -> x !! 1%nat <> Some SLASH -> Byte.x3a ∉ x ->
  split_once (lit "://") (t ++ x) = Some (a, rest) -> exists t', rest = t' ++ x.
Proof.
  intros Ht Hx Hc E%split_once_Some.
  destruct (app_eq_inv _ _ _ _ E) as [(k & Et & Ek)|(k & _ & Ek)].
  - destruct k as [|k0 [|k1 [|k2 k]]]; cbn in Ek.
    + subst x. set_solver.
    + injection Ek as _ Ek. by rewrite <- Ek in Hx.
    + injection Ek as _ <- _. subst t. destruct Ht. by rewrite last_app.
    + injection Ek as _ _ _ ->. by exists k.
  - subst x. set_solver.
Qed.

Lemma split_path_tail t x hp p :
  split_once [SLASH] (t ++ SLASH :: x) = Some (hp, p) -> exists t', SLASH :: p = t' ++ SLASH :: x.
Proof.
  intros E. pose proof (split_once_byte_notin _ _ _ _ E) as N. apply split_once_Some in E.
  destruct (app_eq_inv _ _ _ _ E) as [(k & _ & Ek)|(k & Eh & Ek)]; [by exists k|].
  destruct k as [|k0 k]; [by exists []|]. injection Ek as <- _. set_solver.
Qed.

Lemma split_path_some t x : split_once [SLASH] (t ++ SLASH :: x) <> None.
Proof.
  induction t as [|c t IH]; cbn [app split_once length take]; [by rewrite decide_True|].
  case_decide; [done|]. by destruct (split_once [SLASH] (t ++ SLASH :: x)) as [[]|].
Qed.

Definition not_eol (c : byte) : Prop := c <> Byte.x0d /\ c <> Byte.x0a.

Lemma parse_url_Forall (P : byte -> Prop) url u :
  P SLASH -> Forall P url -> parse_url url = Ok u -> Forall P (host u) /\ Forall P (path u).
Proof.
  intros Ps Pu. unfold parse_url.
  destruct (split_once (lit "://") url) as [[a rest]|] eqn:E1; [|done]. cbn.
  destruct (split_once_Forall P _ _ _ _ E1 Pu) as [_ Pr].
  set (pair := match split_once [SLASH] rest with Some (hp, p) => (hp, SLASH :: p) | None => _ end).
  assert (Hpair : Forall P pair.1 /\ Forall P pair.2).
  { subst pair. destruct (split_once [SLASH] rest) as [[hp p]|] eqn:E2; [|by split; [|repeat constructor]].
    destruct (split_once_Forall P _ _ _ _ E2 Pr). by split; [|constructor]. }
  destruct pair as [hp p], Hpair as [Ph Pp]. cbn in Ph, Pp.
  destruct (split_once _ hp) as [[h q]|] eqn:E3; [|by intros [= <-]].
  destruct (split_once_Forall P _ _ _ _ E3 Ph) as [Ph' _].
  destruct (parse_uint 16 q); cbn; [|done]. by intros [= <-].
Qed.

Lemma parse_url_tail t x u :
  last t <> Some SLASH -> x !! 0%nat <> Some SLASH -> Byte.x3a ∉ x ->
  parse_url (t ++ SLASH :: x) = Ok u -> exists t', path u = t' ++ SLASH :: x.
Proof.
  intros Ht Hx Hc. unfold parse_url.
  destruct (split_once (lit "://") (t ++ SLASH :: x)) as [[a rest]|] eqn:E1; [|done].
  apply split_scheme_tail in E1 as [t' ->]; [|done|done|set_solver]. cbn.
  destruct (split_once [SLASH] (t' ++ SLASH :: x)) as [[hp p]|] eqn:E2;
    [|by apply split_path_some in E2].
  apply split_path_tail in E2 as [t'' E2]. rewrite E2.
  destruct (split_once _ hp) as [[h q]|]; [destruct (parse_uint 16 q)|]; cbn;
    intros Hu; try done; injection Hu as <-; by exists t''.
Qed.

Lemma hex_nonce_chars nonce c : is_hex_nonce nonce = true -> c ∈ nonce -> is_ascii_hexdigit c = true.
Proof.
  unfold is_hex_nonce. rewrite andb_true_iff, forallb_forall. intros [_ Hf] Hc.
  apply Hf. by apply list_elem_of_In.
Qed.

(** No request smuggling.  With an operator's base URL of one line and a
    nonce that passed the check, the request the gateway sends upstream is
    exactly four lines and the empty rest, its first line a [GET] of a path
    that ends in the attestation endpoint with exactly that nonce; the nonce
    can add no line, no header and no second parameter. *)
Theorem attest_request_shape g nonce u :
  Forall not_eol (tee_base_url g) -> is_hex_nonce nonce = true ->
  parse_url (attest_url g nonce) = Ok u ->
  (exists prefix, path u = prefix ++ lit "/v1/attest?nonce=" ++ nonce)
  /\ split_byte Byte.x0a (get_request u)
     = [lit "GET " ++ path u ++ lit " HTTP/1.1" ++ [Byte.x0d]; lit "Host: " ++ host u ++ [Byte.x0d];
        lit "Connection: close" ++ [Byte.x0d]; [Byte.x0d]; []]
  /\ (Byte.x0d ∉ path u) /\ (Byte.x0d ∉ host u) /\ (Byte.x26 ∉ nonce).
Proof.
  intros Hb Hn Hu. pose proof (hex_nonce_chars nonce) as Hc.
  assert (N : forall c, is_ascii_hexdigit c = false -> c ∉ nonce) by (intros c Hf ?; rewrite Hc in Hf; done).
  assert (Forall not_eol (attest_url g nonce)) as Pu.
  { apply Forall_app. split; [by apply trim_end_matches_Forall|]. apply Forall_app. split.
    - repeat constructor; discriminate.
    - apply Forall_forall. intros c Hi. split; intros ->; by eapply N in Hi. }
  destruct (parse_url_Forall not_eol _ _ ltac:(by split) Pu Hu) as [Ph Pp].
  rewrite Forall_forall in Ph, Pp. split_and!.
  - eapply (parse_url_tail _ (lit "v1/attest?nonce=" ++ nonce)); [apply trim_end_matches_last|done| |exact Hu].
    rewrite elem_of_app. intros [Hi|Hi]; [|by eapply N in Hi].
    revert Hi. by apply (bool_decide_unpack (Byte.x3a ∉ lit "v1/attest?nonce=")).
  - assert (NL1 : Byte.x0a ∉ path u) by (intros [_ ?]%Pp; done).
    assert (NL2 : Byte.x0a ∉ host u) by (intros [_ ?]%Ph; done).
    unfold get_request, CRLF.
    assert (K : forall w : bytes, bool_decide (Byte.x0a ∉ w) = true -> Byte.x0a ∉ w)
      by (intros w; apply bool_decide_eq_true_1).
    replace (lit "GET " ++ path u ++ lit " HTTP/1.1" ++ [Byte.x0d; Byte.x0a] ++ lit "Host: " ++ host u
             ++ [Byte.x0d; Byte.x0a] ++ lit "Connection: close" ++ [Byte.x0d; Byte.x0a] ++ [Byte.x0d; Byte.x0a])
      with ((lit "GET " ++ path u ++ lit " HTTP/1.1" ++ [Byte.x0d]) ++ (Byte.x0a
            :: ((lit "Host: " ++ host u ++ [Byte.x0d]) ++ (Byte.x0a
            :: ((lit "Connection: close" ++ [Byte.x0d]) ++ (Byte.x0a :: ([Byte.x0d] ++ [Byte.x0a])))))))
      by (by rewrite <- !app_assoc).
    rewrite !split_byte_app; [done|by apply K|by apply K| |];
      rewrite !not_elem_of_app; split_and!; try done; by apply K.
  - by intros [? _]%Pp.
  - by intros [? _]%Ph.
  - by apply N.
Qed.

(** A gateway over the log [l]. *)
Definition demo_gateway (l : Log.State) : GatewayState :=
  {| tee_base_url := lit "http://tee:8080/"; rate_limiter := RateLimiter_new RateLimiterConfig_default;
     transparency := l; logger_signing_key := replicate 32 Byte.x01; gw_log_id := lit "log"; sth_cache := None |}.

Definition demo_sys (l : Log.State) : Sys :=
  {| gw := demo_gateway l; flushed := 0; signed := []; published := [] |}.

Definition io_text (_ : IoError) : bytes := lit "io".

Lemma head_backed_witness :
  match transparency_head io_text (demo_gateway demo_state) 5 7 true with
  | (Err _, _) => False
  | (Ok sth, g') => size_ (head sth) = 2 /\ head_cached g' 5 = Some sth
  end.
Proof.
  pose proof (head_backed io_text (demo_gateway demo_state) 5 7 true _ demo_state_inv eq_refl eq_refl) as W.
  cbn in W |- *. split; [reflexivity|]. exact (proj1 (proj2 W)).
Defined.

(** The barrier is not enough under a periodic policy.  The barrier and
    the read of the log's status are two steps: an append that fits between
    them is signed although it is not on disk.  From the start of a gateway
    whose log syncs every second append, with every system call succeeding, a
    head of size 1 is answered while a machine that stops then recovers an
    empty log. *)
Theorem head_race :
  exists s sth, rtc (sys_step io_text) (demo_sys (set_fsync_policy (opened []) (Periodic 2))) s
  /\ sth ∈ published s /\ size_ (head sth) = 1
  /\ exists on_disk l, survives (transparency (gw s)) on_disk
     /\ open_persistent (Some (durably on_disk)) = Ok l /\ entries l = [].
Proof.
  eexists _, _. split.
  { eapply rtc_l; [eapply (step_head_flush _ _ 0 true); reflexivity|].
    eapply rtc_l; [eapply (step_append _ _ (replicate 32 Byte.x02) [] 9 io_fine); reflexivity|].
    eapply rtc_l; [eapply (step_head_sign _ _ 10 0); reflexivity|].
    eapply rtc_l; [eapply (step_head_store _ _ 3 _ [] []); reflexivity|]. apply rtc_refl. }
  split; [by left|]. split; [reflexivity|].
  exists [], (opened []). split; [|by split].
  eexists _, O. split; [reflexivity|]. by split; [vm_compute; lia|].
Qed.

Lemma heads_never_fork_witness :
  exists s sth, rtc (sys_step io_text) (demo_sys demo_state) s /\ published s = [sth]
  /\ SignedTreeHead_verify sth = true /\ log_id (head sth) = lit "log".
Proof.
  eexists _, _.
  assert (R : rtc (sys_step io_text) (demo_sys demo_state)
    {| gw := head_store (demo_gateway (flush demo_state true).2)
               (head_sign (demo_gateway (flush demo_state true).2) 10) 3;
       flushed := 0; signed := []; published := [head_sign (demo_gateway (flush demo_state true).2) 10] |}).
  { eapply rtc_l; [eapply (step_head_flush _ _ 0 true); reflexivity|].
    eapply rtc_l; [eapply (step_head_sign _ _ 10 0); reflexivity|].
    eapply rtc_l; [eapply (step_head_store _ _ 3 _ [] []); reflexivity|]. apply rtc_refl. }
  split; [exact R|]. split; [reflexivity|].
  destruct (heads_never_fork io_text (demo_sys demo_state) _ ltac:(done) R) as (_ & P & _).
  destruct (P _ ltac:(by left)) as (V & _ & I & _). by split.
Defined.

(** An upstream that answers any request with a bundle of forty bytes. *)
Definition demo_exchange (_ : bytes) (_ : Z) (_ : bytes) : result bytes bytes :=
  Ok (lit "HTTP/1.1 200 OK" ++ CRLF ++ CRLF ++ replicate 40 Byte.x05).

Definition demo_nonce : bytes := replicate 64 Byte.x61.

Lemma attest_logged_witness :
  match proxy_attest io_text demo_exchange (demo_gateway demo_state) (Some (lit "acme")) demo_nonce 5
          (10 ^ 9) io_fine with
  | Some (Ok body, g') => body = replicate 40 Byte.x05 /\ length (entries (transparency g')) = 3%nat
  | _ => False
  end.
Proof.
  assert (F : fst <$> proxy_attest io_text demo_exchange (demo_gateway demo_state) (Some (lit "acme"))
                demo_nonce 5 (10 ^ 9) io_fine = Some (Ok (replicate 40 Byte.x05))) by (vm_compute; reflexivity).
  destruct (proxy_attest io_text demo_exchange (demo_gateway demo_state) (Some (lit "acme")) demo_nonce 5
              (10 ^ 9) io_fine) as [[r g']|] eqn:E; [|done]. injection F as ->.
  destruct (attest_logged io_text _ _ _ _ _ _ _ _ _ E) as (ok & rl & _ & _ & _ & _ & _ & P).
  split; [done|]. destruct P as (now & _ & ->). reflexivity.
Defined.

Lemma attest_request_shape_witness :
  exists u, parse_url (attest_url (demo_gateway demo_state) demo_nonce) = Ok u /\ port u = 8080
  /\ length (split_byte Byte.x0a (get_request u)) = 5%nat
  /\ exists prefix, path u = prefix ++ lit "/v1/attest?nonce=" ++ demo_nonce.
Proof.
  eexists. split; [vm_compute; reflexivity|]. split; [reflexivity|].
  destruct (attest_request_shape (demo_gateway demo_state) demo_nonce
    {| host := lit "tee"; port := 8080; path := lit "/v1/attest?nonce=" ++ demo_nonce |}) as (P & _);
    [repeat constructor; discriminate|vm_compute; reflexivity..|].
  split; [vm_compute; reflexivity|]. exact P.
Defined.

(** ** Metric labels *)

(** How a scraper reads a quoted label: a backslash takes the next byte with
    it, the first other quote ends the label. *)
Fixpoint label_end (l : bytes) : option (bytes * bytes) :=
  match l with
  | [] => None
  | c :: l1 =>
      if decide (c = QUOTE) then Some ([], l1)
      else if decide (c = BACKSLASH) then
        match l1 with
        | [] => None
        | d :: l2 => '(a, b) ← label_end l2; Some (c :: d :: a, b)
        end
      else '(a, b) ← label_end l1; Some (c :: a, b)
  end.

(** Bytes a scraper passes over: neither quote nor backslash nor control. *)
Definition plain (c : byte) : Prop := 32 <= uval c /\ uval c <> 34 /\ uval c <> 92.

Lemma label_end_plain w l : Forall plain w ->
  label_end (w ++ l) = '(a, b) ← label_end l; Some (w ++ a, b).
Proof.
  induction 1 as [|c w (_ & Hq & Hb) _ IH]; cbn [app label_end]; [by destruct (label_end l) as [[]|]|].
  rewrite !decide_False by (intros ->; done). rewrite IH. by destruct (label_end l) as [[]|].
Qed.

Lemma hexdigit_plain w : Forall (fun c => is_ascii_hexdigit c = true) w -> Forall plain w.
Proof.
  intros F. eapply Forall_impl; [exact F|]. intros c. unfold is_ascii_hexdigit, is_ascii_digit, plain.
  rewrite !orb_true_iff, !andb_true_iff, !Z.leb_le. lia.
Qed.

Lemma fmt_hex_pad_plain w n : 0 <= n -> Forall plain (fmt_hex_pad w n).
Proof.
  intros Hn. apply Forall_app. split; [|by apply hexdigit_plain, fmt_hex_digits].
  apply Forall_forall. intros c [-> _]%elem_of_replicate. repeat split; discriminate.
Qed.

Lemma sanitize_char_scanned c l : 0 <= c < 2 ^ 21 ->
  label_end (sanitize_char c ++ l) = '(a, b) ← label_end l; Some (sanitize_char c ++ a, b).
Proof.
  intros Hc. unfold sanitize_char.
  assert (K : forall d w, Forall plain w -> label_end ((BACKSLASH :: d :: w) ++ l)
    = '(a, b) ← label_end l; Some ((BACKSLASH :: d :: w) ++ a, b)).
  { intros d w Hw. cbn [app label_end]. rewrite decide_False, decide_True by done.
    rewrite label_end_plain by done. by destruct (label_end l) as [[]|]. }
  destruct (Z.eqb_spec c 92); [by apply (K _ [])|]. destruct (Z.eqb_spec c 34); [by apply (K _ [])|].
  destruct (Z.eqb_spec c 10); [by apply (K _ [])|]. destruct (Z.eqb_spec c 13); [by apply (K _ [])|].
  destruct (is_control c) eqn:Ec; [apply (K Byte.x78), fmt_hex_pad_plain; lia|].
  match goal with |- context [if ?b then _ else _] => destruct b end;
    [apply (K Byte.x75), fmt_hex_pad_plain; lia|].
  apply label_end_plain. unfold is_control in Ec. apply orb_false_iff in Ec as [Ec _]. apply Z.leb_gt in Ec.
  destruct (Z.ltb_spec c 0x80).
  - unfold char_utf8. destruct (Z.ltb_spec c 0x80); [|lia]. constructor; [|constructor].
    unfold plain. rewrite uval_of_Z; unfold is_u8; lia.
  - eapply Forall_impl; [apply char_utf8_high; lia|]. unfold plain. cbn. lia.
Qed.

(** Whatever the log's name holds, a scraper reads the sanitised label as one
    label, up to the closing quote the exporter wrote. *)
Lemma label_scanned s rest :
  label_end (sanitize_metric_label s ++ QUOTE :: rest) = Some (sanitize_metric_label s, rest).
Proof.
  unfold sanitize_metric_label. induction (chars_range s) as [|c cs Hc _ IH]; cbn [fmap list_fmap concat].
  - cbn. by rewrite decide_True.
  - rewrite <- app_assoc. rewrite sanitize_char_scanned by done.
    change (concat (sanitize_char <$> cs)) with (List.concat (sanitize_char <$> cs)) in *.
    by rewrite IH.
Qed.

(** A letter stays one when its case is folded back. *)
Lemma lowercase_letter c : 97 <= uval (to_ascii_lowercase c) <= 122 ->
  is_ascii c = true /\ is_whitespace (uval c) = false /\ is_ascii_whitespace c = false.
Proof.
  intros Hc. assert (R : 65 <= uval c <= 122).
  { unfold to_ascii_lowercase, is_ascii_upper in Hc. pose proof (uval_range c).
    destruct (Z.leb_spec 65 (uval c)), (Z.leb_spec (uval c) 90); cbn [andb] in Hc; lia. }
  unfold is_ascii, is_whitespace, is_ascii_whitespace. split; [lia|]. split; lia.
Qed.

Lemma trim_start_spaces n l : Forall (fun c => is_ascii c = true) l ->
  (forall c, hd_error l = Some c -> is_whitespace (uval c) = false) ->
  trim_start (replicate n Byte.x20 ++ l) = l.
Proof.
  intros Al Hl. unfold trim_start. rewrite chars_ascii.
  2:{ apply Forall_app. split; [by apply Forall_replicate|done]. }
  rewrite fmap_app. induction n as [|n IH]; [|exact IH]. cbn [replicate fmap list_fmap app].
  destruct l as [|c l]; [done|]. cbn [fmap list_fmap drop_while]. rewrite (Hl c) by done.
  by apply (encode_chars_ascii (c :: l)).
Qed.

(** A credential behind the scheme in any case and any number of spaces. *)
Lemma parse_bearer_spaces scheme k cred :
  eq_ignore_ascii_case scheme (lit "Bearer") = true -> Forall (fun c => is_ascii c = true) cred ->
  (forall c, hd_error cred = Some c -> is_whitespace (uval c) = false) ->
  parse_bearer_credential (scheme ++ replicate (S k) Byte.x20 ++ cred) = Some cred.
Proof.
  intros Hs Hc Hh. assert (Hs' := Hs). unfold eq_ignore_ascii_case in Hs'. apply bool_decide_eq_true in Hs'.
  assert (A : Forall (fun c => is_ascii c = true /\ is_whitespace (uval c) = false
                               /\ is_ascii_whitespace c = false) scheme).
  { apply Forall_forall. intros c Hi. apply lowercase_letter.
    assert (F : Forall (fun d => 97 <= uval d <= 122) (to_ascii_lowercase <$> scheme))
      by (rewrite Hs'; repeat constructor; discriminate).
    rewrite Forall_fmap, Forall_forall in F. by apply F. }
  assert (Ha : Forall (fun c => is_ascii c = true) (scheme ++ replicate (S k) Byte.x20 ++ cred)).
  { rewrite !Forall_app. split_and!; [eapply Forall_impl; [exact A|naive_solver]|by apply Forall_replicate|done]. }
  unfold parse_bearer_credential. pose proof (trim_start_spaces 0 _ Ha) as T0. change (replicate 0 Byte.x20 ++ ?l) with l in T0. rewrite T0.
  2:{ destruct scheme as [|c0 scheme]; [done|]. intros c [= <-]. apply Forall_cons in A as [(_ & W & _) _].
      exact W. }
  assert (S1 : split_ascii_whitespace (scheme ++ replicate (S k) Byte.x20 ++ cred)
               = (scheme, Some (replicate k Byte.x20 ++ cred))).
  { clear -A. induction A as [|c scheme (_ & _ & Hw) _ IH]; [done|]. cbn [app split_ascii_whitespace].
    by rewrite Hw, IH. }
  rewrite S1, Hs. cbn. by rewrite trim_start_spaces.
Qed.

(** With a token set, the metrics are answered exactly to a request that
    presents it; every other request gets the empty 404. *)
Lemma metrics_route_token `{!Subtle, !SubtleLaws} token h answer : token <> [] ->
  metrics_route (Some token) h answer
  = if decide (default [] (v ← h; parse_bearer_credential v) = token) then Ok answer else Err (404, []).
Proof.
  intros Ht. unfold metrics_route, metrics_auth_gate. rewrite decide_False by done.
  case_decide as D.
  - by rewrite (proj2 (ct_eq_spec _ _) D).
  - destruct (ct_eq _ _) eqn:E; [|done]. by apply ct_eq_spec in E.
Qed.
