(* ===== verification/Relay.v ===== *)
(** * ullm-gateway: the WebSocket relay

    [relay] of [crates/ullm-gateway/src/proxy.rs] and the conversions it uses.
    Two loops, one per direction, run interleaved and share the rate limiter
    with every other request; the first error ends both ([try_join!]).  A
    stream is what it yields and whether it then ends or stays open and
    silent: the loops wait for the next message without a time limit.  The
    WebSocket library's close codes are an argument. *)

From S2P Require Import Prelude RustStd RustText Lru Float64 RateLimit Gateway.
From Stdlib Require Import Lia.

Local Open Scope Z_scope.

(** tungstenite's [CloseCode] and its conversions with [u16]. *)
Class CloseCodes := { CloseCode : Type; CloseCode_from : Z -> CloseCode; CloseCode_into : CloseCode -> Z }.
Class CloseCodesLaws `{CloseCodes} : Prop := {
  CloseCode_into_from c : is_u16 c -> CloseCode_into (CloseCode_from c) = c }.

(** axum's message. *)
Inductive Message :=
| MText (s : bytes) | MBinary (b : bytes) | MPing (b : bytes) | MPong (b : bytes)
| MClose (c : option (Z * bytes)).

(** ** One direction *)

(** What one turn of a loop does: the message sent and the loop goes on, sent
    and the loop ends, or an error. *)
Inductive turn (T : Type) := Forward (t : T) | Last (t : T) | Stop (e : bytes).
Arguments Forward {T}.
Arguments Last {T}.
Arguments Stop {T}.

(** One turn: [item] is what the stream yielded, [send] how sending goes.  The
    loops differ in their types and the word of the refusal only. *)
Definition relay_turn {M T} (len : M -> Z) (translate : M -> T) (is_close : T -> bool) (word : bytes)
    (rl : RateLimiter) (tenant : bytes) (item : result M bytes) (instant : Z) (send : result unit bytes)
  : option (turn T * RateLimiter) :=
  match item with
  | Err e => Some (Stop e, rl)
  | Ok msg =>
      let bytes_len := len msg in
      '(ok, rl) ← (if 0 <? bytes_len then try_charge rl tenant bytes_len instant else Some (true, rl));
      if negb ok then Some (Stop (lit "tenant " ++ tenant ++ lit " rate-limited " ++ word), rl) else
      let translated := translate msg in
      Some (match send with
            | Err e => Stop e
            | Ok _ => if is_close translated then Last translated else Forward translated
            end, rl)
  end.

(** A socket's receiving half: the items it yields, and whether it then ends
    ([None] from [next]) or stays open without yielding anything. *)
Record Stream (M : Type) := { items : list (result M bytes); closes : bool }.
Arguments items {M}.
Arguments closes {M}.

(** One direction: what the stream still yields, what was sent, whether the
    loop has ended. *)
Record Dir (M T : Type) := { source : Stream M; sent : list T; ended : bool }.
Arguments source {M T}.
Arguments sent {M T}.
Arguments ended {M T}.

Definition pending {M T} (d : Dir M T) : list (result M bytes) := items (source d).

(** The loop has not ended and [next] does not return. *)
Definition waits {M T} (d : Dir M T) : Prop :=
  ended d = false /\ pending d = [] /\ closes (source d) = false.

Section Relay.
Context `{!CloseCodes}.

(** tungstenite's message; [TFrame] is a raw frame. *)
Inductive TMsg :=
| TText (s : bytes) | TBinary (b : bytes) | TPing (b : bytes) | TPong (b : bytes)
| TClose (c : option (CloseCode * bytes)) | TFrame (f : bytes).

Definition msg_len (m : Message) : Z :=
  match m with MText s => Z.of_nat (length s) | MBinary b => Z.of_nat (length b) | _ => 0 end.

Definition tmsg_len (m : TMsg) : Z :=
  match m with TText s => Z.of_nat (length s) | TBinary b => Z.of_nat (length b) | _ => 0 end.

Definition translate_axum_to_tungstenite (m : Message) : TMsg :=
  match m with
  | MText s => TText s
  | MBinary b => TBinary b
  | MPing b => TPing b
  | MPong b => TPong b
  | MClose c => TClose ((fun c => (CloseCode_from c.1, c.2)) <$> c)
  end.

Definition translate_tungstenite_to_axum (m : TMsg) : Message :=
  match m with
  | TText s => MText s
  | TBinary b => MBinary b
  | TPing b => MPing b
  | TPong b => MPong b
  | TClose c => MClose ((fun c => (CloseCode_into c.1, c.2)) <$> c)
  | TFrame _ => MClose None
  end.

Definition http_to_ws (url : bytes) : bytes :=
  match strip_prefix (lit "http://") url with
  | Some rest => lit "ws://" ++ rest
  | None =>
      match strip_prefix (lit "https://") url with
      | Some rest => lit "wss://" ++ rest
      | None => url
      end
  end.

Definition is_tclose (m : TMsg) : bool := match m with TClose _ => true | _ => false end.
Definition is_mclose (m : Message) : bool := match m with MClose _ => true | _ => false end.

Definition c_to_u := relay_turn msg_len translate_axum_to_tungstenite is_tclose (lit "inbound").
Definition u_to_c := relay_turn tmsg_len translate_tungstenite_to_axum is_mclose (lit "outbound").

(** ** The two loops together *)

Record RelayState := {
  limiter : RateLimiter;
  inbound : Dir Message TMsg;
  outbound : Dir TMsg Message;
  failure : option bytes;
}.

(** A turn's effect on its direction and on the relay's outcome. *)
Definition after_turn {M T} (d : Dir M T) (rest : list (result M bytes)) (t : turn T) : Dir M T * option bytes :=
  let source := {| items := rest; closes := closes (source d) |} in
  match t with
  | Forward m => ({| source := source; sent := sent d ++ [m]; ended := false |}, None)
  | Last m => ({| source := source; sent := sent d ++ [m]; ended := true |}, None)
  | Stop e => ({| source := source; sent := sent d; ended := true |}, Some e)
  end.

(** The end of the [while let]. *)
Definition after_end {M T} (d : Dir M T) : Dir M T :=
  {| source := source d; sent := sent d; ended := true |}.

Inductive relay_step (tenant : bytes) (s : RelayState) : RelayState -> Prop :=
| step_in item rest instant send t rl d f :
    failure s = None -> ended (inbound s) = false -> pending (inbound s) = item :: rest ->
    c_to_u (limiter s) tenant item instant send = Some (t, rl) ->
    after_turn (inbound s) rest t = (d, f) ->
    relay_step tenant s {| limiter := rl; inbound := d; outbound := outbound s; failure := f |}
| step_in_end :
    failure s = None -> ended (inbound s) = false -> pending (inbound s) = [] -> closes (source (inbound s)) = true ->
    relay_step tenant s {| limiter := limiter s; inbound := after_end (inbound s); outbound := outbound s;
      failure := None |}
| step_out item rest instant send t rl d f :
    failure s = None -> ended (outbound s) = false -> pending (outbound s) = item :: rest ->
    u_to_c (limiter s) tenant item instant send = Some (t, rl) ->
    after_turn (outbound s) rest t = (d, f) ->
    relay_step tenant s {| limiter := rl; inbound := inbound s; outbound := d; failure := f |}
| step_out_end :
    failure s = None -> ended (outbound s) = false -> pending (outbound s) = [] -> closes (source (outbound s)) = true ->
    relay_step tenant s {| limiter := limiter s; inbound := inbound s; outbound := after_end (outbound s);
      failure := None |}
| step_other other n instant ok rl :
    is_u64 n -> try_charge (limiter s) other n instant = Some (ok, rl) ->
    relay_step tenant s {| limiter := rl; inbound := inbound s; outbound := outbound s; failure := failure s |}.

Definition relay_start (rl : RateLimiter) (ins : Stream Message) (outs : Stream TMsg) : RelayState :=
  {| limiter := rl; inbound := {| source := ins; sent := []; ended := false |};
     outbound := {| source := outs; sent := []; ended := false |}; failure := None |}.

(** Both loops ended, or one failed: [relay] has returned. *)
Definition relay_over (s : RelayState) : Prop :=
  (exists e, failure s = Some e) \/ (ended (inbound s) = true /\ ended (outbound s) = true).

(** What a direction that meets no error forwards: everything, translated, in
    order, up to the first close. *)
Fixpoint forwarded {M T} (translate : M -> T) (is_close : T -> bool) (items : list (result M bytes)) : list T :=
  match items with
  | Ok m :: items =>
      let t := translate m in
      if is_close t then [t] else t :: forwarded translate is_close items
  | _ => []
  end.

(** ** What a relay forwards *)

Section Direction.
Context {M T : Type} (len : M -> Z) (translate : M -> T) (is_close : T -> bool) (word : bytes).

(** A message that is forwarded and after which the loop goes on. *)
Definition passes (item : result M bytes) : Prop := exists m, item = Ok m /\ is_close (translate m) = false.

(** A direction against the stream it started with. *)
Definition dir_inv (items : list (result M bytes)) (d : Dir M T) (fail : option bytes) : Prop :=
  (ended d = false -> forwarded translate is_close items
                      = sent d ++ forwarded translate is_close (pending d)
                      /\ exists done, items = done ++ pending d /\ Forall passes done)
  /\ (ended d = true -> fail = None -> sent d = forwarded translate is_close items)
  /\ sent d `prefix_of` forwarded translate is_close items.

Lemma dir_inv_fail items d e : dir_inv items d None -> dir_inv items d e.
Proof. intros (I1 & I2 & I3). split_and!; [done| |done]. intros E _. by apply I2. Qed.

Lemma relay_turn_inv items d item rest rl tenant instant send t rl' d' f :
  dir_inv items d None -> ended d = false -> pending d = item :: rest ->
  relay_turn len translate is_close word rl tenant item instant send = Some (t, rl') ->
  after_turn d rest t = (d', f) -> dir_inv items d' f.
Proof.
  intros (I1 & _ & I3) He Hp. destruct (I1 He) as (I1' & dn & Hd & Fd). clear I1.
  rewrite Hp in I1', Hd. unfold relay_turn.
  destruct item as [msg|e]; cbn [forwarded] in I1'.
  2:{ intros [= <- _] [= <- <-]. by split_and!. }
  destruct (if 0 <? len msg then _ else _) as [[ok rl1]|]; [|done]. cbn.
  destruct ok; cbn; [|intros [= <- _] [= <- <-]; by split_and!].
  destruct send as [[]|e]; [|intros [= <- _] [= <- <-]; by split_and!].
  destruct (is_close (translate msg)) eqn:Hc; intros [= <- _] [= <- <-].
  - rewrite <- I1'. by split_and!.
  - split_and!; [|done|]; cbn.
    + intros _. split; [by rewrite I1', <- app_assoc|]. exists (dn ++ [Ok msg]). rewrite <- app_assoc.
      split; [exact Hd|]. apply Forall_app. split; [done|]. constructor; [by exists msg|constructor].
    + rewrite I1'. exists (forwarded translate is_close rest). by rewrite <- app_assoc.
Qed.

Lemma stream_end_inv items d :
  dir_inv items d None -> ended d = false -> pending d = [] -> dir_inv items (after_end d) None.
Proof.
  intros (I1 & _ & I3) He Hp. destruct (I1 He) as (I1' & _). rewrite Hp, app_nil_r in I1'.
  split_and!; [done| |done]. intros _ _. by cbn.
Qed.

(** Everything a waiting loop's stream yielded was forwarded. *)
Lemma waits_inv items d fail :
  dir_inv items d fail -> waits d -> sent d = forwarded translate is_close items /\ Forall passes items.
Proof.
  intros (I1 & _) (He & Hp & _). destruct (I1 He) as (I1' & dn & Hd & Fd).
  rewrite Hp, app_nil_r in I1', Hd. by subst.
Qed.

(** A turn always has a result, and keeps the limiter's invariant. *)
Lemma relay_turn_total rl tenant item instant send :
  limiter_inv rl -> (forall m, item = Ok m -> is_u64 (len m)) ->
  exists t rl', relay_turn len translate is_close word rl tenant item instant send = Some (t, rl')
    /\ limiter_inv rl'.
Proof.
  intros I Hn. unfold relay_turn. destruct item as [msg|e]; [|by eexists _, _].
  assert (G : exists ok rl1, (if 0 <? len msg then try_charge rl tenant (len msg) instant else Some (true, rl))
              = Some (ok, rl1) /\ limiter_inv rl1).
  { destruct (0 <? len msg); [|by eexists _, _].
    destruct (try_charge_spec rl tenant (len msg) instant I (Hn _ eq_refl)) as (ok & r1 & b & E & I1 & _).
    by exists ok, r1. }
  destruct G as (ok & rl1 & -> & I1). cbn. destruct ok; by eexists _, _.
Qed.
End Direction.

Definition item_ok {M} (len : M -> Z) (item : result M bytes) : Prop := forall m, item = Ok m -> is_u64 (len m).

Definition relay_inv (ins : Stream Message) (outs : Stream TMsg) (s : RelayState) : Prop :=
  limiter_inv (limiter s)
  /\ dir_inv translate_axum_to_tungstenite is_tclose (items ins) (inbound s) (failure s)
  /\ dir_inv translate_tungstenite_to_axum is_mclose (items outs) (outbound s) (failure s)
  /\ Forall (item_ok msg_len) (pending (inbound s)) /\ Forall (item_ok tmsg_len) (pending (outbound s))
  /\ closes (source (inbound s)) = closes ins /\ closes (source (outbound s)) = closes outs.

Lemma after_turn_pending {M T} (d : Dir M T) rest t d' f : after_turn d rest t = (d', f) ->
  pending d' = rest /\ closes (source d') = closes (source d).
Proof. destruct t; by intros [= <- _]. Qed.

Lemma relay_step_inv tenant ins outs s s' :
  relay_inv ins outs s -> relay_step tenant s s' -> relay_inv ins outs s'.
Proof.
  intros (I & Di & Do & Fi & Fo & Ci & Co) Hs. unfold relay_inv.
  destruct Hs as [item rest instant send t rl d f Hf He Hp E A|Hf He Hp Hc
                 |item rest instant send t rl d f Hf He Hp E A|Hf He Hp Hc|other n instant ok rl Hn E]; cbn.
  - rewrite Hf in *. rewrite Hp in Fi. apply Forall_cons in Fi as [F0 Fi].
    destruct (relay_turn_total msg_len translate_axum_to_tungstenite is_tclose (lit "inbound") (limiter s)
      tenant item instant send I F0) as (t' & rl' & E' & I').
    unfold c_to_u in E. rewrite E in E'. injection E' as <- <-.
    destruct (after_turn_pending _ _ _ _ _ A) as [-> ->].
    by split_and!; [done|eapply relay_turn_inv|apply dir_inv_fail|..].
  - rewrite Hf in *. split_and!; try done. by apply stream_end_inv.
  - rewrite Hf in *. rewrite Hp in Fo. apply Forall_cons in Fo as [F0 Fo].
    destruct (relay_turn_total tmsg_len translate_tungstenite_to_axum is_mclose (lit "outbound") (limiter s)
      tenant item instant send I F0) as (t' & rl' & E' & I').
    unfold u_to_c in E. rewrite E in E'. injection E' as <- <-.
    destruct (after_turn_pending _ _ _ _ _ A) as [-> ->].
    by split_and!; [done|apply dir_inv_fail|eapply relay_turn_inv|..].
  - rewrite Hf in *. split_and!; try done. by apply stream_end_inv.
  - split_and!; try done. destruct (try_charge_spec (limiter s) other n instant I Hn) as (? & ? & ? & E' & I' & _).
    rewrite E in E'. by injection E' as <- <-.
Qed.

Lemma relay_reachable_inv tenant rl ins outs s :
  limiter_inv rl -> Forall (item_ok msg_len) (items ins) -> Forall (item_ok tmsg_len) (items outs) ->
  rtc (relay_step tenant) (relay_start rl ins outs) s -> relay_inv ins outs s.
Proof.
  intros I Fi Fo Hr.
  assert (G : forall s0, relay_inv ins outs s0 -> rtc (relay_step tenant) s0 s -> relay_inv ins outs s).
  { clear Hr. intros s0 H0 R. induction R as [|s1 s2 s3 Hs _ IH]; [done|]. apply IH. by eapply relay_step_inv. }
  apply (G (relay_start rl ins outs)); [|done].
  assert (P : forall A (l : list A), [] `prefix_of` l) by (intros; apply prefix_nil).
  split_and!; [exact I|split_and!; [|done|apply P]|split_and!; [|done|apply P]|done..];
    (intros _; split; [done|by exists []]).
Qed.

(** C27. The relay is a faithful pipe.  However its two loops, the clock and
    other tenants' charges interleave, each side has been sent exactly a
    prefix of what the other side sent, translated, in order and never past a
    close frame; a loop that ended without a failure has delivered all of it
    up to the close or the end of the stream. *)
Theorem relay_faithful tenant rl ins outs s :
  limiter_inv rl -> Forall (item_ok msg_len) (items ins) -> Forall (item_ok tmsg_len) (items outs) ->
  rtc (relay_step tenant) (relay_start rl ins outs) s ->
  let to_upstream := forwarded translate_axum_to_tungstenite is_tclose (items ins) in
  let to_client := forwarded translate_tungstenite_to_axum is_mclose (items outs) in
  sent (inbound s) `prefix_of` to_upstream /\ sent (outbound s) `prefix_of` to_client
  /\ (failure s = None -> (ended (inbound s) = true -> sent (inbound s) = to_upstream)
                          /\ (ended (outbound s) = true -> sent (outbound s) = to_client)).
Proof.
  intros I Fi Fo Hr. destruct (relay_reachable_inv _ _ _ _ _ I Fi Fo Hr) as (_ & Di & Do & _).
  destruct Di as (_ & Di2 & Di3), Do as (_ & Do2 & Do3). split_and!; try done; auto.
Qed.

(** A loop that does not wait for its peer can take a turn. *)
Lemma inbound_moves tenant s :
  limiter_inv (limiter s) -> Forall (item_ok msg_len) (pending (inbound s)) ->
  failure s = None -> ended (inbound s) = false ->
  waits (inbound s) \/ exists s', relay_step tenant s s' /\ inbound s' <> inbound s.
Proof.
  intros I F Hf He. destruct (pending (inbound s)) as [|item rest] eqn:Hp.
  - destruct (closes (source (inbound s))) eqn:Hc; [right|by left].
    eexists. split; [by apply step_in_end|]. cbn. intros E. apply (f_equal ended) in E. cbn in E. congruence.
  - right. apply Forall_cons in F as [F0 _].
    destruct (relay_turn_total msg_len translate_axum_to_tungstenite is_tclose (lit "inbound") (limiter s)
      tenant item 0 (Ok tt) I F0) as (t & rl & E & _).
    destruct (after_turn (inbound s) rest t) as [d f] eqn:A.
    eexists. split; [by eapply step_in|]. cbn. intros ->. apply after_turn_pending in A as [A _].
    rewrite Hp in A. apply (f_equal length) in A. cbn in A. lia.
Qed.

Lemma outbound_moves tenant s :
  limiter_inv (limiter s) -> Forall (item_ok tmsg_len) (pending (outbound s)) ->
  failure s = None -> ended (outbound s) = false ->
  waits (outbound s) \/ exists s', relay_step tenant s s' /\ outbound s' <> outbound s.
Proof.
  intros I F Hf He. destruct (pending (outbound s)) as [|item rest] eqn:Hp.
  - destruct (closes (source (outbound s))) eqn:Hc; [right|by left].
    eexists. split; [by apply step_out_end|]. cbn. intros E. apply (f_equal ended) in E. cbn in E. congruence.
  - right. apply Forall_cons in F as [F0 _].
    destruct (relay_turn_total tmsg_len translate_tungstenite_to_axum is_mclose (lit "outbound") (limiter s)
      tenant item 0 (Ok tt) I F0) as (t & rl & E & _).
    destruct (after_turn (outbound s) rest t) as [d f] eqn:A.
    eexists. split; [by eapply step_out|]. cbn. intros ->. apply after_turn_pending in A as [A _].
    rewrite Hp in A. apply (f_equal length) in A. cbn in A. lia.
Qed.

(** Neither loop can take a turn; other tenants' charges do not count. *)
Definition stuck (tenant : bytes) (s : RelayState) : Prop :=
  forall s', relay_step tenant s s' -> inbound s' = inbound s /\ outbound s' = outbound s /\ failure s' = failure s.

(** A loop that has ended or waits takes no turn. *)
Definition idle {M T} (d : Dir M T) : Prop := ended d = true \/ waits d.

Lemma idle_stuck tenant s : failure s <> None \/ (idle (inbound s) /\ idle (outbound s)) -> stuck tenant s.
Proof.
  intros Hq s' [item rest instant send t rl d f Hf He Hp E A|Hf He Hp Hc
    |item rest instant send t rl d f Hf He Hp E A|Hf He Hp Hc|other n instant ok rl Hn E]; [..|done];
    exfalso; destruct Hq as [Hq|[[Hi|(_ & Hi & Hi')] [Ho|(_ & Ho & Ho')]]]; congruence.
Qed.

Lemma stuck_forever tenant s s' :
  failure s <> None \/ (idle (inbound s) /\ idle (outbound s)) -> rtc (relay_step tenant) s s' ->
  inbound s' = inbound s /\ outbound s' = outbound s /\ failure s' = failure s.
Proof.
  intros Hq Hr. induction Hr as [|s1 s2 s3 Hs _ IH]; [done|].
  destruct (idle_stuck tenant s1 Hq s2 Hs) as (E1 & E2 & E3).
  rewrite E1, E2, E3 in IH. by apply IH.
Qed.


(** Nothing is changed on the way through both conversions. *)
Lemma translate_roundtrip `{!CloseCodesLaws} m :
  (forall c r, m = MClose (Some (c, r)) -> is_u16 c) ->
  translate_tungstenite_to_axum (translate_axum_to_tungstenite m) = m.
Proof.
  destruct m as [| | | |[[c r]|]]; try done. intros Hc. cbn. by rewrite CloseCode_into_from by eauto.
Qed.
End Relay.

(** Close codes as the library's [u16] itself. *)
Definition plain_codes : CloseCodes := {| CloseCode := Z; CloseCode_from c := c; CloseCode_into c := c |}.

Definition demo_limiter : RateLimiter := RateLimiter_new RateLimiterConfig_default.

Lemma demo_limiter_inv : limiter_inv demo_limiter.
Proof.
  split; [vm_compute; repeat split; discriminate|]. split; [apply lockstep_empty|].
  split; [vm_compute; discriminate|apply map_Forall_empty].
Qed.

(** A client that sends a binary message, closes, and sends after the close,
    and an upstream that stays silent. *)
Definition demo_ins : Stream Message :=
  {| items := [Ok (MBinary (lit "abc")); Ok (MClose (Some (1000, []))); Ok (MText (lit "late"))]; closes := true |}.
Definition silent {M} : Stream M := {| items := []; closes := false |}.

Lemma demo_ins_ok : Forall (item_ok msg_len) (items demo_ins).
Proof.
  repeat (apply Forall_cons; split); [..|constructor]; intros m [= <-]; vm_compute; split; congruence.
Qed.

(** The client's close has been forwarded; upstream does not answer. *)
Definition demo_held `{!CloseCodes} (rl : RateLimiter) : RelayState :=
  {| limiter := rl; inbound := {| source := {| items := [Ok (MText (lit "late"))]; closes := true |};
       sent := [TBinary (lit "abc"); TClose (Some (CloseCode_from 1000, []))]; ended := true |};
     outbound := {| source := silent; sent := []; ended := false |}; failure := None |}.

Lemma demo_held_reached `{!CloseCodes} :
  exists rl, rtc (relay_step (lit "t")) (relay_start demo_limiter demo_ins silent) (demo_held rl).
Proof.
  destruct (relay_turn_total msg_len translate_axum_to_tungstenite is_tclose (lit "inbound") demo_limiter
    (lit "t") (Ok (MBinary (lit "abc"))) 0 (Ok tt) demo_limiter_inv) as (t & rl & E & _).
  { intros m [= <-]. vm_compute. split; congruence. }
  assert (Ht : t = Forward (TBinary (lit "abc"))).
  { assert (F : fst <$> relay_turn msg_len translate_axum_to_tungstenite is_tclose (lit "inbound") demo_limiter
      (lit "t") (Ok (MBinary (lit "abc"))) 0 (Ok tt) = Some (Forward (TBinary (lit "abc"))))
      by (vm_compute; reflexivity).
    rewrite E in F. by injection F. }
  subst t. exists rl.
  eapply rtc_l; [eapply step_in; [done..|exact E|reflexivity]|].
  eapply rtc_l; [eapply (step_in _ _ _ _ 1 (Ok tt)); reflexivity|]. apply rtc_refl.
Qed.

Lemma relay_faithful_witness :
  let cc := plain_codes in
  exists s, rtc (relay_step (lit "t")) (relay_start demo_limiter demo_ins silent) s
  /\ ended (inbound s) = true
  /\ sent (inbound s) = [TBinary (lit "abc"); TClose (Some (1000, []))].
Proof.
  intros cc. destruct demo_held_reached as [rl R]. exists (demo_held rl).
  split; [exact R|]. split; [reflexivity|].
  destruct (relay_faithful (lit "t") demo_limiter demo_ins silent _ demo_limiter_inv demo_ins_ok
    ltac:(constructor) R) as (_ & _ & F).
  exact (proj1 (F eq_refl) eq_refl).
Defined.

