(* ===== verification/SessionToken.v ===== *)
(** * ullm-gateway: signed session tokens for sticky routing

    [crates/ullm-gateway/src/session_token.rs].  The separator is one ASCII
    byte, so the string functions act on the UTF-8 bytes. *)

From S2P Require Import Prelude RustStd Core Crates Toy.
From Stdlib Require Import Lia.

Local Open Scope Z_scope.

Record SessionToken := { replica_id : bytes; epoch : Z; expiry_unix : Z }.

Record SessionTokenSigner := { key : bytes }.

Definition DOT : byte := Byte.x2e.

Section Token.
Context `{!Hmac, !Hex, !Subtle}.

Definition mac (s : SessionTokenSigner) (body : bytes) : bytes := hmac_sha256 (key s) body.

Definition token_body (t : SessionToken) : bytes :=
  replica_id t ++ [DOT] ++ fmt_dec (epoch t) ++ [DOT] ++ fmt_dec (expiry_unix t).

Definition sign (s : SessionTokenSigner) (t : SessionToken) : bytes :=
  let body := token_body t in
  body ++ [DOT] ++ hex_encode (mac s body).

Definition parse_body (body : bytes) : option SessionToken :=
  let parts := splitn 3 DOT body in
  replica ← parts !! 0%nat;
  e ← parts !! 1%nat;
  ep ← parse_uint 32 e;
  x ← parts !! 2%nat;
  exp ← parse_uint 64 x;
  Some {| replica_id := replica; epoch := ep; expiry_unix := exp |}.

Definition verify_token (s : SessionTokenSigner) (encoded : bytes) : option SessionToken :=
  last_dot ← rfind_byte DOT encoded;
  let body := take last_dot encoded in
  let tag_hex := drop 1 (drop last_dot encoded) in
  let expected := hex_encode (mac s body) in
  if negb (ct_eq expected tag_hex) then None else parse_body body.
End Token.

(** ** Lemmas *)

Definition token_wf (t : SessionToken) : Prop := is_u32 (epoch t) /\ is_u64 (expiry_unix t).

Lemma digits_no_dot n : 0 <= n -> DOT ∉ fmt_dec n.
Proof.
  intros Hn Hin. pose proof (fmt_dec_digits n Hn) as F. rewrite Forall_forall in F.
  by apply F in Hin.
Qed.

Lemma rfind_byte_Some c l i :
  rfind_byte c l = Some i -> l = take i l ++ c :: drop (S i) l /\ (c ∉ drop (S i) l).
Proof.
  revert i. induction l as [|x l IH]; intros i; cbn [rfind_byte]; [done|].
  destruct (rfind_byte c l) as [j|] eqn:E.
  - intros [= <-]. destruct (IH j eq_refl) as [H1 H2]. split; [|done]. cbn. by rewrite <- H1.
  - destruct (decide (x = c)) as [->|]; [|done]. intros [= <-]. cbn. rewrite drop_0.
    split; [done|]. by apply rfind_byte_None.
Qed.

Lemma splitn_step n c a rest :
  c ∉ a -> splitn (S (S n)) c (a ++ c :: rest) = a :: splitn (S n) c rest.
Proof.
  intros Ha. cbn [splitn]. rewrite find_byte_app by done. rewrite take_app_length. f_equal.
  replace (S (length a)) with (length a + 1)%nat by lia. rewrite <- drop_drop, drop_app_length. done.
Qed.

(** The body splits at its first two dots. *)
Lemma parse_body_spec r e x :
  0 <= e -> 0 <= x -> DOT ∉ r ->
  parse_body (r ++ [DOT] ++ fmt_dec e ++ [DOT] ++ fmt_dec x)
  = (ep ← parse_uint 32 (fmt_dec e); exp ← parse_uint 64 (fmt_dec x);
     Some {| replica_id := r; epoch := ep; expiry_unix := exp |}).
Proof.
  intros He Hx Hr. unfold parse_body. cbn [app].
  rewrite splitn_step by done. rewrite splitn_step by (by apply digits_no_dot). done.
Qed.

(** Only the part before the first dot is read as the replica. *)
Lemma parse_body_no_dot body t : parse_body body = Some t -> DOT ∉ replica_id t.
Proof.
  unfold parse_body. cbn [splitn]. destruct (find_byte DOT body) as [i|] eqn:E.
  - apply find_byte_Some in E as [Hn _].
    destruct (_ :: _) eqn:P; [done|]. injection P as <- <-. cbn [lookup list_lookup mbind option_bind].
    intros Ht. repeat (match type of Ht with (?o ≫= _) = _ => destruct o; [|done] end; cbn in Ht).
    by injection Ht as <-.
  - by cbn.
Qed.

Section TokenLemmas.
Context `{!Hmac, !Hex, !HexLaws, !Subtle, !SubtleLaws}.

Lemma hex_no_dot l : DOT ∉ hex_encode l.
Proof.
  intros Hin. pose proof (hex_encode_digits l) as F. rewrite Forall_forall in F. by apply F in Hin.
Qed.

Lemma verify_signed_body s body :
  verify_token s (body ++ [DOT] ++ hex_encode (mac s body)) = parse_body body.
Proof.
  unfold verify_token. cbn [app]. rewrite rfind_byte_app by apply hex_no_dot. cbn [mbind option_bind].
  rewrite take_app_length, drop_app_length. cbn [drop]. rewrite drop_0.
  by rewrite (proj2 (ct_eq_spec _ _) eq_refl).
Qed.

Lemma verify_token_Some s encoded t :
  verify_token s encoded = Some t ->
  exists body, encoded = body ++ [DOT] ++ hex_encode (mac s body) /\ parse_body body = Some t.
Proof.
  unfold verify_token. destruct (rfind_byte DOT encoded) as [i|] eqn:E; [|done]. cbn [mbind option_bind].
  destruct (ct_eq _ _) eqn:C; [|done]. apply ct_eq_spec in C. cbn [negb]. intros Hp.
  exists (take i encoded). split; [|done]. rewrite C, drop_drop.
  destruct (rfind_byte_Some _ _ _ E) as [Henc _]. replace (i + 1)%nat with (S i) by lia. done.
Qed.
End TokenLemmas.

(** ** Claims *)

(** Round trip, exactly when it holds: a signed token verifies back to
    itself if and only if its replica id contains no dot; the signer does
    not check this. *)
Theorem token_roundtrip `{Hmac} `{HexLaws} `{SubtleLaws} s t :
  token_wf t -> verify_token s (sign s t) = Some t <-> DOT ∉ replica_id t.
Proof.
  intros [He Hx]. unfold is_u32, is_u64 in *. unfold sign. rewrite verify_signed_body. split.
  - intros Hp. by apply parse_body_no_dot in Hp.
  - intros Hr. unfold token_body. rewrite parse_body_spec by (done || lia).
    rewrite !parse_fmt_dec by lia. cbn. by destruct t.
Qed.

Lemma token_roundtrip_witness :
  let t := {| replica_id := lit "tee-7"; epoch := 3; expiry_unix := 1700000000 |} in
  verify_token {| key := [Byte.x01] |} (sign {| key := [Byte.x01] |} t) = Some t.
Proof.
  intros t. apply (token_roundtrip {| key := [Byte.x01] |} t).
  - split; vm_compute; split; congruence.
  - change (~ DOT ∈ lit "tee-7"). apply (bool_decide_eq_false (DOT ∈ lit "tee-7")). vm_compute. reflexivity.
Defined.

(** Authenticity: every accepted string is a body followed by the MAC of
    exactly that body under the gateway's key, and the token returned is what
    that body says; and every such string is accepted. *)
Theorem token_authentic `{Hmac} `{HexLaws} `{SubtleLaws} s encoded t :
  verify_token s encoded = Some t <->
  exists body, encoded = body ++ [DOT] ++ hex_encode (mac s body) /\ parse_body body = Some t.
Proof.
  split; [apply verify_token_Some|]. intros (body & -> & Hp). by rewrite verify_signed_body.
Qed.

Lemma token_authentic_witness :
  exists body, sign {| key := [Byte.x01] |} {| replica_id := lit "r"; epoch := 1; expiry_unix := 2 |}
    = body ++ [DOT] ++ hex_encode (mac {| key := [Byte.x01] |} body)
    /\ parse_body body = Some {| replica_id := lit "r"; epoch := 1; expiry_unix := 2 |}.
Proof.
  apply (token_authentic {| key := [Byte.x01] |}). vm_compute. reflexivity.
Defined.
