(* ===== verification/Overlay.v ===== *)
(** * ullm-overlay: onion layers and the in-memory relays

    [crates/ullm-overlay/src]: [layer.rs], [relay.rs], [transport.rs].  The
    routing loop carries fuel, one more than the length of the message;
    [None] is running out of it, which [route_terminates] excludes. *)

From S2P Require Import Prelude RustStd Core Crates Toy.
From stdpp Require Import gmap.
From Stdlib Require Import Lia.

Local Open Scope Z_scope.

(** ** layer.rs *)

Record Relay := { label : bytes; secret : bytes; public : bytes }.

Definition Relay_random `{X25519 R} (l : bytes) (rng : R) : Relay * R :=
  let '(sk, rng) := x25519_random rng in
  ({| label := l; secret := sk; public := x25519_public sk |}, rng).

Record OnionLayer := { ephemeral_pk : bytes; ciphertext : bytes }.

Record LayerInner := { next_hop : option bytes; inner : bytes }.

Definition AEAD_INFO : bytes := lit "ULLM-overlay-v1".
Definition AEAD_NONCE : bytes := lit "ULLMonion-v1".

(** postcard never returns a byte string longer than its input. *)
Class OnionPostcardLaws `{Postcard OnionLayer, !Postcard LayerInner} : Prop := {
  onion_layer_shrinks l x : postcard_from_bytes (T := OnionLayer) l = Ok x ->
    (length (ciphertext x) <= length l)%nat;
  layer_inner_shrinks l x : postcard_from_bytes (T := LayerInner) l = Ok x ->
    (length (inner x) <= length l)%nat;
}.

Section Onion.
Context {R : Type} `{!X25519 R, !Hkdf, !Aead, !Postcard OnionLayer, !Postcard LayerInner}.

Definition derive_aead_key (shared ephemeral_pk : bytes) : bytes :=
  let hk := hkdf_extract ephemeral_pk shared in
  hkdf_expand hk AEAD_INFO 32.

(** One iteration of the wrapping loop.  The cipher's [encrypt] fails only above
    its message limit (2^38 bytes), a length no message reaches; the interface
    has it total, so the error text for that case does not occur. *)
Definition wrap_step (rng : R) (relay_pk : bytes) (current : bytes) (next : option bytes)
  : Result bytes * R :=
  let '(ephemeral, rng) := x25519_random rng in
  let epk := x25519_public ephemeral in
  let shared := x25519_dh ephemeral relay_pk in
  let key := derive_aead_key shared epk in
  (let? plaintext := map_err Serde (postcard_to_allocvec {| next_hop := next; inner := current |}) in
   let ct := chacha_encrypt key AEAD_NONCE epk plaintext in
   map_err Serde (postcard_to_allocvec {| ephemeral_pk := epk; ciphertext := ct |}), rng).

Fixpoint wrap_loop (rng : R) (rev_chain : list (bytes * bytes)) (current : bytes)
    (next : option bytes) : Result bytes * R :=
  match rev_chain with
  | [] => (Ok current, rng)
  | (label, relay_pk) :: rest =>
      match wrap_step rng relay_pk current next with
      | (Err e, rng) => (Err e, rng)
      | (Ok current, rng) => wrap_loop rng rest current (Some label)
      end
  end.

Definition wrap_layers (rng : R) (relay_chain : list (bytes * bytes)) (destination_payload : bytes)
  : Result bytes * R :=
  if decide (relay_chain = []) then (Err (Other (lit "onion needs at least one relay")), rng)
  else wrap_loop rng (rev relay_chain) destination_payload None.

Definition peel_layer (relay_secret : bytes) (layer_bytes : bytes) : Result (option bytes * bytes) :=
  let? layer := map_err Serde (postcard_from_bytes (T := OnionLayer) layer_bytes) in
  let shared := x25519_dh relay_secret (ephemeral_pk layer) in
  let key := derive_aead_key shared (ephemeral_pk layer) in
  let? plaintext := ok_or (chacha_decrypt key AEAD_NONCE (ephemeral_pk layer) (ciphertext layer))
                      Decrypt in
  let? i := map_err Serde (postcard_from_bytes (T := LayerInner) plaintext) in
  Ok (next_hop i, inner i).

(** ** relay.rs *)

Record InMemoryRelay := {
  secrets : gmap bytes bytes;
  publics : gmap bytes bytes;
  delivered : list bytes;
}.

Definition InMemoryRelay_new (s : gmap bytes bytes) : InMemoryRelay :=
  {| secrets := s; publics := x25519_public <$> s; delivered := [] |}.

Definition relay_public (r : InMemoryRelay) (id : bytes) : option bytes := publics r !! id.

Fixpoint route_loop (fuel : nat) (r : InMemoryRelay) (current_relay current_bytes : bytes)
  : option (Result bytes) :=
  match fuel with
  | O => None
  | S fuel =>
      match secrets r !! current_relay with
      | None => Some (Err (Other (lit "unknown relay " ++ current_relay)))
      | Some sk =>
          match peel_layer sk current_bytes with
          | Err e => Some (Err e)
          | Ok (None, payload) => Some (Ok payload)
          | Ok (Some next_label, inner) => route_loop fuel r next_label inner
          end
      end
  end.

Definition route (r : InMemoryRelay) (entry layer_bytes : bytes)
  : option (Result unit * InMemoryRelay) :=
  res ← route_loop (S (length layer_bytes)) r entry layer_bytes;
  match res with
  | Err e => Some (Err e, r)
  | Ok payload => Some (Ok tt, {| secrets := secrets r; publics := publics r;
                                  delivered := delivered r ++ [payload] |})
  end.

Definition take_delivered (r : InMemoryRelay) : list bytes * InMemoryRelay :=
  (delivered r, {| secrets := secrets r; publics := publics r; delivered := [] |}).

(** ** transport.rs *)

Definition send_through (rng : R) (registry : InMemoryRelay) (relay_chain : list bytes)
    (payload : bytes) : option (Result unit * InMemoryRelay * R) :=
  match collect_results (fun id => let? pk := ok_or (relay_public registry id)
                                               (Other (lit "unknown relay " ++ id)) in
                                   Ok (id, pk)) relay_chain with
  | Err e => Some (Err e, registry, rng)
  | Ok chain =>
      match wrap_layers rng chain payload with
      | (Err e, rng) => Some (Err e, registry, rng)
      | (Ok wrapped, rng) =>
          first ← head relay_chain;
          '(res, registry) ← route registry first wrapped;
          Some (res, registry, rng)
      end
  end.

Definition deliver (registry : InMemoryRelay) : option bytes * InMemoryRelay :=
  let '(d, registry) := take_delivered registry in (head d, registry).
End Onion.

(** ** Lemmas *)

Section OnionLemmas.
Context {R : Type} `{!X25519 R, !X25519Laws R, !Hkdf, !Aead, !AeadLaws,
  !Postcard OnionLayer, !PostcardLaws OnionLayer, !Postcard LayerInner, !PostcardLaws LayerInner}.

(** A relay that owns the key a layer was made for peels exactly that layer. *)
Lemma wrap_step_peel (rng : R) sk current next :
  exists l rng', wrap_step rng (x25519_public sk) current next = (Ok l, rng')
    /\ peel_layer sk l = Ok (next, current).
Proof.
  unfold wrap_step. destruct (x25519_random rng) as [e rng'].
  destruct (postcard_ok {| next_hop := next; inner := current |}) as (pt & Hp & Hpd). rewrite Hp.
  cbn [map_err result_bind].
  set (key := derive_aead_key (x25519_dh e (x25519_public sk)) (x25519_public e)).
  destruct (postcard_ok {| ephemeral_pk := x25519_public e;
    ciphertext := chacha_encrypt key AEAD_NONCE (x25519_public e) pt |}) as (l & Hl & Hld).
  rewrite Hl. exists l, rng'. split; [done|].
  unfold peel_layer. rewrite Hld. cbn [map_err result_bind ephemeral_pk ciphertext].
  rewrite x25519_dh_comm. fold key.
  rewrite (proj2 (chacha_decrypt_spec _ _ _ _ _) eq_refl). cbn [ok_or result_bind].
  by rewrite Hpd.
Qed.

(** Following the labels through the registry from [entry] ends with the
    payload. *)
Inductive peels_to (r : InMemoryRelay) (payload : bytes) : bytes -> bytes -> Prop :=
| peels_last entry l sk :
    secrets r !! entry = Some sk -> peel_layer sk l = Ok (None, payload) ->
    peels_to r payload entry l
| peels_hop entry l sk next rest :
    secrets r !! entry = Some sk -> peel_layer sk l = Ok (Some next, rest) ->
    peels_to r payload next rest -> peels_to r payload entry l.

Definition wrapped_for (r : InMemoryRelay) (payload current : bytes) (next : option bytes) : Prop :=
  match next with
  | None => current = payload
  | Some l => peels_to r payload l current
  end.

(** The relays of a chain, with the registry's public keys. *)
Definition known_chain (r : InMemoryRelay) (chain : list (bytes * bytes)) : Prop :=
  Forall (fun lp => exists sk, secrets r !! lp.1 = Some sk /\ lp.2 = x25519_public sk) chain.

Lemma wrap_loop_peels r payload (rng : R) chain current next :
  known_chain r chain -> wrapped_for r payload current next ->
  exists l rng', wrap_loop rng chain current next = (Ok l, rng')
    /\ wrapped_for r payload l (match last chain with Some lp => Some lp.1 | None => next end).
Proof.
  intros Hk. revert rng current next. induction Hk as [|[lb pk] chain (sk & Hsk & Hpk) Hk IH];
    intros rng current next Hw; [by exists current, rng|].
  cbn [fst snd] in *. subst pk. cbn [wrap_loop].
  destruct (wrap_step_peel rng sk current next) as (l & rng' & -> & Hp).
  destruct (IH rng' l (Some lb)) as (l' & rng'' & Hl' & Hw').
  { cbn. destruct next as [n|]; cbn in Hw.
    - by apply (peels_hop _ _ _ _ sk n current).
    - subst current. by apply (peels_last _ _ _ _ sk). }
  exists l', rng''. split; [done|]. rewrite last_cons. by destruct (last chain) as [[]|].
Qed.

Lemma route_loop_peels r payload entry l :
  peels_to r payload entry l -> exists fuel, route_loop fuel r entry l = Some (Ok payload).
Proof.
  induction 1 as [entry l sk Hs Hp|entry l sk next rest Hs Hp _ [fuel IH]].
  - exists 1%nat. cbn. by rewrite Hs, Hp.
  - exists (S fuel). cbn. by rewrite Hs, Hp.
Qed.

Lemma route_loop_mono fuel fuel' r entry l res :
  (fuel <= fuel')%nat -> route_loop fuel r entry l = Some res -> route_loop fuel' r entry l = Some res.
Proof.
  revert fuel' entry l. induction fuel as [|fuel IH]; intros [|fuel'] entry l Hle; cbn; try done; [lia|].
  repeat case_match; try done. apply IH. lia.
Qed.

Context `{!OnionPostcardLaws}.

(** Peeling makes the message strictly shorter: the tag is gone. *)
Lemma peel_layer_shrinks sk l next rest :
  peel_layer sk l = Ok (next, rest) -> (length rest + 16 <= length l)%nat.
Proof.
  unfold peel_layer. intros (layer & Hl & E)%result_bind_Ok.
  apply map_err_Ok, onion_layer_shrinks in Hl.
  apply result_bind_Ok in E as (pt & Hpt & E). apply ok_or_Ok, chacha_decrypt_spec in Hpt.
  apply result_bind_Ok in E as (i & Hi & E). apply map_err_Ok, layer_inner_shrinks in Hi.
  injection E as <- <-. rewrite Hpt, chacha_encrypt_len in Hl. lia.
Qed.

Lemma route_loop_total fuel r entry l : (length l < fuel)%nat -> route_loop fuel r entry l <> None.
Proof.
  revert entry l. induction fuel as [|fuel IH]; intros entry l Hlt; [lia|]. cbn.
  destruct (secrets r !! entry); [|done].
  destruct (peel_layer _ l) as [[[next|] rest]|] eqn:Hp; try done.
  apply peel_layer_shrinks in Hp. apply IH. lia.
Qed.

Lemma route_peels r payload entry l :
  peels_to r payload entry l ->
  route r entry l = Some (Ok tt, {| secrets := secrets r; publics := publics r;
                                    delivered := delivered r ++ [payload] |}).
Proof.
  intros [fuel Hf]%route_loop_peels. unfold route.
  destruct (route_loop (S (length l)) r entry l) as [res|] eqn:E.
  - assert (res = Ok payload) as ->; [|done].
    destruct (Nat.le_ge_cases fuel (S (length l))) as [Hle|Hle].
    + apply (route_loop_mono _ _ _ _ _ _ Hle) in Hf. congruence.
    + apply (route_loop_mono _ _ _ _ _ _ Hle) in E. congruence.
  - by apply route_loop_total in E; [|lia].
Qed.
End OnionLemmas.

Lemma collect_known {R} `{X25519 R} (s : gmap bytes bytes) d chain :
  let r := {| secrets := s; publics := x25519_public <$> s; delivered := d |} in
  Forall (fun id => is_Some (s !! id)) chain ->
  exists l, collect_results (fun id => let? pk := ok_or (relay_public r id)
                 (Other (lit "unknown relay " ++ id)) in Ok (id, pk)) chain = Ok l
    /\ fst <$> l = chain /\ known_chain r l.
Proof.
  intros r Hc. induction Hc as [|id chain [sk Hsk] Hc IH]; [exists []; split; [done|split; [done|constructor]]|].
  destruct IH as (l & Hl & Hf & Hk). cbn [collect_results]. unfold relay_public at 1. cbn [publics r].
  rewrite lookup_fmap, Hsk. cbn [fmap option_fmap option_map ok_or result_bind]. rewrite Hl.
  exists ((id, x25519_public sk) :: l). split; [done|]. split; [by rewrite fmap_cons, Hf|].
  constructor; [|done]. by exists sk.
Qed.

(** ** A concrete serializer that satisfies the laws *)

Fixpoint ones (l : bytes) : option (nat * bytes) :=
  match l with
  | [] => None
  | c :: l => if decide (c = Byte.x00) then Some (0%nat, l)
              else '(n, r) ← ones l; Some (S n, r)
  end.

Definition with_len (l rest : bytes) : bytes := replicate (length l) Byte.x01 ++ [Byte.x00] ++ l ++ rest.
Definition split_len (l : bytes) : option (bytes * bytes) :=
  '(n, r) ← ones l; if decide (n <= length r)%nat then Some (take n r, drop n r) else None.

Lemma ones_with_len n rest : ones (replicate n Byte.x01 ++ [Byte.x00] ++ rest) = Some (n, rest).
Proof. induction n as [|n IH]; [done|]. cbn. cbn in IH. by rewrite IH. Qed.

Lemma split_with_len l rest : split_len (with_len l rest) = Some (l, rest).
Proof.
  unfold split_len, with_len. rewrite ones_with_len. cbn.
  rewrite decide_True by (rewrite length_app; lia). by rewrite take_app_length, drop_app_length.
Qed.

Lemma ones_length l n r : ones l = Some (n, r) -> (length r < length l)%nat.
Proof.
  revert n r. induction l as [|c l IH]; intros n r; cbn; [done|].
  case_decide; [intros [= <- <-]; lia|]. destruct (ones l) as [[n' r']|]; [|done].
  cbn. intros [= <- <-]. specialize (IH n' r' eq_refl). lia.
Qed.

Lemma split_len_length l a b : split_len l = Some (a, b) -> (length b < length l)%nat.
Proof.
  unfold split_len. destruct (ones l) as [[n r]|] eqn:E; [|done]. apply ones_length in E. cbn.
  case_decide; [|done]. intros [= <- <-]. rewrite length_drop. lia.
Qed.

#[export] Instance toy_onion_postcard : Postcard OnionLayer := {|
  postcard_to_allocvec x := Ok (with_len (ephemeral_pk x) (ciphertext x));
  postcard_from_bytes l :=
    ok_or ('(a, b) ← split_len l; Some {| ephemeral_pk := a; ciphertext := b |}) [];
|}.
#[export] Instance toy_inner_postcard : Postcard LayerInner := {|
  postcard_to_allocvec x := Ok (match next_hop x with
    | None => Byte.x00 :: inner x | Some s => Byte.x01 :: with_len s (inner x) end);
  postcard_from_bytes l :=
    ok_or (match l with
           | [] => None
           | c :: l => if decide (c = Byte.x00) then Some {| next_hop := None; inner := l |}
                       else '(a, b) ← split_len l; Some {| next_hop := Some a; inner := b |}
           end) [];
|}.
#[export] Instance toy_onion_postcard_laws : PostcardLaws OnionLayer.
Proof.
  split; cbn.
  - intros [a b] l [= <-]. by rewrite split_with_len.
  - by eexists.
Qed.
#[export] Instance toy_inner_postcard_laws : PostcardLaws LayerInner.
Proof.
  split; cbn.
  - intros [[s|] b] l [= <-]; cbn; [|done]. by rewrite split_with_len.
  - by eexists.
Qed.
#[export] Instance toy_onion_shrinks : OnionPostcardLaws.
Proof.
  split; cbn.
  - intros l x (y & E & Hy)%ok_or_Ok%bind_Some. destruct y as [a b]. injection Hy as <-.
    apply split_len_length in E. cbn. lia.
  - intros [|c l] x; [done|]. intros E%ok_or_Ok. case_decide.
    + injection E as <-. cbn. lia.
    + apply bind_Some in E as ([a b] & E & Hy). injection Hy as <-. apply split_len_length in E. cbn. lia.
Qed.

(** A chain of relays of the registry delivers. *)
Lemma send_through_known {R} `{X25519Laws R} `{!Hkdf} `{AeadLaws} `{PostcardLaws OnionLayer}
    `{PostcardLaws LayerInner} `{!OnionPostcardLaws} (rng : R) s d chain payload :
  let r := {| secrets := s; publics := x25519_public <$> s; delivered := d |} in
  chain <> [] -> Forall (fun id => is_Some (s !! id)) chain ->
  exists rng', send_through rng r chain payload
    = Some (Ok tt, {| secrets := s; publics := x25519_public <$> s; delivered := d ++ [payload] |}, rng').
Proof.
  intros r Hne Hc. destruct (collect_known s d chain Hc) as (l & Hl & Hf & Hk). fold r in Hl, Hk.
  unfold send_through. rewrite Hl. unfold wrap_layers.
  destruct chain as [|id chain]; [done|]. rewrite decide_False by (by intros ->).
  destruct (wrap_loop_peels r payload rng (rev l) payload None) as (w & rng' & -> & Hw).
  { by apply Forall_rev. } { done. }
  destruct l as [|[id' pk] l]; [done|]. injection Hf as -> Hf.
  cbn [rev] in Hw. rewrite last_snoc in Hw. cbn in Hw. exists rng'. cbn [head mbind option_bind].
  by rewrite (route_peels r payload id w Hw).
Qed.

(** An empty chain or an unknown relay fails before anything is sent. *)
Lemma send_through_fails {R} `{X25519 R} `{!Hkdf} `{!Aead} `{!Postcard OnionLayer}
    `{!Postcard LayerInner} (rng : R) s d chain payload :
  let r := {| secrets := s; publics := x25519_public <$> s; delivered := d |} in
  ~ (chain <> [] /\ Forall (fun id => is_Some (s !! id)) chain) ->
  exists e rng', send_through rng r chain payload = Some (Err e, r, rng').
Proof.
  intros r Hn. unfold send_through. destruct chain as [|id0 chain0] eqn:Ec; [by eexists _, _|].
  rewrite <- Ec in *. assert (Hc : ~ Forall (fun id => is_Some (s !! id)) chain) by (subst; naive_solver).
  match goal with |- context [collect_results ?f chain] =>
    assert (exists e, collect_results f chain = Err e) as [e ->]; [|by eexists _, _] end.
  clear -Hc. induction chain as [|id chain IH]; [by destruct Hc|]. cbn [collect_results].
  unfold relay_public at 1. cbn [publics r]. rewrite lookup_fmap.
  destruct (s !! id) as [sk|] eqn:E; [|by eexists].
  cbn [fmap option_fmap option_map ok_or result_bind].
  destruct IH as [e ->]; [|by eexists]. intros Hall. apply Hc. by constructor.
Qed.

(** ** Claims *)

(** C34. Delivery: a payload sent through any non-empty chain of known relays
    is delivered, exactly once, unchanged, and the registry's keys are kept;
    with an unknown relay in the chain, or an empty chain, the call fails and
    nothing is delivered. *)
Theorem onion_delivers {R} `{X25519Laws R} `{!Hkdf} `{AeadLaws} `{PostcardLaws OnionLayer}
    `{PostcardLaws LayerInner} `{!OnionPostcardLaws} (rng : R) s d chain payload :
  let r := {| secrets := s; publics := x25519_public <$> s; delivered := d |} in
  if decide (chain <> [] /\ Forall (fun id => is_Some (s !! id)) chain) then
    exists rng', send_through rng r chain payload
      = Some (Ok tt, {| secrets := s; publics := x25519_public <$> s; delivered := d ++ [payload] |}, rng')
  else exists e rng', send_through rng r chain payload = Some (Err e, r, rng').
Proof.
  intros r. case_decide as D; [apply send_through_known; apply D|by apply send_through_fails].
Qed.

Lemma onion_delivers_witness :
  exists rng', send_through 7 (InMemoryRelay_new {[lit "guard" := [Byte.x01]; lit "exit" := [Byte.x02]]})
      [lit "guard"; lit "exit"] (lit "hello onion")
    = Some (Ok tt, {| secrets := {[lit "guard" := [Byte.x01]; lit "exit" := [Byte.x02]]};
        publics := x25519_public <$> {[lit "guard" := [Byte.x01]; lit "exit" := [Byte.x02]]};
        delivered := [lit "hello onion"] |}, rng').
Proof.
  exact (onion_delivers 7 {[lit "guard" := [Byte.x01]; lit "exit" := [Byte.x02]]} []
           [lit "guard"; lit "exit"] (lit "hello onion")).
Defined.

(** Termination: [route] returns on every message, malicious ones
    included, because each relay that peels a layer forwards at least 16
    bytes fewer; one more unit of fuel than the message has bytes is always
    enough. *)
Theorem route_terminates {R} `{X25519 R} `{!Hkdf} `{AeadLaws} `{OnionPostcardLaws} r entry l :
  exists res r', route r entry l = Some (res, r')
    /\ (forall e, res = Err e -> r' = r).
Proof.
  unfold route. destruct (route_loop (S (length l)) r entry l) as [[p|e]|] eqn:E.
  - eexists _, _. split; [reflexivity|]. done.
  - eexists _, _. split; [reflexivity|]. done.
  - by apply route_loop_total in E; [|lia].
Qed.

Lemma route_terminates_witness :
  exists res r', route (InMemoryRelay_new {[lit "guard" := [Byte.x01]]}) (lit "guard") (lit "junk")
    = Some (res, r')
    /\ (forall e, res = Err e -> r' = InMemoryRelay_new {[lit "guard" := [Byte.x01]]}).
Proof.
  exact (route_terminates (InMemoryRelay_new {[lit "guard" := [Byte.x01]]}) (lit "guard") (lit "junk")).
Defined.
