(* ===== verification/Phase4.v ===== *)
(** * ullm-phase4-demo: the four scenarios

    [tools/ullm-phase4-demo/src/main.rs]: two-party evaluation of the model,
    a 2-of-3 attestation quorum with build admission and a routing plan, a
    2-of-3 threshold signature, and a three-hop onion, in one run.  A scenario
    is a computation on the generator and on what has been printed; it ends
    with a value, with an error (the [?]), or with a panic (a failed
    [assert!] or [expect], an index out of range).

    Proved: the run ends without error and without panic and prints exactly
    the expected lines, unless an unlucky event happens with the three
    attestation keys it drew: the identities derived from them (the SHA-256 of
    three given messages) are not pairwise different, or one of two quotes
    still carries a valid signature after its first byte was inverted. *)

From stdpp Require Import gmap sorting.
From S2P Require Import Prelude RustStd RustText Core Crates Toy Crypto Handshake Attest Quotes Nvidia RealVerifier Federation Receipts Threshold Model Overlay.
From Stdlib Require Import Lia.

Local Open Scope Z_scope.

(** ** Computations *)

Section Run.
Context {R : Type}.

(** The generator and the lines printed so far. *)
Definition Run (A : Type) : Type := R -> list bytes -> option (Result A) * R * list bytes.

Definition run_ret {A} (x : A) : Run A := fun rng out => (Some (Ok x), rng, out).

Definition run_bind {A B} (m : Run A) (k : A -> Run B) : Run B := fun rng out =>
  match m rng out with
  | (Some (Ok x), rng, out) => k x rng out
  | (Some (Err e), rng, out) => (Some (Err e), rng, out)
  | (None, rng, out) => (None, rng, out)
  end.

(** [None] is the panic. *)
Definition expect {A} (o : option A) : Run A := fun rng out => (Ok <$> o, rng, out).
Definition assert (b : bool) : Run unit := expect (if b then Some tt else None).
(** The [?] on a result. *)
Definition attempt {A} (r : Result A) : Run A := fun rng out => (Some r, rng, out).
Definition println (line : bytes) : Run unit := fun rng out => (Some (Ok tt), rng, out ++ [line]).
(** A call that takes the generator. *)
Definition sample {A} (f : R -> A * R) : Run A := fun rng out => let '(x, rng) := f rng in (Some (Ok x), rng, out).
Definition sample_try {A} (f : R -> option (Result A) * R) : Run A := fun rng out => (f rng, out).

Lemma run_bind_ok {A B} (m : Run A) (k : A -> Run B) rng out x rng' out' :
  m rng out = (Some (Ok x), rng', out') -> run_bind m k rng out = k x rng' out'.
Proof. unfold run_bind. by intros ->. Qed.
End Run.

Arguments Run : clear implicits.

Declare Scope run_scope.
Delimit Scope run_scope with run.
Notation "'do' x '<-' m ';;' k" := (run_bind m (fun x => k))
  (at level 10, x pattern, m at level 99, k at level 200) : run_scope.
Notation "m ';;;' k" := (run_bind m (fun _ => k))
  (at level 199, k at level 200, right associativity) : run_scope.
Local Open Scope run_scope.

(** ** The scenarios *)

Section Phase4.
Context {R : Type} `{!Pasta, !Sha2, !Hkdf, !FpRandom R, !Ed25519, !Ed25519Gen R, !Subtle, !Hex, !X25519 R, !Aead,
  !Postcard OnionLayer, !Postcard LayerInner, !Frost R}.
(** [Ord] of [frost_ed25519::Identifier], and the text of ed25519-dalek's
    [SignatureError]. *)
Context (identifier_le : Identifier -> Identifier -> bool) (vk_error : bytes).

(** *** Two-party evaluation *)

Definition demo_input : list Fp := (fun i => fp_from_u64 ((Z.of_nat i + 1) * 11)) <$> List.seq 0 VEC_DIM.

(** [n - 1], which panics at 0. *)
Definition checked_pred (n : nat) : option nat := match n with O => None | S n => Some n end.

Definition mpc_scenario : Run R unit :=
  do model <- expect (Model_from_seed (replicate 32 Byte.x00));;
  let plain := Model_run model demo_input in
  do (transcript, _) <- sample_try (fun rng =>
        let '(res, rng) := MpcSession_run model rng demo_input in (Ok <$> res, rng));;
  do plain_output <- expect (Trace_output plain);;
  assert (bool_decide (output transcript = plain_output));;;
  do n <- expect (checked_pred (length (per_layer_outputs transcript)));;
  println (lit "  client → party0 + party1 → reconstructed output matches plaintext (" ++ znat n
           ++ lit " layers)");;;
  println (lit "  neither party alone learns the input — shares are uniformly random in Fp").

(** *** The attestation quorum *)

Definition demo_report_data : bytes := replicate 64 Byte.x03.
Definition demo_now : Z := 100.
Definition admitted_hash : bytes := BuildHash_of (lit "ullm-tee:v0.1.0").

(** [ev.cert_chain.push(admitted_hash.0.to_vec())] on issued evidence. *)
Definition admitted_evidence (issuer : MockIssuer) : Evidence :=
  let ev := MockIssuer_issue issuer demo_report_data demo_now in
  set_chain ev (cert_chain ev ++ [admitted_hash]).

(** [ev.cpu_quote[0] ^= 0xFF], on a copy. *)
Definition invert_first (l : bytes) : option bytes :=
  match l with
  | [] => None
  | c :: l => Some (byte.of_Z (Z.lxor (byte.unsigned c) 0xFF) :: l)
  end.

Definition tamper (ev : Evidence) : option Evidence := set_cpu_quote ev <$> invert_first (cpu_quote ev).

Definition admission_verifier (issuer : MockIssuer) : ReproducibleBuildVerifier MockVerifier :=
  ReproducibleBuildVerifier_new (MockVerifier_new (MockIssuer_verifying_key issuer)) [admitted_hash].

Definition phase4_pool : ProviderPool := ProviderPool_new
  [{| manifest := {| provider_id := lit "tee-tdx-eu-1"; build_hash := admitted_hash; region := lit "eu-west" |};
      vendor := VendorKind.Tdx; url := lit "https://tee-tdx-eu-1/v1"; healthy := true |};
   {| manifest := {| provider_id := lit "tee-snp-us-1"; build_hash := admitted_hash; region := lit "us-east" |};
      vendor := VendorKind.Snp; url := lit "https://tee-snp-us-1/v1"; healthy := true |};
   {| manifest := {| provider_id := lit "tee-nv-ap-1"; build_hash := admitted_hash; region := lit "ap-south" |};
      vendor := VendorKind.Nvidia; url := lit "https://tee-nv-ap-1/v1"; healthy := true |}].

(** [join(", ")]. *)
Fixpoint join_comma (l : list bytes) : bytes :=
  match l with
  | [] => []
  | [x] => x
  | x :: l => x ++ lit ", " ++ join_comma l
  end.

Definition plan_text (plan : RoutingPlan) : bytes :=
  join_comma ((fun p => provider_id (manifest p) ++ lit "(" ++ VendorKind_debug (vendor p) ++ lit ")")
                <$> plan_providers plan).

Definition demo_verify_ctx : VerificationContext :=
  {| expected_report_data := demo_report_data; now_unix_ctx := demo_now; max_age_sec := 60 |}.

Definition multi_vendor_scenario : Run R unit :=
  do tdx_issuer <- sample MockIssuer_random;;
  do snp_issuer <- sample MockIssuer_random;;
  do nv_issuer <- sample MockIssuer_random;;
  let tdx_ev := admitted_evidence tdx_issuer in
  let snp_ev := admitted_evidence snp_issuer in
  let nv_ev := admitted_evidence nv_issuer in
  do mv <- attempt (MultiVendorVerifier_new
     [VendorVerifier_new VendorKind.Tdx (admission_verifier tdx_issuer);
      VendorVerifier_new VendorKind.Snp (admission_verifier snp_issuer);
      VendorVerifier_new VendorKind.Nvidia (admission_verifier nv_issuer)] 2);;
  do passing <- attempt (MultiVendorVerifier_verify mv [tdx_ev; snp_ev; nv_ev] demo_verify_ctx);;
  println (lit "  happy path: " ++ znat (size passing) ++ lit " disjoint vendors verified");;;
  do tdx_bad <- expect (tamper tdx_ev);;
  do passing <- attempt (MultiVendorVerifier_verify mv [tdx_bad; snp_ev; nv_ev] demo_verify_ctx);;
  println (lit "  one-vendor failure (" ++ znat (size passing) ++ lit " passing) still meets threshold k=2");;;
  do snp_bad <- expect (tamper snp_ev);;
  do tdx_bad2 <- expect (tamper tdx_ev);;
  let res := MultiVendorVerifier_verify mv [tdx_bad2; snp_bad; nv_ev] demo_verify_ctx in
  assert (negb (is_ok res));;;
  println (lit "  two-vendor failure rejected (only 1 < k=2 vendor verifying)");;;
  do plan <- attempt (plan_disjoint phase4_pool 2);;
  println (lit "  provider pool produced k=2 vendor-disjoint plan: " ++ plan_text plan).

(** *** The threshold signature *)

(** Iterating over a [BTreeMap]: by key. *)
Definition btree_iter (kps : gmap Identifier KeyPackage) : list (Identifier * KeyPackage) :=
  merge_sort (fun x y : Identifier * KeyPackage => Is_true (identifier_le x.1 y.1)) (map_to_list kps).

Definition first_participants (n : nat) (kps : gmap Identifier KeyPackage) : list Participant :=
  (fun '(id, kp) => {| Threshold.id := id; key_package := kp |}) <$> take n (btree_iter kps).

Definition demo_message : bytes := lit "federation receipt: tenant=acme model=mock tokens=42".

Definition threshold_scenario : Run R unit :=
  do shares <- sample_try (fun rng => let '(res, rng) := distribute_with_trusted_dealer 2 3 rng in (Some res, rng));;
  do group_pk <- attempt (group_verifying_key vk_error (public_pkg shares));;
  println (lit "  trusted-dealer DKG: t=2 n=3, group_pk=" ++ hex_encode group_pk);;;
  let participants := first_participants 2 (key_packages shares) in
  do sig <- sample_try (fun rng => sign_once rng participants (public_pkg shares) demo_message);;
  assert (ed25519_verify group_pk demo_message sig);;;
  println (lit "  2-of-3 signed and verified under the group key");;;
  let one_party := first_participants 1 (key_packages shares) in
  do res <- sample_try (fun rng =>
        let '(res, rng) := sign_once rng one_party (public_pkg shares) demo_message in (Ok <$> res, rng));;
  assert (negb (is_ok res));;;
  println (lit "  sub-threshold (1-of-3) attempt rejected").

(** *** The onion *)

Fixpoint relay_secrets (labels : list bytes) (secrets : gmap bytes bytes) : Run R (gmap bytes bytes) :=
  match labels with
  | [] => run_ret secrets
  | label :: labels =>
      do sk <- sample x25519_random;;
      relay_secrets labels (<[label := sk]> secrets)
  end.

Definition demo_payload : bytes := lit "top-secret prompt that no relay should learn".

Definition onion_scenario : Run R unit :=
  do secrets <- relay_secrets [lit "guard"; lit "middle"; lit "exit"] ∅;;
  let registry := InMemoryRelay_new secrets in
  do registry <- sample_try (fun rng =>
        match send_through rng registry [lit "guard"; lit "middle"; lit "exit"] demo_payload with
        | Some (res, registry, rng) => (Some (let? _ := res in Ok registry), rng)
        | None => (None, rng)
        end);;
  do delivered <- expect (deliver registry).1;;
  assert (bool_decide (delivered = demo_payload));;;
  println (lit "  3-hop onion delivered payload of " ++ znat (length delivered)
           ++ lit " bytes through guard → middle → exit");;;
  println (lit "  middle relay sees only ciphertext addressed to exit (verified in unit tests)").

(** *** [main] *)
Definition phase4_main : Run R unit :=
  println (Byte.x0a :: lit "=== Scenario 1: MPC over the synthetic model ===");;;
  mpc_scenario;;;
  println (Byte.x0a :: lit "=== Scenario 2: Multi-vendor 2-of-3 attestation ===");;;
  multi_vendor_scenario;;;
  println (Byte.x0a :: lit "=== Scenario 3: 2-of-3 FROST threshold receipt ===");;;
  threshold_scenario;;;
  println (Byte.x0a :: lit "=== Scenario 4: 3-hop onion routing ===");;;
  onion_scenario;;;
  println (Byte.x0a :: lit "✓ Phase 4 scenarios complete").
End Phase4.

(** ** What the run prints *)

Definition mpc_lines : list bytes :=
  [lit "  client → party0 + party1 → reconstructed output matches plaintext (8 layers)";
   lit "  neither party alone learns the input — shares are uniformly random in Fp"].

Definition vendor_lines : list bytes :=
  [lit "  happy path: 3 disjoint vendors verified";
   lit "  one-vendor failure (2 passing) still meets threshold k=2";
   lit "  two-vendor failure rejected (only 1 < k=2 vendor verifying)";
   lit "  provider pool produced k=2 vendor-disjoint plan: tee-tdx-eu-1(Tdx), tee-snp-us-1(Snp)"].

Definition threshold_lines (group_pk_hex : bytes) : list bytes :=
  [lit "  trusted-dealer DKG: t=2 n=3, group_pk=" ++ group_pk_hex;
   lit "  2-of-3 signed and verified under the group key";
   lit "  sub-threshold (1-of-3) attempt rejected"].

Definition onion_lines : list bytes :=
  [lit "  3-hop onion delivered payload of 44 bytes through guard → middle → exit";
   lit "  middle relay sees only ciphertext addressed to exit (verified in unit tests)"].

Definition phase4_output (group_pk_hex : bytes) : list bytes :=
  [Byte.x0a :: lit "=== Scenario 1: MPC over the synthetic model ==="] ++ mpc_lines
  ++ [Byte.x0a :: lit "=== Scenario 2: Multi-vendor 2-of-3 attestation ==="] ++ vendor_lines
  ++ [Byte.x0a :: lit "=== Scenario 3: 2-of-3 FROST threshold receipt ==="] ++ threshold_lines group_pk_hex
  ++ [Byte.x0a :: lit "=== Scenario 4: 3-hop onion routing ==="] ++ onion_lines
  ++ [Byte.x0a :: lit "✓ Phase 4 scenarios complete"].

(** ** The scenarios complete *)

(** One step of a computation that is known to succeed. *)
Ltac run_step := first [rewrite run_bind_ok with (1 := eq_refl) | erewrite run_bind_ok by reflexivity].

Section Completes.
Context {R : Type} `{!Pasta, !PastaLaws, !Sha2, !Sha2Laws, !Hkdf, !FpRandom R, !Ed25519, !Ed25519Laws,
  !Ed25519Gen R, !Subtle, !SubtleLaws, !Hex, !X25519 R, !X25519Laws R, !Aead, !AeadLaws,
  !Postcard OnionLayer, !PostcardLaws OnionLayer, !Postcard LayerInner, !PostcardLaws LayerInner,
  !OnionPostcardLaws, !Frost R, !FrostLaws R}.
Context (identifier_le : Identifier -> Identifier -> bool) (vk_error : bytes).
Implicit Types rng : R.

(** A computation that succeeds and prints [lines], whatever came before. *)
Definition prints (m : Run R unit) (rng : R) (lines : list bytes) (rng' : R) : Prop :=
  forall out, m rng out = (Some (Ok tt), rng', out ++ lines).

Lemma prints_println line rng : prints (println line) rng [line] rng.
Proof. done. Qed.

Lemma prints_seq m k rng rng' rng'' l1 l2 :
  prints m rng l1 rng' -> prints k rng' l2 rng'' -> prints (m;;; k) rng (l1 ++ l2) rng''.
Proof. intros Hm Hk out. erewrite run_bind_ok by apply Hm. by rewrite Hk, (assoc_L (++)). Qed.

Lemma mpc_scenario_prints rng : exists rng', prints mpc_scenario rng mpc_lines rng'.
Proof.
  destruct (Model_from_seed_some (replicate 32 Byte.x00)) as (m & Hm & Hwf & _).
  assert (Hin : length demo_input = VEC_DIM) by (unfold demo_input; by rewrite length_fmap, length_seq).
  destruct (mpc_session_reconstructs m rng demo_input Hwf Hin) as (tr & resp & rng' & Hrun & Hl & Ho).
  destruct (activations_vec m demo_input Hwf Hin) as [_ Hlen].
  exists rng'. intros out. unfold mpc_scenario. rewrite Hm. run_step.
  erewrite run_bind_ok by (unfold sample_try; by rewrite Hrun).
  rewrite <- Ho. run_step. rewrite bool_decide_eq_true_2 by done. run_step.
  rewrite Hl, Hlen. run_step. run_step. unfold println. by rewrite <- (assoc_L (++)).
Qed.

(** *** The quorum *)

Definition issuers_drawn (rng : R) : (MockIssuer * MockIssuer * MockIssuer) * R :=
  let '(t, rng) := MockIssuer_random rng in
  let '(s, rng) := MockIssuer_random rng in
  let '(n, rng) := MockIssuer_random rng in ((t, s, n), rng).

(** The signature of the issued quote, first byte inverted, is still valid. *)
Definition inverted_verifies (i : MockIssuer) : bool :=
  let msg := demo_report_data ++ to_be_bytes 8 demo_now in
  match invert_first (ed25519_sign (signing i) msg) with
  | Some sig => ed25519_verify (MockIssuer_verifying_key i) msg sig
  | None => false
  end.

(** The identity of an issuer's quotes in this scenario. *)
Definition issuer_id (i : MockIssuer) : bytes :=
  sha256 (lit "ullm/mock-verifier/v1" ++ MockIssuer_verifying_key i ++ demo_report_data).

(** A slot with mock evidence of the demo's report data: its identity, if
    the wrapped verifier accepts. *)
Lemma admission_slot_id k i ev :
  cpu_quote_kind ev = Mock -> ev_report_data ev = demo_report_data ->
  slot_id demo_verify_ctx (VendorVerifier_new k (admission_verifier i), ev)
  = if is_ok (ReproducibleBuildVerifier_verify (admission_verifier i) ev demo_verify_ctx)
    then Some (issuer_id i) else None.
Proof.
  intros Hk Hr. unfold slot_id, dyn_verify, dyn_identity.
  cbn [fst snd VendorVerifier_new kind verifier dyn_class dyn_value verify attestation_identity
       ReproducibleBuildVerifier_Verifier MockVerifier_Verifier].
  rewrite Hk. cbn [admits_cpu_kind andb]. unfold MockVerifier_attestation_identity, issuer_id. by rewrite Hr.
Qed.

Lemma admitted_accepted i :
  ReproducibleBuildVerifier_verify (admission_verifier i) (admitted_evidence i) demo_verify_ctx = Ok tt.
Proof.
  apply build_verify_iff. split.
  - apply MockVerifier_verify_Ok.
    cbn [admitted_evidence set_chain MockIssuer_issue cpu_quote_kind cpu_quote cert_chain ev_report_data
         issued_at_unix demo_verify_ctx expected_report_data now_unix_ctx max_age_sec admission_verifier
         ReproducibleBuildVerifier_new Federation.inner MockVerifier_new trust_root head app].
    unfold MockIssuer_verifying_key.
    split_and!; auto using ed25519_public_len, ed25519_sign_len, ed25519_sign_verify. done.
  - exists admitted_hash. cbn [admitted_evidence set_chain cert_chain admission_verifier
      ReproducibleBuildVerifier_new allowed_builds]. rewrite last_snoc. unfold admitted_hash, BuildHash_of.
    split_and!; [done|apply sha256_len|set_solver].
Qed.

Lemma tamper_some i : exists ev sig, tamper (admitted_evidence i) = Some ev
  /\ invert_first (cpu_quote (admitted_evidence i)) = Some sig /\ ev = set_cpu_quote (admitted_evidence i) sig.
Proof.
  unfold tamper. cbn [admitted_evidence set_chain MockIssuer_issue cpu_quote].
  pose proof (ed25519_sign_len (signing i) (demo_report_data ++ to_be_bytes 8 demo_now)) as Hl.
  destruct (ed25519_sign _ _) as [|c l]; [done|]. by eexists _, _.
Qed.

Lemma tampered_rejected i ev :
  inverted_verifies i = false -> tamper (admitted_evidence i) = Some ev ->
  is_ok (ReproducibleBuildVerifier_verify (admission_verifier i) ev demo_verify_ctx) = false.
Proof.
  intros Hn Ht. destruct (ReproducibleBuildVerifier_verify _ _ _) as [[]|] eqn:E; [|done].
  destruct (tamper_some i) as (ev' & sig & Ht' & Hsig & ->). rewrite Ht in Ht'.
  injection Ht' as ->. apply build_verify_iff in E as [E _].
  apply MockVerifier_verify_Ok in E as (_ & _ & _ & _ & _ & _ & E).
  unfold inverted_verifies in Hn. cbn [admitted_evidence set_chain MockIssuer_issue cpu_quote] in Hsig.
  rewrite Hsig in Hn. rewrite <- Hn. symmetry. exact E.
Qed.

(** Three slots of different vendors with a threshold of two, by the
    identities their evidence has. *)
Lemma three_slots a b c e1 e2 e3 ctx o1 o2 o3 :
  slot_id ctx (a, e1) = o1 -> slot_id ctx (b, e2) = o2 -> slot_id ctx (c, e3) = o3 ->
  NoDup (omap Datatypes.id [o1; o2; o3]) ->
  MultiVendorVerifier_verify {| verifiers := [a; b; c]; threshold_k := 2 |} [e1; e2; e3] ctx
  = if decide (length (omap Datatypes.id [o1; o2; o3]) < 2)%nat then
      Err (AttestationFailed (lit "k-of-n failed: " ++ znat (length (omap Datatypes.id [o1; o2; o3]))
             ++ lit " distinct attestation identities, threshold " ++ znat 2))
    else Ok (list_to_set (omap (fun '(o, v) => (fun _ => kind v) <$> o) [(o3, c); (o2, b); (o1, a)])).
Proof.
  intros <- <- <- Hnd. unfold MultiVendorVerifier_verify. cbn [verifiers threshold_k length].
  rewrite decide_False by (intros Hn; by apply Hn). rewrite slot_loop_spec, !(right_id_L ∅ (∪)).
  assert (Hs : size (slot_ids ctx (zip [a; b; c] [e1; e2; e3]))
               = length (omap Datatypes.id [slot_id ctx (a, e1); slot_id ctx (b, e2); slot_id ctx (c, e3)])).
  { unfold slot_ids. cbn [zip zip_with omap list_omap] in *. by rewrite size_list_to_set. }
  rewrite Hs. case_decide; [done|]. f_equal. cbn [zip zip_with counted].
  cbn [omap list_omap] in Hnd |- *. unfold Datatypes.id in *.
  destruct (slot_id ctx (a, e1)) eqn:E1, (slot_id ctx (b, e2)) eqn:E2, (slot_id ctx (c, e3)) eqn:E3;
    cbn in Hnd |- *; rewrite ?NoDup_cons in Hnd; repeat case_decide; set_solver.
Qed.
(** What can go wrong with the keys the scenario draws from [rng]. *)
Definition vendors_unlucky (rng : R) : Prop :=
  let '((t, s, n), _) := issuers_drawn rng in
  ~ NoDup (issuer_id <$> [t; s; n]) \/ inverted_verifies t = true \/ inverted_verifies s = true.

Instance vendors_unlucky_dec rng : Decision (vendors_unlucky rng).
Proof. unfold vendors_unlucky. destruct (issuers_drawn rng) as [[[t s] n] r]. apply _. Defined.

(** The three checks of the scenario, on three issuers. *)
Lemma three_issuers t s n :
  NoDup (issuer_id <$> [t; s; n]) -> inverted_verifies t = false -> inverted_verifies s = false ->
  let mv := {| verifiers := [VendorVerifier_new VendorKind.Tdx (admission_verifier t);
                             VendorVerifier_new VendorKind.Snp (admission_verifier s);
                             VendorVerifier_new VendorKind.Nvidia (admission_verifier n)];
               threshold_k := 2 |} in
  let check evs := MultiVendorVerifier_verify mv evs demo_verify_ctx in
  exists t' s', tamper (admitted_evidence t) = Some t' /\ tamper (admitted_evidence s) = Some s'
    /\ (exists ks, check [admitted_evidence t; admitted_evidence s; admitted_evidence n] = Ok ks /\ size ks = 3%nat)
    /\ (exists ks, check [t'; admitted_evidence s; admitted_evidence n] = Ok ks /\ size ks = 2%nat)
    /\ is_ok (check [t'; s'; admitted_evidence n]) = false.
Proof.
  intros Hid Ht Hs mv check.
  destruct (tamper_some t) as (t' & st & Ht' & _ & Et), (tamper_some s) as (s' & ss & Hs' & _ & Es).
  assert (Ok_ : forall k i, slot_id demo_verify_ctx (VendorVerifier_new k (admission_verifier i), admitted_evidence i)
                            = Some (issuer_id i)).
  { intros k i. rewrite admission_slot_id by done. by rewrite admitted_accepted. }
  assert (Bad : forall k i ev, inverted_verifies i = false -> tamper (admitted_evidence i) = Some ev ->
            slot_id demo_verify_ctx (VendorVerifier_new k (admission_verifier i), ev) = None).
  { intros k i ev Hi Hev. destruct (tamper_some i) as (ev' & sg & Hev' & _ & E').
    rewrite Hev in Hev'. injection Hev' as <-. rewrite admission_slot_id by (by rewrite E').
    by rewrite tampered_rejected. }
  cbn [fmap list_fmap] in Hid. rewrite !NoDup_cons in Hid.
  exists t', s'. split_and!; [done|done| | |]; unfold check, mv.
  - erewrite three_slots by first [apply Ok_ | cbn; rewrite !NoDup_cons; set_solver].
    eexists. split; [reflexivity|]. reflexivity.
  - erewrite three_slots by first [by apply Bad | apply Ok_ | cbn; rewrite !NoDup_cons; set_solver].
    eexists. split; [reflexivity|]. reflexivity.
  - by erewrite three_slots by first [by apply Bad | apply Ok_ | cbn; rewrite !NoDup_cons; set_solver].
Qed.

Lemma multi_vendor_prints rng :
  ~ vendors_unlucky rng -> exists rng', prints multi_vendor_scenario rng vendor_lines rng'.
Proof.
  unfold vendors_unlucky, issuers_drawn.
  destruct (MockIssuer_random rng) as [t r1] eqn:E1. destruct (MockIssuer_random r1) as [s r2] eqn:E2.
  destruct (MockIssuer_random r2) as [n r3] eqn:E3. intros Hu.
  destruct (three_issuers t s n) as (t' & s' & Ht & Hs & (k1 & H1' & Z1) & (k2 & H2' & Z2) & H3');
    [apply dec_stable; tauto|apply not_true_is_false; tauto..|].
  exists r3. intros out. unfold multi_vendor_scenario.
  erewrite run_bind_ok by (unfold sample; by rewrite E1). erewrite run_bind_ok by (unfold sample; by rewrite E2).
  erewrite run_bind_ok by (unfold sample; by rewrite E3). cbv zeta.
  run_step. cbn [verifiers] in *.
  erewrite run_bind_ok by (unfold attempt; by rewrite H1'). run_step.
  rewrite Ht. run_step. erewrite run_bind_ok by (unfold attempt; by rewrite H2'). run_step.
  rewrite Hs. run_step. run_step. rewrite H3'. run_step. run_step.
  erewrite run_bind_ok; [|unfold attempt; reflexivity]. unfold println.
  rewrite Z1, Z2, <- !(assoc_L (++)). reflexivity.
Qed.
(** *** The threshold signature *)

(** The first [n] participants hold what was dealt, and are [n] different
    ones. *)
Lemma first_participants_spec n kps :
  (n <= size kps)%nat ->
  Forall (holds kps) (first_participants identifier_le n kps)
  /\ size (signers (first_participants identifier_le n kps)) = n.
Proof.
  intros Hn. unfold first_participants.
  assert (Hp : btree_iter identifier_le kps ≡ₚ map_to_list kps) by apply merge_sort_Permutation.
  split.
  - apply Forall_fmap, Forall_forall. intros [i kp] Hin%elem_of_take. destruct Hin as (j & Hj & _).
    apply list_elem_of_lookup_2 in Hj. rewrite Hp in Hj. by apply elem_of_map_to_list in Hj.
  - unfold signers. rewrite <- list_fmap_compose.
    rewrite (list_fmap_ext _ fst) by (by intros _ [] _). rewrite size_list_to_set.
    + rewrite length_fmap, length_take, Hp, length_map_to_list. lia.
    + rewrite fmap_take. eapply sublist_NoDup; [|apply sublist_take].
      rewrite Hp. apply NoDup_fst_map_to_list.
Qed.

Lemma threshold_scenario_prints rng :
  exists vk rng', prints (threshold_scenario identifier_le vk_error) rng (threshold_lines (hex_encode vk)) rng'.
Proof.
  destruct (distribute_spec 2 3 rng) as [Hok Hks].
  destruct (distribute_with_trusted_dealer 2 3 rng) as [[ks|e] r1] eqn:Ed; cbn [fst] in *;
    [|by assert (is_ok (@Err KeyShares _ e) = true) by (apply Hok; lia)].
  destruct (Hks ks eq_refl) as [Hd Hsize].
  destruct (first_participants_spec 2 (key_packages ks)) as [Hh2 Hn2]; [lia|].
  destruct (first_participants_spec 1 (key_packages ks)) as [Hh1 Hn1]; [lia|].
  destruct (sign_once_spec vk_error _ _ _ r1 _ demo_message Hd Hh2) as (vk & res2 & Hvk & Hs2 & Hr2).
  destruct (sign_once r1 _ _ _) as [o2 r2] eqn:E2. cbn [fst] in Hs2. subst o2.
  destruct (sign_once_spec vk_error _ _ _ r2 _ demo_message Hd Hh1) as (vk' & res1 & _ & Hs1 & Hr1).
  destruct (sign_once r2 _ _ _) as [o1 r3] eqn:E1. cbn [fst] in Hs1. subst o1.
  rewrite Hn2 in Hr2. rewrite Hn1 in Hr1. destruct res2 as [sig|]; [|lia]. destruct res1 as [|e1]; [lia|].
  destruct Hr2 as (_ & _ & Hver).
  exists vk, r3. intros out. unfold threshold_scenario.
  erewrite run_bind_ok by (unfold sample_try; by rewrite Ed). rewrite Hvk. run_step. run_step. cbv zeta.
  erewrite run_bind_ok by (unfold sample_try; by rewrite E2). rewrite Hver. run_step. run_step.
  erewrite run_bind_ok by (unfold sample_try; by rewrite E1). run_step.
  unfold println. by rewrite <- !(assoc_L (++)).
Qed.

(** *** The onion *)

Lemma relay_secrets_known labels s rng :
  exists s' rng', (forall out, relay_secrets labels s rng out = (Some (Ok s'), rng', out))
    /\ forall l, l ∈ labels \/ is_Some (s !! l) -> is_Some (s' !! l).
Proof.
  revert s rng. induction labels as [|l labels IH]; intros s rng.
  { exists s, rng. split; [done|]. intros l [Hl|Hl]; [by apply not_elem_of_nil in Hl|done]. }
  destruct (x25519_random rng) as [sk r1] eqn:E. destruct (IH (<[l := sk]> s) r1) as (s' & r' & Hrun & Hs').
  exists s', r'. split.
  - intros out. cbn [relay_secrets]. erewrite run_bind_ok by (unfold sample; by rewrite E). apply Hrun.
  - intros k Hk. apply Hs'. destruct (decide (k = l)) as [->|Hne]; [right; rewrite lookup_insert_eq; by eexists|].
    rewrite elem_of_cons in Hk. rewrite lookup_insert_ne by done. tauto.
Qed.

Lemma onion_scenario_prints rng : exists rng', prints onion_scenario rng onion_lines rng'.
Proof.
  destruct (relay_secrets_known [lit "guard"; lit "middle"; lit "exit"] ∅ rng) as (s & r1 & Hrun & Hs).
  destruct (send_through_known r1 s [] [lit "guard"; lit "middle"; lit "exit"] demo_payload) as [r2 Hsend];
    [done|by repeat constructor; apply Hs; left; set_solver|].
  exists r2. intros out. unfold onion_scenario. erewrite run_bind_ok by apply Hrun. cbv zeta.
  erewrite run_bind_ok by (unfold sample_try, InMemoryRelay_new; by rewrite Hsend).
  run_step. rewrite bool_decide_eq_true_2 by done. run_step. run_step.
  unfold println. by rewrite <- (assoc_L (++)).
Qed.

(** C40. The walkthrough completes: from every state of the generator, [main]
    ends with neither an error nor a panic (every [assert!], [expect] and [?]
    of the four scenarios passes, the three that expect a rejection included)
    and prints exactly the expected lines, with the group key of the dealing
    in hexadecimal; unless, of the three attestation keys the second scenario
    draws from the generator as the first one left it, two give one identity
    (the SHA-256 of a given message with the key in it), or a quote of the
    first or second whose first byte was inverted still carries a valid
    signature.  The exception is a decidable condition on those keys. *)
Theorem phase4_completes rng :
  (exists vk rng', phase4_main identifier_le vk_error rng []
                   = (Some (Ok tt), rng', phase4_output (hex_encode vk)))
  \/ vendors_unlucky (mpc_scenario rng []).1.2.
Proof.
  destruct (mpc_scenario_prints rng) as [r1 H1']. rewrite (H1' []). cbn [fst snd].
  destruct (decide (vendors_unlucky r1)) as [|Hu]; [by right|left].
  destruct (multi_vendor_prints r1 Hu) as [r2 H2']. destruct (threshold_scenario_prints r2) as (vk & r3 & H3').
  destruct (onion_scenario_prints r3) as [r4 H4'].
  exists vk, r4.
  assert (Hp : prints (phase4_main identifier_le vk_error) rng (phase4_output (hex_encode vk)) r4); [|apply (Hp [])].
  unfold phase4_main, phase4_output.
  repeat (eapply prints_seq; [first [apply prints_println|done]|]). apply prints_println.
Qed.
End Completes.

(** The concrete scheme of every interface, with the lexicographic order
    of the toy identifiers. *)
#[local] Existing Instance toy_frost.
#[local] Existing Instance toy_frost_laws.

Lemma phase4_completes_witness :
  exists vk rng', phase4_main (R := Z) Nat.leb [] 7 [] = (Some (Ok tt), rng', phase4_output (hex_encode vk)).
Proof.
  assert (Hc : (exists vk rng', phase4_main (R := Z) Nat.leb [] 7 []
                                = (Some (Ok tt), rng', phase4_output (hex_encode vk)))
    \/ vendors_unlucky (mpc_scenario 7 []).1.2) by exact (phase4_completes (R := Z) Nat.leb [] 7).
  destruct Hc as [Hm|Hu]; [exact Hm|exfalso].
  assert (Hr : (mpc_scenario (R := Z) 7 []).1.2 = 3027343) by (vm_compute; reflexivity).
  rewrite Hr in Hu. assert (Hd : bool_decide (vendors_unlucky 3027343) = false) by (vm_compute; reflexivity).
  exact (bool_decide_eq_false_1 _ Hd Hu).
Defined.

(** Three of the scenarios, evaluated on the concrete schemes: no unlucky
    event at this state of the generator. *)
Example scenarios_run :
  (multi_vendor_scenario (R := Z) 7 []).2 = vendor_lines
  /\ (threshold_scenario (R := Z) Nat.leb [] 7 []).1.1 = Some (Ok tt)
  /\ (onion_scenario (R := Z) 7 []).2 = onion_lines.
Proof. vm_compute. repeat split. Qed.
