(* ===== verification/Service.v ===== *)
(** * ullm-tee: the session handler and the attestation endpoint

    [crates/ullm-tee/src/service.rs], with the engine interface of
    [inference.rs].  A session is one WebSocket connection.  Its effects (the
    messages it receives and sends, the operating system's generator and the
    tenant pool) are threaded by a small state-and-error monad; the clock and
    the seed of the session id are arguments.  The engine's task and the
    handler communicate through a channel the engine closes when it is done,
    so what the handler sees of it is the list of chunks it sent. *)

From S2P Require Import Prelude RustStd Core Crates Toy Crypto Frame Control Handshake Attest.
From S2P Require Import Receipts KvCloak Model TenantPool NonceRegistry.
From Stdlib Require Import Lia.

Local Open Scope Z_scope.

(** ** inference.rs *)

Record TokenChunk := { ids : list Z; text : bytes }.

(** An engine run on a prompt: the chunks it sends before it closes the
    channel, in order. *)
Class InferenceEngine (E : Type) := { engine_run : E -> bytes -> list TokenChunk }.

(** ** Effects *)

Inductive ws_message :=
| Binary (b : bytes) | Text (s : bytes) | Ping (b : bytes) | Pong (b : bytes) | Close.

(** An item of the WebSocket stream. *)
Abbreviation ws_event := (result ws_message bytes).

(** How one [sender.send(msg)] under its timeout ends. *)
Inductive send_outcome := Sent | SendFailed (e : bytes) | SendTimedOut.

(** How a session ends early: an [anyhow] error made from a text, from the
    program's own error or from the serializer's, or a panic. *)
Inductive SessionError :=
| Anyhow (msg : bytes)
| FromCore (e : Error)
| FromPostcard (msg : bytes)
| Panicked.

Record World (R : Type) := {
  incoming : list ws_event;        (** what the peer will have sent; the end is the end of the stream *)
  outcomes : list send_outcome;    (** of the sends to come; after the last one they all succeed *)
  sent : list bytes;               (** the binary messages sent so far *)
  rng : R;
  pool : TenantPool;
}.
Arguments incoming {R}.
Arguments outcomes {R}.
Arguments sent {R}.
Arguments rng {R}.
Arguments pool {R}.

Definition M (R A : Type) : Type := World R -> result A SessionError * World R.

Section Monad.
Context {R : Type}.

Definition ret {A} (a : A) : M R A := fun w => (Ok a, w).

Definition bind {A B} (c : M R A) (k : A -> M R B) : M R B := fun w =>
  match c w with
  | (Ok a, w) => k a w
  | (Err e, w) => (Err e, w)
  end.

Definition throw {A} (e : SessionError) : M R A := fun w => (Err e, w).

Definition lift {A} (r : result A SessionError) : M R A := fun w => (r, w).

(** The [?] operator on the program's own result type, and on a call that may panic. *)
Definition lift_core {A} (r : Result A) : M R A := lift (map_err FromCore r).
Definition lift_panic {A} (o : option A) : M R A := lift (ok_or o Panicked).

Definition next_event : M R (option ws_event) := fun w =>
  (Ok (head (incoming w)),
   {| incoming := tail (incoming w); outcomes := outcomes w; sent := sent w; rng := rng w;
      pool := pool w |}).

Definition use_rng {A} (f : R -> A * R) : M R A := fun w =>
  let '(a, r) := f (rng w) in
  (Ok a, {| incoming := incoming w; outcomes := outcomes w; sent := sent w; rng := r;
            pool := pool w |}).

Definition use_pool {A} (f : TenantPool -> R -> A * TenantPool * R) : M R A := fun w =>
  let '(a, p, r) := f (pool w) (rng w) in
  (Ok a, {| incoming := incoming w; outcomes := outcomes w; sent := sent w; rng := r; pool := p |}).

(** [WS_SEND_TIMEOUT] is 60 s. *)
Definition send_ws (msg : bytes) : M R unit := fun w =>
  let after o s := {| incoming := incoming w; outcomes := o; sent := s; rng := rng w; pool := pool w |} in
  match outcomes w with
  | [] => (Ok tt, after [] (sent w ++ [msg]))
  | Sent :: os => (Ok tt, after os (sent w ++ [msg]))
  | SendFailed e :: os => (Err (Anyhow (lit "ws send: " ++ e)), after os (sent w))
  | SendTimedOut :: os =>
      (Err (Anyhow (lit "ws send timeout after " ++ fmt_dec 60 ++ lit "s — peer not draining")),
       after os (sent w))
  end.
End Monad.

Notation "'let!' x ':=' c 'in' k" := (bind c (fun x => k))
  (at level 10, x pattern, c at level 200, k at level 200) : ullm_scope.

(** ** service.rs *)

Definition KEY_UPDATE_EVERY_N_CHUNKS : Z := 2.

(** The channel half of the handler's locals. *)
Record Channel := {
  c2s : SymRatchet;
  s2c : SymRatchet;
  ch_salt : NonceSalt;
  current_root : RootKey;
  server_ratchet_sk : bytes;
  ch_client_pk : bytes;         (** [client_ratchet_pk] *)
  c2s_seq : Z;
  s2c_seq : Z;
  ch_epoch : Epoch;
  chunks_since_update : Z;
}.

(** The output half: what the receipt is computed from. *)
Record Output := {
  slot : SessionSlot;
  kv_position : Z;
  output_bytes : bytes;
  output_token_ids : list Z;
  output_token_total : Z;
}.

Record AppState {R : Type} `{!MlKem R} `{!Pasta} {E : Type} := {
  identity : TeeIdentity R;
  engine : E;
  receipt_signer : ReceiptSigner;
  model_name : bytes;
  verifiable_model : Model;
  (** A prover draws randomness and may fail, or panic ([None]). *)
  layer_prover : option (Trace -> SessionId -> bytes -> R -> option (result (list bytes) bytes) * R);
}.
Arguments AppState R {_ _} E.

Section Handler.
Context {R : Type} `{!MlKem R, !X25519 R, !Rng R, !Ed25519, !Hkdf, !Sha2, !Aead, !Bitflags, !Hex}
  `{!Pasta} `{!Postcard ClientHello, !Postcard ServerHello, !Postcard PreKeyBundle,
    !Postcard Evidence, !Postcard Receipt, !Postcard ReceiptEnvelope}
  `{!InferenceEngine E}.

Definition tee_verifying_key (state : AppState R E) : bytes :=
  ReceiptSigner_verifying_key (receipt_signer state).

(** The [x-ullm-tenant] header, [None] when absent or not visible ASCII. *)
Definition sanitized_tenant (h : option bytes) : bytes :=
  let raw := default (lit "anonymous") h in
  if decide (raw = [] \/ 128 < Z.of_nat (length raw)) then lit "anonymous" else
  if negb (forallb (fun c => is_ascii_alphanumeric c || (uval c =? 95) || (uval c =? 45)
                             || (uval c =? 46)) raw)
  then lit "anonymous" else raw.

Definition synthesize_kv_row (chunk : bytes) (position : Z) : bytes :=
  hkdf_expand (hkdf_extract (to_be_bytes 8 position) chunk) (lit "ULLM-v1 synth-kv") CLOAK_BLOCK_LEN.

(** A received message that must be binary. *)
Definition expect_binary (msg : bytes) : M R bytes :=
  let! ev := next_event in
  match ev with
  | Some (Ok (Binary b)) => ret b
  | _ => throw (Anyhow msg)
  end.

Definition checked_seq (s : Z) : M R Z :=
  if u64_max <? s + 1 then throw (Anyhow (lit "seq overflow")) else ret (s + 1).

Definition Channel_new (keys : EstablishedKeys) (ratchet_sk : bytes) : Channel :=
  {| c2s := SymRatchet_new (ek_c2s_chain keys);
     s2c := SymRatchet_new (ek_s2c_chain keys);
     ch_salt := ek_nonce_salt keys;
     current_root := root keys;
     server_ratchet_sk := ratchet_sk;
     ch_client_pk := ek_client_ratchet_pk keys;
     c2s_seq := 0; s2c_seq := 0; ch_epoch := 0; chunks_since_update := 0 |}.

(** The accumulators of one chunk. *)
Definition record_chunk (o : Output) (chunk : TokenChunk) : Output :=
  let text_bytes := text chunk in
  let kv_row := synthesize_kv_row text_bytes (kv_position o) in
  {| slot := record_kv (slot o) (kv_position o) kv_row;
     kv_position := wrapping_add 64 (kv_position o) 1;
     output_bytes := output_bytes o ++ text_bytes;
     output_token_ids := output_token_ids o ++ ids chunk;
     output_token_total :=
       Z.min u32_max (output_token_total o + Z.of_nat (length (ids chunk)) mod 2 ^ 32) |}.

(** The DATA frame of one chunk. *)
Definition send_chunk (c : Channel) (chunk : TokenChunk) : M R Channel :=
  let '(key, s2c') := SymRatchet_next_key (s2c c) in
  let! frame := lift_core (encode_frame key (ch_salt c) FrameType.Data 0 (ch_epoch c) (s2c_seq c)
                             (text chunk)) in
  let! _ := send_ws (wire frame) in
  let! seq' := checked_seq (s2c_seq c) in
  ret {| c2s := c2s c; s2c := s2c'; ch_salt := ch_salt c; current_root := current_root c;
         server_ratchet_sk := server_ratchet_sk c; ch_client_pk := ch_client_pk c;
         c2s_seq := c2s_seq c; s2c_seq := seq'; ch_epoch := ch_epoch c;
         chunks_since_update := chunks_since_update c + 1 |}.

(** The key update: the control frame goes out under the current chain, then
    the new keys are adopted. *)
Definition key_update (c : Channel) : M R Channel :=
  let! new_sk := use_rng x25519_random in
  let new_pk := x25519_public new_sk in
  let '(new_root, new_keys) := DhRatchet_step (current_root c) new_sk (ch_client_pk c) in
  let body := Control_encode (Control.KeyUpdate new_pk) in
  let '(key, _) := SymRatchet_next_key (s2c c) in
  let! ctrl_frame := lift_core (encode_frame key (ch_salt c) FrameType.Control 0 (ch_epoch c)
                                  (s2c_seq c) body) in
  let! _ := send_ws (wire ctrl_frame) in
  ret {| c2s := SymRatchet_new (c2s_chain new_keys); s2c := SymRatchet_new (s2c_chain new_keys);
         ch_salt := nonce_salt new_keys; current_root := new_root; server_ratchet_sk := new_sk;
         ch_client_pk := ch_client_pk c; c2s_seq := 0; s2c_seq := 0;
         ch_epoch := wrapping_add 32 (ch_epoch c) 1; chunks_since_update := 0 |}.

(** The body of the loop after the accumulators. *)
Definition stream_chunk (c : Channel) (chunk : TokenChunk) : M R Channel :=
  let! c := send_chunk c chunk in
  if (0 <? KEY_UPDATE_EVERY_N_CHUNKS) && (KEY_UPDATE_EVERY_N_CHUNKS <=? chunks_since_update c)
  then key_update c else ret c.

(** The streaming loop. *)
Fixpoint stream_chunks (c : Channel) (o : Output) (chunks : list TokenChunk) : M R (Channel * Output) :=
  match chunks with
  | [] => ret (c, o)
  | chunk :: chunks =>
      let o := record_chunk o chunk in
      let! c := stream_chunk c chunk in
      stream_chunks c o chunks
  end.

(** The end-of-turn marker. *)
Definition send_eot (c : Channel) : M R unit :=
  let '(key, _) := SymRatchet_next_key (s2c c) in
  let! eot := lift_core (encode_frame key (ch_salt c) FrameType.Data END_OF_TURN (ch_epoch c)
                           (s2c_seq c) []) in
  send_ws (wire eot).

(** The verifiable trace, its commitments and the optional proofs; a prover
    failure leaves the proofs out. *)
Definition layer_proofs (state : AppState R E) (trace : Trace) (session_id : SessionId) (r : R)
  : option (list bytes) * R :=
  match layer_prover state with
  | Some p =>
      let '(o, r) := p trace session_id (weight_commit (identity state)) r in
      ((fun res => match res with Ok proofs => proofs | Err _ => [] end) <$> o, r)
  | None => (Some [], r)
  end.

Definition build_receipt (state : AppState R E) (tenant : TenantId) (session_id : SessionId)
    (input_hash : bytes) (input_tokens now : Z) (epoch : Epoch) (o : Output) (commits : list bytes)
  : Receipt :=
  {| Receipts.tenant := tenant;
     session := session_id;
     Receipts.model := model_name state;
     Receipts.input_tokens := input_tokens;
     output_tokens := output_token_total o;
     Receipts.epoch := epoch;
     Receipts.issued_at_unix := now;
     kv_blocks_cloaked := Z.of_nat (cloaked_count (slot o)) mod 2 ^ 32;
     output_digest_hex := hex_encode (compute_token_id_digest input_hash (output_token_ids o));
     output_string_digest_hex := hex_encode (compute_output_string_digest input_hash (output_bytes o));
     weight_commit_hex := hex_encode (weight_commit (identity state));
     activation_commits_hex := hex_encode <$> commits |}.

(** The evidence and signature of the server hello. *)
Definition evidence_and_sig (state : AppState R E) (now : Z) (report_data pre_sig_hash : bytes)
  : Result (bytes * bytes) :=
  let evidence := MockIssuer_issue (attest_issuer (identity state)) report_data now in
  let? evidence_bytes := encode_evidence evidence in
  let payload := SIG_DOMAIN_HANDSHAKE ++ pre_sig_hash in
  Ok (evidence_bytes, ed25519_sign (id_sk (identity state)) payload).

(** Steps 1 and 2: the hello exchange. *)
Definition accept_handshake (state : AppState R E) (now_ns : Z) : M R (Channel * Z) :=
  let! hello_msg := expect_binary (lit "expected ClientHello binary frame") in
  let server := {| spk_sk_x25519 := tee_spk_sk_x25519 (identity state);
                   pq_sk_mlkem := tee_pq_sk_mlkem (identity state) |} in
  let! ratchet_sk := use_rng x25519_random in
  let! now := lift (map_err (fun e => Anyhow (lit "system clock unusable: " ++ Error_display e))
                            (now_unix now_ns)) in
  let! resp := use_rng (fun r => ServerHandshake_respond server r hello_msg ratchet_sk
                                   (evidence_and_sig state now)) in
  let! (server_hello, keys) := lift_core resp in
  let! _ := send_ws server_hello in
  ret (Channel_new keys ratchet_sk, now).

(** Step 3: the prompt. *)
Definition receive_prompt (c : Channel) : M R (bytes * Channel) :=
  let! prompt_frame := expect_binary (lit "expected encrypted prompt frame") in
  let '(key, c2s') := SymRatchet_next_key (c2s c) in
  let! (header, prompt_bytes) := lift_core (decode_frame key (ch_salt c) prompt_frame) in
  if decide (frame_type header <> FrameType.Data) then
    throw (Anyhow (lit "unexpected frame type for prompt"))
  else if decide (seq header <> c2s_seq c) then
    throw (Anyhow (lit "client sent out-of-order frame seq=" ++ fmt_dec (seq header)))
  else
  let! seq' := checked_seq (c2s_seq c) in
  if negb (utf8_valid prompt_bytes) then throw (Anyhow (lit "prompt is not utf-8")) else
  ret (prompt_bytes,
       {| c2s := c2s'; s2c := s2c c; ch_salt := ch_salt c; current_root := current_root c;
          server_ratchet_sk := server_ratchet_sk c; ch_client_pk := ch_client_pk c;
          c2s_seq := seq'; s2c_seq := s2c_seq c; ch_epoch := ch_epoch c;
          chunks_since_update := chunks_since_update c |}).

(** Steps 6 and 7: the trace, the receipt and its envelope. *)
Definition send_receipt (state : AppState R E) (tenant : TenantId) (session_id : SessionId)
    (prompt_bytes : bytes) (now : Z) (c : Channel) (o : Output) : M R unit :=
  let input_tokens := approx_token_count prompt_bytes in
  let input_hash := sha256 prompt_bytes in
  let trace := Model_run (verifiable_model state) (encode_prompt_to_fp input_hash) in
  let! activation_commits := lift_panic (Trace_commits trace) in
  let! proofs := use_rng (layer_proofs state trace session_id) in
  let! proofs := lift_panic proofs in
  let receipt := build_receipt state tenant session_id input_hash input_tokens now (ch_epoch c) o
                   (commit_bytes activation_commits) in
  let! signed := lift_panic (ReceiptSigner_sign (receipt_signer state) receipt) in
  let! signed := lift_core signed in
  let envelope := {| signed_receipt := signed; zk_layer_proofs := proofs |} in
  let! envelope_bytes := lift (map_err FromPostcard (postcard_to_allocvec envelope)) in
  send_ws envelope_bytes.

(** One session: [nanos] and [addr] seed the session id, [instant] is the
    pool's clock, [now_ns] the wall clock. *)
Definition handle_session (state : AppState R E) (tenant : TenantId) (nanos addr instant now_ns : Z)
  : M R unit :=
  let session_id := SessionId_random nanos addr in
  let! sl := use_pool (fun p r => allocate p tenant session_id instant r) in
  let! (c, now) := accept_handshake state now_ns in
  let! (prompt_bytes, c) := receive_prompt c in
  let o := {| slot := sl; kv_position := 0; output_bytes := []; output_token_ids := [];
              output_token_total := 0 |} in
  let! (c, o) := stream_chunks c o (engine_run (engine state) prompt_bytes) in
  let _sealed := finalize_seal (slot o) in
  let! _ := send_eot c in
  send_receipt state tenant session_id prompt_bytes now c o.

(** ** [GET /v1/attest] *)

Inductive HttpError := Status (code : Z) (msg : bytes) | HandlerPanic.

(** The answer and the registry after it. *)
Definition attest (state : AppState R E) (origin instant now_ns : Z) (nonce_registry : NonceRegistry.State)
    (q_nonce : bytes) : result bytes HttpError * NonceRegistry.State :=
  match hex_decode q_nonce with
  | None => (Err (Status 400 (lit "nonce is not hex")), nonce_registry)
  | Some nonce =>
      if decide (length nonce <> 32%nat)
      then (Err (Status 400 (lit "nonce must be 32 bytes")), nonce_registry) else
      let '(seen, nonce_registry) := observe origin nonce_registry instant nonce in
      (let? _ := map_err (fun _ => Status 409 (lit "attestation_nonce replay")) seen in
       let? now := map_err (fun e => Status 500 (lit "system clock unusable: " ++ Error_display e))
                           (now_unix now_ns) in
       let? bundle := ok_or (TeeIdentity_build_bundle (identity state) nonce now) HandlerPanic in
       map_err (fun e => Status 500 (Error_display e)) (encode_msg bundle),
       nonce_registry)
  end.
End Handler.

(** ** Fail-stop

    Every send the handler makes consumes one outcome.  [fail_stop] says of a
    computation that the messages it sent are matched by successful outcomes,
    and that it goes no further after the first send that fails, which
    determines its error. *)

Definition send_error (o : send_outcome) : SessionError :=
  match o with
  | SendFailed e => Anyhow (lit "ws send: " ++ e)
  | _ => Anyhow (lit "ws send timeout after " ++ fmt_dec 60 ++ lit "s — peer not draining")
  end.

Section FailStop.
Context {R : Type}.

(** [k] sends in a row succeed. *)
Definition all_sent (k : nat) (os : list send_outcome) : Prop := Forall (eq Sent) (take k os).

Inductive stops_at {A} (w w' : World R) (r : result A SessionError) : Prop :=
| Completed msgs : sent w' = sent w ++ msgs -> all_sent (length msgs) (outcomes w) ->
    outcomes w' = drop (length msgs) (outcomes w) -> stops_at w w' r
| Stopped msgs o os : sent w' = sent w ++ msgs ->
    outcomes w = replicate (length msgs) Sent ++ o :: os -> o <> Sent ->
    outcomes w' = os -> r = Err (send_error o) -> stops_at w w' r.

Definition fail_stop {A} (m : M R A) : Prop := forall w, stops_at w (m w).2 (m w).1.

(** A computation that sends nothing. *)
Definition silent {A} (m : M R A) : Prop :=
  forall w, sent (m w).2 = sent w /\ outcomes (m w).2 = outcomes w.

Lemma silent_fail_stop {A} (m : M R A) : silent m -> fail_stop m.
Proof.
  intros Hs w. destruct (Hs w) as [H1 H2]. apply (Completed _ _ _ []).
  - by rewrite app_nil_r.
  - constructor.
  - by rewrite drop_0.
Qed.

Lemma silent_ret {A} (a : A) : silent (ret a).
Proof. done. Qed.
Lemma silent_throw {A} e : silent (throw (A := A) e).
Proof. done. Qed.
Lemma silent_lift {A} (r : result A SessionError) : silent (lift r).
Proof. done. Qed.
Lemma silent_next : silent next_event.
Proof. done. Qed.
Lemma silent_rng {A} (f : R -> A * R) : silent (use_rng f).
Proof. intros w. unfold use_rng. by destruct (f (rng w)). Qed.
Lemma silent_pool {A} (f : TenantPool -> R -> A * TenantPool * R) : silent (use_pool f).
Proof. intros w. unfold use_pool. by destruct (f (pool w) (rng w)) as [[]]. Qed.

Lemma send_ws_fail_stop msg : fail_stop (send_ws msg).
Proof.
  intros w. unfold send_ws. destruct (outcomes w) as [|[|e|] os] eqn:Ho; cbn.
  1,2: apply (Completed _ _ _ [msg]); cbn; rewrite ?Ho; try done; by repeat constructor.
  - eapply (Stopped _ _ _ [] (SendFailed e)); cbn; rewrite ?app_nil_r, ?Ho; done.
  - eapply (Stopped _ _ _ [] SendTimedOut); cbn; rewrite ?app_nil_r, ?Ho; done.
Qed.

Lemma fail_stop_bind {A B} (m : M R A) (k : A -> M R B) :
  fail_stop m -> (forall a, fail_stop (k a)) -> fail_stop (bind m k).
Proof.
  intros Hm Hk w. specialize (Hm w). unfold bind. destruct (m w) as [[a|e] w1]; cbn [fst snd] in *.
  2:{ destruct Hm; [by eapply Completed|eapply Stopped; naive_solver]. }
  destruct Hm as [m1 Hs Ha Ho|m1 o os Hs Ho Hne Ho' Hr]; [|done].
  destruct (Hk a w1) as [m2 Hs2 Ha2 Ho2|m2 o os Hs2 Ho2 Hne Ho' Hr].
  - apply (Completed _ _ _ (m1 ++ m2)).
    + by rewrite Hs2, Hs, app_assoc.
    + rewrite Ho in Ha2. unfold all_sent in *. rewrite length_app.
      rewrite <- (take_drop (length m1) (take _ (outcomes w))), take_take, skipn_firstn_comm.
      rewrite Nat.min_l by lia. replace (length m1 + length m2 - length m1)%nat with (length m2) by lia.
      by apply Forall_app.
    + by rewrite Ho2, Ho, drop_drop, length_app.
  - apply (Stopped _ _ _ (m1 ++ m2) o os); [by rewrite Hs2, Hs, app_assoc| |done|done|done].
    rewrite Ho in Ho2. rewrite <- (take_drop (length m1) (outcomes w)), Ho2, length_app, replicate_add.
    rewrite <- app_assoc. f_equal. unfold all_sent in Ha.
    assert (Hl : (length m1 <= length (outcomes w))%nat).
    { apply (f_equal length) in Ho2. rewrite length_drop, length_app in Ho2. simpl in Ho2. lia. }
    apply list_eq_same_length with (length m1); [by rewrite length_replicate|rewrite length_take; lia|].
    intros i x y Hi Hx Hy. rewrite lookup_replicate_2 in Hy by lia. injection Hy as <-.
    symmetry. by eapply (Forall_lookup_1 (eq Sent)).
Qed.
End FailStop.

#[export] Hint Resolve silent_fail_stop silent_ret silent_throw silent_lift silent_next silent_rng
  silent_pool send_ws_fail_stop : ullm.

(** Follows the structure of a computation. *)
Ltac fail_stop_step :=
  lazymatch goal with
  | |- fail_stop (bind _ _) => apply fail_stop_bind; [|intros ?]
  | |- fail_stop (let '(_, _) := ?x in _) => destruct x
  | |- fail_stop (match ?x with _ => _ end) => destruct x
  | |- fail_stop (lift_core _) => unfold lift_core
  | |- fail_stop (lift_panic _) => unfold lift_panic
  | |- fail_stop (let _ := _ in _) => cbv zeta
  | |- _ => solve [auto with ullm nocore]
  end.
Ltac fail_stop_tac := cbv zeta; repeat fail_stop_step.

Section HandlerFailStop.
Context {R : Type} `{!MlKem R, !X25519 R, !Rng R, !Ed25519, !Hkdf, !Sha2, !Aead, !Bitflags, !Hex}
  `{!Pasta} `{!Postcard ClientHello, !Postcard ServerHello, !Postcard Evidence, !Postcard Receipt,
    !Postcard ReceiptEnvelope} `{!InferenceEngine E}.

Lemma expect_binary_fail_stop msg : fail_stop (expect_binary (R := R) msg).
Proof. unfold expect_binary. fail_stop_tac. Qed.

Lemma checked_seq_fail_stop s : fail_stop (checked_seq (R := R) s).
Proof. unfold checked_seq. fail_stop_tac. Qed.

Lemma stream_chunk_fail_stop c chunk : fail_stop (stream_chunk c chunk).
Proof.
  unfold stream_chunk, send_chunk, key_update.
  pose proof checked_seq_fail_stop. fail_stop_tac.
Qed.

Lemma stream_chunks_fail_stop chunks c o : fail_stop (stream_chunks c o chunks).
Proof.
  revert c o. induction chunks as [|chunk chunks IH]; intros c o; cbn [stream_chunks].
  - fail_stop_tac.
  - pose proof stream_chunk_fail_stop. fail_stop_tac.
Qed.

Lemma accept_handshake_fail_stop (state : AppState R E) now_ns : fail_stop (accept_handshake state now_ns).
Proof. unfold accept_handshake. pose proof expect_binary_fail_stop. fail_stop_tac. Qed.

Lemma receive_prompt_fail_stop c : fail_stop (receive_prompt (R := R) c).
Proof.
  unfold receive_prompt. pose proof expect_binary_fail_stop. pose proof checked_seq_fail_stop. fail_stop_tac.
Qed.

Lemma send_receipt_fail_stop (state : AppState R E) tenant sid prompt now c o :
  fail_stop (send_receipt state tenant sid prompt now c o).
Proof. unfold send_receipt. fail_stop_tac. Qed.
End HandlerFailStop.

(** ** Claims *)

(** C15. The handler is fail-stop: in every run, whatever the peer sends and
    whichever sends fail, each message it sent was accepted by the socket, and
    at the first send that fails or times out it stops at once, with the error
    of that send, having sent exactly the messages before it; nothing, in
    particular no receipt, follows. *)
Theorem handle_session_fail_stop {R} `{!MlKem R, !X25519 R, !Rng R, !Ed25519, !Hkdf, !Sha2, !Aead,
    !Bitflags, !Hex} `{!Pasta} `{!Postcard ClientHello, !Postcard ServerHello, !Postcard Evidence,
    !Postcard Receipt, !Postcard ReceiptEnvelope} `{!InferenceEngine E}
    (state : AppState R E) tenant nanos addr instant now_ns :
  fail_stop (handle_session state tenant nanos addr instant now_ns).
Proof.
  unfold handle_session, send_eot.
  pose proof (accept_handshake_fail_stop state). pose proof (receive_prompt_fail_stop (R := R)).
  pose proof (stream_chunks_fail_stop (R := R)). pose proof (send_receipt_fail_stop state).
  fail_stop_tac.
Qed.
