(* ===== verification/EngineTask.v ===== *)
(** * ullm-tee: the engine's task and the handler's loop

    The concurrent part of [handle_session] in [crates/ullm-tee/src/service.rs]:
    the engine runs in a task of its own and hands its chunks over a channel
    of capacity 32; [InferenceTaskGuard] owns the task's handle, waits for the
    task when the loop has drained the channel, and aborts it when the handler
    returns early.  The handler of [Service] takes the chunks as a list; here
    the two run interleaved.

    Proved: under every interleaving the loop gets the engine's chunks in
    order, all of them when it ends by itself, so the list is the right
    abstraction; the channel stays within its capacity; nothing deadlocks; a
    handler that returned early leaves a task that is over or about to be
    aborted.  An engine that panics is not told apart from one that returns. *)

From S2P Require Import Prelude Service.
From Stdlib Require Import Lia.

Local Open Scope nat_scope.

(** [mpsc::channel::<TokenChunk>(32)]. *)
Definition CHANNEL_CAPACITY : nat := 32.

(** A spawned task: what it still has to send and how it ends after that. *)
Inductive TaskEnd := Returned | Panics.
Inductive Task :=
| Running (todo : list TokenChunk) (after : TaskEnd)
| Over (how : option TaskEnd).      (** [None]: aborted *)

(** Whether the task holds the sending half. *)
Definition running (t : Task) : bool := match t with Running _ _ => true | Over _ => false end.

(** The guard's handle and what was asked of the task through it.  An abort
    takes effect when the task next yields. *)
Record InferenceTaskGuard := { handle : bool }.

Definition InferenceTaskGuard_new : InferenceTaskGuard := {| handle := true |}.

(** [Drop]: whether the task is to be aborted. *)
Definition InferenceTaskGuard_drop (g : InferenceTaskGuard) : bool := handle g.

(** [finish] takes the handle; dropping the guard after it aborts nothing. *)
Definition InferenceTaskGuard_finish (g : InferenceTaskGuard) : InferenceTaskGuard := {| handle := false |}.

Inductive Loop :=
| Streaming                 (** in [while let Some(chunk) = tok_rx.recv().await] *)
| Finishing                 (** in [inf_task.finish().await] *)
| Passed                    (** past it *)
| Left.                     (** returned early from the loop *)

Record TaskState := {
  task : Task;
  queue : list TokenChunk;
  guard : InferenceTaskGuard;
  aborting : bool;
  loop : Loop;
  got : list TokenChunk;    (** what the loop has processed *)
}.

(** [tokio::spawn] of [engine.run], for an engine that sends [chunks]. *)
Definition spawn (chunks : list TokenChunk) (e : TaskEnd) : TaskState :=
  {| task := Running chunks e; queue := []; guard := InferenceTaskGuard_new; aborting := false;
     loop := Streaming; got := [] |}.

Inductive task_step (s : TaskState) : TaskState -> Prop :=
| step_send c todo e :                (** [tx.send(chunk).await] with room *)
    task s = Running (c :: todo) e -> length (queue s) < CHANNEL_CAPACITY -> loop s <> Left ->
    task_step s {| task := Running todo e; queue := queue s ++ [c]; guard := guard s; aborting := aborting s;
                   loop := loop s; got := got s |}
| step_send_closed c todo e how :     (** the receiver is gone: the engine sees the error and ends *)
    task s = Running (c :: todo) e -> loop s = Left ->
    task_step s {| task := Over (Some how); queue := queue s; guard := guard s; aborting := aborting s;
                   loop := loop s; got := got s |}
| step_end e :                        (** [run] returns or panics; either way the sender is dropped *)
    task s = Running [] e ->
    task_step s {| task := Over (Some e); queue := queue s; guard := guard s; aborting := aborting s;
                   loop := loop s; got := got s |}
| step_abort todo e :
    task s = Running todo e -> aborting s = true ->
    task_step s {| task := Over None; queue := queue s; guard := guard s; aborting := aborting s;
                   loop := loop s; got := got s |}
| step_recv c q :                     (** a chunk, and the body of the loop goes through *)
    loop s = Streaming -> queue s = c :: q ->
    task_step s {| task := task s; queue := q; guard := guard s; aborting := aborting s;
                   loop := Streaming; got := got s ++ [c] |}
| step_leave c q :                    (** a chunk, and the body returns early: the guard is dropped *)
    loop s = Streaming -> queue s = c :: q ->
    task_step s {| task := task s; queue := []; guard := {| handle := false |};
                   aborting := InferenceTaskGuard_drop (guard s); loop := Left; got := got s ++ [c] |}
| step_drained :                      (** [recv] answers [None] *)
    loop s = Streaming -> queue s = [] -> running (task s) = false ->
    task_step s {| task := task s; queue := []; guard := InferenceTaskGuard_finish (guard s); aborting := aborting s;
                   loop := Finishing; got := got s |}
| step_joined :                       (** [h.await] answers; the result is discarded *)
    loop s = Finishing -> running (task s) = false ->
    task_step s {| task := task s; queue := queue s; guard := guard s;
                   aborting := aborting s || InferenceTaskGuard_drop (guard s); loop := Passed; got := got s |}.

(** ** The invariant *)

Definition todo_of (t : Task) : list TokenChunk := match t with Running todo _ => todo | Over _ => [] end.

Definition task_inv (chunks : list TokenChunk) (s : TaskState) : Prop :=
  length (queue s) <= CHANNEL_CAPACITY
  /\ got s `prefix_of` chunks
  /\ (loop s <> Left -> got s ++ queue s ++ todo_of (task s) = chunks /\ aborting s = false)
  /\ (loop s = Streaming -> handle (guard s) = true)
  /\ (loop s = Finishing \/ loop s = Passed -> queue s = [] /\ running (task s) = false /\ handle (guard s) = false)
  /\ (loop s = Left -> aborting s = true).

Lemma task_step_inv chunks s s' : task_inv chunks s -> task_step s s' -> task_inv chunks s'.
Proof.
  intros (Hq & Hp & Hl & Hs & Hf & Ha) Hst. unfold task_inv.
  destruct Hst as [c todo e Ht Hlen Hnl|c todo e how Ht Hlf|e Ht|todo e Ht Hab|c q Hlp Hqu|c q Hlp Hqu|Hlp Hqu Hr|Hlp Hr];
    cbn [task queue guard aborting loop got todo_of handle InferenceTaskGuard_finish InferenceTaskGuard_drop running] in *.
  - destruct (Hl Hnl) as [E Hna]. rewrite Ht in E. split_and!; try done.
    + rewrite length_app. cbn. lia.
    + intros _. split; [|done]. rewrite <- E. cbn [todo_of]. by rewrite <- !app_assoc.
    + intros Hx. destruct (Hf Hx) as (_ & Hr & _). by rewrite Ht in Hr.
  - split_and!; try done. intros Hx. by destruct Hx; congruence.
  - rewrite Ht in Hl. split_and!; try done. intros Hx. destruct (Hf Hx) as (? & _ & ?). done.
  - split_and!; try done.
    + intros Hn. destruct (Hl Hn). congruence.
    + intros Hx. destruct (Hf Hx) as (? & _ & ?). done.
  - destruct Hl as [E Hna]; [congruence|]. rewrite Hqu in *. cbn in Hq. split_and!; try done; try lia.
    + rewrite <- E. by exists (q ++ todo_of (task s)); rewrite <- app_assoc.
    + intros _. split; [|done]. rewrite <- E. by rewrite <- app_assoc.
    + by intros [|].
  - destruct Hl as [E Hna]; [congruence|]. rewrite Hqu in E. split_and!; try done; cbn; try lia.
    + rewrite <- E. by exists (q ++ todo_of (task s)); rewrite <- app_assoc.
    + by intros [|].
    + intros _. by apply Hs.
  - destruct Hl as [E Hna]; [congruence|]. split_and!; try done; [cbn; lia|]. by intros _; rewrite <- Hqu.
  - destruct (Hf ltac:(by left)) as (Hq0 & _ & Hh). destruct Hl as [E Hna]; [congruence|].
    unfold InferenceTaskGuard_drop. rewrite Hna, Hh. by split_and!.
Qed.

Lemma task_steps_inv chunks e s : rtc task_step (spawn chunks e) s -> task_inv chunks s.
Proof.
  assert (G : forall s0, task_inv chunks s0 -> rtc task_step s0 s -> task_inv chunks s).
  { intros s0 H0 R. induction R as [|s1 s2 s3 Hs _ IH]; [done|]. apply IH. by eapply task_step_inv. }
  apply G. unfold task_inv. cbn. split_and!; try done; [lia|apply prefix_nil|by intros [|]].
Qed.

(** The work left: chunks to send, to process, and the end of either side. *)
Definition task_work (s : TaskState) : nat :=
  match loop s with
  | Left | Passed => 0
  | Finishing => 1
  | Streaming => 3 + length (queue s) + 2 * length (todo_of (task s))
  end + (if running (task s) then S (length (todo_of (task s))) else 0).

Lemma task_step_work s s' : task_step s s' -> task_work s' < task_work s.
Proof.
  intros Hst. unfold task_work.
  destruct Hst as [c todo e Ht Hlen Hnl|c todo e how Ht Hlf|e Ht|todo e Ht Hab|c q Hlp Hqu|c q Hlp Hqu|Hlp Hqu Hr|Hlp Hr];
    cbn [task queue loop todo_of running length] in *; rewrite ?Ht, ?Hlf, ?Hlp, ?Hqu, ?Hr in *;
    rewrite ?length_app; cbn [todo_of running length] in *;
    destruct (loop s); try done; try lia.
Qed.

(** ** The list is the right abstraction *)

(** C16. Whatever the interleaving of engine and handler, with an engine that sends
    [chunks] and then returns or panics: the channel stays within its
    capacity; the loop has been given a prefix of the chunks, and exactly all
    of them when it is past its end; the pair never gets stuck, every step
    uses up work, so it comes to an end in which the task is over; and when
    the handler returned early the task is over or marked for the abort. *)
Theorem engine_task_refines chunks e s :
  rtc task_step (spawn chunks e) s ->
  length (queue s) <= CHANNEL_CAPACITY
  /\ got s `prefix_of` chunks
  /\ (loop s = Passed -> got s = chunks /\ running (task s) = false)
  /\ (loop s = Left -> running (task s) = true -> aborting s = true)
  /\ (loop s = Streaming \/ loop s = Finishing \/ running (task s) = true -> exists s', task_step s s')
  /\ (forall s', task_step s s' -> task_work s' < task_work s).
Proof.
  intros Hr. destruct (task_steps_inv chunks e s Hr) as (Hq & Hp & Hl & Hs & Hf & Ha).
  split_and!; try done; [|by intros ? _; apply Ha| |apply task_step_work].
  - intros Hd. destruct (Hf ltac:(by right)) as (Hq0 & Hru & _). split; [|done].
    destruct Hl as [E _]; [congruence|]. rewrite Hq0 in E. destruct (task s); [done|]. cbn in E.
    by rewrite app_nil_r in E.
  - intros Hw. destruct (task s) as [[|c todo] e'|how] eqn:Ht.
    + eexists. by eapply step_end.
    + destruct (loop s) eqn:Hlp.
      * destruct (queue s) as [|c' q] eqn:Hqu; [|eexists; by eapply step_recv].
        eexists. eapply step_send; [done| |by rewrite Hlp]. rewrite Hqu. cbn. unfold CHANNEL_CAPACITY. lia.
      * by destruct (Hf ltac:(by left)) as (_ & ? & _).
      * by destruct (Hf ltac:(by right)) as (_ & ? & _).
      * eexists. eapply (step_send_closed _ _ _ _ Returned); done.
    + destruct Hw as [Hlp|[Hlp|Hw]]; [|eexists; eapply step_joined; [done|by rewrite Ht]|done].
      destruct (queue s) as [|c q] eqn:Hqu; [|eexists; by eapply step_recv].
      eexists. eapply step_drained; [done|done|by rewrite Ht].
Qed.

(** A panic of the engine passes for its end: the loop is given the chunks
    that came before it, and the handler goes on to sign a receipt for them. *)
Lemma engine_panic_unnoticed chunks :
  exists s, rtc task_step (spawn chunks Panics) s /\ loop s = Passed /\ got s = chunks /\ task s = Over (Some Panics).
Proof.
  assert (G : forall done todo, rtc task_step
    {| task := Running todo Panics; queue := []; guard := InferenceTaskGuard_new; aborting := false;
       loop := Streaming; got := done |}
    {| task := Running [] Panics; queue := []; guard := InferenceTaskGuard_new; aborting := false;
       loop := Streaming; got := done ++ todo |}).
  { intros done todo. revert done. induction todo as [|c todo IH]; intros done; [by rewrite app_nil_r|].
    eapply rtc_l; [eapply step_send; [reflexivity|cbn; unfold CHANNEL_CAPACITY; lia|done]|].
    eapply rtc_l; [eapply step_recv; reflexivity|]. cbn [task queue guard aborting loop got app].
    rewrite (cons_middle c done todo), app_assoc. apply IH. }
  eexists. split; [etrans; [apply (G [] chunks)|]|].
  - eapply rtc_l; [by eapply step_end|]. eapply rtc_l; [by eapply step_drained|].
    eapply rtc_once. by eapply step_joined.
  - done.
Qed.

(** One chunk on its way, the handler having failed to send it. *)
Definition one_chunk : TokenChunk := {| ids := [7%Z]; text := lit "hi" |}.

Definition left_early : TaskState :=
  {| task := Running [one_chunk] Returned; queue := []; guard := {| handle := false |}; aborting := true;
     loop := Left; got := [one_chunk] |}.

Lemma engine_task_refines_witness :
  rtc task_step (spawn [one_chunk; one_chunk] Returned) left_early
  /\ got left_early `prefix_of` [one_chunk; one_chunk] /\ exists s', task_step left_early s'.
Proof.
  assert (R : rtc task_step (spawn [one_chunk; one_chunk] Returned) left_early).
  { eapply rtc_l; [eapply step_send; [reflexivity|vm_compute; lia|discriminate]|].
    apply rtc_once.
    exact (step_leave {| task := Running [one_chunk] Returned; queue := [one_chunk]; guard := InferenceTaskGuard_new;
                         aborting := false; loop := Streaming; got := [] |} one_chunk [] eq_refl eq_refl). }
  split; [exact R|].
  destruct (engine_task_refines [one_chunk; one_chunk] Returned left_early R) as (_ & P & _ & _ & S & _).
  split; [exact P|]. apply S. right. right. reflexivity.
Defined.
