(* ===== verification/Watcher.v ===== *)
(** * ullm-watcher: the fraud-proof watcher

    [tools/ullm-watcher/src/lib.rs]: the audit of one signed receipt, which
    runs the deterministic model again and reports, flag by flag, which of the
    other checks were asked for and passed.  The text of the hex crate's
    errors is an argument. *)

From S2P Require Import Prelude RustStd RustText Core Crates Toy Merkle TreeHead Attest Quotes Nvidia RealVerifier TenantPool Service Receipts Model.
From Stdlib Require Import Lia.

Local Open Scope Z_scope.

Inductive AuditError :=
| BadSignature
| WeightCommitMismatch
| ActivationLenMismatch (got expected : nat)
| BadHex (e : bytes)
| BadCommitLength
| InputMismatch.

Inductive Verdict := Honest | Partial | Fraudulent (divergent_layer : nat).

Record FraudReport := {
  activations_consistent : bool;
  receipt_signature_verified : bool;
  attestation_verified : bool;
  log_inclusion_verified : bool;
  sth_signature_verified : bool;
  sth_freshness_verified : bool;
  weight_commit_pinned : bool;
  session_pinned : bool;
  zk_proofs_verified : bool;
  session_hex : bytes;
  report_tenant : TenantId;              (** [tenant] *)
  report_epoch : Z;                      (** [epoch] *)
  verdict : Verdict;
  claimed_commits_hex : list bytes;
  recomputed_commits_hex : list bytes;
  report_weight_commit_hex : bytes;      (** [weight_commit_hex] *)
  notes : list (bytes * bytes);
}.

Definition is_fully_verified (r : FraudReport) : bool :=
  activations_consistent r && receipt_signature_verified r && attestation_verified r
  && log_inclusion_verified r && sth_signature_verified r && sth_freshness_verified r
  && weight_commit_pinned r && session_pinned r && zk_proofs_verified r.

(** [expected_report_data], [now_unix] and [max_age_sec] are the context. *)
Record AttestationCheck := {
  att_evidence : Evidence;
  att_policy : MeasurementPolicy;
  att_ctx : VerificationContext;
  require_signature_check : bool;
}.

Record LogInclusionCheck := {
  li_sth : SignedTreeHead;
  li_proof : InclusionProof;
  expected_entry : LogEntry;
  expected_log_id : option bytes;
  expected_logger_pk : option bytes;
}.

Record SthFreshnessCheck := { sth_issued_at_unix : Z; fresh_now_unix : Z; fresh_max_age_sec : Z }.

Record AuditInputs := {
  attestation : option AttestationCheck;
  log_inclusion : option LogInclusionCheck;
  sth_freshness : option SthFreshnessCheck;
  expected_weight_commit : option bytes;
  expected_session : option bytes;
  input_zk_layer_proofs : option (list bytes);   (** [zk_layer_proofs] *)
}.

Definition AuditInputs_default : AuditInputs :=
  {| attestation := None; log_inclusion := None; sth_freshness := None;
     expected_weight_commit := None; expected_session := None; input_zk_layer_proofs := None |}.

(** The text of the log auditor's errors ([auditor.rs]). *)
Definition AuditError_display `{!UnicodeTables} (e : TreeHead.AuditError) : bytes :=
  match e with
  | StoredSignatureInvalid => lit "STH signature did not verify under the bundled logger key"
  | UnexpectedLogger got => lit "logger key " ++ got ++ lit " not in the expected-loggers list"
  | UnexpectedLogId got expected =>
      lit "STH log_id " ++ str_debug got ++ lit " does not match expected " ++ str_debug expected
  | InclusionPathInvalid => lit "inclusion proof did not reconstruct the STH root"
  | SizeMismatch claimed advertised =>
      lit "proof claims size " ++ fmt_dec claimed ++ lit ", STH advertises " ++ fmt_dec advertised
  | InsufficientWitnesses got needed =>
      lit "only " ++ fmt_dec (Z.of_nat got) ++ lit " valid witness cosignatures; "
      ++ fmt_dec (Z.of_nat needed) ++ lit " required"
  end.

Section Audit.
Context `{!Subtle, !Sha2, !Hkdf, !Hex, !SerdeJson, !Ed25519, !Postcard Receipt, !Pasta,
          !Ecdsa P256, !UnicodeTables, !NvidiaJson} (hex_error : bytes -> bytes).

Fixpoint decode_commits (hex_commits : list bytes) : result (list bytes) AuditError :=
  match hex_commits with
  | [] => Ok []
  | h :: rest =>
      let? b := ok_or (hex_decode h) (BadHex (hex_error h)) in
      if decide (length b <> 32%nat) then Err BadCommitLength else
      let? out := decode_commits rest in
      Ok (b :: out)
  end.

(** The first index where the lists differ; [None] is an index out of range. *)
Fixpoint first_divergent (i : nat) (claimed recomputed : list bytes) : option (option nat) :=
  match claimed with
  | [] => Some None
  | c :: claimed =>
      match recomputed with
      | [] => None
      | r :: recomputed =>
          if decide (c <> r) then Some (Some i) else first_divergent (S i) claimed recomputed
      end
  end.

(** Each check: its flags and the notes it adds. *)
Definition check_attestation (a : option AttestationCheck) : bool * list (bytes * bytes) :=
  match a with
  | Some att =>
      let verifier := with_signature_check (RealVerifier_new (att_policy att)) (require_signature_check att) in
      match RealVerifier_verify verifier (att_evidence att) (att_ctx att) with
      | Ok _ => (true, [])
      | Err e => (false, [(lit "attestation_verified",
                           lit "attestation verification failed: " ++ Error_display e)])
      end
  | None => (false, [(lit "attestation_verified",
                      lit "not checked because --attestation-evidence not provided")])
  end.

(** Inclusion flag, signature flag, notes. *)
Definition check_log (l : option LogInclusionCheck) : bool * bool * list (bytes * bytes) :=
  match l with
  | Some li =>
      let pin := match expected_logger_pk li with
                 | Some want => if decide (logger_pk (li_sth li) = want) then None else Some want
                 | None => None
                 end in
      match pin with
      | Some want =>
          (false, false,
           [(lit "sth_signature_verified",
             lit "logger pubkey mismatch: sth=" ++ hex_encode (logger_pk (li_sth li))
             ++ lit ", expected=" ++ hex_encode want);
            (lit "log_inclusion_verified", lit "not checked: STH bound to wrong logger")])
      | None =>
          let '(sig, n1) :=
            if SignedTreeHead_verify (li_sth li) then (true, [])
            else (false, [(lit "sth_signature_verified",
                           lit "STH signature did not verify under bundled logger_pk")]) in
          let '(incl, n2) :=
            match verify_inclusion_against_head (li_sth li) (li_proof li) (expected_entry li) None
                    (expected_log_id li) with
            | Ok _ => (true, [])
            | Err e => (false, [(lit "log_inclusion_verified",
                                 lit "inclusion verification failed: " ++ AuditError_display e)])
            end in
          (incl, sig, n1 ++ n2)
      end
  | None =>
      (false, false,
       [(lit "log_inclusion_verified", lit "not checked because --sth-url + --proof not provided");
        (lit "sth_signature_verified", lit "not checked because --sth-url not provided")])
  end.

Definition check_freshness (f : option SthFreshnessCheck) : bool * list (bytes * bytes) :=
  match f with
  | Some f =>
      let age := saturating_sub (fresh_now_unix f) (sth_issued_at_unix f) in
      if age <=? fresh_max_age_sec f then (true, [])
      else (false, [(lit "sth_freshness_verified",
             lit "STH age " ++ fmt_dec age ++ lit "s exceeds max-age " ++ fmt_dec (fresh_max_age_sec f)
             ++ lit "s (issued_at=" ++ fmt_dec (sth_issued_at_unix f) ++ lit ", now="
             ++ fmt_dec (fresh_now_unix f) ++ lit ")")])
  | None => (false, [(lit "sth_freshness_verified", lit "not checked because --sth-url not provided")])
  end.

Definition check_weight_pin (want : option bytes) (r : Receipt) : bool * list (bytes * bytes) :=
  match want with
  | Some want =>
      if decide (hex_encode want = weight_commit_hex r) then (true, [])
      else (false, [(lit "weight_commit_pinned",
             lit "weight_commit mismatch: receipt=" ++ weight_commit_hex r ++ lit ", expected="
             ++ hex_encode want)])
  | None => (false, [(lit "weight_commit_pinned",
                      lit "not checked because --expected-weight-commit not provided")])
  end.

Definition check_session_pin (want : option bytes) (r : Receipt) : bool * list (bytes * bytes) :=
  match want with
  | Some want =>
      if decide (want = session r) then (true, [])
      else (false, [(lit "session_pinned",
             lit "session mismatch: receipt=" ++ hex_encode (session r) ++ lit ", expected="
             ++ hex_encode want)])
  | None => (false, [(lit "session_pinned", lit "not checked because --expected-session not provided")])
  end.

Definition check_proofs (proofs : option (list bytes)) : bool * list (bytes * bytes) :=
  match proofs with
  | Some proofs =>
      if decide (length proofs = NUM_LAYERS) then (true, [])
      else (false, [(lit "zk_proofs_verified",
             lit "ZK proof count " ++ fmt_dec (Z.of_nat (length proofs)) ++ lit " != NUM_LAYERS "
             ++ fmt_dec (Z.of_nat NUM_LAYERS))])
  | None => (false, [(lit "zk_proofs_verified",
                      lit "not checked because no ReceiptEnvelope ZK proofs supplied")])
  end.

(** The checks of [inputs], and the report. *)
Definition build_report (signed : SignedReceipt) (inputs : AuditInputs) (divergent : option nat)
    (recomputed : list bytes) : FraudReport :=
  let r := receipt signed in
  let consistent := match divergent with None => true | Some _ => false end in
  let '(att, n1) := check_attestation (attestation inputs) in
  let '(incl, sig, n2) := check_log (log_inclusion inputs) in
  let '(fresh, n3) := check_freshness (sth_freshness inputs) in
  let '(weight, n4) := check_weight_pin (expected_weight_commit inputs) r in
  let '(sess, n5) := check_session_pin (expected_session inputs) r in
  let '(zk, n6) := check_proofs (input_zk_layer_proofs inputs) in
  let report (v : Verdict) := {|
    activations_consistent := consistent; receipt_signature_verified := true;
    attestation_verified := att; log_inclusion_verified := incl; sth_signature_verified := sig;
    sth_freshness_verified := fresh; weight_commit_pinned := weight; session_pinned := sess;
    zk_proofs_verified := zk; session_hex := hex_encode (session r); report_tenant := tenant r;
    report_epoch := epoch r; verdict := v; claimed_commits_hex := activation_commits_hex r;
    recomputed_commits_hex := hex_encode <$> recomputed;
    report_weight_commit_hex := weight_commit_hex r;
    notes := n1 ++ n2 ++ n3 ++ n4 ++ n5 ++ n6 |} in
  report (match divergent with
          | Some layer_idx => Fraudulent layer_idx
          | None => if is_fully_verified (report Partial) then Honest else Partial
          end).

(** [None] is a panic. *)
Definition audit_with (model_seed tee_receipt_pk prompt_bytes : bytes) (signed : SignedReceipt)
    (inputs : AuditInputs) : option (result FraudReport AuditError) :=
  verified ← verify_receipt signed tee_receipt_pk;
  match verified with
  | Err _ => Some (Err BadSignature)
  | Ok _ =>
      model ← Model_from_seed model_seed;
      if decide (hex_encode (model_weight_commit model) <> weight_commit_hex (receipt signed))
      then Some (Err WeightCommitMismatch) else
      let input_hash := sha256 prompt_bytes in
      let trace := Model_run model (encode_prompt_to_fp input_hash) in
      recomputed ← mapM vector_commit (activations trace);
      match decode_commits (activation_commits_hex (receipt signed)) with
      | Err e => Some (Err e)
      | Ok claimed =>
          if decide (length claimed <> (NUM_LAYERS + 1)%nat)
          then Some (Err (ActivationLenMismatch (length claimed) (NUM_LAYERS + 1))) else
          divergent ← first_divergent 0 claimed recomputed;
          Some (Ok (build_report signed inputs divergent recomputed))
      end
  end.

Definition audit (model_seed tee_receipt_pk prompt_bytes : bytes) (signed : SignedReceipt)
  : option (result FraudReport AuditError) :=
  audit_with model_seed tee_receipt_pk prompt_bytes signed AuditInputs_default.
End Audit.

(** ** What a verdict says *)

Lemma first_divergent_spec claimed recomputed i :
  length claimed = length recomputed ->
  exists d, first_divergent i claimed recomputed = Some d
  /\ match d with
     | None => claimed = recomputed
     | Some j => exists k c r, j = (i + k)%nat /\ claimed !! k = Some c /\ recomputed !! k = Some r
         /\ c <> r /\ take k claimed = take k recomputed
     end.
Proof.
  revert recomputed i. induction claimed as [|c claimed IH]; intros [|r recomputed] i Hl; try done.
  - by exists None.
  - cbn [first_divergent]. case_decide as D.
    + exists (Some i). split; [done|]. exists O, c, r. by rewrite Nat.add_0_r.
    + subst r. destruct (IH recomputed (S i) ltac:(by injection Hl)) as (d & -> & Hd).
      exists d. split; [done|]. destruct d as [j|]; [|by rewrite Hd].
      destruct Hd as (k & c' & r' & -> & Hc & Hr & Hn & Ht). exists (S k), c', r'.
      split; [lia|]. cbn. by rewrite Ht.
Qed.

Section Verdicts.
Context `{!Subtle, !SubtleLaws, !Sha2, !Sha2Laws, !Hkdf, !Hex, !HexLaws, !SerdeJson, !Ed25519, !Ed25519Laws,
          !Postcard Receipt, !PostcardLaws Receipt, !Pasta, !PastaLaws, !Ecdsa P256, !UnicodeTables, !NvidiaJson}
        (hex_error : bytes -> bytes).

Lemma mapM_vector_commit vs cs : Trace_commits {| activations := vs |} = Some cs ->
  mapM vector_commit vs = Some (commit_bytes cs).
Proof.
  unfold Trace_commits, vector_commit. cbn [activations].
  destruct (mapM vector_commit_native vs) as [fs|] eqn:E; [|done]. cbn. intros [= <-]. cbn.
  revert fs E. induction vs as [|v vs IH]; intros fs E; [by injection E as <-|]. cbn in *.
  destruct (vector_commit_native v) as [f|]; [|done]. cbn in *.
  destruct (mapM vector_commit_native vs) as [fs'|]; [|done]. injection E as <-. by rewrite (IH fs').
Qed.

(** The recomputation: the model of the seed, its commitments on the prompt. *)
Lemma recompute_ok seed prompt : exists m cs, Model_from_seed seed = Some m
  /\ Trace_commits (Model_run m (encode_prompt_to_fp (sha256 prompt))) = Some cs
  /\ mapM vector_commit (activations (Model_run m (encode_prompt_to_fp (sha256 prompt))))
     = Some (commit_bytes cs)
  /\ length (commit_bytes cs) = (NUM_LAYERS + 1)%nat
  /\ length (model_weight_commit m) = 32%nat.
Proof.
  destruct (Model_from_seed_some seed) as (m & Hm & Hwf & Hc).
  destruct (run_commits m (encode_prompt_to_fp (sha256 prompt)) Hwf eq_refl) as (cs & Hcs & Hl & _).
  exists m, cs. split_and!; [done|done|by apply mapM_vector_commit|done|].
  rewrite Hc. apply length_weight_commit.
Qed.

(** The outcome of an audit: which error, or what the report compares. *)
Inductive audit_outcome (seed pk prompt : bytes) (signed : SignedReceipt) (inputs : AuditInputs)
  (m : Model) (cs : list bytes) : result FraudReport AuditError -> Prop :=
| outcome_signature :
    verify_receipt signed pk <> Some (Ok tt) ->
    audit_outcome seed pk prompt signed inputs m cs (Err BadSignature)
| outcome_weights :
    verify_receipt signed pk = Some (Ok tt) ->
    hex_encode (model_weight_commit m) <> weight_commit_hex (receipt signed) ->
    audit_outcome seed pk prompt signed inputs m cs (Err WeightCommitMismatch)
| outcome_hex e :
    verify_receipt signed pk = Some (Ok tt) ->
    decode_commits hex_error (activation_commits_hex (receipt signed)) = Err e ->
    audit_outcome seed pk prompt signed inputs m cs (Err e)
| outcome_length claimed :
    verify_receipt signed pk = Some (Ok tt) ->
    decode_commits hex_error (activation_commits_hex (receipt signed)) = Ok claimed ->
    length claimed <> (NUM_LAYERS + 1)%nat ->
    audit_outcome seed pk prompt signed inputs m cs
      (Err (ActivationLenMismatch (length claimed) (NUM_LAYERS + 1)))
| outcome_match :
    verify_receipt signed pk = Some (Ok tt) ->
    weight_commit_hex (receipt signed) = hex_encode (model_weight_commit m) ->
    decode_commits hex_error (activation_commits_hex (receipt signed)) = Ok cs ->
    audit_outcome seed pk prompt signed inputs m cs (Ok (build_report signed inputs None cs))
| outcome_fraud claimed i c r :
    verify_receipt signed pk = Some (Ok tt) ->
    weight_commit_hex (receipt signed) = hex_encode (model_weight_commit m) ->
    decode_commits hex_error (activation_commits_hex (receipt signed)) = Ok claimed ->
    claimed !! i = Some c -> cs !! i = Some r -> c <> r -> take i claimed = take i cs ->
    audit_outcome seed pk prompt signed inputs m cs (Ok (build_report signed inputs (Some i) cs)).

Lemma verify_receipt_total signed pk : exists r, verify_receipt signed pk = Some r.
Proof.
  unfold verify_receipt. destruct (Receipt_validate_structural _); [|by eexists].
  destruct (canonical_bytes_ok (receipt signed)) as (l & -> & _). cbn. by eexists.
Qed.

Lemma audit_with_cases seed pk prompt signed inputs : exists m cs res,
  Model_from_seed seed = Some m
  /\ Trace_commits (Model_run m (encode_prompt_to_fp (sha256 prompt))) = Some cs
  /\ audit_with hex_error seed pk prompt signed inputs = Some res
  /\ audit_outcome seed pk prompt signed inputs m (commit_bytes cs) res.
Proof.
  destruct (recompute_ok seed prompt) as (m & cs & Hm & Hcs & Hmap & Hlen & _). exists m, cs.
  unfold audit_with. destruct (verify_receipt_total signed pk) as (v & Hv). rewrite Hv. cbn [mbind option_bind].
  destruct v as [[]|e].
  2:{ eexists. split_and!; [done|done|done|]. constructor. congruence. }
  rewrite Hm. cbn [mbind option_bind]. case_decide as Dw.
  { eexists. split_and!; [done|done|done|]. by constructor. }
  rewrite Hmap. cbn [mbind option_bind]. 
  destruct (decode_commits hex_error _) as [claimed|e] eqn:Ec.
  2:{ eexists. split_and!; [done|done|done|]. by constructor. }
  case_decide as Dl.
  { eexists. split_and!; [done|done|done|]. by constructor. }

  destruct (first_divergent_spec claimed (commit_bytes cs) 0 ltac:(lia)) as (d & -> & Hd). cbn.
  eexists. split_and!; [done|done|done|]. destruct d as [j|].
  - destruct Hd as (k & c & r & -> & Hc & Hr & Hn & Ht). by eapply outcome_fraud.
  - subst claimed. by apply outcome_match.
Qed.

Lemma build_report_fraud signed inputs i cs : verdict (build_report signed inputs (Some i) cs) = Fraudulent i.
Proof.
  unfold build_report. destruct (check_attestation _), (check_log _) as [[] ?], (check_freshness _),
    (check_weight_pin _ _), (check_session_pin _ _), (check_proofs _). done.
Qed.

Lemma build_report_flags signed inputs cs (rep := build_report signed inputs None cs) :
  verdict rep = if is_fully_verified rep then Honest else Partial.
Proof.
  subst rep. unfold build_report. destruct (check_attestation _), (check_log _) as [[] ?], (check_freshness _),
    (check_weight_pin _ _), (check_session_pin _ _), (check_proofs _). cbn.
  unfold is_fully_verified. cbn. by repeat case_match.
Qed.

Lemma build_report_no_fraud signed inputs cs i : verdict (build_report signed inputs None cs) <> Fraudulent i.
Proof. rewrite build_report_flags. by destruct (is_fully_verified _). Qed.

(** C19. What an audit establishes.  It never panics.  A fraud verdict names the
    first layer whose signed commitment differs from the watcher's own
    computation with the model of the given seed on the given prompt; any
    other verdict means that all nine signed commitments are exactly the
    recomputed ones, in a receipt with a valid signature that names the
    model's weights.  An error means that the receipt has no valid signature,
    names other weights, or does not hold nine 32-byte commitments. *)
Theorem watcher_verdict seed pk prompt signed inputs : exists m cs res,
  Model_from_seed seed = Some m
  /\ Trace_commits (Model_run m (encode_prompt_to_fp (sha256 prompt))) = Some cs
  /\ audit_with hex_error seed pk prompt signed inputs = Some res
  /\ match res with
     | Ok rep =>
         verify_receipt signed pk = Some (Ok tt)
         /\ weight_commit_hex (receipt signed) = hex_encode (model_weight_commit m)
         /\ match verdict rep with
            | Fraudulent i => exists claimed c r,
                decode_commits hex_error (activation_commits_hex (receipt signed)) = Ok claimed
                /\ claimed !! i = Some c /\ commit_bytes cs !! i = Some r /\ c <> r
                /\ take i claimed = take i (commit_bytes cs)
            | _ => decode_commits hex_error (activation_commits_hex (receipt signed)) = Ok (commit_bytes cs)
            end
     | Err e =>
         (e = BadSignature /\ verify_receipt signed pk <> Some (Ok tt))
         \/ (e = WeightCommitMismatch
             /\ weight_commit_hex (receipt signed) <> hex_encode (model_weight_commit m))
         \/ decode_commits hex_error (activation_commits_hex (receipt signed)) = Err e
         \/ exists claimed, decode_commits hex_error (activation_commits_hex (receipt signed)) = Ok claimed
              /\ length claimed <> (NUM_LAYERS + 1)%nat
     end.
Proof.
  destruct (audit_with_cases seed pk prompt signed inputs) as (m & cs & res & Hm & Hcs & Ha & Ho).
  exists m, cs, res. split_and!; [done..|]. destruct Ho as [O1|? O1|? ? O1|? ? O1 ?|? ? O1|claimed i c r ? ? O1 Hc Hr Hn Ht].
  - by left.
  - right; left. split; [done|]. by intros E.
  - by do 2 right; left.
  - do 3 right. by eexists.
  - split_and!; [done..|]. pose proof (build_report_no_fraud signed inputs (commit_bytes cs)) as N.
    destruct (verdict _) as [| |j]; [done|done|]. by destruct (N j).
  - split_and!; [done..|]. rewrite build_report_fraud. by exists claimed, c, r.
Qed.

Lemma check_attestation_true a : (check_attestation a).1 = true <->
  exists att, a = Some att
  /\ RealVerifier_verify (with_signature_check (RealVerifier_new (att_policy att)) (require_signature_check att))
       (att_evidence att) (att_ctx att) = Ok tt.
Proof.
  unfold check_attestation. destruct a as [att|]; [|split; [done|by intros (? & ? & _)]].
  destruct (RealVerifier_verify _ _ _) as [[]|e] eqn:E; cbn; split; try done.
  - intros _. by exists att.
  - intros (? & [= <-] & E'). congruence.
Qed.

Lemma check_log_true l : (check_log l).1 = (true, true) <->
  exists li, l = Some li /\ (forall want, expected_logger_pk li = Some want -> logger_pk (li_sth li) = want)
  /\ verify_inclusion_against_head (li_sth li) (li_proof li) (expected_entry li) None (expected_log_id li) = Ok tt.
Proof.
  unfold check_log. destruct l as [li|]; [|split; [done|by intros (? & ? & _)]].
  assert (V : verify_inclusion_against_head (li_sth li) (li_proof li) (expected_entry li) None
                (expected_log_id li) = Ok tt -> SignedTreeHead_verify (li_sth li) = true).
  { by intros (? & _)%verify_inclusion_Ok. }
  set (pin := match expected_logger_pk li with Some want => _ | None => None end).
  assert (P : pin = None <-> forall want, expected_logger_pk li = Some want -> logger_pk (li_sth li) = want).
  { subst pin. destruct (expected_logger_pk li) as [want|]; [|by split].
    case_decide; split; try done; [by intros _ ? [= <-]|]. intros G. by rewrite (G want) in *. }
  destruct pin as [want|].
  - split; [done|]. intros (? & [= <-] & G & _). apply P in G. done.
  - destruct (SignedTreeHead_verify (li_sth li)) eqn:Es;
      destruct (verify_inclusion_against_head _ _ _ _ _) as [[]|e] eqn:Ei; cbn; split; try done.
    + intros _. exists li. split_and!; [done|by apply P|done].
    + intros (? & [= <-] & _ & E'). congruence.
    + by specialize (V eq_refl).
    + intros (? & [= <-] & _ & E'). congruence.
Qed.

Lemma check_freshness_true f : (check_freshness f).1 = true <->
  exists c, f = Some c /\ saturating_sub (fresh_now_unix c) (sth_issued_at_unix c) <= fresh_max_age_sec c.
Proof.
  unfold check_freshness. destruct f as [c|]; [|split; [done|by intros (? & ? & _)]].
  destruct (Z.leb_spec (saturating_sub (fresh_now_unix c) (sth_issued_at_unix c)) (fresh_max_age_sec c)); cbn; split;
    try done; [intros _; by exists c|intros (? & [= <-] & ?); lia].
Qed.

Lemma build_report_all signed inputs cs (rep := build_report signed inputs None cs) :
  is_fully_verified rep = true <->
  (check_attestation (attestation inputs)).1 = true /\ (check_log (log_inclusion inputs)).1 = (true, true)
  /\ (check_freshness (sth_freshness inputs)).1 = true
  /\ (check_weight_pin (expected_weight_commit inputs) (receipt signed)).1 = true
  /\ (check_session_pin (expected_session inputs) (receipt signed)).1 = true
  /\ (check_proofs (input_zk_layer_proofs inputs)).1 = true.
Proof.
  subst rep. unfold build_report.
  destruct (check_attestation _) as [a ?], (check_log _) as [[i g] ?], (check_freshness _) as [f ?],
    (check_weight_pin _ _) as [w0 ?], (check_session_pin _ _) as [s0 ?], (check_proofs _) as [z ?].
  unfold is_fully_verified. cbn. split.
  - destruct a, i, g, f, w0, s0, z; done.
  - intros (-> & [= -> ->] & -> & -> & -> & ->). done.
Qed.

(** What [Honest] means, exactly: the receipt is the one the model produces,
    the evidence passes the verifier under the given policy and context, the
    given entry is included under the signed head (of the pinned logger and
    log, where pinned), the head's age is within its bound, the weights and
    the session are the pinned ones, and there are as many proofs as layers.
    The contents of the proofs are not looked at, and nothing ties the
    evidence, the log entry or the age to the receipt or to each other. *)
Theorem watcher_honest_iff seed pk prompt signed inputs rep :
  audit_with hex_error seed pk prompt signed inputs = Some (Ok rep) ->
  verdict rep = Honest <->
  (exists m cs, Model_from_seed seed = Some m
     /\ Trace_commits (Model_run m (encode_prompt_to_fp (sha256 prompt))) = Some cs
     /\ decode_commits hex_error (activation_commits_hex (receipt signed)) = Ok (commit_bytes cs))
  /\ (exists att, attestation inputs = Some att
       /\ RealVerifier_verify (with_signature_check (RealVerifier_new (att_policy att)) (require_signature_check att))
            (att_evidence att) (att_ctx att) = Ok tt)
  /\ (exists li, log_inclusion inputs = Some li
       /\ (forall want, expected_logger_pk li = Some want -> logger_pk (li_sth li) = want)
       /\ verify_inclusion_against_head (li_sth li) (li_proof li) (expected_entry li) None (expected_log_id li)
          = Ok tt)
  /\ (exists f, sth_freshness inputs = Some f
       /\ saturating_sub (fresh_now_unix f) (sth_issued_at_unix f) <= fresh_max_age_sec f)
  /\ (exists want, expected_weight_commit inputs = Some want
       /\ hex_encode want = weight_commit_hex (receipt signed))
  /\ expected_session inputs = Some (session (receipt signed))
  /\ (exists proofs, input_zk_layer_proofs inputs = Some proofs /\ length proofs = NUM_LAYERS).
Proof.
  intros Ha. destruct (audit_with_cases seed pk prompt signed inputs) as (m & cs & res & Hm & Hcs & Ha' & Ho).
  rewrite Ha in Ha'. injection Ha' as <-. inversion Ho as [| | | |? ? Hd|claimed i c r ? ? Hd Hc Hr Hn Ht]; subst.
  2:{ rewrite build_report_fraud. split; [done|]. intros ((m' & cs' & Hm' & Hcs' & Hd') & _).
      rewrite Hm in Hm'. injection Hm' as <-. rewrite Hcs in Hcs'. injection Hcs' as <-.
      rewrite Hd in Hd'. injection Hd' as ->. congruence. }
  rewrite build_report_flags.
  trans (is_fully_verified (build_report signed inputs None (commit_bytes cs)) = true).
  { by destruct (is_fully_verified _). }
  rewrite build_report_all, check_attestation_true, check_log_true, check_freshness_true.
  assert (W : (check_weight_pin (expected_weight_commit inputs) (receipt signed)).1 = true
    <-> exists want, expected_weight_commit inputs = Some want
        /\ hex_encode want = weight_commit_hex (receipt signed)).
  { unfold check_weight_pin. destruct (expected_weight_commit inputs) as [want|]; [|naive_solver].
    case_decide; naive_solver. }
  assert (S : (check_session_pin (expected_session inputs) (receipt signed)).1 = true
    <-> expected_session inputs = Some (session (receipt signed))).
  { unfold check_session_pin. destruct (expected_session inputs) as [want|]; [|naive_solver].
    case_decide; naive_solver. }
  assert (Z' : (check_proofs (input_zk_layer_proofs inputs)).1 = true
    <-> exists proofs, input_zk_layer_proofs inputs = Some proofs /\ length proofs = NUM_LAYERS).
  { unfold check_proofs. destruct (input_zk_layer_proofs inputs) as [ps|]; [|naive_solver].
    case_decide; naive_solver. }
  rewrite W, S, Z'. split; [|naive_solver]. intros ?. split; [by exists m, cs|done].
Qed.
End Verdicts.

(** ** The watcher and an honest TEE *)

Section HonestTee.
Context {R : Type} `{!MlKem R, !X25519 R, !Rng R, !Aead, !Bitflags} `{!InferenceEngine Eng}
        `{!Subtle, !Sha2, !Sha2Laws, !Hkdf, !Hex, !HexLaws, !SerdeJson, !Ed25519, !Ed25519Laws,
          !Postcard ClientHello, !Postcard ServerHello, !Postcard PreKeyBundle, !Postcard Evidence,
          !Postcard ReceiptEnvelope, !Postcard Receipt, !PostcardLaws Receipt, !Pasta, !PastaLaws,
          !Ecdsa P256, !UnicodeTables, !NvidiaJson}
        (hex_error : bytes -> bytes).

Lemma watcher_decode_ok cs : Forall (fun c => length c = 32%nat) cs ->
  decode_commits hex_error (hex_encode <$> cs) = Ok cs.
Proof.
  induction 1 as [|c cs Hc _ IH]; [done|]. cbn [fmap list_fmap decode_commits].
  rewrite hex_decode_encode. cbn [ok_or result_bind]. rewrite decide_False by (intros N; by apply N).
  by rewrite IH.
Qed.

(** C29. No false accusation.  A receipt that the session handler builds from
    its trace and signs, for a TEE that runs the model of a seed and commits to
    its weights, passes the recomputation of every watcher that has the seed,
    the TEE's receipt key and the prompt, whatever else it is asked to check:
    the audit returns a report, with consistent activations and no fraud
    verdict. *)
Theorem watcher_clears_honest_tee (state : AppState R Eng) tn sid prompt tokens now ep o seed cs signed inputs :
  Model_from_seed seed = Some (verifiable_model state) ->
  weight_commit (identity state) = model_weight_commit (verifiable_model state) ->
  Trace_commits (Model_run (verifiable_model state) (encode_prompt_to_fp (sha256 prompt))) = Some cs ->
  ReceiptSigner_sign (receipt_signer state)
    (build_receipt state tn sid (sha256 prompt) tokens now ep o (commit_bytes cs)) = Some (Ok signed) ->
  exists rep, audit_with hex_error seed (tee_verifying_key state) prompt signed inputs = Some (Ok rep)
    /\ activations_consistent rep = true /\ forall i, verdict rep <> Fraudulent i.
Proof.
  intros Hm Hw Hcs Hs. destruct (recompute_ok seed prompt) as (m' & cs' & Hm' & Hcs' & Hmap & Hlen & _).
  rewrite Hm in Hm'. injection Hm' as <-. rewrite Hcs in Hcs'. injection Hcs' as <-.
  assert (Hl32 : Forall (fun c => length c = 32%nat) (commit_bytes cs)).
  { destruct (Model_from_seed_some seed) as (m & Hm' & Hwf & _). rewrite Hm in Hm'. injection Hm' as <-.
    destruct (run_commits (verifiable_model state) (encode_prompt_to_fp (sha256 prompt)) Hwf eq_refl)
      as (cs' & Hc & _ & Hf). rewrite Hcs in Hc. by injection Hc as <-. }
  set (r := build_receipt _ _ _ _ _ _ _ _ _) in *.
  assert (Hv : Receipt_validate_structural r = Ok tt).
  { unfold ReceiptSigner_sign in Hs. by destruct (Receipt_validate_structural r) as [[]|e]. }
  destruct (sign_ok (receipt_signer state) r Hv) as (signed' & Hs' & Hr & Hver).
  rewrite Hs in Hs'. injection Hs' as <-.
  exists (build_report signed inputs None (commit_bytes cs)). split_and!.
  - unfold audit_with, tee_verifying_key. rewrite Hver. cbn [mbind option_bind]. rewrite Hm.
    cbn [mbind option_bind]. rewrite Hr. rewrite decide_False by (cbn; rewrite Hw; intros N; by apply N).
    rewrite Hmap. cbn [mbind option_bind activation_commits_hex r build_receipt].
    rewrite watcher_decode_ok by done. rewrite decide_False by (rewrite Hlen; intros N; by apply N).
    destruct (first_divergent_spec (commit_bytes cs) (commit_bytes cs) 0 eq_refl) as (d & -> & Hd).
    destruct d as [j|]; [|done]. destruct Hd as (k & c & c' & _ & Hc & Hc' & Hn & _). congruence.
  - unfold build_report. by destruct (check_attestation _), (check_log _) as [[] ?], (check_freshness _),
      (check_weight_pin _ _), (check_session_pin _ _), (check_proofs _).
  - intros i. apply build_report_no_fraud.
Qed.
End HonestTee.

(** ** A run with concrete primitives *)

(** Instances that are quick to evaluate: hashes that pad or cut, a key
    derivation that repeats one byte, signatures that are the key. *)
Definition pad (n : nat) (l : bytes) : bytes := take n (l ++ replicate n Byte.x00).

Lemma length_pad n l : length (pad n l) = n.
Proof. unfold pad. rewrite length_take, length_app, length_replicate. lia. Qed.

#[local] Instance demo_sha2 : Sha2 := {| sha256 := pad 32; sha512 := pad 64 |}.
#[local] Instance demo_sha2_laws : Sha2Laws.
Proof. split; intros; apply length_pad. Qed.
#[local] Instance demo_hkdf : Hkdf :=
  {| hkdf_extract _ ikm := ikm; hkdf_expand prk _ n := replicate n (default Byte.x00 (hd_error prk)) |}.
#[local] Instance demo_ed25519 : Ed25519 := {|
  ed25519_public := pad 32; ed25519_sign sk _ := pad 64 (pad 32 sk);
  ed25519_pk_valid pk := bool_decide (length pk = 32%nat);
  ed25519_verify pk _ sig := bool_decide (sig = pad 64 pk) |}.
#[local] Instance demo_ed25519_laws : Ed25519Laws.
Proof.
  split; intros; cbn [ed25519_verify ed25519_sign ed25519_pk_valid ed25519_public demo_ed25519].
  - by apply bool_decide_eq_true.
  - apply bool_decide_eq_true, length_pad.
  - apply length_pad.
  - apply length_pad.
Qed.

Definition demo_seed : bytes := replicate 32 Byte.x2a.
Definition demo_model : Model :=
  default {| layers := []; model_weight_commit := [] |} (Model_from_seed demo_seed).
Definition commits_of `{!Pasta, !Sha2} (m : Model) (prompt : bytes) : list bytes :=
  default [] (mapM vector_commit (activations (Model_run m (encode_prompt_to_fp (sha256 prompt))))).
Definition demo_commits : list bytes := commits_of demo_model (lit "hi").

Definition demo_receipt : Receipt := {|
  tenant := lit "acme"; session := replicate 16 Byte.x11; model := lit "demo"; input_tokens := 1;
  output_tokens := 2; epoch := 0; Receipts.issued_at_unix := 100; kv_blocks_cloaked := 3;
  output_digest_hex := hex_encode (sha256 []); output_string_digest_hex := hex_encode (sha256 []);
  weight_commit_hex := hex_encode (model_weight_commit demo_model);
  activation_commits_hex := hex_encode <$> demo_commits |}.

Definition signed_by `{!Ed25519, !Postcard Receipt} (k : bytes) (r : Receipt) : SignedReceipt :=
  match ReceiptSigner_sign {| key := k |} r with
  | Some (Ok s) => s
  | _ => {| receipt := r; Receipts.signature := [] |}
  end.
Definition demo_signed : SignedReceipt := signed_by [Byte.x07] demo_receipt.

(** Every check asked for; the eight proofs are empty strings. *)
Definition demo_inputs : AuditInputs := {|
  attestation := Some {| att_evidence := demo_evidence; att_policy := policy demo_verifier;
                         att_ctx := demo_ctx; require_signature_check := true |};
  log_inclusion := Some {| li_sth := SignedTreeHead_sign
      {| size_ := 3; root_hex := hex_encode (merkle_root demo_log); TreeHead.issued_at_unix := 100;
         log_id := lit "log" |} [Byte.x01];
    li_proof := default (Build_InclusionProof 0 0 [] [] []) (InclusionProof_build demo_log 2);
    expected_entry := demo_entry 2; expected_log_id := None; expected_logger_pk := None |};
  sth_freshness := Some {| sth_issued_at_unix := 100; fresh_now_unix := 110; fresh_max_age_sec := 60 |};
  expected_weight_commit := Some (model_weight_commit demo_model);
  expected_session := Some (replicate 16 Byte.x11);
  input_zk_layer_proofs := Some (replicate 8 []) |}.

Definition no_hex_error (_ : bytes) : bytes := [].

Definition verdict_of (a : option (result FraudReport AuditError)) : option Verdict :=
  match a with Some (Ok r) => Some (verdict r) | _ => None end.

Lemma demo_audit_honest :
  verdict_of (audit_with no_hex_error demo_seed (ed25519_public [Byte.x07]) (lit "hi") demo_signed demo_inputs)
  = Some Honest.
Proof. vm_compute. reflexivity. Qed.

Lemma verdict_of_Some a v : verdict_of a = Some v -> exists rep, a = Some (Ok rep) /\ verdict rep = v.
Proof. destruct a as [[rep|e]|]; try done. intros [= <-]. by exists rep. Qed.

Lemma watcher_honest_iff_witness :
  exists rep, audit_with no_hex_error demo_seed (ed25519_public [Byte.x07]) (lit "hi") demo_signed demo_inputs
              = Some (Ok rep)
  /\ verdict rep = Honest
  /\ exists proofs, input_zk_layer_proofs demo_inputs = Some proofs /\ length proofs = NUM_LAYERS.
Proof.
  destruct (verdict_of_Some _ _ demo_audit_honest) as (rep & E & V).
  exists rep. split; [exact E|]. split; [exact V|].
  apply (watcher_honest_iff no_hex_error demo_seed (ed25519_public [Byte.x07]) (lit "hi")
    demo_signed demo_inputs rep E), V.
Defined.

#[local] Instance silent_engine : InferenceEngine unit := {| engine_run _ _ := [] |}.

(** A TEE that runs the model of [demo_seed]. *)
Definition demo_tee : AppState Z unit := {|
  identity := (TeeIdentity_random 3 (model_weight_commit demo_model)).1;
  engine := (); receipt_signer := {| key := [Byte.x07] |}; model_name := lit "demo";
  verifiable_model := demo_model; layer_prover := None |}.

Definition demo_output : Output := {|
  slot := (allocate (TenantPool_random 9).1 (lit "acme") (replicate 16 Byte.x11) 7 5).1.1;
  kv_position := 0; output_bytes := []; output_token_ids := []; output_token_total := 0 |}.

Lemma demo_model_some : Model_from_seed demo_seed = Some demo_model.
Proof.
  unfold demo_model. destruct (Model_from_seed_some demo_seed) as (m & -> & _). reflexivity.
Qed.

Opaque demo_model.

Lemma watcher_clears_honest_tee_witness :
  exists signed rep, audit no_hex_error demo_seed (tee_verifying_key demo_tee) (lit "hi") signed = Some (Ok rep)
    /\ activations_consistent rep = true.
Proof.
  destruct (Model_from_seed_some demo_seed) as (m & Hm & Hwf & Hc).
  rewrite demo_model_some in Hm. apply (inj Some) in Hm as <-.
  destruct (run_commits demo_model (encode_prompt_to_fp (sha256 (lit "hi"))) Hwf eq_refl) as (cs & Hcs & _ & Hl).
  assert (Hv : Receipt_validate_structural (build_receipt demo_tee (lit "acme") (replicate 16 Byte.x11)
    (sha256 (lit "hi")) 1 100 0 demo_output (commit_bytes cs)) = Ok tt).
  { eapply validate_structural_hex; [reflexivity..| | | |exact Hl]; [apply sha256_len..|].
    change (weight_commit (identity demo_tee)) with (model_weight_commit demo_model).
    rewrite Hc. apply length_weight_commit. }
  destruct (sign_ok (receipt_signer demo_tee) _ Hv) as (signed & Hs & _ & _).
  destruct (watcher_clears_honest_tee no_hex_error demo_tee _ _ (lit "hi") _ _ _ _ demo_seed cs signed
    AuditInputs_default demo_model_some eq_refl Hcs Hs) as (rep & Ha & Hr & _).
  exists signed, rep. split; [exact Ha|exact Hr].
Defined.

Lemma watcher_verdict_witness :
  exists m cs res, Model_from_seed demo_seed = Some m
  /\ Trace_commits (Model_run m (encode_prompt_to_fp (sha256 (lit "hi")))) = Some cs
  /\ audit_with no_hex_error demo_seed (ed25519_public [Byte.x07]) (lit "hi") demo_signed demo_inputs = Some res.
Proof.
  destruct (watcher_verdict no_hex_error demo_seed (ed25519_public [Byte.x07]) (lit "hi") demo_signed demo_inputs)
    as (m & cs & res & Hm & Hcs & Ha & _).
  exists m, cs, res. exact (conj Hm (conj Hcs Ha)).
Defined.
