(* ===== verification/LogAuditor.v ===== *)
(** * ullm-log-auditor: the command-line log auditor

    [tools/ullm-log-auditor/src/main.rs]: verification of a signed head, an
    inclusion proof and witness cosignatures, and the comparison of two heads
    for a fork.  The file system and the JSON decoders are arguments.  A run is
    its exit code and what it prints on the standard output; the texts on the
    error output are not modelled, except those of [read_regular_file].  The
    arguments are those [std::env::args] yields; it panics on one that is not
    UTF-8. *)

From S2P Require Import Prelude RustStd RustText Core Crates Toy Merkle TreeHead Log Lru Float64 RateLimit Gateway Attest Quotes Nvidia RealVerifier Receipts Model Watcher.
From Stdlib Require Import Lia.

Local Open Scope Z_scope.

(** A node of the file system, by its [symlink_metadata]. *)
Inductive FsNode := Symlink | RegularFile (content : result bytes bytes) | OtherNode.

Definition FileSystem := bytes -> result FsNode bytes.

Definition read_regular_file (fs : FileSystem) (path : bytes) : result bytes bytes :=
  match fs path with
  | Err e => Err (lit "symlink_metadata " ++ path ++ lit ": " ++ e)
  | Ok Symlink => Err (lit "refusing to read " ++ path ++ lit ": path is a symlink (P3-9 hardening)")
  | Ok OtherNode => Err (lit "refusing to read " ++ path ++ lit ": not a regular file")
  | Ok (RegularFile r) => map_err (fun e => lit "read " ++ path ++ lit ": " ++ e) r
  end.

(** [serde_json::from_slice] at one type. *)
Class JsonDecode (T : Type) := { json_from_slice : bytes -> result T bytes }.

Record WitnessKeysetFile := {
  file_threshold : nat;
  witnesses_hex : list bytes;
  cosignatures : list WitnessCosignature;
}.

(** What a run prints. *)
Inductive Printed :=
| PNothing
| PValid (size : Z) (root_hex : bytes) (leaf_seq : Z)
| PInvalid (reason : bytes)
| PFork (size : Z) (a b : SignedTreeHead) (logger : bytes)
| PConsistent (note : bytes) (a b : SignedTreeHead).

Record Run := { exit_code : Z; printed : Printed }.

Definition bad_input : Run := {| exit_code := 2; printed := PNothing |}.
Definition silent_invalid : Run := {| exit_code := 1; printed := PNothing |}.
Definition invalid (reason : bytes) : Run := {| exit_code := 1; printed := PInvalid reason |}.

(** The value of a computation that may return early with a run. *)
Definition run_of (r : result Run Run) : Run := match r with Ok x => x | Err x => x end.
Definition or_bad {A E} (r : result A E) : result A Run := map_err (fun _ => bad_input) r.

(** ** Flags *)

Record VerifyFlags := {
  sth_path : option bytes;
  proof_path : option bytes;
  entry_path : option bytes;
  witness_path : option bytes;
  expected_logger_hex : option bytes;
  flag_log_id : option bytes;      (** [expected_log_id] *)
}.

Definition no_flags : VerifyFlags :=
  {| sth_path := None; proof_path := None; entry_path := None; witness_path := None;
     expected_logger_hex := None; flag_log_id := None |}.

(** One flag with what [args.next()] gave for its value; [None] when the flag
    is unknown. *)
Definition set_verify_flag (flag : bytes) (v : option bytes) (f : VerifyFlags) : option VerifyFlags :=
  if decide (flag = lit "--sth") then
    Some {| sth_path := v; proof_path := proof_path f; entry_path := entry_path f;
            witness_path := witness_path f; expected_logger_hex := expected_logger_hex f;
            flag_log_id := flag_log_id f |}
  else if decide (flag = lit "--proof") then
    Some {| sth_path := sth_path f; proof_path := v; entry_path := entry_path f;
            witness_path := witness_path f; expected_logger_hex := expected_logger_hex f;
            flag_log_id := flag_log_id f |}
  else if decide (flag = lit "--entry") then
    Some {| sth_path := sth_path f; proof_path := proof_path f; entry_path := v;
            witness_path := witness_path f; expected_logger_hex := expected_logger_hex f;
            flag_log_id := flag_log_id f |}
  else if decide (flag = lit "--witness-keyset") then
    Some {| sth_path := sth_path f; proof_path := proof_path f; entry_path := entry_path f;
            witness_path := v; expected_logger_hex := expected_logger_hex f;
            flag_log_id := flag_log_id f |}
  else if decide (flag = lit "--expected-logger") then
    Some {| sth_path := sth_path f; proof_path := proof_path f; entry_path := entry_path f;
            witness_path := witness_path f; expected_logger_hex := v; flag_log_id := flag_log_id f |}
  else if decide (flag = lit "--expected-log-id") then
    Some {| sth_path := sth_path f; proof_path := proof_path f; entry_path := entry_path f;
            witness_path := witness_path f; expected_logger_hex := expected_logger_hex f;
            flag_log_id := v |}
  else None.

Record CompareFlags := { a_path : option bytes; b_path : option bytes; logger_hex : option bytes }.

Definition set_compare_flag (flag : bytes) (v : option bytes) (f : CompareFlags) : option CompareFlags :=
  if decide (flag = lit "--sth-a") then Some {| a_path := v; b_path := b_path f; logger_hex := logger_hex f |}
  else if decide (flag = lit "--sth-b") then Some {| a_path := a_path f; b_path := v; logger_hex := logger_hex f |}
  else if decide (flag = lit "--logger-pk") then Some {| a_path := a_path f; b_path := b_path f; logger_hex := v |}
  else None.

(** The [while let Some(flag)] loop. *)
Fixpoint flag_loop {F} (set : bytes -> option bytes -> F -> option F) (args : list bytes) (f : F) : option F :=
  match args with
  | [] => Some f
  | flag :: rest =>
      match rest with
      | [] => set flag None f
      | v :: rest => f ← set flag (Some v) f; flag_loop set rest f
      end
  end.

Section Auditor.
Context `{!Sha2, !Hex, !SerdeJson, !Ed25519, !UnicodeTables,
          !JsonDecode SignedTreeHead, !JsonDecode InclusionProof, !JsonDecode LogEntry,
          !JsonDecode WitnessKeysetFile} (fs : FileSystem).

Definition load {T} `{!JsonDecode T} (path : bytes) : result T Run :=
  let? b := or_bad (read_regular_file fs path) in
  or_bad (json_from_slice b).

(** [arr: [u8; 32]] from hex; the two errors both exit with 2. *)
Definition hex32 (h : bytes) : result bytes Run :=
  let? b := ok_or (hex_decode h) bad_input in
  if decide (length b = 32%nat) then Ok b else Err bad_input.

Fixpoint parse_witness_keys (hs : list bytes) : result (list bytes) Run :=
  match hs with
  | [] => Ok []
  | h :: hs =>
      let? arr := hex32 h in
      if negb (ed25519_pk_valid arr) then Err bad_input else
      let? keys := parse_witness_keys hs in
      Ok (arr :: keys)
  end.

Definition load_witnesses (path : option bytes)
  : result (option (WitnessKeyset * list WitnessCosignature)) Run :=
  match path with
  | None => Ok None
  | Some p =>
      let? file := load (T := WitnessKeysetFile) p in
      let? keys := parse_witness_keys (witnesses_hex file) in
      Ok (Some ({| witnesses := keys; threshold := file_threshold file |}, cosignatures file))
  end.

Definition check_logger (pin : option bytes) (sth : SignedTreeHead) : result unit Run :=
  match pin with
  | None => Ok tt
  | Some hex_str =>
      let? b := ok_or (hex_decode hex_str) bad_input in
      if decide (b <> logger_pk sth) then Err silent_invalid else Ok tt
  end.

(** [verify_mode] after its flags. *)
Definition verify_run (f : VerifyFlags) : Run :=
  run_of (
    let? sth_path := ok_or (sth_path f) bad_input in
    let? proof_path := ok_or (proof_path f) bad_input in
    let? sth := load (T := SignedTreeHead) sth_path in
    let? proof := load (T := InclusionProof) proof_path in
    let? entry_path := ok_or (entry_path f) bad_input in
    let? expected := load (T := LogEntry) entry_path in
    let? _ := check_logger (expected_logger_hex f) sth in
    let? witnesses := load_witnesses (witness_path f) in
    Ok (match verify_inclusion_against_head sth proof expected witnesses (flag_log_id f) with
        | Ok _ => {| exit_code := 0;
                     printed := PValid (size_ (head sth)) (root_hex (head sth)) (proof_seq proof) |}
        | Err e => invalid (AuditError_display e)
        end)).

Definition verify_mode (args : list bytes) : Run :=
  match flag_loop set_verify_flag args no_flags with
  | None => bad_input
  | Some f => verify_run f
  end.

(** [compare_sths] once both heads are loaded. *)
Definition compare_heads (logger_bytes : bytes) (sth_a sth_b : SignedTreeHead) : Run :=
  if decide (logger_pk sth_a <> logger_bytes)
  then invalid (lit "sth-a logger_pk does not match --logger-pk") else
  if decide (logger_pk sth_b <> logger_bytes)
  then invalid (lit "sth-b logger_pk does not match --logger-pk") else
  if negb (SignedTreeHead_verify sth_a) then invalid (lit "sth-a signature did not verify") else
  if negb (SignedTreeHead_verify sth_b) then invalid (lit "sth-b signature did not verify") else
  if bool_decide (size_ (head sth_a) = size_ (head sth_b))
     && bool_decide (root_hex (head sth_a) <> root_hex (head sth_b))
  then {| exit_code := 1; printed := PFork (size_ (head sth_a)) sth_a sth_b logger_bytes |}
  else
  let note := if decide (size_ (head sth_a) = size_ (head sth_b)) then lit "same size, same root"
              else lit "different sizes — no fork evidence; consistency proof recommended" in
  {| exit_code := 0; printed := PConsistent note sth_a sth_b |}.

Definition compare_run (f : CompareFlags) : Run :=
  run_of (
    let? a_path := ok_or (a_path f) bad_input in
    let? b_path := ok_or (b_path f) bad_input in
    let? logger_hex := ok_or (logger_hex f) bad_input in
    let? logger_bytes := hex32 logger_hex in
    let? a_bytes := or_bad (read_regular_file fs a_path) in
    let? b_bytes := or_bad (read_regular_file fs b_path) in
    let? sth_a := or_bad (json_from_slice (T := SignedTreeHead) a_bytes) in
    let? sth_b := or_bad (json_from_slice (T := SignedTreeHead) b_bytes) in
    Ok (compare_heads logger_bytes sth_a sth_b)).

Definition compare_sths (args : list bytes) : Run :=
  match flag_loop set_compare_flag args {| a_path := None; b_path := None; logger_hex := None |} with
  | None => bad_input
  | Some f => compare_run f
  end.

Definition auditor_main (argv : list bytes) : Run :=
  match argv with
  | first :: rest => if decide (first = lit "compare-sths") then compare_sths rest else verify_mode argv
  | [] => verify_mode []
  end.
End Auditor.

(** ** The comparison *)

Section Properties.
Context `{!Sha2, !Hex, !SerdeJson, !Ed25519, !UnicodeTables,
          !JsonDecode SignedTreeHead, !JsonDecode InclusionProof, !JsonDecode LogEntry,
          !JsonDecode WitnessKeysetFile}.

(** The comparison, exactly.  It reports a fork just when both heads carry
    the given logger key, both signatures verify, the sizes agree and the
    roots differ, and then prints both heads; it exits with 0 just when both
    are authentic and not such a pair.  Every other outcome exits with 1. *)
Theorem compare_heads_spec pk a b :
  let authentic := logger_pk a = pk /\ logger_pk b = pk
                   /\ SignedTreeHead_verify a = true /\ SignedTreeHead_verify b = true in
  let differ := size_ (head a) = size_ (head b) /\ root_hex (head a) <> root_hex (head b) in
  (compare_heads pk a b = {| exit_code := 1; printed := PFork (size_ (head a)) a b pk |}
     <-> authentic /\ differ)
  /\ (exit_code (compare_heads pk a b) = 0 <-> authentic /\ ~ differ)
  /\ (exit_code (compare_heads pk a b) = 0 \/ exit_code (compare_heads pk a b) = 1).
Proof.
  cbn zeta. unfold compare_heads.
  case_decide as D1; [split_and!; [split; [done|tauto]|split; [done|tauto]|by right]|].
  case_decide as D2; [split_and!; [split; [done|tauto]|split; [done|tauto]|by right]|].
  destruct (SignedTreeHead_verify a); cbn [negb]; [|split_and!; [split; [done|naive_solver]|split; [done|naive_solver]|by right]].
  destruct (SignedTreeHead_verify b); cbn [negb]; [|split_and!; [split; [done|naive_solver]|split; [done|naive_solver]|by right]].
  do 2 case_bool_decide; cbn [andb]; (split_and!; [split; try done; tauto|split; try done; tauto|by (left + right)]).
Qed.

(** Reading two heads from their files. *)
Lemma compare_run_heads fs f pa pb hx pk a b :
  a_path f = Some pa -> b_path f = Some pb -> logger_hex f = Some hx -> hex32 hx = Ok pk ->
  load fs pa = Ok a -> load fs pb = Ok b -> compare_run fs f = compare_heads pk a b.
Proof.
  intros Ha Hb Hl Hx La Lb. unfold compare_run, load in *. rewrite Ha, Hb, Hl. cbn [ok_or result_bind].
  rewrite Hx. cbn [result_bind].
  destruct (or_bad (read_regular_file fs pa)) as [ba|]; [|done].
  destruct (or_bad (read_regular_file fs pb)) as [bb|]; [|done]. cbn [result_bind] in *.
  rewrite La. cbn [result_bind]. by rewrite Lb.
Qed.

(** An honest gateway is never accused.  Take any two heads a gateway has
    answered in any run of its handlers, in whichever order and however far
    apart: the auditor that reads them from two files and has the gateway's
    key finds them consistent. *)
Theorem honest_gateway_consistent `{!Ed25519Laws, !LogEntryJson} io_err s s' a b fs f pa pb hx :
  sys_init s -> rtc (sys_step io_err) s s' -> a ∈ published s' -> b ∈ published s' ->
  a_path f = Some pa -> b_path f = Some pb -> logger_hex f = Some hx ->
  hex32 hx = Ok (ed25519_public (logger_signing_key (gw s))) ->
  load fs pa = Ok a -> load fs pb = Ok b ->
  exists note, compare_run fs f = {| exit_code := 0; printed := PConsistent note a b |}.
Proof.
  intros Hi Hr Ia Ib Ha Hb Hl Hx La Lb. rewrite (compare_run_heads fs f pa pb hx _ a b Ha Hb Hl Hx La Lb).
  eapply sys_inv_reachable in Hr as (_ & _ & _ & _ & _ & Hp); [|by apply sys_init_inv].
  rewrite Forall_forall in Hp.
  destruct (Hp a Ia) as (n1 & t1 & _ & ->), (Hp b Ib) as (n2 & t2 & _ & ->).
  unfold compare_heads. rewrite decide_False by (intros N; by apply N).
  rewrite decide_False by (intros N; by apply N). rewrite !sign_verifies. cbn [negb head size_ root_hex SignedTreeHead_sign].
  case_bool_decide as Es; cbn [andb]; [|by eexists].
  apply Nat2Z.inj in Es as ->. rewrite bool_decide_eq_false_2 by (intros N; by apply N). by eexists.
Qed.

(** The comparison does not look at the log id.  Two gateways that run two
    logs under one key, each honest and each naming its own log in its heads,
    are reported as a fork as soon as both logs have the same size. *)
Theorem cross_log_false_fork `{!Ed25519Laws} g1 g2 t1 t2 :
  logger_signing_key g1 = logger_signing_key g2 ->
  length (entries (transparency g1)) = length (entries (transparency g2)) ->
  hex_encode (merkle_root (entries (transparency g1))) <> hex_encode (merkle_root (entries (transparency g2))) ->
  let a := head_sign g1 t1 in
  let b := head_sign g2 t2 in
  log_id (head a) = gw_log_id g1 /\ log_id (head b) = gw_log_id g2
  /\ compare_heads (ed25519_public (logger_signing_key g1)) a b
     = {| exit_code := 1; printed := PFork (Z.of_nat (length (entries (transparency g1)))) a b
                                           (ed25519_public (logger_signing_key g1)) |}.
Proof.
  intros Hk Hl Hr. cbn zeta. split_and!; [done|done|]. unfold compare_heads, head_sign.
  rewrite decide_False by (intros N; by apply N). rewrite decide_False by (rewrite Hk; intros N; by apply N).
  rewrite !sign_verifies. cbn. rewrite Hl.
  rewrite bool_decide_eq_true_2 by done. by rewrite bool_decide_eq_true_2.
Qed.

(** ** Verification *)

(** What the gateway logs can be audited.  The head the gateway signs now,
    the proof its endpoint answers for any entry of the log, and that entry,
    read from files by the auditor with the gateway's key and log name pinned,
    are accepted; and for a sequence number the log does not have, the
    endpoint answers 404. *)
Theorem gateway_entries_audit `{!Sha2Laws, !HexLaws, !Ed25519Laws, !LogEntryJson} g sq now_ns fs f ps pp pe hx :
  match entries (transparency g) !! Z.to_nat sq with
  | None => exists msg, transparency_proof g sq = Err (404, msg)
  | Some e => exists proof, transparency_proof g sq = Ok proof
      /\ (sth_path f = Some ps -> proof_path f = Some pp -> entry_path f = Some pe -> witness_path f = None ->
          expected_logger_hex f = Some hx -> hex_decode hx = Some (ed25519_public (logger_signing_key g)) ->
          flag_log_id f = Some (gw_log_id g) ->
          load fs ps = Ok (head_sign g now_ns) -> load fs pp = Ok proof -> load fs pe = Ok e ->
          exit_code (verify_run fs f) = 0)
  end.
Proof.
  unfold transparency_proof, snapshot. destruct (entries (transparency g) !! Z.to_nat sq) as [e|] eqn:He.
  - destruct (build_verifies _ _ _ He) as (p & Hb & _ & Hsz & Hv). rewrite Hb. exists p. split; [done|].
    intros Fs Fp Fe Fw Fl Hx Fi Ls Lp Le. unfold verify_run. rewrite Fs, Fp, Fe, Fw, Fl, Fi. cbn [ok_or result_bind].
    rewrite Ls. cbn [result_bind]. rewrite Lp. cbn [result_bind]. rewrite Le. cbn [result_bind check_logger].
    rewrite Hx. cbn [ok_or result_bind]. rewrite decide_False by (intros N; by apply N). cbn [result_bind load_witnesses run_of].
    assert (E : verify_inclusion_against_head (head_sign g now_ns) p e None (Some (gw_log_id g)) = Ok tt).
    { apply verify_inclusion_Ok. split_and!; [apply sign_verifies|by intros ? [= <-]|done| |done].
      exists (merkle_root (entries (transparency g))). split; [apply decode32_merkle_root|done]. }
    by rewrite E.
  - unfold InclusionProof_build. rewrite decide_True by (by apply lookup_ge_None). cbn. by eexists.
Qed.

(** A trailing flag with no value. *)
Lemma flag_loop_trailing {F} (set : bytes -> option bytes -> F -> option F) args flag f0 f :
  Nat.Even (length args) -> flag_loop set args f0 = Some f ->
  flag_loop set (args ++ [flag]) f0 = set flag None f.
Proof.
  revert f0. induction args as [args IH] using (induction_ltof1 _ (@length bytes)). unfold ltof in IH.
  intros f0 He Hl. destruct args as [|x [|v args]]; cbn [flag_loop app] in *.
  - by injection Hl as ->.
  - destruct He as [k He]. cbn in He. lia.
  - destruct (set x (Some v) f0) as [f1|]; [|done]. cbn in *. apply IH; [simpl; lia| |done].
    destruct He as [k He]. exists (k - 1)%nat. cbn in He. lia.
Qed.

Definition without_logger (f : VerifyFlags) : VerifyFlags :=
  {| sth_path := sth_path f; proof_path := proof_path f; entry_path := entry_path f;
     witness_path := witness_path f; expected_logger_hex := None; flag_log_id := flag_log_id f |}.
Definition without_witnesses (f : VerifyFlags) : VerifyFlags :=
  {| sth_path := sth_path f; proof_path := proof_path f; entry_path := entry_path f;
     witness_path := None; expected_logger_hex := expected_logger_hex f; flag_log_id := flag_log_id f |}.

(** A pin whose value is missing is no pin.  A trailing [--expected-logger]
    or [--witness-keyset] without a value is not bad input: it takes back the
    value given before, if any, and the run is the one without that check. *)
Theorem trailing_flag_drops_check fs args f :
  Nat.Even (length args) -> flag_loop set_verify_flag args no_flags = Some f ->
  verify_mode fs (args ++ [lit "--expected-logger"]) = verify_run fs (without_logger f)
  /\ verify_mode fs (args ++ [lit "--witness-keyset"]) = verify_run fs (without_witnesses f).
Proof.
  intros He Hl. unfold verify_mode.
  rewrite (flag_loop_trailing set_verify_flag args (lit "--expected-logger") no_flags f He Hl).
  by rewrite (flag_loop_trailing set_verify_flag args (lit "--witness-keyset") no_flags f He Hl).
Qed.
End Properties.

(** ** Runs on concrete files *)

(** A decoder that knows two documents. *)
Definition demo_fs : FileSystem := fun p =>
  if decide (p = lit "link") then Ok Symlink else Ok (RegularFile (Ok p)).

#[local] Instance demo_sth_json : JsonDecode SignedTreeHead :=
  {| json_from_slice b := if decide (b = lit "a") then Ok demo_sth else Err [] |}.
#[local] Instance demo_proof_json : JsonDecode InclusionProof :=
  {| json_from_slice _ := ok_or (InclusionProof_build demo_log 2) [] |}.
#[local] Instance demo_entry_json : JsonDecode LogEntry := {| json_from_slice _ := Ok (demo_entry 2) |}.
#[local] Instance demo_keyset_json : JsonDecode WitnessKeysetFile := {| json_from_slice _ := Err [] |}.

Definition demo_args : list bytes :=
  [lit "--sth"; lit "a"; lit "--proof"; lit "p"; lit "--entry"; lit "e"].

(** The head is not of the pinned logger, and the run says so; with the pin
    named once more at the end of the line, the same files are accepted. *)
Lemma trailing_flag_drops_check_witness :
  let pinned := demo_args ++ [lit "--expected-logger"; lit "00"] in
  exit_code (verify_mode demo_fs pinned) = 1
  /\ exit_code (verify_mode demo_fs (pinned ++ [lit "--expected-logger"])) = 0.
Proof.
  cbn zeta. split; [vm_compute; reflexivity|].
  destruct (trailing_flag_drops_check demo_fs (demo_args ++ [lit "--expected-logger"; lit "00"])
    {| sth_path := Some (lit "a"); proof_path := Some (lit "p"); entry_path := Some (lit "e");
       witness_path := None; expected_logger_hex := Some (lit "00"); flag_log_id := None |}) as [-> _].
  - exists 4%nat. reflexivity.
  - vm_compute. reflexivity.
  - vm_compute. reflexivity.
Defined.

(** Two gateways of one operator, one key, two logs. *)
Definition two_logs (id : bytes) (b : byte) : GatewayState :=
  {| tee_base_url := []; rate_limiter := RateLimiter_new RateLimiterConfig_default;
     transparency := (append TransparencyLog_new (replicate 32 b) [] 1 io_fine).2;
     logger_signing_key := replicate 32 Byte.x01; gw_log_id := id; sth_cache := None |}.

Lemma cross_log_false_fork_witness :
  let a := head_sign (two_logs (lit "log-a") Byte.x01) 0 in
  let b := head_sign (two_logs (lit "log-b") Byte.x02) 0 in
  log_id (head a) <> log_id (head b)
  /\ exit_code (compare_heads (ed25519_public (replicate 32 Byte.x01)) a b) = 1.
Proof.
  cbn zeta.
  destruct (cross_log_false_fork (two_logs (lit "log-a") Byte.x01) (two_logs (lit "log-b") Byte.x02) 0 0)
    as (Ha & Hb & Hf); [reflexivity|reflexivity|vm_compute; discriminate|].
  rewrite Ha, Hb. split; [discriminate|]. exact (f_equal exit_code Hf).
Defined.

Lemma honest_gateway_consistent_witness :
  exists s, rtc (sys_step io_text) (demo_sys demo_state) s
  /\ exists sth note, let json : JsonDecode SignedTreeHead := {| json_from_slice _ := Ok sth |} in
     compare_run demo_fs
       {| a_path := Some (lit "x"); b_path := Some (lit "y");
          logger_hex := Some (hex_encode (ed25519_public (replicate 32 Byte.x01))) |}
     = {| exit_code := 0; printed := PConsistent note sth sth |}.
Proof.
  set (s1 := demo_gateway (flush demo_state true).2).
  set (s' := {| gw := head_store s1 (head_sign s1 10) 3; flushed := 0; signed := [];
                published := [head_sign s1 10] |}).
  assert (R : rtc (sys_step io_text) (demo_sys demo_state) s').
  { eapply rtc_l; [eapply (step_head_flush _ _ 0 true); reflexivity|].
    eapply rtc_l; [eapply (step_head_sign _ _ 10 0); reflexivity|].
    eapply rtc_l; [eapply (step_head_store _ _ 3 _ [] []); reflexivity|]. apply rtc_refl. }
  exists s'. split; [exact R|]. exists (head_sign s1 10).
  set (json := {| json_from_slice _ := Ok (head_sign s1 10) |} : JsonDecode SignedTreeHead).
  apply (honest_gateway_consistent io_text (demo_sys demo_state) s' _ _ demo_fs _ (lit "x") (lit "y")
    (hex_encode (ed25519_public (replicate 32 Byte.x01))) ltac:(done) R ltac:(by left) ltac:(by left));
    [reflexivity..|vm_compute; reflexivity|reflexivity|reflexivity].
Defined.

Lemma gateway_entries_audit_witness :
  let g := two_logs (lit "log-a") Byte.x01 in
  exists e proof, entries (transparency g) = [e] /\ transparency_proof g 0 = Ok proof
  /\ (exists msg, transparency_proof g 1 = Err (404, msg))
  /\ let j1 : JsonDecode SignedTreeHead := {| json_from_slice _ := Ok (head_sign g 5) |} in
     let j2 : JsonDecode InclusionProof := {| json_from_slice _ := Ok proof |} in
     let j3 : JsonDecode LogEntry := {| json_from_slice _ := Ok e |} in
     exit_code (verify_run demo_fs
       {| sth_path := Some (lit "s"); proof_path := Some (lit "p"); entry_path := Some (lit "e");
          witness_path := None; expected_logger_hex := Some (hex_encode (ed25519_public (replicate 32 Byte.x01)));
          flag_log_id := Some (lit "log-a") |}) = 0.
Proof.
  intros g. destruct (entries (transparency g)) as [|e [|e' es]] eqn:He; [done| |done].
  exists e. destruct (transparency_proof g 0) as [proof|x] eqn:Hp.
  2:{ exfalso. pose proof (gateway_entries_audit g 0 5 demo_fs
        {| sth_path := None; proof_path := None; entry_path := None; witness_path := None;
           expected_logger_hex := None; flag_log_id := None |} [] [] [] []) as T.
      rewrite He in T. destruct T as (p & T & _). rewrite Hp in T. discriminate T. }
  exists proof. split; [reflexivity|]. split; [reflexivity|]. split.
  - pose proof (gateway_entries_audit g 1 5 demo_fs
      {| sth_path := None; proof_path := None; entry_path := None; witness_path := None;
         expected_logger_hex := None; flag_log_id := None |} [] [] [] []) as T.
    rewrite He in T. exact T.
  - intros j1 j2 j3.
    pose proof (gateway_entries_audit g 0 5 demo_fs
      {| sth_path := Some (lit "s"); proof_path := Some (lit "p"); entry_path := Some (lit "e");
         witness_path := None; expected_logger_hex := Some (hex_encode (ed25519_public (replicate 32 Byte.x01)));
         flag_log_id := Some (lit "log-a") |} (lit "s") (lit "p") (lit "e")
      (hex_encode (ed25519_public (replicate 32 Byte.x01)))) as T.
    rewrite He in T. destruct T as (p & T & F). rewrite Hp in T. injection T as <-.
    apply F; first [reflexivity | apply hex_decode_encode].
Defined.
