(* ===== verification/WatcherMain.v ===== *)
(** * ullm-watcher: the command line

    [tools/ullm-watcher/src/main.rs]: flags, files and exit codes around
    [Watcher.audit_with].  A run is its exit code and the report it prints;
    [None] is a panic: of [std::env::args] on an argument that is not UTF-8, or
    of [println!] and [eprintln!] when the stream cannot be written.  The texts
    on the error output are not modelled.  Paths are read as on a system other
    than Windows. *)

From S2P Require Import Prelude RustStd RustText Core Crates Toy Merkle TreeHead Attest Quotes Nvidia RealVerifier Receipts Model Watcher LogAuditor.
From Stdlib Require Import Lia.

Local Open Scope Z_scope.

(** [--sth-url]: a path, or a [file://] URL. *)
Definition resolve_sth_path (value : bytes) : option bytes :=
  match strip_prefix (lit "file://") value with
  | Some rest => Some rest
  | None =>
      if decide (is_Some (strip_prefix (lit "http://") value) \/ is_Some (strip_prefix (lit "https://") value))
      then None else Some value
  end.

(** [parse_hex16], [parse_hex32] and [parse_hex64]. *)
Definition parse_hex `{!Hex} (n : nat) (v : bytes) : option bytes :=
  b ← hex_decode v;
  if decide (length b = n) then Some b else None.

Record Opts := {
  o_seed : option bytes;
  o_tee_pk : option bytes;
  o_prompt : option bytes;
  o_receipt_path : option bytes;
  o_evidence_path : option bytes;
  o_report_data : option bytes;
  o_attestation_now : option Z;
  o_attestation_max_age : Z;
  o_sth_path : option bytes;
  o_proof_path : option bytes;
  o_log_entry_path : option bytes;
  o_log_id : option bytes;
  o_logger_pk : option bytes;
  o_freshness_now : option Z;
  o_freshness_max_age : Z;
  o_weight_commit : option bytes;
  o_session : option bytes;
  o_zk_envelope : bool;
}.

Definition Opts_default : Opts :=
  Build_Opts None None None None None None None 600 None None None None None None 600 None None false.

Section Flags.
Context `{!Hex, !Ed25519}.

(** One flag with its value; [None] is an exit with 2. *)
Definition set_opt (flag v : bytes) (o : Opts) : option Opts :=
  let '(Build_Opts seed pk prompt receipt ev rd anow amax sth proof entry id logger fnow fmax wc sess zk) := o in
  if decide (flag = lit "--model-seed") then
    x ← parse_hex 32 v;
    Some (Build_Opts (Some x) pk prompt receipt ev rd anow amax sth proof entry id logger fnow fmax wc sess zk)
  else if decide (flag = lit "--tee-pk") then
    x ← parse_hex 32 v;
    if negb (ed25519_pk_valid x) then None else
    Some (Build_Opts seed (Some x) prompt receipt ev rd anow amax sth proof entry id logger fnow fmax wc sess zk)
  else if decide (flag = lit "--prompt") then
    Some (Build_Opts seed pk (Some v) receipt ev rd anow amax sth proof entry id logger fnow fmax wc sess zk)
  else if decide (flag = lit "--receipt") then
    Some (Build_Opts seed pk prompt (Some v) ev rd anow amax sth proof entry id logger fnow fmax wc sess zk)
  else if decide (flag = lit "--attestation-evidence") then
    Some (Build_Opts seed pk prompt receipt (Some v) rd anow amax sth proof entry id logger fnow fmax wc sess zk)
  else if decide (flag = lit "--attestation-report-data") then
    x ← parse_hex 64 v;
    Some (Build_Opts seed pk prompt receipt ev (Some x) anow amax sth proof entry id logger fnow fmax wc sess zk)
  else if decide (flag = lit "--attestation-now") then
    n ← parse_uint 64 v;
    Some (Build_Opts seed pk prompt receipt ev rd (Some n) amax sth proof entry id logger fnow fmax wc sess zk)
  else if decide (flag = lit "--attestation-max-age-secs") then
    n ← parse_uint 64 v;
    Some (Build_Opts seed pk prompt receipt ev rd anow n sth proof entry id logger fnow fmax wc sess zk)
  else if decide (flag = lit "--sth-url") then
    p ← resolve_sth_path v;
    Some (Build_Opts seed pk prompt receipt ev rd anow amax (Some p) proof entry id logger fnow fmax wc sess zk)
  else if decide (flag = lit "--proof") then
    Some (Build_Opts seed pk prompt receipt ev rd anow amax sth (Some v) entry id logger fnow fmax wc sess zk)
  else if decide (flag = lit "--log-entry") then
    Some (Build_Opts seed pk prompt receipt ev rd anow amax sth proof (Some v) id logger fnow fmax wc sess zk)
  else if decide (flag = lit "--expected-log-id") then
    Some (Build_Opts seed pk prompt receipt ev rd anow amax sth proof entry (Some v) logger fnow fmax wc sess zk)
  else if decide (flag = lit "--logger-pk") then
    x ← parse_hex 32 v;
    Some (Build_Opts seed pk prompt receipt ev rd anow amax sth proof entry id (Some x) fnow fmax wc sess zk)
  else if decide (flag = lit "--freshness-now") then
    n ← parse_uint 64 v;
    Some (Build_Opts seed pk prompt receipt ev rd anow amax sth proof entry id logger (Some n) fmax wc sess zk)
  else if decide (flag = lit "--freshness-max-age-secs") then
    n ← parse_uint 64 v;
    Some (Build_Opts seed pk prompt receipt ev rd anow amax sth proof entry id logger fnow n wc sess zk)
  else if decide (flag = lit "--expected-weight-commit") then
    x ← parse_hex 32 v;
    Some (Build_Opts seed pk prompt receipt ev rd anow amax sth proof entry id logger fnow fmax (Some x) sess zk)
  else if decide (flag = lit "--expected-session") then
    x ← parse_hex 16 v;
    Some (Build_Opts seed pk prompt receipt ev rd anow amax sth proof entry id logger fnow fmax wc (Some x) zk)
  else None.

Definition set_zk (o : Opts) : Opts :=
  let '(Build_Opts seed pk prompt receipt ev rd anow amax sth proof entry id logger fnow fmax wc sess _) := o in
  Build_Opts seed pk prompt receipt ev rd anow amax sth proof entry id logger fnow fmax wc sess true.

(** The flags that take a value; any other is unknown and exits with 2
    before a value is read. *)
Definition value_flags : list bytes :=
  [lit "--model-seed"; lit "--tee-pk"; lit "--prompt"; lit "--receipt"; lit "--attestation-evidence";
   lit "--attestation-report-data"; lit "--attestation-now"; lit "--attestation-max-age-secs"; lit "--sth-url";
   lit "--proof"; lit "--log-entry"; lit "--expected-log-id"; lit "--logger-pk"; lit "--freshness-now";
   lit "--freshness-max-age-secs"; lit "--expected-weight-commit"; lit "--expected-session"].

(** The flag loop.  The outer [None] is the panic of the argument iterator on
    an argument it reaches that is not UTF-8; the inner one an exit with 2, on
    an unknown flag, a missing value or a value that does not parse. *)
Fixpoint parse_args (args : list bytes) (o : Opts) : option (option Opts) :=
  match args with
  | [] => Some (Some o)
  | flag :: rest =>
      if negb (utf8_valid flag) then None else
      if decide (flag = lit "--zk-envelope") then parse_args rest (set_zk o) else
      if decide (flag ∉ value_flags) then Some None else
      match rest with
      | [] => Some None
      | v :: rest =>
          if negb (utf8_valid v) then None else
          match set_opt flag v o with
          | None => Some None
          | Some o => parse_args rest o
          end
      end
  end.

(** [std::env::args().skip(1)] and the loop: skipping the program's name
    takes it from the iterator. *)
Definition parse_argv (argv : list bytes) : option (option Opts) :=
  match argv with
  | [] => parse_args [] Opts_default
  | name :: args => if negb (utf8_valid name) then None else parse_args args Opts_default
  end.
End Flags.

Definition MeasurementPolicy_default : MeasurementPolicy :=
  {| allowed_mrtd := ∅; allowed_snp_measurement := ∅; allowed_nvidia_measurements_hex := ∅ |}.

(** Exit code and the report printed. *)
Abbreviation Exit := (Z * option FraudReport)%type.

(** Whether the standard streams can be written. *)
Record Stdio := { stdout_ok : bool; stderr_ok : bool }.

(** [println!] and [eprintln!] panic when they cannot write. *)
Definition eprintln (io : Stdio) : option unit := if stderr_ok io then Some tt else None.
Definition println (io : Stdio) : option unit := if stdout_ok io then Some tt else None.

Definition bail2 (io : Stdio) : option Exit := _ ← eprintln io; Some (2, None).

Section Main.
Context `{!Subtle, !Sha2, !Hkdf, !Hex, !SerdeJson, !Ed25519, !Postcard Receipt, !Postcard SignedReceipt,
          !Postcard ReceiptEnvelope, !Postcard Evidence, !Pasta, !Ecdsa P256, !UnicodeTables, !NvidiaJson,
          !JsonDecode SignedTreeHead, !JsonDecode InclusionProof, !JsonDecode LogEntry}
        (hex_error : bytes -> bytes) (fs : FileSystem).

(** An optional file, read and decoded; [None] is an exit with 2. *)
Definition load_opt {T} (decode : bytes -> result T bytes) (path : option bytes) : option (option T) :=
  match path with
  | None => Some None
  | Some p =>
      match read_regular_file fs p with
      | Err _ => None
      | Ok b => match decode b with Ok x => Some (Some x) | Err _ => None end
      end
  end.

Definition load_receipt (zk : bool) (path : bytes) : option (SignedReceipt * option (list bytes)) :=
  match read_regular_file fs path with
  | Err _ => None
  | Ok b =>
      if zk then
        match postcard_from_bytes (T := ReceiptEnvelope) b with
        | Ok env => Some (signed_receipt env, Some (zk_layer_proofs env))
        | Err _ => None
        end
      else
        match postcard_from_bytes (T := SignedReceipt) b with
        | Ok s => Some (s, None)
        | Err _ => None
        end
  end.

Definition report_data_buf (o : Opts) (ev : option Evidence) : bytes :=
  match o_report_data o, ev with
  | Some rd, _ => rd
  | None, Some ev => ev_report_data ev
  | None, None => replicate 64 Byte.x00
  end.

Definition attestation_input (o : Opts) (ev : option Evidence) : option AttestationCheck :=
  e ← ev;
  Some {| att_evidence := e; att_policy := MeasurementPolicy_default;
          att_ctx := {| expected_report_data := report_data_buf o ev;
                        now_unix_ctx := default (Attest.issued_at_unix e) (o_attestation_now o);
                        max_age_sec := o_attestation_max_age o |};
          require_signature_check := false |}.

Definition freshness_input (o : Opts) (sth : option SignedTreeHead) : option SthFreshnessCheck :=
  s ← sth;
  Some {| sth_issued_at_unix := TreeHead.issued_at_unix (head s);
          fresh_now_unix := default (TreeHead.issued_at_unix (head s)) (o_freshness_now o);
          fresh_max_age_sec := o_freshness_max_age o |}.

Definition inclusion_input (o : Opts) (sth : option SignedTreeHead) (proof : option InclusionProof)
    (entry : option LogEntry) : option LogInclusionCheck :=
  s ← sth; p ← proof; e ← entry;
  Some {| li_sth := s; li_proof := p; expected_entry := e; expected_log_id := o_log_id o;
          expected_logger_pk := o_logger_pk o |}.

Definition build_inputs (o : Opts) (ev : option Evidence) (sth : option SignedTreeHead)
    (proof : option InclusionProof) (entry : option LogEntry) (proofs : option (list bytes)) : AuditInputs :=
  {| attestation := attestation_input o ev;
     log_inclusion := inclusion_input o sth proof entry;
     sth_freshness := freshness_input o sth;
     expected_weight_commit := o_weight_commit o;
     expected_session := o_session o;
     input_zk_layer_proofs := proofs |}.

Definition verdict_exit (v : Verdict) : Z :=
  match v with Honest => 0 | Fraudulent _ => 1 | Partial => 3 end.

(** Everything read and decoded, in the order of the program; [None] is an
    exit with 2. *)
Definition load_inputs (o : Opts) : option (bytes * bytes * bytes * SignedReceipt * AuditInputs) :=
  seed ← o_seed o; pk ← o_tee_pk o; prompt ← o_prompt o; path ← o_receipt_path o;
  '(signed, proofs) ← load_receipt (o_zk_envelope o) path;
  ev ← load_opt postcard_from_bytes (o_evidence_path o);
  sth ← load_opt json_from_slice (o_sth_path o);
  proof ← load_opt json_from_slice (o_proof_path o);
  entry ← load_opt json_from_slice (o_log_entry_path o);
  Some (seed, pk, prompt, signed, build_inputs o ev sth proof entry proofs).

(** What follows a report: a warning when the evidence vouched for its own
    report data, the report, the exit code. *)
Definition print_report (io : Stdio) (o : Opts) (report : FraudReport) : option Exit :=
  _ ← (if bool_decide (o_report_data o = None) && attestation_verified report then eprintln io else Some tt);
  _ ← println io;
  Some (verdict_exit (verdict report), Some report).

Definition watcher_main (io : Stdio) (argv : list bytes) : option Exit :=
  flags ← parse_argv argv;
  match flags with
  | None => bail2 io
  | Some o =>
      match load_inputs o with
      | None => bail2 io
      | Some (seed, pk, prompt, signed, inputs) =>
          r ← audit_with hex_error seed pk prompt signed inputs;
          match r with
          | Err _ => bail2 io
          | Ok report => print_report io o report
          end
      end
  end.
End Main.

(** ** What the exit codes say *)

Section Exits.
Context `{!Subtle, !SubtleLaws, !Sha2, !Sha2Laws, !Hkdf, !Hex, !HexLaws, !SerdeJson, !Ed25519, !Ed25519Laws,
          !Postcard Receipt, !PostcardLaws Receipt, !Postcard SignedReceipt, !Postcard ReceiptEnvelope,
          !Postcard Evidence, !Pasta, !PastaLaws, !Ecdsa P256, !UnicodeTables, !NvidiaJson,
          !JsonDecode SignedTreeHead, !JsonDecode InclusionProof, !JsonDecode LogEntry}
        (hex_error : bytes -> bytes) (fs : FileSystem).

(** Every optional check was asked for on the command line. *)
Definition all_requested (o : Opts) : Prop :=
  is_Some (o_evidence_path o) /\ is_Some (o_sth_path o) /\ is_Some (o_proof_path o)
  /\ is_Some (o_log_entry_path o) /\ is_Some (o_weight_commit o) /\ is_Some (o_session o)
  /\ o_zk_envelope o = true.

Lemma load_opt_path {T} (decode : bytes -> result T bytes) path x :
  load_opt fs decode path = Some (Some x) -> is_Some path.
Proof. destruct path; [by eexists|done]. Qed.

Lemma load_inputs_spec o seed pk prompt signed inputs :
  load_inputs fs o = Some (seed, pk, prompt, signed, inputs) ->
  (is_Some (attestation inputs) -> is_Some (o_evidence_path o))
  /\ (is_Some (log_inclusion inputs) ->
      is_Some (o_sth_path o) /\ is_Some (o_proof_path o) /\ is_Some (o_log_entry_path o))
  /\ expected_weight_commit inputs = o_weight_commit o /\ expected_session inputs = o_session o
  /\ (is_Some (input_zk_layer_proofs inputs) -> o_zk_envelope o = true).
Proof.
  unfold load_inputs. destruct (o_seed o); [|done]. destruct (o_tee_pk o); [|done]. destruct (o_prompt o); [|done].
  destruct (o_receipt_path o) as [rp|]; [|done]. cbn [mbind option_bind].
  destruct (load_receipt fs (o_zk_envelope o) rp) as [[sg proofs]|] eqn:Er; [|done]. cbn [mbind option_bind].
  destruct (load_opt fs _ (o_evidence_path o)) as [ev|] eqn:Ee; [|done]. cbn [mbind option_bind].
  destruct (load_opt fs _ (o_sth_path o)) as [sth|] eqn:Es; [|done]. cbn [mbind option_bind].
  destruct (load_opt fs _ (o_proof_path o)) as [proof|] eqn:Ep; [|done]. cbn [mbind option_bind].
  destruct (load_opt fs _ (o_log_entry_path o)) as [entry|] eqn:En; [|done]. cbn [mbind option_bind].
  intros [= _ _ _ _ <-]. unfold build_inputs. cbn. split_and!; [| |done|done|].
  - destruct ev; [intros _; by eapply load_opt_path|by intros []].
  - destruct sth; [|by intros []]. destruct proof; [|by intros []]. destruct entry; [|by intros []].
    intros _. split_and!; by eapply load_opt_path.
  - unfold load_receipt in Er. destruct (read_regular_file fs rp); [|done].
    destruct (o_zk_envelope o); [done|]. destruct (postcard_from_bytes _); [|done].
    injection Er as _ <-. by intros [].
Qed.

(** An audit with the inputs of the command line: the report is honest only
    when everything was asked for. *)
Lemma audit_loaded o seed pk prompt signed inputs :
  load_inputs fs o = Some (seed, pk, prompt, signed, inputs) ->
  exists res, audit_with hex_error seed pk prompt signed inputs = Some res
  /\ forall rep, res = Ok rep -> verdict_exit (verdict rep) = 0 -> all_requested o.
Proof.
  intros Eg. destruct (audit_with_cases hex_error seed pk prompt signed inputs) as (m & cs & res & _ & _ & -> & Ho).
  exists res. split; [done|]. intros rep -> Hz.
  inversion Ho; subst; [|by rewrite build_report_fraud in Hz].
  rewrite build_report_flags in Hz. destruct (is_fully_verified _) eqn:Hf; [|done].
  apply build_report_all in Hf as (Fa & Fl & _ & Fw & Fs & Fp).
  destruct (load_inputs_spec _ _ _ _ _ _ Eg) as (Ga & Gl & Gw & Gs & Gz).
  apply check_attestation_true in Fa as (att & Ha & _). apply check_log_true in Fl as (li & Hl & _).
  rewrite Gw in Fw. rewrite Gs in Fs. unfold all_requested.
  destruct Gl as (? & ? & ?); [by rewrite Hl|].
  split_and!; try done.
  - apply Ga. by rewrite Ha.
  - destruct (o_weight_commit o); [by eexists|done].
  - destruct (o_session o); [by eexists|done].
  - apply Gz. destruct (input_zk_layer_proofs inputs); [by eexists|done].
Qed.

Lemma parse_args_panic args o : parse_args args o = None -> exists a, a ∈ args /\ utf8_valid a = false.
Proof.
  revert o. induction args as [args IH] using (induction_ltof1 _ (@length _)). unfold ltof in IH.
  intros o. destruct args as [|flag rest]; [done|]. cbn [parse_args].
  destruct (utf8_valid flag) eqn:Hu; cbn [negb]; [|intros _; exists flag; split; [left|done]].
  case_decide; [intros (a & Ha & ?)%IH; [exists a; split; [by right|done]|cbn; lia]|].
  case_decide; [done|]. destruct rest as [|v rest]; [done|].
  destruct (utf8_valid v) eqn:Hv; cbn [negb]; [|intros _; exists v; split; [right; left|done]].
  destruct (set_opt flag v o); [|done].
  intros (a & Ha & ?)%IH; [exists a; split; [by do 2 right|done]|cbn; lia].
Qed.

Lemma parse_argv_panic argv : parse_argv argv = None -> exists a, a ∈ argv /\ utf8_valid a = false.
Proof.
  destruct argv as [|name args]; [done|]. cbn [parse_argv].
  destruct (utf8_valid name) eqn:Hu; cbn [negb]; [|intros _; exists name; split; [left|done]].
  intros (a & Ha & ?)%parse_args_panic. exists a. split; [by right|done].
Qed.

(** C30. Exit codes.  A run of the watcher panics only for an argument that is
    not UTF-8 (the flag loop came to it) or a standard stream that cannot be
    written.  Otherwise it exits with 2 and without a report exactly when a
    flag or a file was refused or the audit failed with an error; and else it
    prints the report of the audit and exits with 0, 1 or 3 as the verdict is
    [Honest], [Fraudulent] or [Partial].  It exits with 0 only when every
    optional check was asked for on the command line: evidence, head, proof,
    entry, weights, session and proofs. *)
Theorem watcher_exit_codes io argv :
  match watcher_main hex_error fs io argv with
  | None => (parse_argv argv = None /\ exists a, a ∈ argv /\ utf8_valid a = false)
            \/ stdout_ok io = false \/ stderr_ok io = false
  | Some (code, None) =>
      code = 2 /\ stderr_ok io = true /\ exists flags, parse_argv argv = Some flags
      /\ match flags with
         | None => True
         | Some o =>
             match load_inputs fs o with
             | None => True
             | Some (seed, pk, prompt, signed, inputs) =>
                 exists e, audit_with hex_error seed pk prompt signed inputs = Some (Err e)
             end
         end
  | Some (code, Some rep) =>
      stdout_ok io = true
      /\ exists o seed pk prompt signed inputs,
           parse_argv argv = Some (Some o) /\ load_inputs fs o = Some (seed, pk, prompt, signed, inputs)
           /\ audit_with hex_error seed pk prompt signed inputs = Some (Ok rep)
           /\ code = match verdict rep with Honest => 0 | Fraudulent _ => 1 | Partial => 3 end
           /\ (code = 0 -> all_requested o)
  end.
Proof.
  unfold watcher_main. destruct (parse_argv argv) as [flags|] eqn:Ef; cbn [mbind option_bind];
    [|left; split; [done|by apply parse_argv_panic]].
  unfold bail2, print_report, eprintln, println.
  destruct flags as [o|]; [|destruct (stderr_ok io); cbn; [|by right; right]; split_and!; [done..|by exists None]].
  destruct (load_inputs fs o) as [[[[[seed pk] prompt] signed] inputs]|] eqn:Eg.
  2:{ destruct (stderr_ok io); cbn; [|by right; right]. split_and!; [done..|]. exists (Some o). by rewrite Eg. }
  destruct (audit_loaded o seed pk prompt signed inputs Eg) as (res & Ha & Hall).
  rewrite Ha. cbn [mbind option_bind]. destruct res as [rep|e].
  - destruct (bool_decide (o_report_data o = None) && attestation_verified rep), (stdout_ok io), (stderr_ok io);
      cbn; try (by right; left); try (by right; right);
      (split; [done|]; exists o, seed, pk, prompt, signed, inputs; split_and!; try done; by apply Hall).
  - destruct (stderr_ok io); cbn; [|by right; right]. split_and!; [done..|]. exists (Some o).
    split; [done|]. rewrite Eg. by exists e.
Qed.

End Exits.

(** ** What the command line leaves unchecked *)

Section Unchecked.
Context `{!Subtle, !SubtleLaws, !Sha2, !Hex, !SerdeJson, !Ed25519, !Ecdsa P256, !UnicodeTables, !NvidiaJson}.

(** Evidence anyone can write down: a quote with the wanted report data and
    measurement and zeros for key and signature. *)
Definition forged_evidence (rd mr : bytes) (t : Z) : Evidence := {|
  cpu_quote_kind := Tdx; cpu_quote := synthesize_quote rd mr; gpu_quote := []; cert_chain := [];
  ev_report_data := rd; Attest.issued_at_unix := t |}.

(** Exit code 0 says nothing about the hardware or the clock.  The command
    line has no flag for allowlists or for the signature check, so with any
    flags, evidence with zeros for its key and signature passes for every
    measurement, as long as it names the pinned report data (any, when none is
    pinned) and a time within the bound (any, when none is given); and without
    [--freshness-now] a head of any age is fresh. *)
Theorem watcher_unchecked o rd mr t sth :
  length rd = 64%nat -> length mr = 48%nat -> 0 <= o_attestation_max_age o -> 0 <= o_freshness_max_age o ->
  (forall want, o_report_data o = Some want -> want = rd) ->
  (forall now, o_attestation_now o = Some now -> now - t <= o_attestation_max_age o) ->
  (check_attestation (attestation_input o (Some (forged_evidence rd mr t)))).1 = true
  /\ (o_freshness_now o = None -> (check_freshness (freshness_input o (Some sth))).1 = true).
Proof.
  intros Lr Lm Ha Hf Hrd Hnow. split.
  - apply check_attestation_true. eexists. split; [reflexivity|]. apply real_verify_iff. cbn.
    destruct (synthesize_quote_shape rd mr Lr Lm) as (q & Hwf & Hq & Hm & Hr & Hv & _).
    assert (Hp : TdxQuote_parse (synthesize_quote rd mr) = Ok q).
    { rewrite Hq. by apply tdx_parse_complete. }
    split_and!.
    + unfold saturating_sub. destruct (o_attestation_now o) as [now|]; cbn; [|lia].
      specialize (Hnow now eq_refl). lia.
    + unfold report_data_buf. cbn. destruct (o_report_data o) as [want|]; [|done]. by rewrite (Hrd want).
    + apply (accepted_tdx _ _ q); try done; by left.
    + by left.
  - intros Hn. apply check_freshness_true. eexists. split; [reflexivity|]. cbn. rewrite Hn. cbn.
    unfold saturating_sub. lia.
Qed.
End Unchecked.

Lemma watcher_unchecked_witness :
  (check_attestation (attestation_input Opts_default
     (Some (forged_evidence (replicate 64 Byte.x01) (replicate 48 Byte.x02) 0)))).1 = true
  /\ (check_freshness (freshness_input Opts_default (Some demo_sth))).1 = true.
Proof.
  destruct (watcher_unchecked Opts_default (replicate 64 Byte.x01) (replicate 48 Byte.x02) 0 demo_sth)
    as [Ha Hf]; [reflexivity|reflexivity|discriminate|discriminate|discriminate|discriminate|].
  split; [exact Ha|exact (Hf eq_refl)].
Defined.

(** ** A run with every check *)

#[local] Existing Instance Watcher.demo_sha2.
#[local] Existing Instance Watcher.demo_sha2_laws.
#[local] Existing Instance Watcher.demo_hkdf.
#[local] Existing Instance Watcher.demo_ed25519.
#[local] Existing Instance Watcher.demo_ed25519_laws.

(** Files that decode to the inputs of [Watcher.demo_audit_honest]. *)
#[local] Instance bare_receipt_file : Postcard SignedReceipt :=
  {| postcard_to_allocvec _ := Err []; postcard_from_bytes _ := Ok Watcher.demo_signed |}.
#[local] Instance envelope_file : Postcard ReceiptEnvelope :=
  {| postcard_to_allocvec _ := Err [];
     postcard_from_bytes _ := Ok {| signed_receipt := Watcher.demo_signed; zk_layer_proofs := replicate 8 [] |} |}.
#[local] Instance evidence_file : Postcard Evidence :=
  {| postcard_to_allocvec _ := Err []; postcard_from_bytes _ := Ok RealVerifier.demo_evidence |}.
#[local] Instance head_file : JsonDecode SignedTreeHead :=
  {| json_from_slice _ := ok_or (li_sth <$> log_inclusion Watcher.demo_inputs) [] |}.
#[local] Instance proof_file : JsonDecode InclusionProof :=
  {| json_from_slice _ := ok_or (li_proof <$> log_inclusion Watcher.demo_inputs) [] |}.
#[local] Instance entry_file : JsonDecode LogEntry := {| json_from_slice _ := Ok (demo_entry 2) |}.

Definition required_args : list bytes :=
  [lit "ullm-watcher"; lit "--model-seed"; hex_encode Watcher.demo_seed;
   lit "--tee-pk"; hex_encode (ed25519_public [Byte.x07]); lit "--prompt"; lit "hi"; lit "--receipt"; lit "r"].
Definition demo_argv : list bytes :=
  required_args ++
  [lit "--zk-envelope"; lit "--attestation-evidence"; lit "e"; lit "--sth-url"; lit "file:///s"; lit "--proof"; lit "p";
   lit "--log-entry"; lit "l"; lit "--expected-weight-commit"; hex_encode (model_weight_commit Watcher.demo_model);
   lit "--expected-session"; hex_encode (replicate 16 Byte.x11)].
Definition open_stdio : Stdio := {| stdout_ok := true; stderr_ok := true |}.

Definition exit_of (a : option Exit) : option (Z * option Verdict) :=
  match a with
  | Some (code, Some report) => Some (code, Some (verdict report))
  | Some (code, None) => Some (code, None)
  | None => None
  end.

(** All four ways: honest with every check, partial with the required flags
    only, refused without them, a panic on a name that is not UTF-8. *)
Lemma watcher_exit_codes_witness :
  (exists rep, watcher_main no_hex_error demo_fs open_stdio demo_argv = Some (0, Some rep)
     /\ verdict rep = Honest /\ exists o, parse_argv demo_argv = Some (Some o) /\ all_requested o)
  /\ exit_of (watcher_main no_hex_error demo_fs open_stdio required_args) = Some (3, Some Partial)
  /\ exit_of (watcher_main no_hex_error demo_fs open_stdio [lit "ullm-watcher"]) = Some (2, None)
  /\ watcher_main no_hex_error demo_fs open_stdio [[Byte.xff]] = None.
Proof.
  split; [|split_and!; vm_compute; reflexivity].
  assert (Hc : exit_of (watcher_main no_hex_error demo_fs open_stdio demo_argv)
               = Some (0, Some Honest)) by (vm_compute; reflexivity).
  pose proof (watcher_exit_codes no_hex_error demo_fs open_stdio demo_argv) as Q.
  destruct (watcher_main no_hex_error demo_fs open_stdio demo_argv) as [[code [rep|]]|]; [|discriminate Hc..].
  cbn in Hc. injection Hc as -> Hv. exists rep. split; [reflexivity|]. split; [exact Hv|].
  destruct Q as (_ & o & seed & pk & prompt & signed & inputs & Ho & _ & _ & _ & Hall).
  exists o. split; [exact Ho|exact (Hall eq_refl)].
Defined.
