(* ===== verification/Engine.v ===== *)
(** * ullm-tee: the mock inference engine

    [crates/ullm-tee/src/inference.rs]. *)

From S2P Require Import Prelude RustStd RustText Core Crates Service.
From Stdlib Require Import Lia.

Local Open Scope Z_scope.

(** ** inference.rs *)

Record MockEngine := { chunk_size : nat; chunks_to_emit : option nat }.

Definition MockEngine_default : MockEngine := {| chunk_size := 16; chunks_to_emit := None |}.

Definition MockEngine_new (n : nat) : MockEngine := {| chunk_size := n; chunks_to_emit := None |}.

Definition MockEngine_with_fixed_chunk_count (size n : nat) : MockEngine :=
  {| chunk_size := size; chunks_to_emit := Some n |}.

Definition synth_ids_for_text (t : bytes) : list Z := chars t.

Definition TokenChunk_new (i : list Z) (t : bytes) : TokenChunk := {| ids := i; text := t |}.

(** The [while] loop from index [i]; [None] when the fuel runs out, which
    happens only for size zero, on which the loop does not end. *)
Fixpoint chunked_loop (fuel : nat) (s : bytes) (size i : nat) : option (list bytes) :=
  match fuel with
  | O => None
  | S fuel =>
      if decide (i < length s)%nat then
        let stop := Nat.min (i + size) (length s) in
        rest ← chunked_loop fuel s size stop;
        Some (from_utf8_lossy (slice i stop s) :: rest)
      else Some []
  end.

Definition chunked (s : bytes) (size : nat) : option (list bytes) :=
  chunked_loop (S (length s)) s size 0.

(** [is_char_boundary]. *)
Definition is_char_boundary (s : bytes) (i : nat) : bool :=
  match s !! i with
  | Some c => negb (cont c)
  | None => bool_decide (i = length s)
  end.

(** Pad with [x], then [truncate], which panics off a character boundary. *)
Definition first_body (prompt : bytes) (size : nat) : option bytes :=
  let s := lit "echo: " ++ prompt in
  let s := s ++ replicate (size - length s) Byte.x78 in
  if is_char_boundary s size then Some (take size s) else None.

(** The chunks sent before the channel closes; [None] when the run does not
    end or panics. *)
Definition MockEngine_run (e : MockEngine) (prompt : bytes) : option (list TokenChunk) :=
  let mk body := TokenChunk_new (synth_ids_for_text body) body in
  match chunks_to_emit e with
  | None =>
      let response := lit "echo: " ++ prompt in
      fmap (M := list) mk <$> chunked response (chunk_size e)
  | Some n =>
      fmap (M := list) mk <$>
        mapM (M := option) (fun i : nat =>
          if decide (i = 0%nat) then first_body prompt (chunk_size e)
          else Some (replicate (chunk_size e) Byte.x78)) (List.seq 0 n)
  end.

(** [collect]: the concatenation of the texts. *)
Definition collect (chunks : list TokenChunk) : bytes := concat (text <$> chunks).

(** ** Lemmas *)

Lemma chunked_loop_spec size s : (0 < size)%nat -> forall fuel i,
  (i <= length s)%nat -> (length s - i < fuel)%nat ->
  exists raws, chunked_loop fuel s size i = Some (from_utf8_lossy <$> raws)
    /\ concat raws = drop i s /\ Forall (fun r => length r <= size)%nat raws.
Proof.
  intros Hsz. induction fuel as [|fuel IH]; intros i Hi Hf; [lia|]. cbn [chunked_loop].
  case_decide as Hlt.
  - destruct (IH (Nat.min (i + size) (length s))) as (raws & Hr & Hc & Hl); [lia|lia|].
    exists (slice i (Nat.min (i + size) (length s)) s :: raws). rewrite Hr. split_and!; [done| |].
    + cbn [concat]. rewrite Hc. unfold slice.
      rewrite <- (take_drop (Nat.min (i + size) (length s) - i) (drop i s)) at 2.
      rewrite drop_drop. do 2 f_equal. lia.
    + constructor; [|done]. unfold slice. rewrite length_take. lia.
  - exists []. split_and!; [done| |constructor]. cbn. by rewrite drop_ge by lia.
Qed.

Lemma chunked_zero fuel s i : (i < length s)%nat -> chunked_loop fuel s 0 i = None.
Proof.
  revert i. induction fuel as [|fuel IH]; intros i Hi; [done|]. cbn [chunked_loop].
  rewrite decide_True by done. rewrite Nat.add_0_r, Nat.min_l by lia. by rewrite IH.
Qed.

Lemma concat_ascii (raws : list bytes) : ascii (concat raws) ->
  concat (from_utf8_lossy <$> raws) = concat raws
  /\ concat (chars <$> (from_utf8_lossy <$> raws)) = uval <$> concat raws.
Proof.
  induction raws as [|r raws IH]; [done|]. cbn [concat fmap list_fmap]. intros H.
  apply Forall_app in H as [Hr Hrs]. destruct (lossy_ascii r Hr) as [E1 E2].
  destruct (IH Hrs) as [E3 E4]. rewrite E1, E2, fmap_app, E3, E4. done.
Qed.

(** Cutting into chunks of a positive size and decoding each. *)
Lemma chunked_runs response size : (0 < size)%nat ->
  exists raws, chunked response size = Some (from_utf8_lossy <$> raws) /\ concat raws = response
  /\ Forall (fun t => utf8_valid t = true /\ (length t <= 3 * size)%nat) (from_utf8_lossy <$> raws)
  /\ (ascii response -> concat (from_utf8_lossy <$> raws) = response
      /\ concat (chars <$> (from_utf8_lossy <$> raws)) = uval <$> response).
Proof.
  intros Hsz. destruct (chunked_loop_spec size response Hsz (S (length response)) 0)
    as (raws & Hr & Hc & Hl); [lia|lia|]. rewrite drop_0 in Hc. exists raws. split; [done|]. split; [done|].
  split.
  - apply Forall_fmap. eapply Forall_impl; [exact Hl|]. intros r Hlen.
    destruct (lossy_valid r) as [V L]. unfold compose. cbn beta in Hlen. split; [done|lia].
  - intros Ha. rewrite <- Hc in Ha |- *. by apply concat_ascii.
Qed.

Lemma chunk_texts (f : bytes -> list Z) (l : list bytes) : text <$> ((fun b => TokenChunk_new (f b) b) <$> l) = l.
Proof. rewrite <- list_fmap_compose. apply list_fmap_id. Qed.

(** A run with a positive chunk size. *)
Lemma mock_engine_runs (e : MockEngine) prompt :
  chunks_to_emit e = None -> (0 < chunk_size e)%nat ->
  exists chunks raws, MockEngine_run e prompt = Some chunks
     /\ concat raws = lit "echo: " ++ prompt /\ text <$> chunks = from_utf8_lossy <$> raws
     /\ Forall (fun c => utf8_valid (text c) = true /\ ids c = chars (text c)
                         /\ (length (text c) <= 3 * chunk_size e)%nat) chunks
     /\ (ascii prompt -> collect chunks = lit "echo: " ++ prompt
         /\ concat (ids <$> chunks) = uval <$> (lit "echo: " ++ prompt)).
Proof.
  intros Hn Hsz. destruct (chunked_runs (lit "echo: " ++ prompt) _ Hsz) as (raws & Hr & Hc & Hv & Ha).
  unfold MockEngine_run. rewrite Hn, Hr. eexists _, raws. split; [reflexivity|]. split; [done|].
  rewrite chunk_texts. split; [done|]. split.
  - apply Forall_fmap. eapply Forall_impl; [exact Hv|]. by intros t [? ?].
  - intros Hp. unfold collect. rewrite chunk_texts, <- (list_fmap_compose _ ids). apply Ha.
    apply Forall_app. split; [repeat constructor|done].
Qed.

(** The engines that finish, as an instance of the interface. *)
Definition EchoEngine : Type := { n : nat | (0 < n)%nat }.

#[export] Instance EchoEngine_engine : InferenceEngine EchoEngine :=
  {| engine_run e prompt := default [] (MockEngine_run (MockEngine_new (`e)) prompt) |}.

Lemma echo_text (e : EchoEngine) prompt :
  ascii prompt -> concat (text <$> engine_run e prompt) = lit "echo: " ++ prompt.
Proof.
  intros Ha. destruct e as [n Hn]. cbn [engine_run EchoEngine_engine proj1_sig].
  destruct (mock_engine_runs (MockEngine_new n) prompt eq_refl Hn) as (chunks & raws & -> & _ & _ & _ & Hc).
  by apply Hc.
Qed.

(** ** Claims *)

(** The echo engine: with a chunk size of zero it never finishes; with any
    other size it finishes on every prompt, its chunks are always UTF-8, of at
    most three times the chunk size, cut from the response ["echo: " ++ prompt]
    in order; and for an ASCII prompt their texts concatenate to exactly that
    response and their ids to its characters.  (On other prompts a character
    cut by a chunk boundary is replaced.) *)
Theorem mock_engine_echoes (e : MockEngine) prompt :
  chunks_to_emit e = None ->
  (chunk_size e = 0%nat -> MockEngine_run e prompt = None) /\
  ((0 < chunk_size e)%nat -> exists chunks raws, MockEngine_run e prompt = Some chunks
     /\ concat raws = lit "echo: " ++ prompt /\ text <$> chunks = from_utf8_lossy <$> raws
     /\ Forall (fun c => utf8_valid (text c) = true /\ ids c = chars (text c)
                         /\ (length (text c) <= 3 * chunk_size e)%nat) chunks
     /\ (ascii prompt -> collect chunks = lit "echo: " ++ prompt
         /\ concat (ids <$> chunks) = uval <$> (lit "echo: " ++ prompt))).
Proof.
  intros Hn. split; [|by apply mock_engine_runs].
  intros Hz. unfold MockEngine_run, chunked. rewrite Hn, Hz. by rewrite chunked_zero by (simpl; lia).
Qed.

Lemma mock_engine_echoes_witness :
  exists chunks, MockEngine_run MockEngine_default (lit "hello, this is a prompt") = Some chunks
    /\ collect chunks = lit "echo: hello, this is a prompt" /\ length chunks = 2%nat.
Proof.
  destruct (proj2 (mock_engine_echoes MockEngine_default (lit "hello, this is a prompt") eq_refl))
    as (chunks & raws & Hr & _ & _ & _ & Ha); [cbn; lia|].
  exists chunks. split; [exact Hr|]. split.
  - apply Ha. repeat constructor.
  - assert (E : (length <$> MockEngine_run MockEngine_default (lit "hello, this is a prompt")) = Some 2%nat)
      by (vm_compute; reflexivity).
    rewrite Hr in E. injection E as E. exact E.
Defined.

(** A two-byte character on a chunk boundary is not echoed. *)
Lemma mock_engine_splits_character :
  exists chunks, MockEngine_run MockEngine_default (lit "123456789" ++ [Byte.xc3; Byte.xa9]) = Some chunks
    /\ collect chunks
       = lit "echo: 123456789" ++ REPLACEMENT ++ REPLACEMENT.
Proof. eexists. split; vm_compute; reflexivity. Qed.
