(* ===== verification/TeeServer.v ===== *)
(** * ullm-tee: the routers and the server binary

    The part of [crates/ullm-tee/src/service.rs] around the session handler
    (the two routers, the token gate of [/metrics], the small endpoints, the
    WebSocket upgrade) and [crates/ullm-tee/src/bin/server.rs]: what [main]
    reads and creates, and the deadline of its drain ([Lifecycle.v] has the rest
    of [main]). *)

From stdpp Require Import gmap relations.
From S2P Require Import Prelude RustStd RustText RustNet Axum Shutdown Core Crates Toy Crypto Handshake Attest.
From S2P Require Import Receipts Model TenantPool NonceRegistry Service Engine.
From Stdlib Require Import Lia.

Local Open Scope Z_scope.

Section Routes.
Context `{!Subtle} `{!Axum}.

(** ** The token gate *)

Definition tee_parse_bearer_credential (s : bytes) : option bytes :=
  let trimmed := trim_start s in
  let '(scheme, rest) := split_ascii_whitespace trimmed in
  if negb (eq_ignore_ascii_case scheme (lit "Bearer")) then None else
  cred ← rest;
  Some (trim_start cred).

Definition tee_metrics_auth_gate (expected : bytes) (req : Request) (next : Response) : Response :=
  let presented := default [] (h ← header req (lit "authorization"); tee_parse_bearer_credential h) in
  if ct_eq presented expected then next else status_response 404.

Definition healthz : Response := text_response 200 (lit "ok").

Definition LF : bytes := [Byte.x0a].

Definition tee_metrics (nonce_count tenant_count : nat) : Response :=
  {| status := 200;
     content_type := Some (lit "text/plain; version=0.0.4; charset=utf-8");
     body :=
       lit "# HELP ullm_tee_protocol_version Wire protocol version this binary speaks." ++ LF
       ++ lit "# TYPE ullm_tee_protocol_version gauge" ++ LF
       ++ lit "ullm_tee_protocol_version " ++ fmt_dec PROTOCOL_VERSION ++ LF
       ++ lit "# HELP ullm_tee_nonce_registry_size Live attestation-nonce-replay tracker size." ++ LF
       ++ lit "# TYPE ullm_tee_nonce_registry_size gauge" ++ LF
       ++ lit "ullm_tee_nonce_registry_size " ++ fmt_dec (Z.of_nat nonce_count) ++ LF
       ++ lit "# HELP ullm_tee_tenant_pool_size Live tenant-state count." ++ LF
       ++ lit "# TYPE ullm_tee_tenant_pool_size gauge" ++ LF
       ++ lit "ullm_tee_tenant_pool_size " ++ fmt_dec (Z.of_nat tenant_count) ++ LF |}.

(** ** The management router

    [token_env] is [ULLM_METRICS_TOKEN]; an empty token counts as none. *)
Definition METRICS : bytes := lit "/metrics".
Definition HEALTHZ : bytes := lit "/v1/healthz".

Definition tee_metrics_router (token_env : option bytes) (registry : NonceRegistry.State) (tenants : TenantPool)
    (req : Request) : Response :=
  match dispatch [METRICS; HEALTHZ] req with
  | Answered r => r
  | Matched p =>
      if decide (p = METRICS) then
        let answer := tee_metrics (registry_len registry) (tenant_count tenants) in
        match token_env with
        | Some expected => if decide (expected = []) then answer else tee_metrics_auth_gate expected req answer
        | None => answer
        end
      else healthz
  end.

(** ** The protocol router *)
Section Protocol.
Context {R : Type} `{!MlKem R, !X25519 R, !Rng R, !Ed25519, !Hkdf, !Sha2, !Aead, !Bitflags, !Hex, !SerdeJson}
  `{!Pasta} `{!Postcard ClientHello, !Postcard ServerHello, !Postcard PreKeyBundle,
    !Postcard Evidence, !Postcard Receipt, !Postcard ReceiptEnvelope}
  `{!InferenceEngine E}.

(** The public keys; a [serde_json] object lists its keys in order. *)
Definition devkeys (st : AppState R E) : Response :=
  {| status := 200; content_type := Some (lit "application/json");
     body := json_object_to_vec
       [(lit "tee_receipt_pk_hex", JStr (hex_encode (ReceiptSigner_verifying_key (receipt_signer st))));
        (lit "trust_root_hex", JStr (hex_encode (MockIssuer_verifying_key (attest_issuer (identity st)))));
        (lit "weight_commit_hex", JStr (hex_encode (weight_commit (identity st))))] |}.

(** What a request leads to: a response, a WebSocket with its limits and the
    tenant of its session, or a panic in the handler. *)
Inductive Served :=
| Respond (r : Response)
| UpgradeTo (max_message_size max_frame_size : Z) (tenant : TenantId)
| HandlerPanics.

Definition attest_response (r : result bytes HttpError) : Served :=
  match r with
  | Ok b => Respond {| status := 200; content_type := Some (lit "application/octet-stream"); body := b |}
  | Err (Status code msg) => Respond (text_response code msg)
  | Err HandlerPanic => HandlerPanics
  end.

(** [on_upgrade] then runs [handle_session] for the tenant. *)
Definition stream (req : Request) : Served :=
  UpgradeTo MAX_WS_MESSAGE_BYTES MAX_WS_MESSAGE_BYTES (sanitized_tenant (header req (lit "x-ullm-tenant"))).

Definition ATTEST : bytes := lit "/v1/attest".
Definition STREAM : bytes := lit "/v1/stream".
Definition DEVKEYS : bytes := lit "/v1/devkeys".

(** The table, with the [dev-keys] feature or without. *)
Definition tee_paths (dev_keys : bool) : list bytes :=
  [HEALTHZ; ATTEST; STREAM] ++ (if dev_keys then [DEVKEYS] else []).

(** [query] is axum's extraction of [AttestQuery], or its rejection;
    [no_upgrade] its rejection of a request that is no WebSocket upgrade. *)
Definition tee_router (dev_keys : bool) (query : Request -> result bytes Response)
    (no_upgrade : Request -> option Response) (st : AppState R E)
    (origin instant now_ns : Z) (registry : NonceRegistry.State) (req : Request) :
  Served * NonceRegistry.State :=
  match dispatch (tee_paths dev_keys) req with
  | Answered r => (Respond r, registry)
  | Matched p =>
      if decide (p = HEALTHZ) then (Respond healthz, registry)
      else if decide (p = ATTEST) then
        match query req with
        | Err r => (Respond r, registry)
        | Ok nonce =>
            let '(r, registry) := attest st origin instant now_ns registry nonce in
            (attest_response r, registry)
        end
      else if decide (p = STREAM) then
        (match no_upgrade req with Some r => Respond r | None => stream req end, registry)
      else (Respond (devkeys st), registry)
  end.

Context `{!AxumLaws} `{!SubtleLaws}.

(** What is not for the caller looks like it is not there.  With a token
    set, a [GET /metrics] on the management port is answered with the gauges
    exactly when it presents the token; otherwise the answer is, byte for
    byte, the one an unknown path gets.  The protocol port gives that answer
    to [/metrics] whatever the request, and to [/v1/devkeys] in every build
    without the feature; no request changes the registry but one that reaches
    [/v1/attest] with a nonce. *)
Theorem hidden_routes_look_unknown dev_keys query no_upgrade st origin instant now_ns registry tenants token req unknown :
  token <> [] -> unknown ∉ [METRICS; HEALTHZ] -> unknown ∉ tee_paths true ->
  let mgmt := tee_metrics_router (Some token) registry tenants in
  let public := tee_router dev_keys query no_upgrade st origin instant now_ns registry in
  (method req = GET -> path req = METRICS ->
     mgmt req =
       if decide (default [] (h ← header req (lit "authorization"); tee_parse_bearer_credential h) = token)
       then tee_metrics (registry_len registry) (tenant_count tenants)
       else mgmt (with_path req unknown))
  /\ public (with_path req METRICS) = public (with_path req unknown)
  /\ (dev_keys = false -> public (with_path req DEVKEYS) = public (with_path req unknown))
  /\ (path req <> ATTEST -> (public req).2 = registry).
Proof.
  intros Ht Hm Hp mgmt public. split_and!.
  - intros Hget Hpath. subst mgmt. unfold tee_metrics_router.
    rewrite (dispatch_get _ req), (dispatch_unknown _ (with_path req unknown)); [|done|done|].
    2:{ rewrite Hpath. by left. }
    rewrite Hpath, decide_True, decide_False by done. unfold tee_metrics_auth_gate.
    case_decide as D; [by rewrite (proj2 (ct_eq_spec _ _) D)|].
    destruct (ct_eq _ _) eqn:Ec; [|done]. by apply ct_eq_spec in Ec.
  - subst public. unfold tee_router. rewrite !dispatch_unknown; [done|..].
    + simpl. intros Hin. apply Hp. unfold tee_paths in *. destruct dev_keys; set_solver.
    + destruct dev_keys; by apply (bool_decide_unpack _).
  - intros ->. subst public. unfold tee_router. rewrite !dispatch_unknown; [done|..].
    + simpl. intros Hin. apply Hp. unfold tee_paths in *. set_solver.
    + by apply (bool_decide_unpack _).
  - intros Hne. subst public. unfold tee_router. destruct (dispatch _ req) as [p|r] eqn:Ed; [|done].
    apply dispatch_matched in Ed as [-> _]. by repeat (case_decide; try done).
Qed.

End Protocol.
End Routes.

(** ** The server binary *)

(** 30 s, in nanoseconds. *)
Definition SHUTDOWN_DEADLINE : Z := 30 * 10 ^ 9.

Inductive TeeStartError {IoErr : Type} :=
| TeeAddrSyntax | TeeMetricsRefused (msg : bytes) | TeeBindFailed (e : IoErr) | TeeSignalsFailed (e : IoErr).
Arguments TeeStartError : clear implicits.

Section Main.
Context {R : Type} `{!MlKem R, !X25519 R, !Rng R, !Ed25519, !Ed25519Gen R, !Hkdf, !Sha2, !Hex} `{!Pasta} `{!Watch}.
Context {IoErr : Type}.

Definition default_engine : EchoEngine := exist _ 16%nat (Nat.lt_0_succ 15).

Record TeeStarted := {
  tee_state : AppState R EchoEngine;
  tee_registry : NonceRegistry.State;
  tee_tenants : TenantPool;
  tee_mgmt_addr : SocketAddr;
  tee_shutdown : Shutdown.Channel * HandlerTask * ShutdownBroadcaster;
}.

(** [ULLM_MODEL_SEED]: a seed that is not 32 bytes of hexadecimal is taken
    for none. *)
Definition model_seed (env : bytes -> option bytes) : bytes :=
  default (replicate 32 Byte.x00)
    (s ← env (lit "ULLM_MODEL_SEED"); v ← hex_decode s; if (length v =? 32)%nat then Some v else None).

(** [main] up to the point where the listeners serve; [None] is a panic in
    the model's derivation. *)
Definition tee_start (env : bytes -> option bytes) (rng : R) (bind : bytes -> result unit IoErr)
    (bind_mgmt : SocketAddr -> result unit IoErr) (interrupt terminate : result unit IoErr) :
  option (result TeeStarted (TeeStartError IoErr)) :=
  let addr := default (lit "127.0.0.1:9001") (env (lit "ULLM_TEE_ADDR")) in
  match
    let? metrics_addr :=
      ok_or (parse_socket_addr (default (lit "127.0.0.1:9101") (env (lit "ULLM_TEE_METRICS_ADDR")))) TeeAddrSyntax in
    map_err TeeMetricsRefused
      (validate_metrics_addr (env (lit "ULLM_METRICS_ALLOW_PUBLIC")) metrics_addr (lit "ULLM_TEE_METRICS_ADDR"))
  with
  | Err e => Some (Err e)
  | Ok metrics_addr =>
      model ← Model_from_seed (model_seed env);
      let '(identity, rng) := TeeIdentity_random rng (model_weight_commit model) in
      let '(receipt_key, rng) := ed25519_generate rng in
      let '(tenants, rng) := TenantPool_random rng in
      let state := {| identity := identity; engine := default_engine; receipt_signer := {| key := receipt_key |};
                      model_name := lit "mock-llama-3.1-70b"; verifiable_model := model;
                      layer_prover := None |} in
      Some (
        let? _ := map_err TeeBindFailed (bind addr) in
        let? _ := map_err TeeBindFailed (bind_mgmt metrics_addr) in
        let? broadcaster := map_err TeeSignalsFailed (install interrupt terminate) in
        Ok {| tee_state := state; tee_registry := NonceRegistry_new; tee_tenants := tenants;
              tee_mgmt_addr := metrics_addr; tee_shutdown := broadcaster |})
  end.

(** A started TEE publishes its gauges on loopback unless told otherwise,
    attests the model it computes with, and has seen no nonce. *)
Lemma tee_start_ok env rng bind bind_mgmt i t g :
  tee_start env rng bind bind_mgmt i t = Some (Ok g) ->
  (is_loopback (ip (tee_mgmt_addr g)) = true
   \/ env (lit "ULLM_METRICS_ALLOW_PUBLIC") ∈ Some <$> [lit "1"; lit "true"; lit "yes"])
  /\ Model_from_seed (model_seed env) = Some (verifiable_model (tee_state g))
  /\ weight_commit (identity (tee_state g)) = model_weight_commit (verifiable_model (tee_state g))
  /\ tee_registry g = NonceRegistry_new.
Proof.
  unfold tee_start. destruct (let? a := _ in _) as [maddr|] eqn:E; [|done].
  apply result_bind_Ok in E as (a & _ & Hm). apply map_err_Ok, validate_metrics_addr_Ok in Hm as [-> Hm].
  destruct (Model_from_seed (model_seed env)) as [model|]; [|done]. simpl.
  destruct (TeeIdentity_random rng (model_weight_commit model)) as [idt r1] eqn:Ei.
  destruct (ed25519_generate r1) as [rk r2]. destruct (TenantPool_random r2) as [tp r3].
  intros Eg. apply (inj Some) in Eg. repeat setoid_rewrite result_bind_Ok in Eg.
  destruct Eg as (? & _ & ? & _ & br & _ & [= <-]). simpl. split_and!; try done.
  - destruct Hm as [Hl|Hm]; [by left|]. right. set_solver.
  - unfold TeeIdentity_random in Ei. repeat case_match. by injection Ei as <- _.
Qed.

(** A seed that does not parse starts a TEE of the all-zero seed. *)
Lemma model_seed_fallback env s :
  env (lit "ULLM_MODEL_SEED") = Some s -> (forall v, hex_decode s = Some v -> length v <> 32%nat) ->
  model_seed env = replicate 32 Byte.x00.
Proof.
  intros Hs Hv. unfold model_seed. rewrite Hs. simpl. destruct (hex_decode s) as [v|]; [|done]. simpl.
  destruct (Nat.eqb_spec (length v) 32) as [Hl|]; [|done]. by apply Hv in Hl.
Qed.
End Main.

(** ** The deadline of the drain

    Times are nanoseconds.  [deadline] first waits for the signal, then
    sleeps. *)
Section Drain.
Context `{!Watch}.

Inductive DeadlineState := AwaitSignal (w : WaitState) | Sleeping (until : Z).

(** One poll at time [now]: [None] when it completes. *)
Definition deadline_poll (now : Z) (d : DeadlineState) (c : Shutdown.Channel) (b : ShutdownBroadcaster) :
  option DeadlineState * ShutdownBroadcaster :=
  match d with
  | AwaitSignal w =>
      match wait_poll w c b with
      | (Some w, b) => (Some (AwaitSignal w), b)
      | (None, b) => (Some (Sleeping (now + SHUTDOWN_DEADLINE)), b)
      end
  | Sleeping until => (if until <=? now then None else Some (Sleeping until), b)
  end.
End Drain.

(** ** Requests *)

Definition demo_app : AppState Z EchoEngine :=
  let '(idt, _) := TeeIdentity_random (R := Z) 3 (replicate 32 Byte.x00) in
  {| identity := idt; engine := default_engine; receipt_signer := {| key := [] |}; model_name := lit "m";
     verifiable_model := {| layers := []; model_weight_commit := [] |}; layer_prover := None |}.

Definition demo_pool : TenantPool :=
  {| master := [];
     inner := {| TenantPool.map := ∅; TenantPool.lru := ∅; TenantPool.next_lru_seq := 0 |} |}.

Definition demo_scrape (authorization : option bytes) : Request :=
  {| method := GET; path := METRICS;
     header := fun name => if decide (name = lit "authorization") then authorization else None |}.

Lemma hidden_routes_look_unknown_witness :
  let mgmt := tee_metrics_router (Some (lit "tok")) NonceRegistry_new
                demo_pool in
  mgmt (demo_scrape (Some (lit "bearer  tok"))) = tee_metrics 0 0
  /\ mgmt (demo_scrape (Some (lit "Bearer tik"))) = mgmt (with_path (demo_scrape None) (lit "/nothing")).
Proof.
  intros mgmt.
  pose proof (fun req => hidden_routes_look_unknown false (fun _ => Err (status_response 400)) (fun _ => None) demo_app 0 0 0
    NonceRegistry_new demo_pool
    (lit "tok") req (lit "/nothing") ltac:(done) ltac:(by apply (bool_decide_unpack _))
    ltac:(by apply (bool_decide_unpack _))) as Hh. split.
  - destruct (Hh (demo_scrape (Some (lit "bearer  tok")))) as [Hm _].
    exact (Hm eq_refl eq_refl).
  - destruct (Hh (demo_scrape (Some (lit "Bearer tik")))) as [Hm _].
    exact (Hm eq_refl eq_refl).
Defined.
