(* ===== verification/Adapters.v ===== *)
(** * Adapters: Phala workers and the stub language model

    [crates/ullm-phala/src/] turns a worker's descriptor into a provider of
    the federation pool; [crates/ullm-llm/src/stub.rs] is the engine of a
    build without the inference library, with the types of
    [crates/ullm-llm/src/lib.rs].  Paths are taken to be UTF-8. *)

From S2P Require Import Prelude RustStd RustText Core Crates Toy Attest Federation Service Engine.
From Stdlib Require Import Lia.

Local Open Scope Z_scope.

(** ** ullm-phala *)

Inductive PhalaWorkerStatus := Provisioning | Ready | Degraded | Decommissioned.

#[export] Instance PhalaWorkerStatus_eq_dec : EqDecision PhalaWorkerStatus.
Proof. solve_decision. Defined.

Record PhalaWorker := {
  worker_id : bytes;
  worker_region : bytes;
  gpu_kind : bytes;
  endpoint_url : bytes;
  image_uri : bytes;
  image_sha256_hex : bytes;
  worker_status : PhalaWorkerStatus;
}.

Inductive PhalaAttestationKind := TdxH100 | TdxH200 | SnpH100.

Definition vendor_kind (k : PhalaAttestationKind) : VendorKind.t := VendorKind.Nvidia.

Inductive AdapterError := NotReady (s : PhalaWorkerStatus) | BadHash (msg : bytes).

Section Phala.
Context `{!Hex} (hex_error : bytes -> bytes).

Definition PhalaAdapter_provider (worker : PhalaWorker) (attestation : PhalaAttestationKind) :
  result Provider AdapterError :=
  if decide (worker_status worker <> Ready) then Err (NotReady (worker_status worker)) else
  let? sha := ok_or (hex_decode (image_sha256_hex worker)) (BadHash (hex_error (image_sha256_hex worker))) in
  if (length sha =? 32)%nat then
    Ok {| manifest := {| provider_id := lit "phala-" ++ worker_id worker; build_hash := sha;
                         region := worker_region worker |};
          vendor := vendor_kind attestation; url := endpoint_url worker; healthy := true |}
  else Err (BadHash (lit "image hash != 32 bytes")).

Definition PhalaAdapter_vendor (attestation : PhalaAttestationKind) : VendorKind.t := VendorKind.Nvidia.

(** A worker is admitted exactly when it is ready and its image hash is 32
    bytes of hexadecimal; its manifest carries that hash. *)
Lemma phala_provider_ok worker attestation p :
  PhalaAdapter_provider worker attestation = Ok p
  <-> worker_status worker = Ready
      /\ exists sha, hex_decode (image_sha256_hex worker) = Some sha /\ length sha = 32%nat
      /\ p = {| manifest := {| provider_id := lit "phala-" ++ worker_id worker; build_hash := sha;
                               region := worker_region worker |};
                vendor := VendorKind.Nvidia; url := endpoint_url worker; healthy := true |}.
Proof.
  unfold PhalaAdapter_provider. case_decide as Hs; [naive_solver|].
  destruct (hex_decode _) as [sha|]; simpl; [|naive_solver].
  destruct (Nat.eqb_spec (length sha) 32); naive_solver.
Qed.

(** Workers count as one vendor whatever their processor: a pool of nothing
    but Phala workers never gives a plan for two. *)
Lemma phala_only_pool ws pool k :
  Forall2 (fun w p => exists a, PhalaAdapter_provider w a = Ok p) ws (providers pool) -> (2 <= k)%nat ->
  is_ok (plan_disjoint pool k) = false.
Proof.
  intros Hp Hk. assert (Hv : Forall (fun p => vendor p = VendorKind.Nvidia) (providers pool)).
  { induction Hp as [|w p ws ps [a (_ & sha & _ & _ & ->)%phala_provider_ok] _ IH]; by constructor. }
  pose proof (plan_disjoint_spec pool k ltac:(lia)) as Q.
  destruct (plan_disjoint pool k) as [plan|e]; [|done]. exfalso.
  destruct Q as (Hn & _). assert (healthy_vendors (providers pool) ⊆ {[VendorKind.Nvidia]}) as Hsub.
  { intros v (p & -> & Hin)%elem_of_list_to_set%list_elem_of_fmap.
    rewrite Forall_forall in Hv. apply elem_of_singleton, Hv.
    apply list_elem_of_In, filter_In in Hin as [Hin _]. by apply list_elem_of_In. }
  apply subseteq_size in Hsub. rewrite size_singleton in Hsub. lia.
Qed.
End Phala.

(** ** ullm-llm *)

Record ModelConfig := {
  weights_path : bytes;
  tokenizer_path : bytes;
  max_new_tokens : nat;
  cfg_chunk_size : nat;
}.

Record RealLlmEngine := { llm_config : ModelConfig }.

(** The stub only checks that both files exist; the error is
    [ErrorKind::NotFound] with its text. *)
Definition RealLlmEngine_load `{!UnicodeTables} (path_exists : bytes -> bool) (config : ModelConfig) :
  result RealLlmEngine bytes :=
  if negb (path_exists (weights_path config))
  then Err (lit "weights not found at " ++ str_debug (weights_path config))
  else if negb (path_exists (tokenizer_path config))
  then Err (lit "tokenizer not found at " ++ str_debug (tokenizer_path config))
  else Ok {| llm_config := config |}.

Definition hex_short (d : bytes) : bytes := concat ((fun b => fmt_hex_pad 2 (uval b)) <$> take 8 d).

Definition stub_response `{!Sha2} (prompt : bytes) : bytes :=
  lit "[stub-llm/" ++ hex_short (sha256 prompt) ++ lit "] " ++ prompt.

(** The chunks sent before the channel closes: [chunks(n.max(1))], each
    decoded lossily; [chunked] does both and ends for every positive size. *)
Definition RealLlmEngine_run `{!Sha2} (e : RealLlmEngine) (prompt : bytes) : option (list TokenChunk) :=
  fmap (M := list) (fun s => TokenChunk_new (chars s) s)
    <$> chunked (stub_response prompt) (Nat.max (cfg_chunk_size (llm_config e)) 1).

(** The stub answers every prompt, whatever the configured size (zero counts
    as one): its chunks are UTF-8, of at most three times the size, and for
    an ASCII prompt they concatenate to the response. *)
Theorem stub_engine_runs `{!Sha2} (e : RealLlmEngine) prompt :
  let size := Nat.max (cfg_chunk_size (llm_config e)) 1 in
  exists chunks, RealLlmEngine_run e prompt = Some chunks
  /\ Forall (fun c => utf8_valid (text c) = true /\ ids c = chars (text c)
                      /\ (length (text c) <= 3 * size)%nat) chunks
  /\ (ascii (stub_response prompt) -> collect chunks = stub_response prompt).
Proof.
  intros size. destruct (chunked_runs (stub_response prompt) size ltac:(lia)) as (raws & Hr & _ & Hv & Ha).
  unfold RealLlmEngine_run. fold size. rewrite Hr. eexists. split; [reflexivity|]. split.
  - apply Forall_fmap. eapply Forall_impl; [exact Hv|]. by intros t [? ?].
  - intros Hp. unfold collect. rewrite chunk_texts. by apply Ha.
Qed.
