(* ===== verification/Candle.v ===== *)
(** * ullm-llm: the engine of the [candle] feature

    [crates/ullm-llm/src/real.rs].  The tokenizer, the tensors and the model
    are interfaces; errors are given by their [Display] texts.  A run is what
    it sends until it ends or the receiver is gone; [None] is a panic (a
    failed [unwrap], an index below zero, in a build with overflow checks).

    Proved: a run never panics on a prompt that has tokens, sends at most the
    configured number of ids, each in a chunk of its own, and at most one
    error chunk, last and without ids; every id it sends is 0, because the
    index of the largest logit is read as a scalar from a tensor that has a
    dimension. *)

From S2P Require Import Prelude RustStd RustText Core Crates Toy Service Engine Adapters.
From Stdlib Require Import Lia.

Local Open Scope nat_scope.

(** ** tokenizers, candle_core and candle_transformers *)

Class CandleLib := {
  Tokenizer : Type;
  tokenizer_from_file : bytes -> result Tokenizer bytes;
  encode_ids : Tokenizer -> bytes -> result (list Z) bytes;       (** with the special tokens *)
  decode_ids : Tokenizer -> list Z -> result bytes bytes;          (** without them *)
  Tensor : Type;
  Tensor_new : list Z -> result Tensor bytes;
  unsqueeze0 : Tensor -> result Tensor bytes;
  squeeze0 : Tensor -> result Tensor bytes;
  to_dtype_f32 : Tensor -> result Tensor bytes;
  argmax_keepdim_last : Tensor -> result Tensor bytes;
  to_scalar_u32 : Tensor -> result Z bytes;
  ModelWeights : Type;
  from_gguf : bytes -> result ModelWeights bytes;
  (** with the position; the model keeps its cache *)
  forward : ModelWeights -> Tensor -> nat -> result Tensor bytes * ModelWeights;
}.

(** A tensor has a rank; a reduction that keeps its dimension keeps the rank
    and needs one; only a tensor of rank 0 is a scalar; a dimension can be
    added in front of any tensor. *)
Class CandleLaws `{CandleLib} := {
  rank : Tensor -> nat;
  unsqueeze0_ok x : exists y, unsqueeze0 x = Ok y /\ rank y = S (rank x);
  argmax_keepdim_rank x y : argmax_keepdim_last x = Ok y -> rank y = rank x /\ rank x <> 0;
  to_scalar_rank x v : to_scalar_u32 x = Ok v -> rank x = 0;
}.

Section Llm.
Context `{!CandleLib}.

(** The device is the CPU. *)
Record CandleEngine := { ce_config : ModelConfig; ce_model : ModelWeights; ce_tokenizer : Tokenizer }.

(** [load], with what opening and mapping a file give. *)
Definition CandleEngine_load (open mmap : bytes -> result bytes bytes) (config : ModelConfig) :
  result CandleEngine bytes :=
  let? tokenizer := map_err (fun e => lit "tokenizer load: " ++ e) (tokenizer_from_file (tokenizer_path config)) in
  let? weights := open (weights_path config) in
  let? contents := map_err (fun e => lit "mmap: " ++ e) (mmap weights) in
  let? model := map_err (fun e => lit "gpt2 load: " ++ e) (from_gguf contents) in
  Ok {| ce_config := config; ce_model := model; ce_tokenizer := tokenizer |}.

(** The chain of [and_then]s after [forward], with its [unwrap_or(0)]. *)
Definition next_token_id (logits : Tensor) : Z :=
  match (let? t := squeeze0 logits in
         let? t := to_dtype_f32 t in
         let? t := argmax_keepdim_last t in
         to_scalar_u32 t) with
  | Ok v => v
  | Err _ => 0%Z
  end.

Definition error_chunk (what e : bytes) : TokenChunk := TokenChunk_new [] (lit "[" ++ what ++ lit " error: " ++ e ++ lit "]").

(** [tx.send(chunk).await] with the number of sends the receiver still takes:
    [None] when it has gone. *)
Definition tx_send (room : option nat) : option (option nat) :=
  match room with
  | None => Some None
  | Some 0 => None
  | Some (S n) => Some (Some n)
  end.

(** The chunk of an error, which is the last one, if the receiver takes it. *)
Definition send_last (room : option nat) (c : TokenChunk) : list TokenChunk :=
  match tx_send room with Some _ => [c] | None => [] end.

(** The loop: [max_new] turns are left. *)
Fixpoint generate_loop (max_new : nat) (tk : Tokenizer) (model : ModelWeights) (tokens : list Z)
    (room : option nat) : option (list TokenChunk) * ModelWeights :=
  match max_new with
  | O => (Some [], model)
  | S max_new =>
      match Tensor_new tokens with
      | Err e => (Some (send_last room (error_chunk (lit "tensor") e)), model)
      | Ok t =>
          match unsqueeze0 t, length tokens with
          | Ok input, S index_pos =>
              match forward model input index_pos with
              | (Err e, model) => (Some (send_last room (error_chunk (lit "forward") e)), model)
              | (Ok logits, model) =>
                  let next := next_token_id logits in
                  let piece := match decode_ids tk [next] with Ok p => p | Err _ => [] end in
                  match tx_send room with
                  | None => (Some [], model)
                  | Some room =>
                      let '(rest, model) := generate_loop max_new tk model (tokens ++ [next]) room in
                      (cons (TokenChunk_new [next] piece) <$> rest, model)
                  end
              end
          | _, _ => (None, model)
          end
      end
  end.

(** [run], under the lock of the model: the chunks the receiver got, and the
    model as the next run finds it. *)
Definition CandleEngine_run (e : CandleEngine) (prompt : bytes) (room : option nat) :
  option (list TokenChunk) * CandleEngine :=
  match encode_ids (ce_tokenizer e) prompt with
  | Err err => (Some (send_last room (error_chunk (lit "tokenizer") err)), e)
  | Ok tokens =>
      let '(chunks, model) := generate_loop (max_new_tokens (ce_config e)) (ce_tokenizer e) (ce_model e) tokens room in
      (chunks, {| ce_config := ce_config e; ce_model := model; ce_tokenizer := ce_tokenizer e |})
  end.

(** ** What a run sends *)

(** Chunks of one id each, then at most one error chunk without ids. *)
Definition well_streamed (max_new : nat) (chunks : list TokenChunk) : Prop :=
  exists tokens errors, chunks = tokens ++ errors
    /\ length tokens <= max_new /\ Forall (fun c => exists id, ids c = [id]) tokens
    /\ length errors <= 1 /\ Forall (fun c => ids c = []) errors.

Lemma send_last_errors room what e :
  length (send_last room (error_chunk what e)) <= 1
  /\ Forall (fun c => ids c = []) (send_last room (error_chunk what e)).
Proof. unfold send_last. destruct (tx_send room); cbn; [|split; [lia|constructor]]. split; [lia|by repeat constructor]. Qed.

Lemma well_streamed_last max_new room what e : well_streamed max_new (send_last room (error_chunk what e)).
Proof. exists [], (send_last room (error_chunk what e)). destruct (send_last_errors room what e). split_and!; cbn; auto with lia. Qed.

Lemma well_streamed_nil max_new : well_streamed max_new [].
Proof. exists [], []. split_and!; cbn; auto with lia. Qed.

Lemma well_streamed_cons max_new id piece chunks :
  well_streamed max_new chunks -> well_streamed (S max_new) (TokenChunk_new [id] piece :: chunks).
Proof.
  intros (tokens & errors & -> & Ht & Ft & He & Fe). exists (TokenChunk_new [id] piece :: tokens), errors.
  split_and!; cbn; [done|lia| |done|done]. constructor; [by exists id|done].
Qed.

Context `{!CandleLaws}.

(** The reduction keeps a dimension, so it is never a scalar. *)
Lemma next_token_id_zero logits : next_token_id logits = 0%Z.
Proof.
  unfold next_token_id. destruct (let? t := squeeze0 logits in _) as [v|] eqn:E; [|done].
  apply result_bind_Ok in E as (a & _ & E). apply result_bind_Ok in E as (b & _ & E).
  apply result_bind_Ok in E as (c & [Hr Hn]%argmax_keepdim_rank & E). apply to_scalar_rank in E. lia.
Qed.

Lemma generate_loop_streams max_new tk model tokens room :
  tokens <> [] ->
  exists chunks, (generate_loop max_new tk model tokens room).1 = Some chunks
    /\ well_streamed max_new chunks /\ Forall (fun c => ids c = [] \/ ids c = [0%Z]) chunks.
Proof.
  revert model tokens room. induction max_new as [|max_new IH]; intros model tokens room Hne; cbn [generate_loop].
  { exists []. split_and!; [done|apply well_streamed_nil|constructor]. }
  assert (Hlast : forall what e, exists chunks, Some (send_last room (error_chunk what e)) = Some chunks
            /\ well_streamed (S max_new) chunks /\ Forall (fun c => ids c = [] \/ ids c = [0%Z]) chunks).
  { intros what e. eexists. split_and!; [done|apply well_streamed_last|].
    eapply Forall_impl; [apply send_last_errors|]. by left. }
  destruct (Tensor_new tokens) as [t|e]; [|apply Hlast].
  destruct (unsqueeze0_ok t) as (input & -> & _). destruct tokens as [|tok tokens]; [done|]. cbn [length].
  destruct (forward model input (length tokens)) as [[logits|e] model']; [|apply Hlast].
  rewrite next_token_id_zero. destruct (tx_send room) as [room'|].
  - destruct (IH model' ((tok :: tokens) ++ [0%Z]) room') as (chunks & Hrun & Hs & Hz); [done|].
    destruct (generate_loop max_new tk model' _ room') as [rest model'']. cbn [fst] in *. subst rest.
    eexists. split_and!; [done|by apply well_streamed_cons|]. constructor; [by right|done].
  - exists []. split_and!; [done|apply well_streamed_nil|constructor].
Qed.

Lemma generate_loop_full max_new tk model tokens :
  tokens <> [] -> (forall l, is_ok (Tensor_new l) = true) -> (forall m x i, is_ok (forward m x i).1 = true) ->
  exists chunks, (generate_loop max_new tk model tokens None).1 = Some chunks
    /\ flat_map ids chunks = replicate max_new 0%Z.
Proof.
  intros Hne Ht Hf. revert model tokens Hne. induction max_new as [|max_new IH]; intros model tokens Hne.
  { by exists []. }
  cbn [generate_loop]. specialize (Ht tokens) as Htt. destruct (Tensor_new tokens) as [t|]; [|done].
  destruct (unsqueeze0_ok t) as (input & -> & _). destruct tokens as [|tok tokens]; [done|]. cbn [length].
  specialize (Hf model input (length tokens)) as Hff.
  destruct (forward model input (length tokens)) as [[logits|] model']; [|done].
  rewrite next_token_id_zero. cbn [tx_send].
  destruct (IH model' ((tok :: tokens) ++ [0%Z])) as (chunks & Hrun & Hz); [done|].
  destruct (generate_loop max_new tk model' _ None) as [rest model'']. cbn [fst] in *. subst rest.
  eexists. split; [done|]. cbn. by rewrite Hz.
Qed.

(** The candle engine: on a prompt whose encoding fails or has a token, a run
    does not panic; it sends at most [max_new_tokens] ids, one per chunk, and
    at most one error chunk, without ids, after them; and every id it sends
    is 0, whatever the model computes.  When nothing fails and the receiver
    stays it sends [max_new_tokens] of them. *)
Theorem candle_engine_sends_zeros (e : CandleEngine) prompt room :
  encode_ids (ce_tokenizer e) prompt <> Ok [] ->
  exists chunks, (CandleEngine_run e prompt room).1 = Some chunks
    /\ well_streamed (max_new_tokens (ce_config e)) chunks
    /\ Forall (fun c => ids c = [] \/ ids c = [0%Z]) chunks
    /\ (room = None -> is_ok (encode_ids (ce_tokenizer e) prompt) = true ->
        (forall l, is_ok (Tensor_new l) = true) -> (forall m x i, is_ok (forward m x i).1 = true) ->
        flat_map ids chunks = replicate (max_new_tokens (ce_config e)) 0%Z).
Proof.
  intros Hne. unfold CandleEngine_run. destruct (encode_ids _ prompt) as [tokens|err].
  - destruct (generate_loop_streams (max_new_tokens (ce_config e)) (ce_tokenizer e) (ce_model e) tokens room)
      as (chunks & Hrun & Hs & Hz); [by intros ->|].
    destruct (generate_loop _ _ _ tokens room) as [c model] eqn:E. cbn [fst] in *. exists chunks. split_and!; [done..|].
    intros -> _ Ht Hf.
    destruct (generate_loop_full (max_new_tokens (ce_config e)) (ce_tokenizer e) (ce_model e) tokens)
      as (chunks' & Hrun' & Hz'); [by intros ->|done..|]. rewrite E in Hrun'. cbn in Hrun'. congruence.
  - eexists. split_and!; [done|apply well_streamed_last| |done].
    eapply Forall_impl; [apply send_last_errors|]. by left.
Qed.

(** An empty encoding (a tokenizer without special tokens, an empty prompt)
    with at least one token to generate panics, unless the tensor of no
    tokens is refused. *)
Lemma candle_empty_prompt_panics (e : CandleEngine) prompt room :
  encode_ids (ce_tokenizer e) prompt = Ok [] -> is_ok (Tensor_new []) = true ->
  max_new_tokens (ce_config e) <> 0 -> (CandleEngine_run e prompt room).1 = None.
Proof.
  intros He Ht Hm. unfold CandleEngine_run. rewrite He. destruct (max_new_tokens (ce_config e)); [done|].
  cbn [generate_loop]. destruct (Tensor_new []) as [t|]; [|done]. by destruct (unsqueeze0 t).
Qed.
End Llm.

(** A model that always puts the largest logit at 5. *)
#[local] Instance toy_candle : CandleLib := {|
  Tokenizer := unit;
  tokenizer_from_file _ := Ok tt;
  encode_ids _ s := Ok (uval <$> s);
  decode_ids _ l := Ok (lit "x");
  Tensor := nat * Z;
  Tensor_new l := Ok (1, 0%Z);
  unsqueeze0 x := Ok (S x.1, x.2);
  squeeze0 x := Ok (pred x.1, x.2);
  to_dtype_f32 x := Ok x;
  argmax_keepdim_last x := if (x.1 =? 0)%nat then Err (lit "no dimension") else Ok x;
  to_scalar_u32 x := if (x.1 =? 0)%nat then Ok x.2 else Err (lit "unexpected rank");
  ModelWeights := unit;
  from_gguf _ := Ok tt;
  forward m _ _ := (Ok (2, 5%Z), m);
|}.

#[local] Instance toy_candle_laws : CandleLaws.
Proof.
  refine {| rank := fst : Tensor -> nat |}; cbn.
  - intros x. by eexists.
  - intros x y. destruct (Nat.eqb_spec x.1 0); [done|]. by intros [= <-].
  - intros x v. destruct (Nat.eqb_spec x.1 0); done.
Defined.

Definition toy_engine : CandleEngine :=
  {| ce_config := {| weights_path := []; tokenizer_path := []; max_new_tokens := 3; cfg_chunk_size := 1 |};
     ce_model := tt; ce_tokenizer := tt |}.

Lemma candle_engine_sends_zeros_witness :
  exists chunks, (CandleEngine_run toy_engine (lit "hi") None).1 = Some chunks /\ flat_map ids chunks = [0; 0; 0]%Z.
Proof.
  destruct (candle_engine_sends_zeros toy_engine (lit "hi") None) as (chunks & Hrun & _ & _ & Hz); [done|].
  exists chunks. split; [exact Hrun|]. by apply Hz.
Defined.
