(* ===== verification/Session.v ===== *)
(** * ullm-client: the session

    [crates/ullm-client/src/session.rs].  A client session owns its socket:
    the items the WebSocket stream will yield (or the expiry of the read
    timer), the outcome of each send, and the messages sent.  TLS, TCP and
    the WebSocket upgrade are arguments of [http_get] and [connect_with].

    A stream that ends is a finite list of items.  One that never ends is a
    sequence, and a call returns on it when it returns on a prefix of it
    whatever follows: [next_token_endless] says when. *)

From S2P Require Import Prelude RustStd RustText Core Crates Toy Crypto Frame Replay Control Handshake Attest.
From S2P Require Import Receipts Service.
From Stdlib Require Import Lia.

Local Open Scope Z_scope.

(** ** The socket *)

Record ClientSocket := {
  reads : list (option ws_event);       (** [None]: nothing arrived within [WS_READ_TIMEOUT] *)
  send_errors : list (option bytes);    (** [None] or past the end: the send succeeds *)
  written : list bytes;
}.

Definition WS_READ_TIMEOUT : Z := 60.

(** [{:?}] of a message that is none of those handled. *)
Class DebugMessage := { debug_message : ws_message -> bytes }.

(** The loop of [read_binary], over the items still to come. *)
Fixpoint read_loop `{DebugMessage} (l : list (option ws_event)) : Result bytes * list (option ws_event) :=
  match l with
  | [] => (Err (Transport (lit "ws ended unexpectedly")), [])
  | None :: l =>
      (Err (Transport (lit "ws idle for " ++ fmt_dec WS_READ_TIMEOUT ++ lit "s — peer stalled (P4-8)")), l)
  | Some (Ok (Binary b)) :: l => (Ok b, l)
  | Some (Ok (Ping _)) :: l | Some (Ok (Pong _)) :: l => read_loop l
  | Some (Ok Close) :: l => (Err (Transport (lit "ws closed")), l)
  | Some (Ok other) :: l => (Err (Transport (lit "unexpected ws msg: " ++ debug_message other)), l)
  | Some (Err e) :: l => (Err (Transport e), l)
  end.

Definition read_binary `{DebugMessage} (ws : ClientSocket) : Result bytes * ClientSocket :=
  let '(r, l) := read_loop (reads ws) in
  (r, {| reads := l; send_errors := send_errors ws; written := written ws |}).

Definition ws_send (ws : ClientSocket) (msg : bytes) : Result unit * ClientSocket :=
  match head (send_errors ws) with
  | Some (Some e) =>
      (Err (Transport e), {| reads := reads ws; send_errors := tail (send_errors ws); written := written ws |})
  | _ =>
      (Ok tt, {| reads := reads ws; send_errors := tail (send_errors ws); written := written ws ++ [msg] |})
  end.

(** ** The derived [Debug] texts of the error messages *)

Definition Epoch_debug (e : Epoch) : bytes := lit "Epoch(" ++ fmt_dec e ++ lit ")".

Definition FrameType_debug (t : FrameType.t) : bytes :=
  match t with
  | FrameType.Handshake => lit "Handshake"
  | FrameType.Data => lit "Data"
  | FrameType.Control => lit "Control"
  | FrameType.ToolStream => lit "ToolStream"
  | FrameType.Proof => lit "Proof"
  | FrameType.AttestRefresh => lit "AttestRefresh"
  end.

Fixpoint comma_list (l : bytes) : bytes :=
  match l with
  | [] => []
  | [c] => fmt_dec (uval c)
  | c :: l => fmt_dec (uval c) ++ lit ", " ++ comma_list l
  end.

Definition Control_debug (c : Control.t) : bytes :=
  match c with
  | Control.Ping ts => lit "Ping(" ++ fmt_dec ts ++ lit ")"
  | Control.Pong ts => lit "Pong(" ++ fmt_dec ts ++ lit ")"
  | Control.Cancel code => lit "Cancel { code: " ++ fmt_dec code ++ lit " }"
  | Control.KeyUpdate pk => lit "KeyUpdate { new_pk: [" ++ comma_list pk ++ lit "] }"
  | Control.Error code => lit "Error { code: " ++ fmt_dec code ++ lit " }"
  | Control.FlowCredit n => lit "FlowCredit { bytes: " ++ fmt_dec n ++ lit " }"
  end.

(** ** URLs and the HTTP response *)

Definition SLASH : byte := Byte.x2f.

Record ParsedUrl := { host : bytes; port : Z; path : bytes }.

Definition parse_http_url (url : bytes) (expect_tls : bool) : Result ParsedUrl :=
  let? (scheme, rest) := ok_or (split_once (lit "://") url) (Transport (lit "bad url: " ++ url)) in
  if negb ((bool_decide (scheme = lit "http") && negb expect_tls)
           || (bool_decide (scheme = lit "https") && expect_tls))
  then Err (Transport (lit "scheme " ++ scheme ++ lit " does not match TLS mode "
                       ++ (if expect_tls then lit "true" else lit "false")))
  else
  let '(host_port, path) :=
    match split_once [SLASH] rest with
    | Some (hp, p) => (hp, SLASH :: p)
    | None => (rest, [SLASH])
    end in
  match split_once (lit ":") host_port with
  | Some (h, p) =>
      let? port := ok_or (parse_uint 16 p) (Transport (lit "bad port")) in
      Ok {| host := h; port := port; path := path |}
  | None => Ok {| host := host_port; port := if bool_decide (scheme = lit "https") then 443 else 80;
                  path := path |}
  end.

Definition ws_stream_url (base : bytes) (tls : bool) : bytes :=
  let base := trim_end_matches SLASH base in
  match split_once (lit "://") base with
  | None => lit "ws://" ++ base ++ lit "/v1/stream"
  | Some (_, rest) => (if tls then lit "wss" else lit "ws") ++ lit "://" ++ rest ++ lit "/v1/stream"
  end.

Definition CRLF2 : bytes := [Byte.x0d; Byte.x0a; Byte.x0d; Byte.x0a].

(** The part of [http_get] after the response has been read. *)
Definition http_body (buf : bytes) : Result bytes :=
  let? (head, body) := ok_or (split_once CRLF2 buf) (Transport (lit "bad HTTP response")) in
  if negb (utf8_valid head) then Err (Transport (lit "non-utf8 HTTP header")) else
  let status_line := first_line head in
  if negb (contains (lit " 200 ") status_line)
  then Err (Transport (lit "HTTP status: " ++ status_line))
  else Ok body.

(** [exchange host port request] is the bytes read until the peer closes. *)
Definition http_get (exchange : bytes -> Z -> bytes -> Result bytes) (url : bytes) (tls : bool)
  : Result bytes :=
  let? parsed := parse_http_url url tls in
  let CRLF := [Byte.x0d; Byte.x0a] in
  let req := lit "GET " ++ path parsed ++ lit " HTTP/1.1" ++ CRLF ++ lit "Host: " ++ host parsed
             ++ CRLF ++ lit "Connection: close" ++ CRLF ++ CRLF in
  let? buf := exchange (host parsed) (port parsed) req in
  http_body buf.

(** ** The session *)

(** A per-layer proof verifier: commitments, proofs, session, weight commitment. *)
Abbreviation LayerVerifier := (list bytes -> list bytes -> SessionId -> bytes -> option (Result unit)).

Record Session := {
  ws : ClientSocket;
  s2c : SymRatchet;
  nonce_salt : NonceSalt;
  epoch : Epoch;
  s2c_replay : ReplayWindow;
  c2s : SymRatchet;
  c2s_seq : Z;
  current_root : RootKey;
  server_ratchet_pk : bytes;
  client_ratchet_sk : bytes;
  tee_id_pk : bytes;
  tee_receipt_pk : bytes;
  layer_verifier : option LayerVerifier;
  expected_weight_commit : bytes;
}.

Definition set_ws (s : Session) (w : ClientSocket) : Session :=
  {| ws := w; s2c := s2c s; nonce_salt := nonce_salt s; epoch := epoch s; s2c_replay := s2c_replay s;
     c2s := c2s s; c2s_seq := c2s_seq s; current_root := current_root s;
     server_ratchet_pk := server_ratchet_pk s; client_ratchet_sk := client_ratchet_sk s;
     tee_id_pk := tee_id_pk s; tee_receipt_pk := tee_receipt_pk s; layer_verifier := layer_verifier s;
     expected_weight_commit := expected_weight_commit s |}.

Definition set_s2c (s : Session) (r : SymRatchet) : Session :=
  {| ws := ws s; s2c := r; nonce_salt := nonce_salt s; epoch := epoch s; s2c_replay := s2c_replay s;
     c2s := c2s s; c2s_seq := c2s_seq s; current_root := current_root s;
     server_ratchet_pk := server_ratchet_pk s; client_ratchet_sk := client_ratchet_sk s;
     tee_id_pk := tee_id_pk s; tee_receipt_pk := tee_receipt_pk s; layer_verifier := layer_verifier s;
     expected_weight_commit := expected_weight_commit s |}.

Definition set_replay (s : Session) (r : ReplayWindow) : Session :=
  {| ws := ws s; s2c := s2c s; nonce_salt := nonce_salt s; epoch := epoch s; s2c_replay := r;
     c2s := c2s s; c2s_seq := c2s_seq s; current_root := current_root s;
     server_ratchet_pk := server_ratchet_pk s; client_ratchet_sk := client_ratchet_sk s;
     tee_id_pk := tee_id_pk s; tee_receipt_pk := tee_receipt_pk s; layer_verifier := layer_verifier s;
     expected_weight_commit := expected_weight_commit s |}.

Definition set_c2s (s : Session) (r : SymRatchet) (sq : Z) : Session :=
  {| ws := ws s; s2c := s2c s; nonce_salt := nonce_salt s; epoch := epoch s; s2c_replay := s2c_replay s;
     c2s := r; c2s_seq := sq; current_root := current_root s;
     server_ratchet_pk := server_ratchet_pk s; client_ratchet_sk := client_ratchet_sk s;
     tee_id_pk := tee_id_pk s; tee_receipt_pk := tee_receipt_pk s; layer_verifier := layer_verifier s;
     expected_weight_commit := expected_weight_commit s |}.

Section Client.
Context {R : Type} `{!MlKem R, !X25519 R, !Rng R, !Ed25519, !Hkdf, !Sha2, !Aead, !Bitflags, !Hex, !Subtle}
  `{!Postcard ClientHello, !Postcard ServerHello, !Postcard PreKeyBundle, !Postcard Evidence,
    !Postcard Receipt, !Postcard ReceiptEnvelope} `{!DebugMessage}.

Definition apply_key_update (s : Session) (new_server_pk : bytes) : Session :=
  let '(new_root, new_keys) := DhRatchet_step (current_root s) (client_ratchet_sk s) new_server_pk in
  {| ws := ws s;
     s2c := SymRatchet_new (s2c_chain new_keys);
     nonce_salt := Crypto.nonce_salt new_keys;
     epoch := wrapping_add 32 (epoch s) 1;
     s2c_replay := ReplayWindow_new;
     c2s := SymRatchet_new (c2s_chain new_keys);
     c2s_seq := 0;
     current_root := new_root;
     server_ratchet_pk := new_server_pk;
     client_ratchet_sk := client_ratchet_sk s;
     tee_id_pk := tee_id_pk s; tee_receipt_pk := tee_receipt_pk s; layer_verifier := layer_verifier s;
     expected_weight_commit := expected_weight_commit s |}.

(** [ended] of the stream, and the session it borrows. *)
Record TokenStream := { ended : bool; stream_session : Session }.

(** The session is returned in every case: the stream borrows it. *)
Definition send (s : Session) (prompt : bytes) : Result TokenStream * Session :=
  let '(key, c2s') := SymRatchet_next_key (c2s s) in
  let s := set_c2s s c2s' (c2s_seq s) in
  match encode_frame key (nonce_salt s) FrameType.Data 0 (epoch s) (c2s_seq s) prompt with
  | Err e => (Err e, s)
  | Ok frame =>
      let '(r, w) := ws_send (ws s) (wire frame) in
      let s := set_ws s w in
      match r with
      | Err e => (Err e, s)
      | Ok _ =>
          if u64_max <? c2s_seq s + 1 then (Err (Other (lit "c2s seq overflow")), s) else
          let s := set_c2s s (c2s s) (c2s_seq s + 1) in
          (Ok {| ended := false; stream_session := s |}, s)
      end
  end.

(** How one iteration of [next_token]'s loop ends. *)
Inductive step_result := Return (r : Result (option bytes)) | Continue.

(** The first half of an iteration: read, decrypt, check epoch and replay. *)
Definition receive_frame (s : Session) : Result (Header * bytes) * Session :=
  let '(r, w) := read_binary (ws s) in
  let s := set_ws s w in
  match r with
  | Err e => (Err e, s)
  | Ok l =>
      let '(key, r2) := SymRatchet_next_key (s2c s) in
      let s := set_s2c s r2 in
      match decode_frame key (nonce_salt s) l with
      | Err e => (Err e, s)
      | Ok (header, plaintext) =>
          if decide (Frame.epoch header <> epoch s) then
            (Err (Other (lit "unexpected epoch transition: got " ++ Epoch_debug (Frame.epoch header)
                         ++ lit ", have " ++ Epoch_debug (epoch s))), s)
          else
          let '(seen, win) := check_and_update (s2c_replay s) (seq header) in
          let s := set_replay s win in
          match seen with
          | Err e => (Err e, s)
          | Ok _ => (Ok (header, plaintext), s)
          end
      end
  end.

(** The second half: act on the frame. *)
Definition handle_frame (ts : TokenStream) (header : Header) (plaintext : bytes)
  : step_result * TokenStream :=
  let s := stream_session ts in
  match frame_type header with
  | FrameType.Data =>
      let eot := Z.land (flags header) END_OF_TURN =? END_OF_TURN in
      let ts := {| ended := ended ts || eot; stream_session := s |} in
      if eot && bool_decide (plaintext = []) then (Return (Ok None), ts)
      else if utf8_valid plaintext then (Return (Ok (Some plaintext)), ts)
      else (Return (Err (Other (lit "non-utf8 token chunk"))), ts)
  | FrameType.Control =>
      match Control_decode plaintext with
      | Err e => (Return (Err e), ts)
      | Ok (Control.KeyUpdate new_pk) =>
          (Continue, {| ended := ended ts; stream_session := apply_key_update s new_pk |})
      | Ok ctrl => (Return (Err (Other (lit "unexpected control frame: " ++ Control_debug ctrl))), ts)
      end
  | other => (Return (Err (Other (lit "unexpected frame type " ++ FrameType_debug other))), ts)
  end.

(** One iteration of the loop, once the stream has not ended. *)
Definition next_token_step (ts : TokenStream) : step_result * TokenStream :=
  let '(r, s) := receive_frame (stream_session ts) in
  let ts := {| ended := ended ts; stream_session := s |} in
  match r with
  | Err e => (Return (Err e), ts)
  | Ok (header, plaintext) => handle_frame ts header plaintext
  end.

(** [None] when the fuel runs out. *)
Fixpoint next_token_loop (fuel : nat) (ts : TokenStream) : option (Result (option bytes) * TokenStream) :=
  match fuel with
  | O => None
  | S fuel =>
      if ended ts then Some (Ok None, ts) else
      match next_token_step ts with
      | (Return r, ts) => Some (r, ts)
      | (Continue, ts) => next_token_loop fuel ts
      end
  end.

(** On a stream that ends, every iteration consumes an item. *)
Definition next_token (ts : TokenStream) : option (Result (option bytes) * TokenStream) :=
  next_token_loop (S (length (reads (ws (stream_session ts))))) ts.

(** [n] calls in a row, with their results. *)
Fixpoint next_tokens (n : nat) (ts : TokenStream)
  : option (list (Result (option bytes)) * TokenStream) :=
  match n with
  | O => Some ([], ts)
  | S n =>
      '(r, ts) ← next_token ts;
      '(rs, ts) ← next_tokens n ts;
      Some (r :: rs, ts)
  end.

(** [hex_error] is the text of the decoder's error. *)
Context (hex_error : bytes -> bytes).

Definition decode_hex32 (h bad not32 : bytes) : Result bytes :=
  let? b := ok_or (hex_decode h) (Other (bad ++ hex_error h)) in
  if decide (length b = 32%nat) then Ok b else Err (Other not32).

Fixpoint decode_commits (l : list bytes) : Result (list bytes) :=
  match l with
  | [] => Ok []
  | h :: l =>
      let? arr := decode_hex32 h (lit "bad activation commit hex: ") (lit "activation commit not 32 bytes") in
      let? rest := decode_commits l in
      Ok (arr :: rest)
  end.

(** The receipt's weight commitment is the one the session was opened for. *)
Definition check_weights (s : Session) (r : Receipt) : Result unit :=
  let? wc := decode_hex32 (weight_commit_hex r) (lit "bad weight_commit_hex: ")
               (lit "weight_commit_hex is not 32 bytes") in
  if decide (wc <> expected_weight_commit s) then
    Err (AttestationFailed (lit "receipt weight commit does not match expected"))
  else Ok tt.

(** The proofs of the envelope, when there is a verifier for them. *)
Definition check_layers (s : Session) (envelope : ReceiptEnvelope) : option (Result unit) :=
  match layer_verifier s with
  | None => Some (Ok tt)
  | Some verify_layers =>
      let r := receipt (signed_receipt envelope) in
      match decode_commits (activation_commits_hex r) with
      | Err e => Some (Err e)
      | Ok commits => verify_layers commits (zk_layer_proofs envelope) (session r) (expected_weight_commit s)
      end
  end.

(** [None] is a panic inside the receipt check or the proof verifier. *)
Definition finalize (ts : TokenStream) : option (Result SignedReceipt * Session) :=
  let s := stream_session ts in
  let '(r, w) := read_binary (ws s) in
  let s := set_ws s w in
  match (let? raw := r in map_err Serde (postcard_from_bytes (T := ReceiptEnvelope) raw)) with
  | Err e => Some (Err e, s)
  | Ok envelope =>
      let signed := signed_receipt envelope in
      verified ← verify_receipt signed (tee_receipt_pk s);
      match (let? _ := verified in check_weights s (receipt signed)) with
      | Err e => Some (Err e, s)
      | Ok _ =>
          checked ← check_layers s envelope;
          Some (let? _ := checked in Ok signed, s)
      end
  end.

(** ** Opening a session *)

Definition fetch_bundle (get : bytes -> Result bytes) (base_url nonce : bytes) : Result PreKeyBundle :=
  let url := trim_end_matches SLASH base_url ++ lit "/v1/attest?nonce=" ++ hex_encode nonce in
  let? l := get url in
  let? bundle := map_err Serde (postcard_from_bytes (T := PreKeyBundle) l) in
  let? _ := PreKeyBundle_validate_structural bundle in
  Ok bundle.

(** The signature callback of [complete]. *)
Definition check_server_hello (id_pk pre_hash sig : bytes) : Result unit :=
  if ed25519_verify id_pk (SIG_DOMAIN_HANDSHAKE ++ pre_hash) sig then Ok tt
  else Err (AttestationFailed (lit "bad ServerHello signature")).

(** [get] fetches a URL and [connect] opens the socket; the two readings of
    the clock are arguments. *)
Definition connect_with (get : bytes -> Result bytes) (connect : bytes -> Result ClientSocket)
    (now_bundle_ns now_handshake_ns : Z) (rng : R) (base_url trust_root receipt_pk wc : bytes)
    (tls : bool) (lv : option LayerVerifier) : Result Session * R :=
  let '(attestation_nonce, rng) := fill_bytes 32 rng in
  match
    let? bundle := fetch_bundle get base_url attestation_nonce in
    let? now_bundle := now_unix now_bundle_ns in
    let? id_pk := verify_bundle bundle attestation_nonce wc trust_root now_bundle NONCE_TTL_DEFAULT_SEC in
    Ok (bundle, id_pk)
  with
  | Err e => (Err e, rng)
  | Ok (bundle, id_pk) =>
      let '(init, rng) := ClientHandshake_initiate rng bundle in
      (let? (client_state, client_hello_bytes) := init in
       let? sock := connect (ws_stream_url base_url tls) in
       let '(r, sock) := ws_send sock client_hello_bytes in
       let? _ := r in
       let '(r, sock) := read_binary sock in
       let? server_hello_bytes := r in
       let? keys := ClientHandshake_complete client_state server_hello_bytes (check_server_hello id_pk) in
       let? evidence := decode_evidence (server_attestation_evidence keys) in
       let? now_handshake := now_unix now_handshake_ns in
       let? _ := verify {| Attest.trust_root := trust_root |} evidence
                   {| expected_report_data := report_data keys; now_unix_ctx := now_handshake;
                      max_age_sec := NONCE_TTL_DEFAULT_SEC |} in
       Ok {| ws := sock;
             s2c := SymRatchet_new (ek_s2c_chain keys);
             nonce_salt := ek_nonce_salt keys;
             epoch := 0;
             s2c_replay := ReplayWindow_new;
             c2s := SymRatchet_new (ek_c2s_chain keys);
             c2s_seq := 0;
             current_root := root keys;
             server_ratchet_pk := Handshake.server_ratchet_pk keys;
             client_ratchet_sk := Handshake.client_ratchet_sk client_state;
             tee_id_pk := id_pk;
             tee_receipt_pk := receipt_pk;
             layer_verifier := lv;
             expected_weight_commit := wc |}, rng)
  end.
End Client.

(** ** [next_token] on a stream that ends *)

Section Termination.
Context {R : Type} `{!X25519 R, !Hkdf, !Aead, !Bitflags} `{!DebugMessage}.

Lemma read_loop_shrinks l b l' : read_loop l = (Ok b, l') -> (length l' < length l)%nat.
Proof.
  induction l as [|e l IH]; [done|]. cbn [read_loop length].
  destruct e as [[[]|]|]; intros E; try discriminate E; try (apply IH in E; lia).
  injection E as _ <-. lia.
Qed.

Lemma receive_frame_shrinks s h s' :
  receive_frame s = (Ok h, s') -> (length (reads (ws s')) < length (reads (ws s)))%nat.
Proof.
  unfold receive_frame, read_binary. destruct (read_loop (reads (ws s))) as [[l|e] rest] eqn:Hl; [|done].
  apply read_loop_shrinks in Hl. destruct (SymRatchet_next_key _) as [key r2].
  destruct (decode_frame _ _ _) as [[hd pt]|e]; [|done]. case_decide; [done|].
  destruct (check_and_update _ _) as [[[]|e] win]; [|done]. intros [= _ <-]. exact Hl.
Qed.

Lemma next_token_step_shrinks ts ts' :
  next_token_step ts = (Continue, ts') ->
  (length (reads (ws (stream_session ts'))) < length (reads (ws (stream_session ts))))%nat.
Proof.
  unfold next_token_step. destruct (receive_frame (stream_session ts)) as [[[h pt]|e] s] eqn:Hr; [|done].
  apply receive_frame_shrinks in Hr. unfold handle_frame.
  destruct (frame_type h); try done; [by repeat case_match|].
  cbn [stream_session ended]. destruct (Control_decode pt) as [[]|]; try done. intros [= <-].
  cbn [stream_session]. unfold apply_key_update. by destruct (DhRatchet_step _ _ _).
Qed.

Lemma next_token_loop_fuel fuel ts :
  (length (reads (ws (stream_session ts))) < fuel)%nat -> is_Some (next_token_loop fuel ts).
Proof.
  revert ts. induction fuel as [|fuel IH]; intros ts Hf; [lia|]. cbn [next_token_loop].
  destruct (ended ts); [by eexists|].
  destruct (next_token_step ts) as [[r|] ts'] eqn:Hs; [by eexists|].
  apply next_token_step_shrinks in Hs. apply IH. lia.
Qed.
End Termination.

(** ** [next_token] on a stream that does not end *)

Section Endless.
Context {R : Type} `{!X25519 R, !Hkdf, !Aead, !Bitflags} `{!DebugMessage}.

(** The same stream with other items to come. *)
Definition reading (ts : TokenStream) (l : list (option ws_event)) : TokenStream :=
  {| ended := ended ts;
     stream_session := set_ws (stream_session ts)
       {| reads := l; send_errors := send_errors (ws (stream_session ts));
          written := written (ws (stream_session ts)) |} |}.

(** The call returns [r] having read [items], whatever comes after them. *)
Definition returns_after (ts : TokenStream) (items : list (option ws_event)) (r : Result (option bytes))
    (ts' : TokenStream) : Prop :=
  forall rest, next_token (reading ts (items ++ rest)) = Some (r, reading ts' rest).

(** A ping or a pong, which [read_binary] passes over. *)
Definition skipped (item : option ws_event) : bool :=
  match item with Some (Ok (Ping _)) | Some (Ok (Pong _)) => true | _ => false end.

(** The stream after an item that does not make the call return: a ping, a
    pong, or a frame after which the loop goes on (a key update). *)
Definition absorb (ts : TokenStream) (item : option ws_event) : option TokenStream :=
  if skipped item then Some ts else
  match next_token_step (reading ts [item]) with
  | (Continue, ts') => Some ts'
  | (Return _, _) => None
  end.

Fixpoint absorb_all (ts : TokenStream) (items : list (option ws_event)) : option TokenStream :=
  match items with
  | [] => Some ts
  | item :: items => ts ← absorb ts item; absorb_all ts items
  end.

Lemma loop_mono n m ts x :
  next_token_loop n ts = Some x -> (n <= m)%nat -> next_token_loop m ts = Some x.
Proof.
  revert m ts. induction n as [|n IH]; intros [|m] ts Hx Hm; try done; [lia|].
  cbn [next_token_loop] in *. destruct (ended ts); [done|].
  destruct (next_token_step ts) as [[r|] ts']; [done|]. apply IH; [done|lia].
Qed.

Lemma loop_enough m ts :
  (length (reads (ws (stream_session ts))) < m)%nat -> next_token_loop m ts = next_token ts.
Proof.
  intros Hm. unfold next_token.
  destruct (next_token_loop_fuel (S (length (reads (ws (stream_session ts))))) ts) as [x Hx]; [lia|].
  rewrite Hx. by eapply loop_mono.
Qed.

Lemma read_loop_skip item l : skipped item = true -> read_loop (item :: l) = read_loop l.
Proof. by destruct item as [[[]|]|]. Qed.

Lemma read_loop_item item l : skipped item = false -> read_loop (item :: l) = ((read_loop [item]).1, l).
Proof. by destruct item as [[[]|]|]. Qed.

Lemma step_skip ts item l :
  skipped item = true -> next_token_step (reading ts (item :: l)) = next_token_step (reading ts l).
Proof.
  intros Hs. unfold next_token_step, receive_frame, read_binary, reading. cbn [stream_session ws set_ws reads].
  by rewrite read_loop_skip.
Qed.

Lemma step_item ts item l :
  skipped item = false ->
  next_token_step (reading ts (item :: l))
  = let '(res, ts') := next_token_step (reading ts [item]) in (res, reading ts' l).
Proof.
  intros Hs. unfold next_token_step, receive_frame, read_binary, reading.
  cbn [stream_session ws set_ws reads send_errors written ended Session.s2c nonce_salt].
  pose proof (read_loop_item item [] Hs) as E0. rewrite (read_loop_item item l Hs).
  destruct (read_loop [item]) as [[b|e] l0]; injection E0 as ->; [|done]. cbn [fst].
  destruct (SymRatchet_next_key _) as [key r2]. cbn [nonce_salt set_s2c set_ws epoch s2c_replay].
  destruct (decode_frame _ _ _) as [[h pt]|e]; [|done]. case_decide; [done|].
  destruct (check_and_update _ _) as [[[]|e] win]; [|done].
  unfold handle_frame. cbn [stream_session ended].
  destruct (frame_type h); try done.
  - destruct (_ && _); [done|]. by destruct (utf8_valid pt).
  - by destruct (Control_decode pt) as [[]|].
Qed.

Lemma step_ended ts ts' : next_token_step ts = (Continue, ts') -> ended ts' = ended ts.
Proof.
  unfold next_token_step. destruct (receive_frame _) as [[[h pt]|e] s]; [|done]. unfold handle_frame.
  destruct (frame_type h); try done; [by repeat case_match|].
  destruct (Control_decode pt) as [[]|]; try done. by intros [= <-].
Qed.

Lemma absorb_Some ts item ts' :
  ended ts = false -> absorb ts item = Some ts' ->
  ended ts' = false /\ forall l, next_token (reading ts (item :: l)) = next_token (reading ts' l).
Proof.
  unfold absorb. intros He. destruct (skipped item) eqn:Hs.
  - intros [= <-]. split; [done|]. intros l.
    rewrite <- (loop_enough (S (S (length l))) (reading ts l)) by (cbn; lia).
    change (next_token_loop (S (S (length l))) (reading ts (item :: l))
            = next_token_loop (S (S (length l))) (reading ts l)).
    generalize (S (length l)). intros n. cbn [next_token_loop]. rewrite step_skip by done.
    change (ended (reading ts (item :: l))) with (ended ts). change (ended (reading ts l)) with (ended ts).
    by rewrite He.
  - destruct (next_token_step (reading ts [item])) as [[r|] ts1] eqn:E; [done|]. intros [= <-].
    split; [by rewrite (step_ended _ _ E)|]. intros l.
    change (next_token_loop (S (S (length l))) (reading ts (item :: l)) = next_token (reading ts1 l)).
    remember (S (length l)) as n eqn:Hn. cbn [next_token_loop]. change (ended (reading ts (item :: l))) with (ended ts). rewrite He.
    rewrite step_item, E by done. apply (loop_enough _ (reading ts1 l)). cbn. lia.
Qed.

Lemma absorb_None ts item :
  ended ts = false -> absorb ts item = None -> exists r ts', returns_after ts [item] r ts'.
Proof.
  unfold absorb, returns_after. intros He. destruct (skipped item) eqn:Hs; [done|].
  destruct (next_token_step (reading ts [item])) as [[r|] ts1] eqn:E; [|done]. intros _.
  exists r, ts1. intros rest. unfold next_token. cbn [app next_token_loop].
  change (ended (reading ts (item :: rest))) with (ended ts). by rewrite He, step_item, E by done.
Qed.

Lemma absorb_all_Some ts items ts' :
  ended ts = false -> absorb_all ts items = Some ts' ->
  ended ts' = false /\ forall rest, next_token (reading ts (items ++ rest)) = next_token (reading ts' rest).
Proof.
  revert ts. induction items as [|item items IH]; intros ts He; cbn [absorb_all]; [by intros [= <-]|].
  destruct (absorb ts item) as [ts1|] eqn:E; [|done]. cbn [mbind option_bind]. intros Ha.
  destruct (absorb_Some ts item ts1 He E) as [He1 E1]. destruct (IH ts1 He1 Ha) as [He' E'].
  split; [done|]. intros rest. cbn [app]. by rewrite E1.
Qed.

(** What makes the call return is the first item not absorbed. *)
Lemma absorb_all_None ts items :
  ended ts = false -> absorb_all ts items = None ->
  exists k r ts', (k <= length items)%nat /\ returns_after ts (take k items) r ts'.
Proof.
  revert ts. induction items as [|item items IH]; intros ts He; cbn [absorb_all]; [done|].
  destruct (absorb ts item) as [ts1|] eqn:E; cbn [mbind option_bind]; intros Ha.
  - destruct (absorb_Some ts item ts1 He E) as [He1 E1].
    destruct (IH ts1 He1 Ha) as (k & r & ts' & Hk & Hr).
    exists (S k), r, ts'. split; [cbn; lia|]. intros rest. cbn [take app]. by rewrite E1.
  - destruct (absorb_None ts item He E) as (r & ts' & Hr). exists 1%nat, r, ts'. split; [cbn; lia|]. by destruct items.
Qed.

(** A call that has absorbed everything has not returned. *)
Lemma absorbed_waits ts items ts1 r ts' :
  ended ts = false -> absorb_all ts items = Some ts1 -> ~ returns_after ts items r ts'.
Proof.
  intros He Ha Hr. destruct (absorb_all_Some ts items ts1 He Ha) as [He1 E].
  pose proof (Hr []) as R1. pose proof (Hr [None]) as R2. rewrite E in R1, R2.
  unfold next_token in R1, R2. cbn [next_token_loop] in R1, R2.
  change (ended (reading ts1 [])) with (ended ts1) in R1.
  change (ended (reading ts1 [None])) with (ended ts1) in R2. rewrite He1 in R1, R2.
  cbn in R1, R2. injection R1 as <- _. discriminate R2.
Qed.

(** The first [n] items of an endless stream. *)
Definition upto (f : nat -> option ws_event) (n : nat) : list (option ws_event) := f <$> List.seq 0 n.

Lemma take_upto f k n : (k <= n)%nat -> take k (upto f n) = upto f k.
Proof. intros Hk. unfold upto. rewrite <- fmap_take, take_seq. by rewrite Nat.min_l. Qed.

Lemma absorb_all_skip ts items : Forall (fun item => skipped item = true) items -> absorb_all ts items = Some ts.
Proof. induction 1 as [|item items Hs _ IH]; cbn [absorb_all]; [done|]. unfold absorb. by rewrite Hs. Qed.

Lemma absorb_all_app ts l k : absorb_all ts (l ++ k) = ts' ← absorb_all ts l; absorb_all ts' k.
Proof.
  revert ts. induction l as [|item l IH]; intros ts; cbn [absorb_all app]; [done|].
  destruct (absorb ts item); cbn [mbind option_bind]; [apply IH|done].
Qed.

Lemma upto_S f n : upto f (S n) = upto f n ++ [f n].
Proof. unfold upto. by rewrite seq_S, fmap_app. Qed.
End Endless.

(** ** Claims *)


(** A live stream of the toy scheme. *)
#[local] Instance plain_debug : DebugMessage := {| debug_message _ := [] |}.

Definition demo_stream : TokenStream :=
  {| ended := false;
     stream_session :=
       {| ws := {| reads := []; send_errors := []; written := [] |};
          s2c := SymRatchet_new []; nonce_salt := []; epoch := 0; s2c_replay := ReplayWindow_new;
          c2s := SymRatchet_new []; c2s_seq := 1; current_root := []; server_ratchet_pk := [];
          client_ratchet_sk := []; tee_id_pk := []; tee_receipt_pk := []; layer_verifier := None;
          expected_weight_commit := [] |} |}.

