(* ===== verification/EndToEnd.v ===== *)
(** * A whole session, client and TEE together

    The client of [Session.v] against the handler of [Service.v]: what the
    handler sends is what the client reads. *)

From S2P Require Import Prelude RustStd RustText Core Crates Toy Crypto Frame Replay Control Handshake Attest.
From S2P Require Import Receipts KvCloak Model NonceRegistry TenantPool Service Engine Session.
From Stdlib Require Import Lia.

Local Open Scope Z_scope.

(** ** The two ends of the channel *)

(** The window of a receiver that accepted [0], ..., [n - 1] in order. *)
Definition window_at (w : ReplayWindow) (n : Z) : Prop :=
  (n = 0 /\ w = ReplayWindow_new) \/ (0 < n /\ high w = n - 1).

Lemma window_accepts w n :
  window_at w n -> 0 <= n < 2 ^ 63 ->
  exists w', check_and_update w n = (Ok tt, w') /\ window_at w' (n + 1).
Proof.
  intros [[-> ->]|[Hn Hh]] Hr.
  - eexists. split; [reflexivity|]. right. cbn. lia.
  - unfold check_and_update. rewrite Hh.
    destruct (Z.ltb_spec (n - 1) n); [|lia].
    replace (n - (n - 1)) with 1 by lia.
    change (u64_max / 2 <? 1) with false. cbn iota beta.
    eexists. split; [reflexivity|]. right. cbn [high]. lia.
Qed.

(** A stream that has not ended. *)
Abbreviation live s := {| ended := false; stream_session := s |}.

Section Channel.
Context {R : Type} `{!MlKem R, !X25519 R, !X25519Laws R, !Rng R, !Ed25519, !Hkdf, !Sha2, !Aead, !AeadLaws,
    !Bitflags, !BitflagsLaws, !Hex} `{!DebugMessage}.

(** The handler's and the client's view of the server-to-client direction agree. *)
Record synced (c : Channel) (s : Session) : Prop := {
  sy_s2c : Service.s2c c = Session.s2c s;
  sy_salt : ch_salt c = Session.nonce_salt s;
  sy_root : Service.current_root c = Session.current_root s;
  sy_epoch : ch_epoch c = Session.epoch s;
  sy_pk : ch_client_pk c = x25519_public (Session.client_ratchet_sk s);
  sy_epoch_range : is_u32 (ch_epoch c);
  sy_seq : 0 <= Service.s2c_seq c < 2 ^ 63;
  sy_window : window_at (s2c_replay s) (Service.s2c_seq c);
}.

(** The fields of a client session that receiving leaves alone, and what is
    left to read. *)
Record same_client (s s' : Session) (rest : list (option ws_event)) : Prop := {
  sc_reads : reads (ws s') = rest;
  sc_receipt_pk : tee_receipt_pk s' = tee_receipt_pk s;
  sc_verifier : layer_verifier s' = layer_verifier s;
  sc_commit : expected_weight_commit s' = expected_weight_commit s;
}.

Definition arrival (l : bytes) : option ws_event := Some (Ok (Binary l)).

(** The client receives a frame the handler encoded at its current position. *)
Lemma receive_frame_ok c s ft fl pt frame rest c' :
  synced c s -> is_u16 fl ->
  encode_frame (SymRatchet_next_key (Service.s2c c)).1 (ch_salt c) ft fl (ch_epoch c)
    (Service.s2c_seq c) pt = Ok frame ->
  reads (ws s) = arrival (wire frame) :: rest ->
  Service.s2c c' = (SymRatchet_next_key (Service.s2c c)).2 -> ch_salt c' = ch_salt c ->
  Service.current_root c' = Service.current_root c -> ch_epoch c' = ch_epoch c ->
  ch_client_pk c' = ch_client_pk c -> Service.s2c_seq c' = Service.s2c_seq c + 1 ->
  Service.s2c_seq c' < 2 ^ 63 ->
  exists s', receive_frame s
    = (Ok (Header_new ft (Z.land fl FrameFlags_all) (ch_epoch c) (Service.s2c_seq c), pt), s')
    /\ synced c' s' /\ same_client s s' rest.
Proof.
  intros Sy Hfl He Hr K1 K2 K3 K4 K5 K6 K7. destruct Sy as [S1 S2 S3 S4 S5 S6 S7 S8].
  destruct (window_accepts _ _ S8 S7) as (w' & Hw & Hw').
  unfold receive_frame, read_binary. rewrite Hr. cbn [read_loop arrival].
  destruct (SymRatchet_next_key (Service.s2c c)) as [key r2] eqn:Hk. cbn [fst snd] in *.
  cbn [Session.s2c set_ws]. rewrite <- S1, Hk. cbn [nonce_salt set_s2c set_ws].
  destruct (encode_decode_frame key (ch_salt c) ft fl (ch_epoch c) (Service.s2c_seq c) pt frame)
    as [_ Hd]; [split; [done|done|unfold is_u64; lia]|done|].
  rewrite <- S2, Hd. cbn [Frame.epoch Header_new Session.epoch set_s2c set_ws seq s2c_replay].
  rewrite decide_False by (rewrite <- S4; intros Hn; by apply Hn).
  rewrite Hw. eexists. split; [reflexivity|]. split.
  - split; cbn; rewrite ?K1, ?K2, ?K3, ?K4, ?K5, ?K6; try done; lia.
  - by split.
Qed.

(** ** [next_token] *)

Lemma next_token_return ts r ts' :
  ended ts = false -> next_token_step ts = (Return r, ts') -> next_token ts = Some (r, ts').
Proof. intros He Hs. unfold next_token. cbn [next_token_loop]. by rewrite He, Hs. Qed.

Lemma next_token_continue ts ts' e :
  ended ts = false -> next_token_step ts = (Continue, ts') ->
  reads (ws (stream_session ts)) = e :: reads (ws (stream_session ts')) ->
  next_token ts = next_token ts'.
Proof.
  intros He Hs Hr. unfold next_token. rewrite Hr. cbn [length].
  set (n := S (length (reads (ws (stream_session ts'))))). cbn [next_token_loop]. by rewrite He, Hs.
Qed.

(** The channel after one more frame on the current chain. *)
Definition advance (c : Channel) (chunks : Z) : Channel :=
  {| Service.c2s := Service.c2s c; Service.s2c := (SymRatchet_next_key (Service.s2c c)).2;
     ch_salt := ch_salt c; Service.current_root := Service.current_root c;
     server_ratchet_sk := server_ratchet_sk c; ch_client_pk := ch_client_pk c;
     Service.c2s_seq := Service.c2s_seq c; Service.s2c_seq := Service.s2c_seq c + 1;
     ch_epoch := ch_epoch c; chunks_since_update := chunks |}.

(** The channel after a key update with the new secret [sk]. *)
Definition rotated (c : Channel) (sk : bytes) : Channel :=
  let '(new_root, new_keys) := DhRatchet_step (Service.current_root c) sk (ch_client_pk c) in
  {| Service.c2s := SymRatchet_new (c2s_chain new_keys);
     Service.s2c := SymRatchet_new (s2c_chain new_keys);
     ch_salt := Crypto.nonce_salt new_keys; Service.current_root := new_root; server_ratchet_sk := sk;
     ch_client_pk := ch_client_pk c; Service.c2s_seq := 0; Service.s2c_seq := 0;
     ch_epoch := wrapping_add 32 (ch_epoch c) 1; chunks_since_update := 0 |}.

(** A key update keeps both sides in step. *)
Lemma synced_rotated c s sk k :
  synced (advance c k) s -> synced (rotated c sk) (apply_key_update s (x25519_public sk)).
Proof.
  intros [S1 S2 S3 S4 S5 S6 S7 S8]. cbn in S3, S4, S5, S6.
  unfold apply_key_update, rotated. rewrite S5, S3, DhRatchet_step_comm.
  destruct (DhRatchet_step _ _ _) as [nr nk]. split; cbn; try done.
  - by rewrite S4.
  - unfold wrapping_add, is_u32. apply Z.mod_pos_bound. lia.
  - by left.
Qed.

Lemma next_token_data c s pt frame rest k :
  synced c s -> Service.s2c_seq c + 1 < 2 ^ 63 -> utf8_valid pt = true ->
  encode_frame (SymRatchet_next_key (Service.s2c c)).1 (ch_salt c) FrameType.Data 0 (ch_epoch c)
    (Service.s2c_seq c) pt = Ok frame ->
  reads (ws s) = arrival (wire frame) :: rest ->
  exists s', next_token (live s) = Some (Ok (Some pt), live s')
    /\ synced (advance c k) s' /\ same_client s s' rest.
Proof.
  intros Sy Hs Hu He Hr.
  destruct (receive_frame_ok c s _ _ _ _ _ (advance c k) Sy (conj (Z.le_refl 0) eq_refl) He Hr)
    as (s' & Hrf & Sy' & Sc); [done..|].
  exists s'. split; [|done]. apply next_token_return; [done|].
  unfold next_token_step. cbn [stream_session ended]. rewrite Hrf.
  unfold handle_frame. cbn [frame_type Header_new flags]. rewrite Hu. reflexivity.
Qed.

Lemma next_token_eot c s frame rest :
  synced c s -> Service.s2c_seq c + 1 < 2 ^ 63 ->
  encode_frame (SymRatchet_next_key (Service.s2c c)).1 (ch_salt c) FrameType.Data END_OF_TURN (ch_epoch c)
    (Service.s2c_seq c) [] = Ok frame ->
  reads (ws s) = arrival (wire frame) :: rest ->
  exists s', next_token (live s) = Some (Ok None, {| ended := true; stream_session := s' |})
    /\ same_client s s' rest.
Proof.
  intros Sy Hs He Hr.
  destruct (receive_frame_ok c s _ _ _ _ _ (advance c 0) Sy (conj Z.le_0_1 eq_refl) He Hr)
    as (s' & Hrf & _ & Sc); [done..|].
  exists s'. split; [|done]. apply next_token_return; [done|].
  unfold next_token_step. cbn [stream_session ended]. rewrite Hrf. reflexivity.
Qed.

(** A key update is absorbed: the next call behaves as on the session that
    follows it, which is in step with the rotated channel. *)
Lemma next_token_key_update c s sk frame rest :
  synced c s -> Service.s2c_seq c + 1 < 2 ^ 63 ->
  encode_frame (SymRatchet_next_key (Service.s2c c)).1 (ch_salt c) FrameType.Control 0 (ch_epoch c)
    (Service.s2c_seq c) (Control_encode (Control.KeyUpdate (x25519_public sk))) = Ok frame ->
  reads (ws s) = arrival (wire frame) :: rest ->
  exists s', next_token (live s) = next_token (live s')
    /\ synced (rotated c sk) s' /\ same_client s s' rest.
Proof.
  intros Sy Hs He Hr.
  destruct (receive_frame_ok c s _ _ _ _ _ (advance c 0) Sy (conj (Z.le_refl 0) eq_refl) He Hr)
    as (s' & Hrf & Sy' & Sc); [done..|].
  exists (apply_key_update s' (x25519_public sk)). split_and!.
  - apply (next_token_continue _ _ (arrival (wire frame))); [done| |].
    + unfold next_token_step. cbn [stream_session ended]. rewrite Hrf.
      unfold handle_frame. cbn [frame_type Header_new].
      by rewrite Control_decode_encode by apply x25519_public_len.
    + cbn [stream_session]. rewrite Hr. unfold apply_key_update.
      destruct (DhRatchet_step _ _ _). cbn [ws]. by rewrite (sc_reads _ _ _ Sc).
  - by eapply synced_rotated.
  - destruct Sc. unfold apply_key_update. destruct (DhRatchet_step _ _ _). by split.
Qed.

(** ** The handler, when no send fails *)

(** The world after sending [frames]. *)
Definition after (w : World R) (frames : list bytes) (r : R) : World R :=
  {| incoming := incoming w; outcomes := []; sent := sent w ++ frames; rng := r; pool := pool w |}.

Lemma after_after w l1 l2 r1 r2 : after (after w l1 r1) l2 r2 = after w (l1 ++ l2) r2.
Proof. unfold after. cbn. by rewrite app_assoc. Qed.

Lemma send_ws_ok msg w : outcomes w = [] -> send_ws msg w = (Ok tt, after w [msg] (rng w)).
Proof. unfold send_ws. by intros ->. Qed.

Lemma encode_frame_ok key salt ft fl ep sq pt :
  Z.of_nat (length pt) <= MAX_PLAINTEXT_PER_RECORD ->
  exists f, encode_frame key salt ft fl ep sq pt = Ok f.
Proof.
  intros Hl. unfold encode_frame. rewrite Z.gtb_ltb.
  destruct (Z.ltb_spec MAX_PLAINTEXT_PER_RECORD (Z.of_nat (length pt))); [lia|]. by eexists.
Qed.

(** What the Rust types and the record limit allow a chunk to be. *)
Definition chunk_ok (chunk : TokenChunk) : Prop :=
  Z.of_nat (length (text chunk)) <= MAX_PLAINTEXT_PER_RECORD /\ utf8_valid (text chunk) = true.

Lemma send_chunk_ok c chunk w :
  outcomes w = [] -> chunk_ok chunk -> Service.s2c_seq c + 1 < 2 ^ 63 ->
  exists f, encode_frame (SymRatchet_next_key (Service.s2c c)).1 (ch_salt c) FrameType.Data 0
              (ch_epoch c) (Service.s2c_seq c) (text chunk) = Ok f
    /\ send_chunk c chunk w = (Ok (advance c (chunks_since_update c + 1)), after w [wire f] (rng w)).
Proof.
  intros Ho [Hl _] Hs. unfold send_chunk, advance.
  destruct (SymRatchet_next_key (Service.s2c c)) as [key r2]. cbn [fst snd].
  destruct (encode_frame_ok key (ch_salt c) FrameType.Data 0 (ch_epoch c) (Service.s2c_seq c) _ Hl)
    as [f Hf]. exists f. split; [done|].
  rewrite Hf. unfold bind, lift_core, lift. cbn [map_err].
  rewrite send_ws_ok by done. unfold checked_seq.
  destruct (Z.ltb_spec u64_max (Service.s2c_seq c + 1)); [unfold u64_max in *; lia|]. reflexivity.
Qed.

Lemma key_update_ok c w :
  outcomes w = [] ->
  exists f r', let sk := (x25519_random (rng w)).1 in
    encode_frame (SymRatchet_next_key (Service.s2c c)).1 (ch_salt c) FrameType.Control 0 (ch_epoch c)
      (Service.s2c_seq c) (Control_encode (Control.KeyUpdate (x25519_public sk))) = Ok f
    /\ key_update c w = (Ok (rotated c sk), after w [wire f] r').
Proof.
  intros Ho. unfold key_update, use_rng, bind.
  destruct (x25519_random (rng w)) as [sk r']. cbn [fst snd]. unfold rotated.
  destruct (DhRatchet_step _ _ _) as [nr nk].
  destruct (SymRatchet_next_key (Service.s2c c)) as [key r2]. cbn [fst].
  destruct (encode_frame_ok key (ch_salt c) FrameType.Control 0 (ch_epoch c) (Service.s2c_seq c)
    (Control_encode (Control.KeyUpdate (x25519_public sk)))) as [f Hf].
  { cbn [Control_encode length]. rewrite x25519_public_len. unfold MAX_PLAINTEXT_PER_RECORD. lia. }
  exists f, r'. split; [done|]. rewrite Hf. unfold lift_core, lift. cbn [map_err].
  rewrite send_ws_ok by done. reflexivity.
Qed.

(** ** The streaming loop and its reader *)

(** Sequence number and rotation counter inside the loop. *)
Definition loop_inv (c : Channel) : Prop :=
  chunks_since_update c = Service.s2c_seq c /\ 0 <= Service.s2c_seq c < 2.

Lemma same_client_trans s1 s2 s3 r2 r3 :
  same_client s1 s2 r2 -> same_client s2 s3 r3 -> same_client s1 s3 r3.
Proof. intros [] []. split; congruence. Qed.

(** The results of reading [texts] and then whatever [s'] gives. *)
Definition reads_then (n : nat) (s : Session) (texts : list bytes) (s' : Session) : Prop :=
  next_tokens (length texts + S n) (live s)
  = '(rs, ts) ← next_tokens (S n) (live s'); Some ((Ok ∘ Some <$> texts) ++ rs, ts).

Lemma reads_then_nil n s : reads_then n s [] s.
Proof. unfold reads_then. cbn [length plus fmap list_fmap app]. by destruct (next_tokens _ _) as [[]|]. Qed.

Lemma reads_then_cons n s t s1 texts s' :
  next_token (live s) = Some (Ok (Some t), live s1) -> reads_then n s1 texts s' ->
  reads_then n s (t :: texts) s'.
Proof.
  unfold reads_then. intros Ht Hr. cbn [length plus next_tokens].
  rewrite Ht. cbn [mbind option_bind]. rewrite Hr.
  cbn [next_tokens]. destruct (next_token (live s')) as [[r ts]|]; [|done]. cbn [mbind option_bind].
  by destruct (next_tokens n ts) as [[rs ts']|].
Qed.

Lemma reads_then_skip n s s1 texts s' :
  next_token (live s) = next_token (live s1) -> reads_then n s1 texts s' -> reads_then n s texts s'.
Proof.
  unfold reads_then. intros Ht <-. by rewrite Nat.add_succ_r; cbn [next_tokens]; rewrite Ht.
Qed.

(** The frames of one chunk: the chunk, and a key update when it rotates. *)
Inductive chunk_frames (c : Channel) (chunk : TokenChunk) : list bytes -> Channel -> Prop :=
| frames_plain f :
    encode_frame (SymRatchet_next_key (Service.s2c c)).1 (ch_salt c) FrameType.Data 0 (ch_epoch c)
      (Service.s2c_seq c) (text chunk) = Ok f ->
    chunk_frames c chunk [wire f] (advance c (chunks_since_update c + 1))
| frames_rotate f g sk :
    let c1 := advance c (chunks_since_update c + 1) in
    encode_frame (SymRatchet_next_key (Service.s2c c)).1 (ch_salt c) FrameType.Data 0 (ch_epoch c)
      (Service.s2c_seq c) (text chunk) = Ok f ->
    encode_frame (SymRatchet_next_key (Service.s2c c1)).1 (ch_salt c1) FrameType.Control 0 (ch_epoch c1)
      (Service.s2c_seq c1) (Control_encode (Control.KeyUpdate (x25519_public sk))) = Ok g ->
    chunk_frames c chunk [wire f; wire g] (rotated c1 sk).

(** The frames of a stream. *)
Inductive stream_frames : Channel -> list TokenChunk -> list bytes -> Channel -> Prop :=
| stream_done c : stream_frames c [] [] c
| stream_next c chunk chunks fs1 fs c1 c' :
    chunk_ok chunk -> loop_inv c -> chunk_frames c chunk fs1 c1 -> stream_frames c1 chunks fs c' ->
    stream_frames c (chunk :: chunks) (fs1 ++ fs) c'.

Lemma stream_chunk_frames c chunk w :
  outcomes w = [] -> chunk_ok chunk -> loop_inv c ->
  exists c' frames r', stream_chunk c chunk w = (Ok c', after w frames r') /\ loop_inv c'
    /\ chunk_frames c chunk frames c'.
Proof.
  intros Ho Hc [Hinv Hseq]. unfold stream_chunk.
  destruct (send_chunk_ok c chunk w Ho Hc) as (f & Hf & Hsend); [lia|].
  unfold bind at 1. rewrite Hsend. cbn [chunks_since_update advance].
  change (0 <? KEY_UPDATE_EVERY_N_CHUNKS) with true. cbn [andb].
  set (c1 := advance c (chunks_since_update c + 1)).
  destruct (Z.leb_spec KEY_UPDATE_EVERY_N_CHUNKS (chunks_since_update c + 1)) as [Hup|Hup];
    unfold KEY_UPDATE_EVERY_N_CHUNKS in Hup.
  - destruct (key_update_ok c1 (after w [wire f] (rng w)) eq_refl) as (g & r1 & Hg & Hku).
    cbv zeta in Hg, Hku. set (sk := (x25519_random _).1) in *.
    exists (rotated c1 sk), [wire f; wire g], r1. rewrite Hku, after_after. split_and!; [done| |].
    { unfold rotated. destruct (DhRatchet_step _ _ _). by split; cbn. }
    by apply frames_rotate.
  - exists c1, [wire f], (rng w). split_and!; [done|split; cbn; lia|]. by apply frames_plain.
Qed.

(** A client in step reads the chunk from its frames and is in step afterwards. *)
Lemma chunk_frames_read c chunk frames c' s rest :
  chunk_frames c chunk frames c' -> chunk_ok chunk -> loop_inv c ->
  synced c s -> reads (ws s) = (arrival <$> frames) ++ rest ->
  exists s', synced c' s' /\ same_client s s' rest
    /\ forall n texts s2, reads_then n s' texts s2 -> reads_then n s (text chunk :: texts) s2.
Proof.
  intros HF Hc [Hinv Hseq] Sy Hr. set (c1 := advance c (chunks_since_update c + 1)).
  assert (Hdata : forall f rest, encode_frame (SymRatchet_next_key (Service.s2c c)).1 (ch_salt c)
      FrameType.Data 0 (ch_epoch c) (Service.s2c_seq c) (text chunk) = Ok f ->
    reads (ws s) = arrival (wire f) :: rest ->
    exists s1, synced c1 s1 /\ same_client s s1 rest
      /\ next_token (live s) = Some (Ok (Some (text chunk)), live s1)).
  { intros f rest' Hf Hr'.
    destruct (next_token_data c s _ _ _ (chunks_since_update c + 1) Sy ltac:(lia) (proj2 Hc) Hf Hr')
      as (s1 & ? & ? & ?). by exists s1. }
  destruct HF as [f Hf|f g sk c1' Hf Hg].
  - destruct (Hdata f rest Hf Hr) as (s1 & Sy1 & Sc1 & Ht).
    exists s1. split_and!; [done|done|]. intros n texts s3. by apply reads_then_cons.
  - destruct (Hdata f _ Hf Hr) as (s1 & Sy1 & Sc1 & Ht).
    destruct (next_token_key_update c1 s1 sk _ _ Sy1 ltac:(cbn; lia) Hg (sc_reads _ _ _ Sc1))
      as (s2 & Ht2 & Sy2 & Sc2).
    exists s2. split_and!; [done|eauto using same_client_trans|]. intros n texts s3 Hn.
    eapply reads_then_cons; [done|]. by eapply reads_then_skip.
Qed.

Lemma stream_chunks_frames chunks : forall c o w,
  outcomes w = [] -> Forall chunk_ok chunks -> loop_inv c ->
  exists c' frames r',
    stream_chunks c o chunks w = (Ok (c', foldl record_chunk o chunks), after w frames r')
    /\ loop_inv c' /\ stream_frames c chunks frames c'.
Proof.
  induction chunks as [|chunk chunks IH]; intros c o w Ho Hok Hinv.
  { exists c, [], (rng w). split_and!; [|done|constructor].
    unfold after. rewrite app_nil_r, <- Ho. by destruct w. }
  apply Forall_cons in Hok as [Hc Hok]. cbn [stream_chunks foldl].
  destruct (stream_chunk_frames c chunk w Ho Hc Hinv) as (c1 & fs1 & r1 & Hs1 & Hi1 & Hf1).
  destruct (IH c1 (record_chunk o chunk) (after w fs1 r1) eq_refl Hok Hi1)
    as (c' & fs & r' & Hst & Hi' & Hfs).
  exists c', (fs1 ++ fs), r'. unfold bind. rewrite Hs1, Hst, after_after. split_and!; [done|done|].
  by eapply stream_next.
Qed.

Lemma stream_frames_read c chunks frames c' s rest :
  stream_frames c chunks frames c' -> synced c s -> reads (ws s) = (arrival <$> frames) ++ rest ->
  exists s', synced c' s' /\ same_client s s' rest /\ forall n, reads_then n s (text <$> chunks) s'.
Proof.
  intros HF. revert s. induction HF as [c|c chunk chunks fs1 fs c1 c' Hc Hi Hf HF IH]; intros s Sy Hr.
  { exists s. split_and!; [done|by split|]. intros n. apply reads_then_nil. }
  rewrite fmap_app, <- app_assoc in Hr.
  destruct (chunk_frames_read _ _ _ _ s _ Hf Hc Hi Sy Hr) as (s1 & Sy1 & Sc1 & Hn1).
  destruct (IH s1 Sy1 (sc_reads _ _ _ Sc1)) as (s' & Sy' & Sc' & Hn).
  exists s'. split_and!; [done|eauto using same_client_trans|]. intros n. by apply Hn1.
Qed.
End Channel.

(** ** The handshake, end to end *)

Section Whole.
Context {R : Type} `{!MlKem R, !MlKemLaws R, !X25519 R, !X25519Laws R, !Rng R, !RngLaws R, !Ed25519,
    !Ed25519Laws, !Hkdf, !HkdfLaws, !Sha2, !Sha2Laws, !Aead, !AeadLaws, !Bitflags, !BitflagsLaws,
    !Hex, !HexLaws, !Subtle, !SubtleLaws} `{!Pasta, !PastaLaws}
  `{!Postcard ClientHello, !PostcardLaws ClientHello, !Postcard ServerHello, !PostcardLaws ServerHello,
    !Postcard PreKeyBundle, !PostcardLaws PreKeyBundle, !Postcard Evidence, !PostcardLaws Evidence,
    !Postcard Receipt, !PostcardLaws Receipt, !Postcard ReceiptEnvelope, !PostcardLaws ReceiptEnvelope}
  `{!InferenceEngine E} `{!DebugMessage}.

Lemma complete_ratchet_pk (client : ClientHandshake) sh vf keys :
  ClientHandshake_complete client sh vf = Ok keys ->
  ek_client_ratchet_pk keys = x25519_public (Handshake.client_ratchet_sk client).
Proof.
  unfold ClientHandshake_complete. intros Hc.
  apply result_bind_Ok in Hc as (shello & _ & Hc). case_decide; [done|].
  apply result_bind_Ok in Hc as ([] & _ & Hc). by injection Hc as <-.
Qed.

Lemma evidence_and_sig_ok (state : AppState R E) now rd h :
  exists ev, evidence_and_sig state now rd h
    = Ok (ev, ed25519_sign (id_sk (identity state)) (SIG_DOMAIN_HANDSHAKE ++ h))
    /\ decode_evidence ev = Ok (MockIssuer_issue (attest_issuer (identity state)) rd now).
Proof.
  unfold evidence_and_sig, encode_evidence, decode_evidence.
  destruct (encode_msg_ok (MockIssuer_issue (attest_issuer (identity state)) rd now)) as (ev & He & Hd).
  exists ev. rewrite He. done.
Qed.

(** The client's hello makes the handler answer, and the client derives the
    handler's keys from the answer and finds fresh evidence for them in it. *)
Lemma handshake_runs (state : AppState R E) (rngc : R) nonce now0 b :
  identity_wf (identity state) -> TeeIdentity_build_bundle (identity state) nonce now0 = Some b ->
  exists client hello rngc', ClientHandshake_initiate rngc b = (Ok (client, hello), rngc') /\
  forall r p now_ns now, now_unix now_ns = Ok now ->
    exists server_hello keys sk r',
      (forall inc, accept_handshake state now_ns
         {| incoming := Ok (Binary hello) :: inc; outcomes := []; sent := []; rng := r; pool := p |}
       = (Ok (Channel_new keys sk, now),
          {| incoming := inc; outcomes := []; sent := [server_hello]; rng := r'; pool := p |}))
      /\ ClientHandshake_complete client server_hello
           (check_server_hello (TeeIdentity_id_pk (identity state))) = Ok keys
      /\ decode_evidence (server_attestation_evidence keys)
         = Ok (MockIssuer_issue (attest_issuer (identity state)) (report_data keys) now)
      /\ ek_client_ratchet_pk keys = x25519_public (Handshake.client_ratchet_sk client).
Proof.
  intros [Hspk (r0 & r0' & Hg)] Hb.
  destruct (build_bundle_shape (identity state) nonce now0) as (b' & Hb' & _ & Hs & Hp & _).
  rewrite Hb in Hb'. injection Hb' as <-.
  destruct (initiate_respond_complete r0 r0' rngc _ _ (tee_spk_sk_x25519 (identity state)) b Hg Hp)
    as (client & hello & rngc' & Hi & Ha); [congruence|].
  exists client, hello, rngc'. split; [done|]. intros r p now_ns now Hnow.
  destruct (x25519_random r) as [sk r1] eqn:Hsk. destruct (Ha sk) as (rd & h & Hr).
  specialize (Hr r1 (evidence_and_sig state now) (check_server_hello (TeeIdentity_id_pk (identity state)))).
  destruct (evidence_and_sig_ok state now rd h) as (ev & Hev & Hdec). rewrite Hev in Hr.
  destruct Hr as (sh & keys & Hresp & Hrd & Hse & Hc).
  destruct (ServerHandshake_respond _ r1 hello sk _) as [resp r2] eqn:Hres. cbn [fst] in Hresp. subst resp.
  unfold check_server_hello at 2 in Hc. unfold TeeIdentity_id_pk in Hc at 2.
  rewrite ed25519_sign_verify in Hc. cbn [result_bind] in Hc.
  exists sh, keys, sk, r2.
  split_and!; [|done|by rewrite Hse, Hrd|by eapply complete_ratchet_pk].
  intros inc. unfold accept_handshake, expect_binary, bind, next_event, use_rng, ret, lift_core, lift.
  cbn [incoming head tail rng]. rewrite Hsk, Hnow. cbn [map_err rng]. rewrite Hres. cbn [map_err].
  by rewrite send_ws_ok.
Qed.

(** ** The prompt *)

Lemma send_prompt_ok (s : Session) prompt frame :
  send_errors (ws s) = [] -> Session.c2s_seq s = 0 ->
  encode_frame (SymRatchet_next_key (Session.c2s s)).1 (Session.nonce_salt s) FrameType.Data 0
    (Session.epoch s) 0 prompt = Ok frame ->
  exists s', send s prompt = (Ok (live s'), s') /\ same_client s s' (reads (ws s))
    /\ written (ws s') = written (ws s) ++ [wire frame]
    /\ forall c, synced c s -> synced c s'.
Proof.
  intros Hse Hq Hf. unfold send.
  destruct (SymRatchet_next_key (Session.c2s s)) as [key r2]. cbn [fst] in Hf.
  cbn [Session.nonce_salt Session.epoch Session.c2s_seq set_c2s]. rewrite Hq, Hf.
  cbn [ws set_c2s]. unfold ws_send. rewrite Hse. cbn [head].
  cbn [Session.c2s_seq set_c2s set_ws]. change (u64_max <? 0 + 1) with false.
  eexists. split; [reflexivity|]. split_and!; [by split|done|].
  intros c [S1 S2 S3 S4 S5 S6 S7 S8]. by split.
Qed.

Lemma receive_prompt_ok c (w : World R) inc prompt frame :
  incoming w = Ok (Binary (wire frame)) :: inc -> Service.c2s_seq c = 0 -> is_u32 (ch_epoch c) ->
  utf8_valid prompt = true ->
  encode_frame (SymRatchet_next_key (Service.c2s c)).1 (ch_salt c) FrameType.Data 0 (ch_epoch c) 0 prompt
    = Ok frame ->
  exists c', receive_prompt c w
    = (Ok (prompt, c'), {| incoming := inc; outcomes := outcomes w; sent := sent w; rng := rng w;
                           pool := pool w |})
    /\ (loop_inv c -> loop_inv c') /\ forall s, synced c s -> synced c' s.
Proof.
  intros Hin Hq He Hu Hf.
  unfold receive_prompt, expect_binary, bind, next_event, ret, lift_core, lift. rewrite Hin.
  cbn [head tail]. destruct (SymRatchet_next_key (Service.c2s c)) as [key r2]. cbn [fst] in Hf.
  destruct (encode_decode_frame key (ch_salt c) FrameType.Data 0 (ch_epoch c) 0 prompt frame)
    as [_ Hd]; [by split|done|].
  rewrite Hd. cbn [map_err frame_type seq Header_new].
  rewrite decide_False by (intros Hn; by apply Hn).
  rewrite Hq, decide_False by (intros Hn; by apply Hn).
  unfold checked_seq. change (u64_max <? 0 + 1) with false. unfold ret. rewrite Hu. cbn [negb].
  eexists. split; [reflexivity|]. split; [done|]. intros s [S1 S2 S3 S4 S5 S6 S7 S8]. by split.
Qed.

(** ** End of turn and receipt *)

Lemma send_eot_ok c (w : World R) :
  outcomes w = [] ->
  exists f, encode_frame (SymRatchet_next_key (Service.s2c c)).1 (ch_salt c) FrameType.Data END_OF_TURN
              (ch_epoch c) (Service.s2c_seq c) [] = Ok f
    /\ send_eot c w = (Ok tt, after w [wire f] (rng w)).
Proof.
  intros Ho. unfold send_eot. destruct (SymRatchet_next_key (Service.s2c c)) as [key r2]. cbn [fst].
  destruct (encode_frame_ok key (ch_salt c) FrameType.Data END_OF_TURN (ch_epoch c) (Service.s2c_seq c) [])
    as [f Hf]; [done|].
  exists f. split; [done|]. rewrite Hf. unfold bind, lift_core, lift. cbn [map_err]. by apply send_ws_ok.
Qed.

Lemma length_encode_prompt l : length (encode_prompt_to_fp l) = VEC_DIM.
Proof. done. Qed.

(** The handler's prover, if it has one, does not panic, and the proof verifier
    of the client, if it has one, accepts what the handler sends. *)
Definition proofs_accepted (state : AppState R E) (lv : option LayerVerifier) (sid : SessionId)
    (prompt : bytes) : Prop :=
  let trace := Model_run (verifiable_model state) (encode_prompt_to_fp (sha256 prompt)) in
  forall r cs, Trace_commits trace = Some cs ->
  exists proofs r', layer_proofs state trace sid r = (Some proofs, r')
    /\ match lv with
       | None => True
       | Some verify_layers =>
           verify_layers (commit_bytes cs) proofs sid (weight_commit (identity state)) = Some (Ok tt)
       end.

Lemma proofs_accepted_none (state : AppState R E) lv sid prompt :
  proofs_accepted state lv sid prompt -> proofs_accepted state None sid prompt.
Proof. intros Ha r cs Hc. destruct (Ha r cs Hc) as (ps & r' & Hp & _). by exists ps, r'. Qed.

Lemma decode_commits_ok herr cs :
  Forall (fun c => length c = 32%nat) cs -> decode_commits herr (hex_encode <$> cs) = Ok cs.
Proof.
  induction 1 as [|c cs Hc _ IH]; [done|]. cbn [fmap list_fmap decode_commits].
  unfold decode_hex32. rewrite hex_decode_encode. cbn [ok_or result_bind].
  rewrite decide_True by done. cbn [result_bind]. by rewrite IH.
Qed.

(** An envelope that checks out, commitment by commitment, is accepted. *)
Lemma finalize_ok herr e s env envelope rest commits :
  let r := receipt (signed_receipt envelope) in
  reads (ws s) = arrival env :: rest -> postcard_from_bytes (T := ReceiptEnvelope) env = Ok envelope ->
  verify_receipt (signed_receipt envelope) (tee_receipt_pk s) = Some (Ok tt) ->
  weight_commit_hex r = hex_encode (expected_weight_commit s) -> length (expected_weight_commit s) = 32%nat ->
  activation_commits_hex r = hex_encode <$> commits -> Forall (fun c => length c = 32%nat) commits ->
  match layer_verifier s with
  | None => True
  | Some verify_layers =>
      verify_layers commits (zk_layer_proofs envelope) (session r) (expected_weight_commit s) = Some (Ok tt)
  end ->
  exists s', finalize herr {| ended := e; stream_session := s |} = Some (Ok (signed_receipt envelope), s').
Proof.
  intros r Hread Hdec Hver Hw Hwl Ha Hal Hlv. unfold finalize, read_binary. cbn [stream_session].
  rewrite Hread. cbn [read_loop arrival result_bind]. rewrite Hdec. cbn [map_err tee_receipt_pk set_ws].
  rewrite Hver. unfold check_weights, check_layers, decode_hex32. fold r.
  cbn [mbind option_bind result_bind layer_verifier set_ws expected_weight_commit].
  rewrite Hw, hex_decode_encode. cbn [ok_or result_bind]. rewrite decide_True by done. cbn [result_bind].
  rewrite decide_False by (intros Hn; by apply Hn). destruct (layer_verifier s) as [v|]; [|by eexists].
  rewrite Ha, decode_commits_ok by done. rewrite Hlv. by eexists.
Qed.

(** The receipt the handler sends is the one the client accepts. *)
Lemma send_receipt_ok (state : AppState R E) tenant sid prompt now c o (w : World R) :
  outcomes w = [] -> model_wf (verifiable_model state) -> length (weight_commit (identity state)) = 32%nat ->
  proofs_accepted state None sid prompt ->
  exists env signed cs r', send_receipt state tenant sid prompt now c o w = (Ok tt, after w [env] r')
    /\ receipt signed = build_receipt state tenant sid (sha256 prompt) (approx_token_count prompt) now
                          (ch_epoch c) o (commit_bytes cs)
    /\ Trace_commits (Model_run (verifiable_model state) (encode_prompt_to_fp (sha256 prompt))) = Some cs
    /\ (exists envelope, postcard_to_allocvec envelope = Ok env /\ signed_receipt envelope = signed)
    /\ verify_receipt signed (tee_verifying_key state) = Some (Ok tt)
    /\ forall herr e s rest, reads (ws s) = arrival env :: rest -> tee_receipt_pk s = tee_verifying_key state ->
         expected_weight_commit s = weight_commit (identity state) ->
         proofs_accepted state (layer_verifier s) sid prompt ->
         exists s', finalize herr {| ended := e; stream_session := s |} = Some (Ok signed, s').
Proof.
  intros Ho Hm Hwc Hpr.
  destruct (run_commits (verifiable_model state) (encode_prompt_to_fp (sha256 prompt)) Hm
    (length_encode_prompt _)) as (cs & Hcs & _ & Hlen).
  set (r := build_receipt state tenant sid (sha256 prompt) (approx_token_count prompt) now
              (ch_epoch c) o (commit_bytes cs)).
  assert (Hv : Receipt_validate_structural r = Ok tt).
  { eapply validate_structural_hex; try done; apply sha256_len. }
  destruct (sign_ok (receipt_signer state) r Hv) as (signed & Hsign & Hr & Hver).
  destruct (Hpr (rng w) cs Hcs) as (proofs & r' & Hproofs & _).
  set (envelope := {| signed_receipt := signed; zk_layer_proofs := proofs |}).
  destruct (postcard_ok envelope) as (env & Henc & Hdec).
  exists env, signed, cs, r'. split_and!; [|done|done|by exists envelope|done|].
  - unfold send_receipt, bind, lift_panic, lift_core, lift, use_rng. rewrite Hcs. cbn [ok_or].
    rewrite Hproofs. cbn [ok_or].
    fold r. rewrite Hsign. cbn [ok_or map_err]. fold envelope. rewrite Henc. cbn [map_err].
    unfold send_ws. cbn [outcomes]. by rewrite Ho.
  - intros herr e s rest Hread Hpk Hexp Hacc. destruct (Hacc (rng w) cs Hcs) as (proofs' & r2 & Hp & Hv').
    rewrite Hproofs in Hp. injection Hp as <- <-.
    apply (finalize_ok herr e s env envelope rest (commit_bytes cs)); cbn [signed_receipt envelope]; try done.
    + by rewrite Hpk.
    + by rewrite Hexp, Hr.
    + by rewrite Hexp.
    + by rewrite Hr.
    + rewrite Hr, Hexp. by destruct (layer_verifier s).
Qed.

(** What the accumulators hold after a stream. *)
Lemma record_chunks chunks : forall o,
  let o' := foldl record_chunk o chunks in
  output_bytes o' = output_bytes o ++ concat (text <$> chunks)
  /\ output_token_ids o' = output_token_ids o ++ concat (ids <$> chunks)
  /\ cloaked_count (slot o') = (cloaked_count (slot o) + length chunks)%nat.
Proof.
  induction chunks as [|chunk chunks IH]; intros o; cbn [foldl fmap list_fmap concat length].
  - by rewrite !app_nil_r, Nat.add_0_r.
  - destruct (IH (record_chunk o chunk)) as (-> & -> & ->).
    unfold record_chunk, record_kv, cloaked_count. cbn [output_bytes output_token_ids slot recorded].
    rewrite length_app, <- !app_assoc. cbn [length]. split_and!; [done|done|lia].
Qed.

(** ** The bundle *)

(** The evidence of the bundle for this nonce and time fits the client's cap. *)
Definition evidence_fits (t : TeeIdentity R) (nonce : bytes) (now : Z) : Prop :=
  forall b, TeeIdentity_build_bundle t nonce now = Some b ->
    Z.of_nat (length (bundle_evidence b)) <= MAX_ATTESTATION_EVIDENCE_LEN.

(** What the endpoint answers to a client's nonce is a bundle the client
    fetches and accepts, at any time within the limit. *)
Lemma bundle_fetched (state : AppState R E) origin instant now_ns now reg reg' nonce body get base :
  attest state origin instant now_ns reg (hex_encode nonce) = (Ok body, reg') ->
  evidence_fits (identity state) nonce now -> now_unix now_ns = Ok now ->
  get (trim_end_matches SLASH base ++ lit "/v1/attest?nonce=" ++ hex_encode nonce) = Ok body ->
  exists b, fetch_bundle get base nonce = Ok b
    /\ TeeIdentity_build_bundle (identity state) nonce now = Some b
    /\ forall now', saturating_sub now' now <= NONCE_TTL_DEFAULT_SEC ->
       verify_bundle b nonce (weight_commit (identity state))
         (MockIssuer_verifying_key (attest_issuer (identity state))) now' NONCE_TTL_DEFAULT_SEC
       = Ok (TeeIdentity_id_pk (identity state)).
Proof.
  intros Ha Hfit Hnow Hget. unfold attest in Ha. rewrite hex_decode_encode in Ha.
  case_decide; [done|]. destruct (observe _ _ _ _) as [seen reg1]. injection Ha as Ha _.
  apply result_bind_Ok in Ha as ([] & _ & Ha). rewrite Hnow in Ha. cbn [map_err result_bind] in Ha.
  apply result_bind_Ok in Ha as (b & Hb & Ha). apply ok_or_Ok in Hb.
  destruct (postcard_ok b) as (l & He & Hd). unfold encode_msg in Ha. rewrite He in Ha.
  injection Ha as <-. exists b. split_and!; [|done|].
  - unfold fetch_bundle. rewrite Hget. cbn [result_bind]. rewrite Hd. cbn [map_err result_bind].
    destruct (build_bundle_shape (identity state) nonce now) as (b' & Hb' & _ & _ & Hp & _).
    rewrite Hb in Hb'. injection Hb' as <-.
    unfold PreKeyBundle_validate_structural. rewrite Hp. unfold ml_kem_pk_bytes.
    rewrite mlkem_pk_len, decide_False by (intros Hn; by apply Hn).
    destruct (Z.ltb_spec MAX_ATTESTATION_EVIDENCE_LEN (Z.of_nat (length (bundle_evidence b))));
      [|done].
    apply Hfit in Hb. lia.
  - intros now' Hage. rewrite (verify_built_bundle _ _ _ _ _ _ _ _ _ Hb).
    by rewrite (proj2 (verify_issued _ _ _ _ _)).
Qed.

(** ** Opening the session *)

(** A client session just opened with these keys. *)
Definition opened (sock : ClientSocket) (client : ClientHandshake) (keys : EstablishedKeys)
    (id receipt_pk wc : bytes) (lv : option LayerVerifier) : Session :=
  {| ws := sock;
     Session.s2c := SymRatchet_new (ek_s2c_chain keys);
     Session.nonce_salt := ek_nonce_salt keys;
     Session.epoch := 0;
     s2c_replay := ReplayWindow_new;
     Session.c2s := SymRatchet_new (ek_c2s_chain keys);
     Session.c2s_seq := 0;
     Session.current_root := root keys;
     Session.server_ratchet_pk := Handshake.server_ratchet_pk keys;
     Session.client_ratchet_sk := Handshake.client_ratchet_sk client;
     tee_id_pk := id; tee_receipt_pk := receipt_pk; layer_verifier := lv; expected_weight_commit := wc |}.

Lemma opened_synced sock client keys id pk wc lv sk :
  ek_client_ratchet_pk keys = x25519_public (Handshake.client_ratchet_sk client) ->
  synced (Channel_new keys sk) (opened sock client keys id pk wc lv) /\ loop_inv (Channel_new keys sk).
Proof.
  intros Hpk. split; [|by split; cbn; lia]. split; cbn; try done. by left.
Qed.

Lemma connect_ok get connect bundle_ns hs_ns (rngc : R) base tr pk wc tls lv nonce rng1 b
    bundle_now id client hello rng2 server_hello rest keys issuer now hs_now :
  fill_bytes 32 rngc = (nonce, rng1) -> fetch_bundle get base nonce = Ok b ->
  now_unix bundle_ns = Ok bundle_now ->
  verify_bundle b nonce wc tr bundle_now NONCE_TTL_DEFAULT_SEC = Ok id ->
  ClientHandshake_initiate rng1 b = (Ok (client, hello), rng2) ->
  connect (ws_stream_url base tls)
    = Ok {| reads := arrival server_hello :: rest; send_errors := []; written := [] |} ->
  ClientHandshake_complete client server_hello (check_server_hello id) = Ok keys ->
  decode_evidence (server_attestation_evidence keys) = Ok (MockIssuer_issue issuer (report_data keys) now) ->
  tr = MockIssuer_verifying_key issuer -> now_unix hs_ns = Ok hs_now ->
  saturating_sub hs_now now <= NONCE_TTL_DEFAULT_SEC ->
  connect_with get connect bundle_ns hs_ns rngc base tr pk wc tls lv
  = (Ok (opened {| reads := rest; send_errors := []; written := [hello] |} client keys id pk wc lv), rng2).
Proof.
  intros Hn Hf Hb Hv Hi Hc Hk Hev -> Hh Hage. unfold connect_with.
  rewrite Hn, Hf. cbn [result_bind]. rewrite Hb. cbn [result_bind]. rewrite Hv. cbn [result_bind].
  rewrite Hi. cbn [result_bind]. rewrite Hc. cbn [result_bind].
  unfold ws_send. cbn [head send_errors tail reads written result_bind app].
  unfold read_binary. cbn [reads read_loop arrival send_errors written result_bind].
  rewrite Hk. cbn [result_bind]. rewrite Hev. cbn [result_bind]. rewrite Hh. cbn [result_bind].
  change (verify ?v) with (MockVerifier_verify v).
  by rewrite (proj2 (verify_issued _ _ _ _ _)).
Qed.

(** ** The whole session *)

Definition initial_output (sl : SessionSlot) : Output :=
  {| slot := sl; kv_position := 0; output_bytes := []; output_token_ids := []; output_token_total := 0 |}.

(** What the handler sends for a stream of chunks: their frames, the end of
    turn, and an envelope with a receipt signed by it. *)
Inductive answered (state : AppState R E) (c : Channel) (chunks : list TokenChunk) (signed : SignedReceipt)
  : list bytes -> Prop :=
| answered_with c1 fs c2 f envelope env :
    (forall s, synced c s -> synced c1 s) -> stream_frames c1 chunks fs c2 -> loop_inv c2 ->
    encode_frame (SymRatchet_next_key (Service.s2c c2)).1 (ch_salt c2) FrameType.Data END_OF_TURN
      (ch_epoch c2) (Service.s2c_seq c2) [] = Ok f ->
    postcard_to_allocvec envelope = Ok env -> signed_receipt envelope = signed ->
    verify_receipt signed (tee_verifying_key state) = Some (Ok tt) ->
    answered state c chunks signed (fs ++ [wire f; env]).

(** The handler from the prompt on: what it sends is what the client reads. *)
Lemma session_body (state : AppState R E) tenant sid prompt now c sl frame (w : World R) inc chunks :
  incoming w = Ok (Binary (wire frame)) :: inc -> outcomes w = [] -> Service.c2s_seq c = 0 -> ch_epoch c = 0 ->
  loop_inv c -> utf8_valid prompt = true ->
  encode_frame (SymRatchet_next_key (Service.c2s c)).1 (ch_salt c) FrameType.Data 0 (ch_epoch c) 0 prompt
    = Ok frame ->
  engine_run (engine state) prompt = chunks -> Forall chunk_ok chunks ->
  model_wf (verifiable_model state) -> length (weight_commit (identity state)) = 32%nat ->
  proofs_accepted state None sid prompt ->
  exists msgs signed ep cs r',
    (let! (prompt_bytes, c) := receive_prompt c in
     let! (c, o) := stream_chunks c (initial_output sl) (engine_run (engine state) prompt_bytes) in
     let! _ := send_eot c in
     send_receipt state tenant sid prompt_bytes now c o) w
    = (Ok tt, {| incoming := inc; outcomes := []; sent := sent w ++ msgs; rng := r'; pool := pool w |})
    /\ receipt signed = build_receipt state tenant sid (sha256 prompt) (approx_token_count prompt) now ep
                          (foldl record_chunk (initial_output sl) chunks) (commit_bytes cs)
    /\ answered state c chunks signed msgs
    /\ forall s herr rest, synced c s -> reads (ws s) = (arrival <$> msgs) ++ rest ->
       tee_receipt_pk s = tee_verifying_key state ->
       expected_weight_commit s = weight_commit (identity state) ->
       proofs_accepted state (layer_verifier s) sid prompt ->
       exists ts' s', next_tokens (length chunks + 1) (live s)
           = Some ((Ok ∘ Some <$> (text <$> chunks)) ++ [Ok None], ts')
         /\ finalize herr ts' = Some (Ok signed, s').
Proof.
  intros Hin Ho Hq He Hinv Hu Hf Hrun Hok Hm Hwc Hpr.
  destruct (receive_prompt_ok c w inc prompt frame Hin Hq) as (c1 & Hp & Hi1 & Hs1);
    [by rewrite He|done|done|].
  unfold bind at 1. rewrite Hp, Hrun.
  set (w1 := {| incoming := inc; outcomes := outcomes w; sent := sent w; rng := rng w; pool := pool w |}).
  destruct (stream_chunks_frames chunks c1 (initial_output sl) w1 Ho Hok (Hi1 Hinv))
    as (c2 & fs & r2 & Hst & Hi2 & Hfs).
  unfold bind at 1. rewrite Hst.
  destruct (send_eot_ok c2 (after w1 fs r2) eq_refl) as (f & Hfe & Heot).
  unfold bind at 1. rewrite Heot.
  destruct (send_receipt_ok state tenant sid prompt now c2 (foldl record_chunk (initial_output sl) chunks)
    (after (after w1 fs r2) [wire f] r2) eq_refl Hm Hwc Hpr) as (env & signed & cs & r3 & Hsr & Hr & _ & (envelope & Henv & Hsig) & Hver & Hfin).
  exists (fs ++ [wire f; env]), signed, (ch_epoch c2), cs, r3. cbn [rng after] in Hsr |- *.
  rewrite Hsr, !after_after. split_and!; [done|done|by eapply answered_with|].
  intros s herr rest Sy Hr1 Hpk Hexp Hacc. rewrite fmap_app, <- app_assoc in Hr1.
  destruct (stream_frames_read _ _ _ _ s _ Hfs (Hs1 s Sy) Hr1) as (s2 & Sy2 & Sc2 & Hn).
  destruct (next_token_eot c2 s2 f (arrival env :: rest) Sy2) as (s3 & Ht & Sc3);
    [destruct Hi2; lia|done|by rewrite (sc_reads _ _ _ Sc2)|].
  destruct (same_client_trans _ _ _ _ _ Sc2 Sc3) as [Q1 Q2 Q3 Q4].
  destruct (Hfin herr true s3 rest Q1) as (s4 & Hs4); [congruence|congruence|by rewrite Q3|].
  eexists _, s4. split; [|exact Hs4].
  specialize (Hn O). unfold reads_then in Hn. rewrite length_fmap in Hn. rewrite Hn.
  cbn [next_tokens]. by rewrite Ht.
Qed.

Lemma allocate_empty (p p' : TenantPool) tenant sid instant (r r' : R) sl :
  allocate p tenant sid instant r = (sl, p', r') -> cloaked_count sl = O.
Proof.
  unfold allocate. destruct (state_for p tenant instant r) as [[st p1] r1]. by intros [= <- _ _].
Qed.

(** The receipt that a session ends with. *)
Definition receipt_for (state : AppState R E) (tenant : TenantId) (sid : SessionId) (prompt : bytes)
    (chunks : list TokenChunk) (r : Receipt) : Prop :=
  Receipts.tenant r = tenant /\ session r = sid
  /\ weight_commit_hex r = hex_encode (weight_commit (identity state))
  /\ output_digest_hex r
     = hex_encode (compute_token_id_digest (sha256 prompt) (concat (ids <$> chunks)))
  /\ output_string_digest_hex r
     = hex_encode (compute_output_string_digest (sha256 prompt) (concat (text <$> chunks)))
  /\ kv_blocks_cloaked r = Z.of_nat (length chunks) mod 2 ^ 32.

(** The TEE's side of a session with a client whose hello is for its bundle:
    the handler reads hello and prompt and answers, and the client's side of
    the handshake gives the handler's keys. *)
Lemma session_runs (state : AppState R E) tenant nanos addr instant now_ns now (tee_rng rng1 : R) tenants
    nonce attest_now b prompt chunks inc :
  let sid := SessionId_random nanos addr in
  identity_wf (identity state) -> TeeIdentity_build_bundle (identity state) nonce attest_now = Some b ->
  model_wf (verifiable_model state) -> length (weight_commit (identity state)) = 32%nat ->
  Z.of_nat (length prompt) <= MAX_PLAINTEXT_PER_RECORD -> utf8_valid prompt = true ->
  engine_run (engine state) prompt = chunks -> Forall chunk_ok chunks -> now_unix now_ns = Ok now ->
  proofs_accepted state None sid prompt ->
  exists client hello rng2 sh keys sk frame msgs signed w',
    ClientHandshake_initiate rng1 b = (Ok (client, hello), rng2)
    /\ handle_session state tenant nanos addr instant now_ns
         {| incoming := Ok (Binary hello) :: Ok (Binary (wire frame)) :: inc; outcomes := []; sent := [];
            rng := tee_rng; pool := tenants |} = (Ok tt, w')
    /\ incoming w' = inc /\ sent w' = sh :: msgs
    /\ ClientHandshake_complete client sh (check_server_hello (TeeIdentity_id_pk (identity state))) = Ok keys
    /\ decode_evidence (server_attestation_evidence keys)
       = Ok (MockIssuer_issue (attest_issuer (identity state)) (report_data keys) now)
    /\ ek_client_ratchet_pk keys = x25519_public (Handshake.client_ratchet_sk client)
    /\ encode_frame (SymRatchet_next_key (SymRatchet_new (ek_c2s_chain keys))).1 (ek_nonce_salt keys)
         FrameType.Data 0 0 0 prompt = Ok frame
    /\ answered state (Channel_new keys sk) chunks signed msgs
    /\ receipt_for state tenant sid prompt chunks (receipt signed)
    /\ forall s herr rest, synced (Channel_new keys sk) s -> reads (ws s) = (arrival <$> msgs) ++ rest ->
       tee_receipt_pk s = tee_verifying_key state ->
       expected_weight_commit s = weight_commit (identity state) ->
       proofs_accepted state (layer_verifier s) sid prompt ->
       exists ts' s', next_tokens (length chunks + 1) (live s)
           = Some ((Ok ∘ Some <$> (text <$> chunks)) ++ [Ok None], ts')
         /\ finalize herr ts' = Some (Ok signed, s').
Proof.
  intros sid Hid Hb Hm Hwc Hpl Hpu Hrun Hok Hnow Hpr.
  destruct (handshake_runs state rng1 nonce attest_now b Hid Hb) as (client & hello & rng2 & Hi & Hacc2).
  destruct (allocate tenants tenant sid instant tee_rng) as [[sl tenants'] r1] eqn:Hal.
  destruct (Hacc2 r1 tenants' now_ns now Hnow) as (sh & keys & sk & r2 & Hhs & Hcomp & Hev & Hpk).
  set (c := Channel_new keys sk).
  destruct (encode_frame_ok (SymRatchet_next_key (Service.c2s c)).1 (ch_salt c) FrameType.Data 0 0 0
    prompt Hpl) as [frame Hframe].
  destruct (session_body state tenant sid prompt now c sl frame
    {| incoming := Ok (Binary (wire frame)) :: inc; outcomes := []; sent := [sh]; rng := r2; pool := tenants' |}
    inc chunks) as (msgs & signed & ep & cs & r3 & Hbody & Hrec & Hans & Hclient); try done.
  eexists client, hello, rng2, sh, keys, sk, frame, msgs, signed, _.
  split; [done|]. split.
  { unfold handle_session, bind at 1, use_pool. fold sid. cbn [pool rng]. rewrite Hal.
    cbn [incoming outcomes sent]. unfold bind at 1. rewrite Hhs. exact Hbody. }
  split_and!; [done..| |done].
  rewrite Hrec. destruct (record_chunks chunks (initial_output sl)) as (Hb1 & Hb2 & Hb3).
  unfold receipt_for, build_receipt. cbn [Receipts.tenant session weight_commit_hex output_digest_hex
    output_string_digest_hex kv_blocks_cloaked]. rewrite Hb1, Hb2, Hb3.
  split_and!; try done. cbn [initial_output slot].
  by rewrite (allocate_empty _ _ _ _ _ _ _ _ Hal).
Qed.

(** The whole session, from the bundle to the receipt. *)
Lemma session_completes (state : AppState R E) tenant nanos addr instant now_ns now
    (tee_rng rngc : R) tenants origin instant0 attest_ns attest_now reg reg' body get base tls
    bundle_ns bundle_now hs_ns hs_now lv herr prompt chunks inc :
  let sid := SessionId_random nanos addr in
  let nonce := (fill_bytes 32 rngc).1 in
  identity_wf (identity state) -> evidence_fits (identity state) nonce attest_now ->
  model_wf (verifiable_model state) -> length (weight_commit (identity state)) = 32%nat ->
  Z.of_nat (length prompt) <= MAX_PLAINTEXT_PER_RECORD -> utf8_valid prompt = true ->
  engine_run (engine state) prompt = chunks -> Forall chunk_ok chunks ->
  attest state origin instant0 attest_ns reg (hex_encode nonce) = (Ok body, reg') ->
  get (trim_end_matches SLASH base ++ lit "/v1/attest?nonce=" ++ hex_encode nonce) = Ok body ->
  now_unix attest_ns = Ok attest_now -> now_unix bundle_ns = Ok bundle_now ->
  now_unix now_ns = Ok now -> now_unix hs_ns = Ok hs_now ->
  saturating_sub bundle_now attest_now <= NONCE_TTL_DEFAULT_SEC ->
  saturating_sub hs_now now <= NONCE_TTL_DEFAULT_SEC ->
  proofs_accepted state lv sid prompt ->
  exists hello prompt_frame msgs w' signed,
    handle_session state tenant nanos addr instant now_ns
      {| incoming := Ok (Binary hello) :: Ok (Binary prompt_frame) :: inc; outcomes := []; sent := [];
         rng := tee_rng; pool := tenants |} = (Ok tt, w')
    /\ incoming w' = inc /\ sent w' = msgs /\ receipt_for state tenant sid prompt chunks (receipt signed) /\
    forall connect rest,
    connect (ws_stream_url base tls)
      = Ok {| reads := (arrival <$> msgs) ++ rest; send_errors := []; written := [] |} ->
    exists s rngc' ts s1 ts' s2,
      connect_with get connect bundle_ns hs_ns rngc base
        (MockIssuer_verifying_key (attest_issuer (identity state))) (tee_verifying_key state)
        (weight_commit (identity state)) tls lv = (Ok s, rngc')
      /\ tee_id_pk s = TeeIdentity_id_pk (identity state)
      /\ send s prompt = (Ok ts, s1) /\ written (ws s1) = [hello; prompt_frame]
      /\ next_tokens (length chunks + 1) ts
         = Some ((Ok ∘ Some <$> (text <$> chunks)) ++ [Ok None], ts')
      /\ finalize herr ts' = Some (Ok signed, s2).
Proof.
  intros sid nonce Hid Hfit Hm Hwc Hpl Hpu Hrun Hok Hatt Hget Han Hbn Hnow Hhn Hage1 Hage2 Hacc.
  destruct (bundle_fetched _ _ _ _ _ _ _ _ _ _ _ Hatt Hfit Han Hget) as (b & Hfetch & Hb & Hver).
  subst nonce. destruct (fill_bytes 32 rngc) as [nonce rng1] eqn:Hn. cbn [fst] in *.
  destruct (session_runs state tenant nanos addr instant now_ns now tee_rng rng1 tenants nonce attest_now b
    prompt chunks inc) as (client & hello & rng2 & sh & keys & sk & frame & msgs & signed & w' & Hi & Hrun' & Hin
    & Hsent & Hcomp & Hev & Hpk & Hframe & _ & Hrec & Hclient);
    [done..|by eapply proofs_accepted_none|].
  exists hello, (wire frame), (sh :: msgs), w', signed. split_and!; [done..|]. intros connect rest Hconn.
  change ((arrival <$> sh :: msgs) ++ rest) with (arrival sh :: ((arrival <$> msgs) ++ rest)) in Hconn.
  set (s := opened {| reads := (arrival <$> msgs) ++ rest; send_errors := []; written := [hello] |} client keys
    (TeeIdentity_id_pk (identity state)) (tee_verifying_key state) (weight_commit (identity state)) lv).
  destruct (send_prompt_ok s prompt frame eq_refl eq_refl Hframe) as (s1 & Hsend & Sc1 & Hwr & Hsy).
  destruct (opened_synced {| reads := (arrival <$> msgs) ++ rest; send_errors := []; written := [hello] |} client keys
    (TeeIdentity_id_pk (identity state)) (tee_verifying_key state) (weight_commit (identity state)) lv sk Hpk)
    as [Sy _]. destruct Sc1 as [Q1 Q2 Q3 Q4].
  destruct (Hclient s1 herr rest (Hsy _ Sy) Q1 Q2 Q4) as (ts' & s2 & Hnt & Hfin); [by rewrite Q3|].
  exists s, rng2, (live s1), s1, ts', s2.
  split_and!; first [done | eapply connect_ok; try done; by apply Hver].
Qed.

(** C1. A whole session works.  Take a TEE whose model is well-formed, a
    client that trusts its attestation key, its receipt key and its weight
    commitment, a bundle the TEE's endpoint answered to the client's nonce,
    clocks within the freshness limit, an engine whose chunks fit a
    record, and layer proofs, if any, that the client's verifier accepts.  Then there is a run in which the client sends its hello and its
    prompt frame, the handler finishes without error having read exactly
    those two messages, and the client, reading what the handler sent
    (whatever follows in either direction), opens the session, gets from [next_token] precisely the engine's
    chunks in order, across every key rotation, then the end of turn, and
    from [finalize] a receipt signed by the TEE for this tenant, session,
    prompt, token sequence, output text and model. *)
Theorem session_end_to_end (state : AppState R E) tenant nanos addr instant now_ns now
    (tee_rng rngc : R) tenants origin instant0 attest_ns attest_now reg reg' body get base tls
    bundle_ns bundle_now hs_ns hs_now lv herr prompt chunks inc :
  let sid := SessionId_random nanos addr in
  let nonce := (fill_bytes 32 rngc).1 in
  identity_wf (identity state) -> evidence_fits (identity state) nonce attest_now ->
  model_wf (verifiable_model state) -> length (weight_commit (identity state)) = 32%nat ->
  Z.of_nat (length prompt) <= MAX_PLAINTEXT_PER_RECORD -> utf8_valid prompt = true ->
  engine_run (engine state) prompt = chunks -> Forall chunk_ok chunks ->
  attest state origin instant0 attest_ns reg (hex_encode nonce) = (Ok body, reg') ->
  get (trim_end_matches SLASH base ++ lit "/v1/attest?nonce=" ++ hex_encode nonce) = Ok body ->
  now_unix attest_ns = Ok attest_now -> now_unix bundle_ns = Ok bundle_now ->
  now_unix now_ns = Ok now -> now_unix hs_ns = Ok hs_now ->
  saturating_sub bundle_now attest_now <= NONCE_TTL_DEFAULT_SEC ->
  saturating_sub hs_now now <= NONCE_TTL_DEFAULT_SEC ->
  proofs_accepted state lv sid prompt ->
  exists hello prompt_frame msgs w',
    handle_session state tenant nanos addr instant now_ns
      {| incoming := Ok (Binary hello) :: Ok (Binary prompt_frame) :: inc; outcomes := []; sent := [];
         rng := tee_rng; pool := tenants |} = (Ok tt, w')
    /\ incoming w' = inc /\ sent w' = msgs /\
    forall connect rest,
    connect (ws_stream_url base tls)
      = Ok {| reads := (arrival <$> msgs) ++ rest; send_errors := []; written := [] |} ->
    exists s rngc' ts s1 ts' signed s2,
      connect_with get connect bundle_ns hs_ns rngc base
        (MockIssuer_verifying_key (attest_issuer (identity state))) (tee_verifying_key state)
        (weight_commit (identity state)) tls lv = (Ok s, rngc')
      /\ tee_id_pk s = TeeIdentity_id_pk (identity state)
      /\ send s prompt = (Ok ts, s1) /\ written (ws s1) = [hello; prompt_frame]
      /\ next_tokens (length chunks + 1) ts
         = Some ((Ok ∘ Some <$> (text <$> chunks)) ++ [Ok None], ts')
      /\ finalize herr ts' = Some (Ok signed, s2)
      /\ let r := receipt signed in
         Receipts.tenant r = tenant /\ session r = sid
         /\ weight_commit_hex r = hex_encode (weight_commit (identity state))
         /\ output_digest_hex r
            = hex_encode (compute_token_id_digest (sha256 prompt) (concat (ids <$> chunks)))
         /\ output_string_digest_hex r
            = hex_encode (compute_output_string_digest (sha256 prompt) (concat (text <$> chunks)))
         /\ kv_blocks_cloaked r = Z.of_nat (length chunks) mod 2 ^ 32.
Proof.
  intros sid nonce Hid Hfit Hm Hwc Hpl Hpu Hrun Hok Hatt Hget Han Hbn Hnow Hhn Hage1 Hage2 Hacc.
  destruct (session_completes state tenant nanos addr instant now_ns now tee_rng rngc tenants origin instant0
    attest_ns attest_now reg reg' body get base tls bundle_ns bundle_now hs_ns hs_now lv herr prompt chunks inc)
    as (hello & frame & msgs & w' & signed & Hh & Hin & Hs & Hrec & Hc); [done..|].
  exists hello, frame, msgs, w'. split_and!; [done..|]. intros connect rest Hconn.
  destruct (Hc connect rest Hconn) as (s & r' & ts & s1 & ts' & s2 & Hc1 & Hc2 & Hc3 & Hc4 & Hc5 & Hc6).
  exists s, r', ts, s1, ts', signed, s2. split_and!; first [done | apply Hrec].
Qed.
End Whole.

(** The echo engine with chunks of at most 5461 bytes meets the premise of
    [session_end_to_end] on every prompt. *)
Lemma echo_chunks_ok (e : EchoEngine) prompt :
  3 * Z.of_nat (`e) <= MAX_PLAINTEXT_PER_RECORD -> Forall chunk_ok (engine_run e prompt).
Proof.
  intros Hs. destruct e as [n Hn]. cbn [engine_run EchoEngine_engine proj1_sig] in *.
  destruct (mock_engine_runs (MockEngine_new n) prompt eq_refl Hn) as (chunks & raws & -> & _ & _ & Hc & _).
  cbn [default]. eapply Forall_impl; [exact Hc|]. intros c (V & _ & L). cbn [chunk_size MockEngine_new] in L.
  split; [lia|done].
Qed.

(** ** A concrete session *)

Definition demo_engine : Type := bytes -> list TokenChunk.
#[export] Instance demo_engine_run : InferenceEngine demo_engine := {| engine_run f p := f p |}.
#[export] Instance demo_debug : DebugMessage := {| debug_message _ := [] |}.

Definition demo_chunks : list TokenChunk :=
  [{| ids := [101; 102]; text := lit "echo" |}; {| ids := [58]; text := lit ": " |};
   {| ids := [7]; text := lit "hi" |}].

Definition demo_app : AppState Z demo_engine := {|
  identity := (TeeIdentity_random 3 (replicate 32 Byte.x05)).1;
  engine := fun _ => demo_chunks;
  receipt_signer := {| key := [Byte.x07] |};
  model_name := lit "demo";
  verifiable_model :=
    {| layers := replicate 8 {| w := replicate 8 (replicate 8 true); b := replicate 8 false |};
       model_weight_commit := [] |};
  layer_prover := None;
|}.

Definition demo_ns : Z := 1700000000 * 10 ^ 9.
Definition demo_nonce : bytes := (fill_bytes 32 77).1.
Definition demo_answer := attest demo_app 0 demo_ns demo_ns NonceRegistry_new (hex_encode demo_nonce).
Definition demo_body : bytes := match demo_answer.1 with Ok l => l | Err _ => [] end.

Lemma demo_answer_ok : demo_answer.1 = Ok demo_body.
Proof.
  assert (H : is_ok demo_answer.1 = true) by (vm_compute; reflexivity).
  unfold demo_body. destruct (demo_answer.1) as [l|e]; [reflexivity|discriminate H].
Qed.

Lemma demo_evidence_fits : evidence_fits (identity demo_app) demo_nonce 1700000000.
Proof.
  intros b Hb.
  assert (E : (match TeeIdentity_build_bundle (identity demo_app) demo_nonce 1700000000 with
               | Some b => Z.of_nat (length (bundle_evidence b)) <=? MAX_ATTESTATION_EVIDENCE_LEN
               | None => false end) = true) by (vm_compute; reflexivity).
  rewrite Hb in E. apply Z.leb_le, E.
Qed.

Lemma demo_chunks_ok : Forall chunk_ok demo_chunks.
Proof. repeat (apply Forall_cons_2; [split; vm_compute; congruence|]). apply Forall_nil_2. Qed.

Lemma session_end_to_end_witness :
  exists hello prompt_frame w',
    handle_session demo_app (lit "acme") 5 6 7 demo_ns
      {| incoming := [Ok (Binary hello); Ok (Binary prompt_frame)]; outcomes := []; sent := [];
         rng := 1000; pool := (TenantPool_random 9).1 |} = (Ok tt, w')
    /\ incoming w' = [].
Proof.
  destruct (session_end_to_end demo_app (lit "acme") 5 6 7 demo_ns 1700000000 1000 77
    (TenantPool_random 9).1 0 demo_ns demo_ns 1700000000 NonceRegistry_new demo_answer.2 demo_body
    (fun _ => Ok demo_body) (lit "http://gw") false demo_ns 1700000000 demo_ns 1700000000 None
    (fun _ => []) (lit "hi") demo_chunks []) as (hello & frame & msgs & w' & Hrun & Hin & _).
  - apply identity_random_wf.
  - exact demo_evidence_fits.
  - exact demo_model_wf.
  - vm_compute. reflexivity.
  - vm_compute. congruence.
  - vm_compute. reflexivity.
  - reflexivity.
  - exact demo_chunks_ok.
  - exact (eq_trans (surjective_pairing demo_answer) (f_equal2 pair demo_answer_ok eq_refl)).
  - reflexivity.
  - vm_compute. reflexivity.
  - vm_compute. reflexivity.
  - vm_compute. reflexivity.
  - vm_compute. reflexivity.
  - vm_compute. congruence.
  - vm_compute. congruence.
  - intros r cs Hcs. exists [], r. split; [reflexivity|exact I].
  - exists hello, frame, w'. split; [exact Hrun|exact Hin].
Defined.
