(* ===== verification/Tls.v ===== *)
(** * ullm-tls and the client's pinning

    [crates/ullm-tls/src/lib.rs] and [TlsPinning] of
    [crates/ullm-client/src/session.rs].  rustls, rcgen and the PQ provider are
    third-party: certificates are made by an interface, a provider is its
    list of key-exchange groups, and a configuration is what the builders are
    given.  A TLS 1.3 client accepts a server exactly when the verifier it is
    configured with accepts the certificate and the handshake signature.

    Proved: what the pinned client accepts, and that strict configurations
    negotiate only the hybrid group. *)

From S2P Require Import Prelude RustStd RustText RustNet Crates Toy.
From Stdlib Require Import Lia.

Local Open Scope Z_scope.

(** ** Certificates *)

Inductive TlsError := CertGen (e : bytes) | Pem (e : bytes) | Rustls (e : bytes).

Record SelfSignedCert := {
  cert_der : bytes;
  key_der_pkcs8 : bytes;
  cert_pem : bytes;
  key_pem : bytes;
  fingerprint : bytes;
  sans : list bytes;
}.

Definition DEFAULT_CERT_VALIDITY_HOURS : Z := 24.

(** rcgen and time: parameters from names, a certificate from parameters, a
    common name, a validity window and a key; adding seconds to a date can
    leave the range of dates, which panics. *)
Class Rcgen (R : Type) := {
  CertificateParams : Type;
  KeyPair : Type;
  params_new : list bytes -> result CertificateParams bytes;
  key_generate : R -> result KeyPair bytes * R;
  self_signed : CertificateParams -> bytes -> Z -> Z -> KeyPair -> result (bytes * bytes) bytes; (** DER, PEM *)
  serialize_pem : KeyPair -> bytes;
  serialize_der : KeyPair -> bytes;
  date_add : Z -> Z -> option Z;
}.

(** [as i64] of a [u64]. *)
Definition as_i64 (z : Z) : Z := if z <? 2 ^ 63 then z else z - 2 ^ 64.

Section Certs.
Context {R : Type} `{!Rcgen R, !Sha2}.

(** [None] is the panic of the date arithmetic. *)
Definition generate_with_validity (subject_alt_names : list bytes) (validity now : Z) (rng : R)
  : option (result SelfSignedCert TlsError * R) :=
  match params_new subject_alt_names with
  | Err e => Some (Err (CertGen e), rng)
  | Ok params =>
      not_after ← date_add now (as_i64 validity);
      let '(kp, rng) := key_generate rng in
      Some (
        let? kp := map_err CertGen kp in
        let? (der, pem) := map_err CertGen (self_signed params (lit "ullm-dev") now not_after kp) in
        Ok {| cert_der := der; key_der_pkcs8 := serialize_der kp; cert_pem := pem;
              key_pem := serialize_pem kp; fingerprint := sha256 der; sans := subject_alt_names |}, rng)
  end.

Definition generate (subject_alt_names : list bytes) (now : Z) (rng : R) :=
  generate_with_validity subject_alt_names (DEFAULT_CERT_VALIDITY_HOURS * 3600) now rng.
End Certs.

(** ** The pinning verifier *)

Inductive ServerName := DnsName (name : bytes) | IpAddress (addr : IpAddr) | OtherName.

Record FingerprintVerifier := { expected : bytes; expected_sans : list bytes }.

Definition constant_eq (a b : bytes) : bool :=
  foldl (fun diff i => Z.lor diff (Z.lxor (uval (a !!! i)) (uval (b !!! i)))) 0 (List.seq 0 32) =? 0.

Definition lowercase (l : bytes) : bytes := to_ascii_lowercase <$> l.

Definition presented (n : ServerName) : option bytes :=
  match n with
  | DnsName d => Some (lowercase d)
  | IpAddress a => Some (lowercase (ip_display a))
  | OtherName => None
  end.

Definition sni_allowed (v : FingerprintVerifier) (server_name : ServerName) : bool :=
  if bool_decide (expected_sans v = []) then true else
  match presented server_name with
  | None => false
  | Some p => existsb (fun s => bool_decide (lowercase s = p)) (expected_sans v)
  end.

Section Verifier.
Context `{!Sha2} (debug_name : ServerName -> bytes).

(** The intermediates, the OCSP response and the time are not looked at. *)
Definition verify_server_cert (v : FingerprintVerifier) (end_entity : bytes)
    (intermediates : list bytes) (server_name : ServerName) (ocsp : bytes) (now : Z) : result unit bytes :=
  let got := sha256 end_entity in
  if negb (constant_eq got (expected v)) then Err (lit "pinned cert fingerprint mismatch")
  else if negb (sni_allowed v server_name) then
    Err (lit "TLS SNI " ++ debug_name server_name ++ lit " not in pinned SAN list")
  else Ok tt.
End Verifier.

Definition verify_tls12_signature (v : FingerprintVerifier) (message cert dss : bytes) : result unit bytes :=
  Err (lit "TLS 1.2 not supported").

Definition verify_tls13_signature (v : FingerprintVerifier) (message cert dss : bytes) : result unit bytes :=
  Ok tt.

Inductive SignatureScheme :=
| ECDSA_NISTP256_SHA256 | ECDSA_NISTP384_SHA384 | ED25519 | RSA_PSS_SHA256 | RSA_PSS_SHA384.

Definition supported_verify_schemes (v : FingerprintVerifier) : list SignatureScheme :=
  [ECDSA_NISTP256_SHA256; ECDSA_NISTP384_SHA384; ED25519; RSA_PSS_SHA256; RSA_PSS_SHA384].

(** ** Configurations *)

Inductive KxGroup := X25519MLKEM768 | OtherGroup (named_group : Z).

#[export] Instance KxGroup_eq_dec : EqDecision KxGroup.
Proof. solve_decision. Defined.

Record CryptoProvider := { kx_groups : list KxGroup }.

Record ServerConfig := {
  server_provider : CryptoProvider;
  server_certs : list bytes;
  server_key : bytes;
}.

Inductive CertVerification := Pinned (v : FingerprintVerifier) | Rooted (roots : list bytes).

Record ClientConfig := { client_provider : CryptoProvider; verification : CertVerification }.

(** [rustls_post_quantum::provider], and what the builders check: the versions
    against the provider, the certificate against its key, a root. *)
Class RustlsBuilder := {
  pq_default : CryptoProvider;
  check_versions : CryptoProvider -> result unit bytes;
  check_single_cert : CryptoProvider -> bytes -> bytes -> result unit bytes;
  check_root : bytes -> result unit bytes;
}.

Section Configs.
Context `{!RustlsBuilder}.

Definition pq_provider : CryptoProvider := pq_default.
Definition strict_pq_provider : CryptoProvider := {| kx_groups := [X25519MLKEM768] |}.

Definition build_server (p : CryptoProvider) (cert : SelfSignedCert) : result ServerConfig TlsError :=
  let? _ := map_err Rustls (check_versions p) in
  let? _ := map_err Rustls (check_single_cert p (cert_der cert) (key_der_pkcs8 cert)) in
  Ok {| server_provider := p; server_certs := [cert_der cert]; server_key := key_der_pkcs8 cert |}.

Definition server_config (cert : SelfSignedCert) := build_server pq_provider cert.
Definition server_config_strict_pq (cert : SelfSignedCert) := build_server strict_pq_provider cert.

Definition build_pinned (p : CryptoProvider) (expected_fingerprint : bytes) (names : list bytes)
  : result ClientConfig TlsError :=
  let? _ := map_err Rustls (check_versions p) in
  Ok {| client_provider := p;
        verification := Pinned {| expected := expected_fingerprint; expected_sans := names |} |}.

Definition client_config_pinned fp names := build_pinned pq_provider fp names.
Definition client_config_pinned_strict_pq fp names := build_pinned strict_pq_provider fp names.

Definition client_config_with_root (root_cert_der : bytes) : result ClientConfig TlsError :=
  let? _ := map_err Rustls (check_root root_cert_der) in
  let? _ := map_err Rustls (check_versions pq_provider) in
  Ok {| client_provider := pq_provider; verification := Rooted [root_cert_der] |}.

(** ** TlsPinning of the client; [None] is a failed [expect] *)

Record TlsPinning := { config : ClientConfig; server_name : bytes }.

Definition expect_pinning (r : result ClientConfig TlsError) (name : bytes) : option TlsPinning :=
  match r with Ok c => Some {| config := c; server_name := name |} | Err _ => None end.

Definition pin (name fp : bytes) := expect_pinning (client_config_pinned fp [name]) name.
Definition pin_multi (name fp : bytes) (allowed : list bytes) :=
  expect_pinning (client_config_pinned fp allowed) name.
Definition pin_strict_pq (name fp : bytes) := expect_pinning (client_config_pinned_strict_pq fp [name]) name.
Definition pin_multi_strict_pq (name fp : bytes) (allowed : list bytes) :=
  expect_pinning (client_config_pinned_strict_pq fp allowed) name.
End Configs.

(** ** A handshake between a client and a server *)

(** What a server presents in the handshake. *)
Record Presented := {
  pr_groups : list KxGroup;       (** the groups it can use *)
  pr_cert : bytes;
  pr_message : bytes;             (** the transcript that it signs *)
  pr_signature : bytes;
}.

Section Accept.
Context `{!Sha2} (debug_name : ServerName -> bytes).

(** The verifier's part of a TLS 1.3 handshake. *)
Definition pinned_accepts (v : FingerprintVerifier) (name : ServerName) (now : Z) (p : Presented) : bool :=
  is_ok (verify_server_cert debug_name v (pr_cert p) [] name [] now)
  && is_ok (verify_tls13_signature v (pr_message p) (pr_cert p) (pr_signature p)).

(** A group that both sides have. *)
Definition negotiable (c : CryptoProvider) (p : Presented) (g : KxGroup) : Prop :=
  g ∈ kx_groups c /\ g ∈ pr_groups p.
End Accept.

(** ** Lemmas *)

Lemma lor_fold_zero {A} (f : A -> Z) l d :
  foldl (fun diff i => Z.lor diff (f i)) d l = 0 <-> d = 0 /\ Forall (fun i => f i = 0) l.
Proof.
  revert d. induction l as [|x l IH]; intros d; cbn [foldl].
  - rewrite Forall_nil. tauto.
  - rewrite IH, Z.lor_eq_0_iff, Forall_cons. tauto.
Qed.

(** The comparison without early exit is equality of arrays. *)
Lemma constant_eq_spec a b :
  length a = 32%nat -> length b = 32%nat -> constant_eq a b = true <-> a = b.
Proof.
  intros Ha Hb. unfold constant_eq.
  rewrite Z.eqb_eq, (lor_fold_zero (fun i => Z.lxor (uval (a !!! i)) (uval (b !!! i)))). split.
  - intros [_ HF]. rewrite Forall_forall in HF. apply (list_eq_same_length _ _ 32); [done|done|].
    intros i x y Hi Hx Hy. assert (Hin : i ∈ List.seq 0 32) by (apply list_elem_of_In, in_seq; lia).
    specialize (HF i Hin). rewrite Z.lxor_eq_0_iff in HF.
    rewrite (list_lookup_total_correct _ _ _ Hx), (list_lookup_total_correct _ _ _ Hy) in HF.
    unfold uval in HF. rewrite <- (byte.of_Z_unsigned x), <- (byte.of_Z_unsigned y). by rewrite HF.
  - intros ->. split; [done|]. apply Forall_true. intros i. by rewrite Z.lxor_nilpotent.
Qed.

Lemma sni_allowed_iff v n :
  sni_allowed v n = true <->
  expected_sans v = [] \/ exists s, s ∈ expected_sans v /\ presented n = Some (lowercase s).
Proof.
  unfold sni_allowed. case_bool_decide as He; [tauto|]. split.
  - destruct (presented n) as [p|]; [|done]. intros (s & Hin & Hs)%existsb_exists.
    apply bool_decide_eq_true in Hs. right. exists s. rewrite list_elem_of_In. by subst.
  - intros [?|(s & Hin & ->)]; [done|]. apply existsb_exists. exists s. rewrite <- list_elem_of_In.
    by rewrite bool_decide_eq_true.
Qed.

(** What the pinning verifier accepts. *)
Lemma pinned_accepts_iff `{!Sha2, !Sha2Laws} dbg v n now p :
  length (expected v) = 32%nat ->
  pinned_accepts dbg v n now p = true <->
  sha256 (pr_cert p) = expected v
  /\ (expected_sans v = [] \/ exists s, s ∈ expected_sans v /\ presented n = Some (lowercase s)).
Proof.
  intros Hl. rewrite <- sni_allowed_iff, <- constant_eq_spec by (done || apply sha256_len).
  unfold pinned_accepts, verify_server_cert, verify_tls13_signature. rewrite andb_true_r.
  destruct (constant_eq _ _), (sni_allowed v n); cbn; naive_solver.
Qed.

(** ** Claims *)

(** C22. What a pinned client accepts.  Whatever the provider, a client that
    pins a name and a fingerprint, strictly or not, and connects to a name
    accepts a server exactly when the SHA-256 of the certificate it presents
    is the fingerprint and the names agree up to case: intermediates, time
    and, in particular, the signature over the handshake make no difference,
    so whoever presents the certificate is accepted, with or without its key.
    A strict client can only negotiate the post-quantum hybrid group. *)
Theorem pinned_client_accepts `{!Sha2, !Sha2Laws, !RustlsBuilder} dbg (strict : bool) name fp t n now p :
  length fp = 32%nat -> (if strict then pin_strict_pq name fp else pin name fp) = Some t ->
  exists v, verification (config t) = Pinned v /\ server_name t = name
    /\ (pinned_accepts dbg v (DnsName n) now p = true
        <-> sha256 (pr_cert p) = fp /\ lowercase n = lowercase name)
    /\ (strict = true -> forall g, negotiable (client_provider (config t)) p g -> g = X25519MLKEM768).
Proof.
  intros Hl Ht. exists {| expected := fp; expected_sans := [name] |}.
  assert (Hc : verification (config t) = Pinned {| expected := fp; expected_sans := [name] |}
               /\ server_name t = name
               /\ (strict = true -> kx_groups (client_provider (config t)) = [X25519MLKEM768])).
  { destruct strict; unfold pin_strict_pq, pin, client_config_pinned_strict_pq, client_config_pinned,
      expect_pinning, build_pinned in Ht;
    destruct (check_versions _); try discriminate Ht; cbn in Ht; injection Ht as <-; done. }
  destruct Hc as (Hv & Hn & Hs). split_and!; [done|done| |].
  - rewrite pinned_accepts_iff by done. cbn [expected expected_sans presented].
    split; intros [Hf Hx]; (split; [done|]).
    + destruct Hx as [|(s & ->%list_elem_of_singleton & [= ->])]; done.
    + right. exists name. split; [by left|]. by rewrite Hx.
  - intros Hst g [Hg _]. rewrite (Hs Hst) in Hg. by apply list_elem_of_singleton in Hg.
Qed.

(** ** A concrete client *)

#[local] Instance toy_rustls : RustlsBuilder := {|
  pq_default := {| kx_groups := [X25519MLKEM768; OtherGroup 29] |};
  check_versions _ := Ok tt; check_single_cert _ _ _ := Ok tt; check_root _ := Ok tt;
|}.

Lemma pinned_client_accepts_witness :
  exists v, verification (config {| config := {| client_provider := strict_pq_provider;
      verification := Pinned {| expected := sha256 (lit "cert"); expected_sans := [lit "localhost"] |} |};
      server_name := lit "localhost" |}) = Pinned v
    /\ pinned_accepts (fun _ => []) v (DnsName (lit "LOCALHOST")) 0
         {| pr_groups := [X25519MLKEM768]; pr_cert := lit "cert"; pr_message := lit "transcript";
            pr_signature := lit "no signature at all" |} = true.
Proof.
  destruct (pinned_client_accepts (fun _ => []) true (lit "localhost") (sha256 (lit "cert"))
    {| config := {| client_provider := strict_pq_provider;
         verification := Pinned {| expected := sha256 (lit "cert"); expected_sans := [lit "localhost"] |} |};
       server_name := lit "localhost" |} (lit "LOCALHOST") 0
    {| pr_groups := [X25519MLKEM768]; pr_cert := lit "cert"; pr_message := lit "transcript";
       pr_signature := lit "no signature at all" |}) as (v & Hv & _ & Ha & _).
  - vm_compute. reflexivity.
  - reflexivity.
  - exists v. split; [exact Hv|]. apply (proj2 Ha). split; [reflexivity|]. vm_compute. reflexivity.
Defined.
