(* ===== verification/Python.v ===== *)
(** * The Python bindings

    [bindings/python/src/lib.rs]: the blocking [PySession] over the native
    client session.  The transport under [Session::connect] is the pair of
    functions of [Session.v], here chosen by the TLS pinning; the runtime
    that is built per session is an argument's outcome. *)

From S2P Require Import Prelude RustStd RustText RustNet Core Crates Toy Crypto Frame Replay Control Handshake.
From S2P Require Import Attest Receipts Service Session Tls.
From Stdlib Require Import Lia.

Local Open Scope Z_scope.

Inductive PyErr := PyValueError (msg : bytes) | PyConnectionError (msg : bytes).

(** What Python gets of a receipt. *)
Record PyReceipt := {
  py_model : bytes;
  py_input_tokens : Z;
  py_output_tokens : Z;
  py_epoch : Z;
  py_issued_at_unix : Z;
  py_session_id : bytes;
}.

Section Python.
Context {R : Type} `{!MlKem R, !X25519 R, !Rng R, !Ed25519, !Subtle, !Sha2, !Hkdf, !Aead, !Bitflags, !Hex}
  `{!Postcard ClientHello, !Postcard ServerHello, !Postcard PreKeyBundle, !Postcard Evidence,
    !Postcard Receipt, !Postcard ReceiptEnvelope} `{!RustlsBuilder} `{!DebugMessage}.
Context (hex_error : bytes -> bytes) (pk_error : bytes).

(** [Session::connect] of the native client, without a layer verifier; the
    transport depends on the pinning. *)
Definition Session_connect (get : option TlsPinning -> bytes -> Result bytes)
    (connect : option TlsPinning -> bytes -> Result ClientSocket) (now_bundle_ns now_handshake_ns : Z) (rng : R)
    (base_url trust_root tee_receipt_pk wc : bytes) (tls : option TlsPinning) : Result Session * R :=
  connect_with (get tls) (connect tls) now_bundle_ns now_handshake_ns rng base_url trust_root tee_receipt_pk
    wc (match tls with Some _ => true | None => false end) None.

Definition parse_pk (hex_str : bytes) : result bytes PyErr :=
  let? b := ok_or (hex_decode hex_str) (PyValueError (lit "hex: " ++ hex_error hex_str)) in
  if (length b =? 32)%nat then
    if ed25519_pk_valid b then Ok b else Err (PyValueError (lit "pk: " ++ pk_error))
  else Err (PyValueError (lit "public key must be 32 bytes")).

(** The last arguments are optional in Python; [None] is the panic of
    [TlsPinning::pin]. *)
Definition py_tls (tls_fingerprint_hex tls_server_name : option bytes) :
  option (result (option TlsPinning) PyErr) :=
  match tls_fingerprint_hex with
  | None => Some (Ok None)
  | Some hex_fp =>
      match
        let? b := ok_or (hex_decode hex_fp) (PyValueError (lit "hex: " ++ hex_error hex_fp)) in
        if (length b =? 32)%nat then Ok b else Err (PyValueError (lit "fingerprint must be 32 bytes"))
      with
      | Err e => Some (Err e)
      | Ok arr => pinning ← pin (default (lit "localhost") tls_server_name) arr; Some (Ok (Some pinning))
      end
  end.

Definition weight_commit_arg (h : bytes) : result bytes PyErr :=
  let? b := ok_or (hex_decode h) (PyValueError (lit "weight commit hex: " ++ hex_error h)) in
  if (length b =? 32)%nat then Ok b else Err (PyValueError (lit "weight commit must be 32 bytes")).

Definition py_connect (get : option TlsPinning -> bytes -> Result bytes)
    (connect : option TlsPinning -> bytes -> Result ClientSocket) (runtime : result unit bytes)
    (now_bundle_ns now_handshake_ns : Z) (rng : R)
    (url trust_root_hex tee_receipt_pk_hex expected_weight_commit_hex : bytes)
    (tls_fingerprint_hex tls_server_name : option bytes) : option (result Session PyErr) :=
  match
    let? trust_root := parse_pk trust_root_hex in
    let? tee_pk := parse_pk tee_receipt_pk_hex in
    let? weight_commit := weight_commit_arg expected_weight_commit_hex in
    Ok (trust_root, tee_pk, weight_commit)
  with
  | Err e => Some (Err e)
  | Ok (trust_root, tee_pk, weight_commit) =>
      tls ← py_tls tls_fingerprint_hex tls_server_name;
      Some (
        let? tls := tls in
        let? _ := map_err (fun e => PyConnectionError (lit "runtime: " ++ e)) runtime in
        map_err (fun e => PyConnectionError (Error_display e))
          (Session_connect get connect now_bundle_ns now_handshake_ns rng url trust_root tee_pk
             weight_commit tls).1)
  end.

(** [session] is [None] when closed. *)
Definition tee_id_pk_hex (session : option Session) : result bytes PyErr :=
  let? s := ok_or session (PyConnectionError (lit "session closed")) in
  Ok (hex_encode (tee_id_pk s)).

(** The loop over [next_token]; [None] when the fuel runs out. *)
Fixpoint py_drain (fuel : nat) (ts : TokenStream) : option (Result (list bytes) * TokenStream) :=
  match fuel with
  | O => None
  | S fuel =>
      '(r, ts) ← next_token ts;
      match r with
      | Err e => Some (Err e, ts)
      | Ok None => Some (Ok [], ts)
      | Ok (Some t) =>
          '(rest, ts) ← py_drain fuel ts;
          Some (let? rest := rest in Ok (t :: rest), ts)
      end
  end.

Definition py_receipt (signed : SignedReceipt) : PyReceipt :=
  let r := receipt signed in
  {| py_model := model r; py_input_tokens := input_tokens r; py_output_tokens := output_tokens r;
     py_epoch := Receipts.epoch r; py_issued_at_unix := issued_at_unix r;
     py_session_id := hex_encode (session r) |}.

(** Every token takes a message of the stream, so the number of messages is
    fuel enough.  [None] is the panic of [finalize]. *)
Definition py_send (session : option Session) (prompt : bytes) :
  option (result (list bytes * PyReceipt) PyErr * option Session) :=
  match session with
  | None => Some (Err (PyConnectionError (lit "session closed")), None)
  | Some s =>
      let connection_error e := Err (PyConnectionError (Error_display e)) in
      match send s prompt with
      | (Err e, s) => Some (connection_error e, Some s)
      | (Ok ts, _) =>
          '(tokens, ts) ← py_drain (S (length (reads (ws (stream_session ts))))) ts;
          match tokens with
          | Err e => Some (connection_error e, Some (stream_session ts))
          | Ok tokens =>
              '(r, s) ← finalize hex_error ts;
              Some (match r with
                    | Err e => connection_error e
                    | Ok signed => Ok (tokens, py_receipt signed)
                    end, Some s)
          end
      end
  end.

(** ** The blocking call returns, with everything the stream holds *)

Lemma next_token_step_token ts t ts' :
  next_token_step ts = (Return (Ok (Some t)), ts') ->
  (length (reads (ws (stream_session ts'))) < length (reads (ws (stream_session ts))))%nat.
Proof.
  unfold next_token_step. destruct (receive_frame (stream_session ts)) as [[[h pt]|e] s] eqn:Hr; [|done].
  apply receive_frame_shrinks in Hr. unfold handle_frame.
  destruct (frame_type h); try done; [|by repeat case_match].
  intros E. repeat case_match; simplify_eq; cbn [stream_session]; done.
Qed.

Lemma next_token_shrinks ts t ts' :
  next_token ts = Some (Ok (Some t), ts') ->
  (length (reads (ws (stream_session ts'))) < length (reads (ws (stream_session ts))))%nat.
Proof.
  unfold next_token. generalize (S (length (reads (ws (stream_session ts))))). intros fuel.
  revert ts. induction fuel as [|fuel IH]; intros ts; [done|]. cbn [next_token_loop].
  destruct (ended ts); [done|]. destruct (next_token_step ts) as [[r|] ts1] eqn:Hs.
  - intros [= -> ->]. by eapply next_token_step_token.
  - intros Hn%IH. apply next_token_step_shrinks in Hs. lia.
Qed.

Lemma py_drain_total fuel ts :
  (length (reads (ws (stream_session ts))) < fuel)%nat -> is_Some (py_drain fuel ts).
Proof.
  revert ts. induction fuel as [|fuel IH]; intros ts Hf; [lia|]. cbn [py_drain].
  destruct (next_token_loop_fuel (S (length (reads (ws (stream_session ts))))) ts) as [[r ts'] Hn]; [lia|].
  unfold next_token at 1. rewrite Hn. cbn [mbind option_bind]. destruct r as [[t|]|e]; [|by eexists..].
  destruct (IH ts') as [[rest ts2] ->]; [|by eexists]. fold (next_token ts) in Hn.
  apply next_token_shrinks in Hn. lia.
Qed.

Lemma py_drain_tokens texts ts ts' fuel :
  next_tokens (length texts + 1) ts = Some ((Ok ∘ Some <$> texts) ++ [Ok None], ts') ->
  (length texts < fuel)%nat -> py_drain fuel ts = Some (Ok texts, ts').
Proof.
  revert ts fuel. induction texts as [|t texts IH]; intros ts fuel; destruct fuel as [|fuel]; try lia;
    cbn [length plus next_tokens py_drain fmap list_fmap app].
  - destruct (next_token ts) as [[r ts1]|]; [|done]. cbn. by intros [= -> ->].
  - destruct (next_token ts) as [[r ts1]|]; [|done]. cbn [mbind option_bind].
    destruct (next_tokens (length texts + 1) ts1) as [[rs ts2]|] eqn:E; [|done]. cbn [mbind option_bind].
    intros [= -> -> ->] Hf. cbn. by rewrite (IH ts1 fuel E ltac:(lia)).
Qed.

(** More fuel changes nothing. *)
Lemma py_drain_mono fuel n ts x : py_drain fuel ts = Some x -> py_drain (fuel + n) ts = Some x.
Proof.
  revert ts x. induction fuel as [|fuel IH]; intros ts x; [done|]. cbn [plus py_drain].
  destruct (next_token ts) as [[[[t|]|e] ts1]|]; [|done..]. cbn [mbind option_bind].
  destruct (py_drain fuel ts1) as [[rest ts2]|] eqn:E; [|done]. by rewrite (IH _ _ E).
Qed.

(** The fuel of one per message is enough. *)
Lemma py_drain_all texts ts ts' :
  next_tokens (length texts + 1) ts = Some ((Ok ∘ Some <$> texts) ++ [Ok None], ts') ->
  py_drain (S (length (reads (ws (stream_session ts))))) ts = Some (Ok texts, ts').
Proof.
  intros Hn. destruct (py_drain_total (S (length (reads (ws (stream_session ts))))) ts) as [x Hx]; [lia|].
  pose proof (py_drain_mono _ (S (length texts)) _ _ Hx) as Hm.
  rewrite (py_drain_tokens texts ts ts') in Hm; [congruence|done|lia].
Qed.

(** [send] in Python is [send], every [next_token] and [finalize]: where the
    native calls give the tokens, the end of turn and a receipt, Python gets
    those tokens and that receipt. *)
Theorem py_send_refines s prompt ts s1 texts ts' signed s2 :
  send s prompt = (Ok ts, s1) ->
  next_tokens (length texts + 1) ts = Some ((Ok ∘ Some <$> texts) ++ [Ok None], ts') ->
  finalize hex_error ts' = Some (Ok signed, s2) ->
  py_send (Some s) prompt = Some (Ok (texts, py_receipt signed), Some s2).
Proof.
  intros Hs Hn Hf. unfold py_send. rewrite Hs, (py_drain_all texts ts ts' Hn). cbn. by rewrite Hf.
Qed.
End Python.
