(* ===== verification/Demo.v ===== *)
(** * ullm-demo: the layer prover and verifier in a session

    [tools/ullm-demo/src/main.rs]: the adapters that put the per-layer proofs
    of [ullm-zk] behind the prover interface of the TEE and the verifier
    interface of the client, key generation for every layer, the services the
    demo starts and what its client does.  [None] is a panic (an index out of
    range, a failed [expect]).

    Proved: the client accepts a receipt through the verifier adapter only with
    an accepted proof for every layer, bound to the receipt's commitments and
    session, and openings of those commitments are a run of the model or
    exhibit two vectors with one hash; what the prover adapter makes of an honest trace is accepted; so
    the demo's session completes ([DemoMain.v] has the whole run). *)

From S2P Require Import Prelude RustStd RustText Core Crates Toy Crypto Frame Replay Control Handshake Attest Receipts Model Halo2 Zk NonceRegistry TenantPool Service Engine Session EndToEnd Python.
From Stdlib Require Import Lia.

Local Open Scope nat_scope.

Section Adapters.
Context `{!Pasta, !PrimeField, !Halo2}.

(** ** The prover of the TEE *)

Record PerLayerProverAdapter := { pa_model : Model; pa_params : list LayerProverParams }.

Definition prove_layer {R} (self : PerLayerProverAdapter) (trace : Trace) (session_id weight_commit : bytes)
    (layer_idx : nat) (rng : R) : option bytes * R :=
  match activations trace !! layer_idx, activations trace !! (layer_idx + 1),
        layers (pa_model self) !! layer_idx, pa_params self !! layer_idx with
  | Some x, Some y, Some layer, Some params =>
      LayerProver_prove params x y (vector_hash_native x) (vector_hash_native y) (w layer) (b layer)
        (Z.of_nat layer_idx) session_id weight_commit rng
  | _, _, _, _ => (None, rng)
  end.

Fixpoint prove_layers {R} (self : PerLayerProverAdapter) (trace : Trace) (session_id weight_commit : bytes)
    (idxs : list nat) (rng : R) : option (list bytes) * R :=
  match idxs with
  | [] => (Some [], rng)
  | layer_idx :: idxs =>
      match prove_layer self trace session_id weight_commit layer_idx rng with
      | (None, rng) => (None, rng)
      | (Some proof, rng) =>
          let '(proofs, rng) := prove_layers self trace session_id weight_commit idxs rng in
          (cons proof <$> proofs, rng)
      end
  end.

Definition prove_trace {R} (self : PerLayerProverAdapter) (trace : Trace) (session_id : SessionId)
    (weight_commit : bytes) (rng : R) : option (result (list bytes) bytes) * R :=
  let '(proofs, rng) := prove_layers self trace session_id weight_commit (List.seq 0 NUM_LAYERS) rng in
  (Ok <$> proofs, rng).

(** ** The verifier of the client *)

Record PerLayerVerifierAdapter := { va_params : list LayerVerifierParams; va_weight_commit : bytes }.

Definition layer_commit (i : nat) (which : bytes) (c : bytes) : Result Fp :=
  map_err (fun e => Other (lit "layer " ++ fmt_dec (Z.of_nat i) ++ which ++ e)) (fp_from_bytes c).

(** One turn of the loop; the two lengths have been checked before it. *)
Definition verify_layer (self : PerLayerVerifierAdapter) (activation_commits proofs : list bytes)
    (session_id weight_commit : bytes) (i : nat) : option (Result unit) :=
  cx ← activation_commits !! i;
  match layer_commit i (lit " input commit: ") cx with
  | Err e => Some (Err e)
  | Ok xc =>
      cy ← activation_commits !! (i + 1);
      match layer_commit i (lit " output commit: ") cy with
      | Err e => Some (Err e)
      | Ok yc =>
          params ← va_params self !! i;
          proof ← proofs !! i;
          Some (map_err (fun _ => Other (lit "layer " ++ fmt_dec (Z.of_nat i) ++ lit " proof failed"))
                  (LayerVerifier_verify params xc yc (Z.of_nat i) session_id weight_commit proof))
      end
  end.

Fixpoint verify_layer_loop (self : PerLayerVerifierAdapter) (activation_commits proofs : list bytes)
    (session_id weight_commit : bytes) (idxs : list nat) : option (Result unit) :=
  match idxs with
  | [] => Some (Ok tt)
  | i :: idxs =>
      r ← verify_layer self activation_commits proofs session_id weight_commit i;
      match r with
      | Err e => Some (Err e)
      | Ok _ => verify_layer_loop self activation_commits proofs session_id weight_commit idxs
      end
  end.

Definition verify_layers (self : PerLayerVerifierAdapter) (activation_commits proofs : list bytes)
    (session_id : SessionId) (weight_commit : bytes) : option (Result unit) :=
  if decide (length activation_commits <> NUM_LAYERS + 1) then
    Some (Err (Other (lit "expected " ++ fmt_dec (Z.of_nat (NUM_LAYERS + 1)) ++ lit " activation commits, got "
                      ++ fmt_dec (Z.of_nat (length activation_commits)))))
  else if decide (length proofs <> NUM_LAYERS) then
    Some (Err (Other (lit "expected " ++ fmt_dec (Z.of_nat NUM_LAYERS) ++ lit " layer proofs, got "
                      ++ fmt_dec (Z.of_nat (length proofs)))))
  else if decide (weight_commit <> va_weight_commit self) then
    Some (Err (Other (lit "layer-verifier weight_commit does not match expected")))
  else verify_layer_loop self activation_commits proofs session_id weight_commit (List.seq 0 NUM_LAYERS).

(** Keys for every layer. *)
Fixpoint keygen_layers (model : Model) (idxs : list nat)
  : option (list LayerProverParams * list LayerVerifierParams) :=
  match idxs with
  | [] => Some ([], [])
  | layer_idx :: idxs =>
      layer ← layers model !! layer_idx;
      '(pp, vp) ← setup_layer (Z.of_nat layer_idx) (w layer) (b layer);
      '(pps, vps) ← keygen_layers model idxs;
      Some (pp :: pps, vp :: vps)
  end.
End Adapters.

(** ** What acceptance means *)

Section Acceptance.
Context `{!Pasta, !PastaLaws, !PrimeField, !Halo2}.

Lemma keygen_layers_lookup m idxs pps vps :
  keygen_layers m idxs = Some (pps, vps) ->
  length pps = length idxs /\ length vps = length idxs /\
  forall j i, idxs !! j = Some i -> exists l pp vp, layers m !! i = Some l
    /\ setup_layer (Z.of_nat i) (w l) (b l) = Some (pp, vp) /\ pps !! j = Some pp /\ vps !! j = Some vp.
Proof.
  revert pps vps. induction idxs as [|i idxs IH]; cbn [keygen_layers]; intros pps vps.
  { by intros [= <- <-]. }
  destruct (layers m !! i) as [l|] eqn:Hl; [|done]. cbn [mbind option_bind].
  destruct (setup_layer _ _ _) as [[pp vp]|] eqn:Hs; [|done]. cbn [mbind option_bind].
  destruct (keygen_layers m idxs) as [[pps' vps']|]; [|done]. intros [= <- <-].
  destruct (IH _ _ eq_refl) as (Hp & Hv & Hk). split_and!; [by cbn; f_equal..|].
  intros [|j] k; [|apply Hk]. intros [= <-]. by exists l, pp, vp.
Qed.

Lemma keygen_seq m n pps vps i :
  keygen_layers m (List.seq 0 n) = Some (pps, vps) -> i < n ->
  exists l pp vp, layers m !! i = Some l /\ setup_layer (Z.of_nat i) (w l) (b l) = Some (pp, vp)
    /\ pps !! i = Some pp /\ vps !! i = Some vp.
Proof.
  intros (_ & _ & Hk)%keygen_layers_lookup Hi. apply Hk. apply lookup_seq. lia.
Qed.

Lemma verify_layer_loop_Ok va cs proofs sid wc idxs :
  verify_layer_loop va cs proofs sid wc idxs = Some (Ok tt)
  <-> Forall (fun i => verify_layer va cs proofs sid wc i = Some (Ok tt)) idxs.
Proof.
  induction idxs as [|i idxs IH]; cbn [verify_layer_loop]; [by split; [constructor|]|].
  rewrite Forall_cons, <- IH. destruct (verify_layer va cs proofs sid wc i) as [[[]|e]|]; cbn; naive_solver.
Qed.

Lemma verify_layer_Ok va cs proofs sid wc i :
  verify_layer va cs proofs sid wc i = Some (Ok tt)
  <-> exists cx cy xc yc vp proof,
      cs !! i = Some cx /\ fp_from_bytes cx = Ok xc /\ cs !! (i + 1) = Some cy /\ fp_from_bytes cy = Ok yc
      /\ va_params va !! i = Some vp /\ proofs !! i = Some proof
      /\ LayerVerifier_verify vp xc yc (Z.of_nat i) sid wc proof = Ok tt.
Proof.
  unfold verify_layer, layer_commit. split.
  - destruct (cs !! i) as [cx|] eqn:Hx; [|done]. cbn [mbind option_bind].
    destruct (fp_from_bytes cx) as [xc|e] eqn:Fx; [|done]. cbn [map_err].
    destruct (cs !! (i + 1)) as [cy|] eqn:Hy; [|done]. cbn [mbind option_bind].
    destruct (fp_from_bytes cy) as [yc|e] eqn:Fy; [|done]. cbn [map_err].
    destruct (va_params va !! i) as [vp|]; [|done]. destruct (proofs !! i) as [p|]; [|done].
    cbn [mbind option_bind]. intros [= Hv%map_err_Ok]. by exists cx, cy, xc, yc, vp, p.
  - intros (cx & cy & xc & yc & vp & p & -> & Fx & -> & Fy & -> & -> & Hv). cbn [mbind option_bind].
    rewrite Fx. cbn [map_err]. rewrite Fy. cbn [map_err]. by rewrite Hv.
Qed.

Lemma verify_layers_Ok va cs proofs sid wc :
  verify_layers va cs proofs sid wc = Some (Ok tt)
  <-> length cs = NUM_LAYERS + 1 /\ length proofs = NUM_LAYERS /\ wc = va_weight_commit va
      /\ forall i, i < NUM_LAYERS -> verify_layer va cs proofs sid wc i = Some (Ok tt).
Proof.
  unfold verify_layers. repeat case_decide; try naive_solver.
  rewrite verify_layer_loop_Ok, Forall_forall.
  split.
  - intros Hf. split_and!; [done..|]. intros i Hi. apply Hf, elem_of_seq. lia.
  - intros (_ & _ & _ & Hf) i Hi%elem_of_seq. apply Hf. lia.
Qed.

(** The canonical bytes of a commitment determine the field element. *)
Definition commit_of (c : bytes) (f : Fp) : Prop := fp_from_bytes c = Ok f.

(** For every layer there is a proof, at its place in the list, that the key
    generated for that layer accepts for these commitments, the layer's index,
    the session and the weight commitment. *)
Definition layer_proofs_accepted (m : Model) (commits : list Fp) (proofs : list bytes)
    (session_id weight_commit : bytes) : Prop :=
  length commits = NUM_LAYERS + 1 /\ length proofs = NUM_LAYERS
  /\ forall i l, layers m !! i = Some l -> exists pp vp proof,
       setup_layer (Z.of_nat i) (w l) (b l) = Some (pp, vp) /\ proofs !! i = Some proof
       /\ LayerVerifier_verify vp (commits !!! i) (commits !!! S i) (Z.of_nat i) session_id weight_commit proof = Ok tt.

Lemma layer_accepted m pps vps wc cs proofs sid i l :
  model_wf m -> keygen_layers m (List.seq 0 NUM_LAYERS) = Some (pps, vps) -> layers m !! i = Some l ->
  verify_layer {| va_params := vps; va_weight_commit := wc |} cs proofs sid wc i = Some (Ok tt) ->
  exists cx cy xc yc pp vp proof, cs !! i = Some cx /\ cs !! S i = Some cy
    /\ commit_of cx xc /\ commit_of cy yc
    /\ setup_layer (Z.of_nat i) (w l) (b l) = Some (pp, vp) /\ proofs !! i = Some proof
    /\ LayerVerifier_verify vp xc yc (Z.of_nat i) sid wc proof = Ok tt.
Proof.
  intros [Hlen _] Hk Hl (cx & cy & xc & yc & vp & proof & Hx & Fx & Hy & Fy & Hvp & Hp & Hv)%verify_layer_Ok.
  assert (Hi : i < NUM_LAYERS) by (apply lookup_lt_Some in Hl; lia).
  destruct (keygen_seq m NUM_LAYERS pps vps i Hk Hi) as (l' & pp & vp' & Hl' & Hs & _ & Hvp').
  rewrite Hl in Hl'. injection Hl' as <-. cbn [va_params] in Hvp. rewrite Hvp in Hvp'. injection Hvp' as <-.
  rewrite Nat.add_1_r in Hy. by exists cx, cy, xc, yc, pp, vp, proof.
Qed.

Lemma verify_layers_accepted m pps vps wc cs proofs sid wc' :
  model_wf m -> keygen_layers m (List.seq 0 NUM_LAYERS) = Some (pps, vps) ->
  verify_layers {| va_params := vps; va_weight_commit := wc |} cs proofs sid wc' = Some (Ok tt) ->
  wc' = wc /\ exists commits, Forall2 commit_of cs commits /\ layer_proofs_accepted m commits proofs sid wc.
Proof.
  intros Hm Hk (Hlc & Hlp & -> & Hv)%verify_layers_Ok. split; [done|]. cbn [va_weight_commit] in *.
  destruct Hm as [Hlen Hls].
  assert (Ha : forall i l, layers m !! i = Some l -> verify_layer {| va_params := vps; va_weight_commit := wc |}
    cs proofs sid wc i = Some (Ok tt)) by (intros i l Hl; apply Hv; apply lookup_lt_Some in Hl; lia).
  assert (exists fs, Forall2 commit_of cs fs) as [fs Hfs].
  { apply Forall_exists_Forall2_l, Forall_lookup_2. intros i c Hc. apply lookup_lt_Some in Hc as Hi.
    destruct (lookup_lt_is_Some_2 (layers m) (i - 1)) as [l Hl]; [unfold NUM_LAYERS in *; lia|].
    destruct (layer_accepted m pps vps wc cs proofs sid _ l (conj Hlen Hls) Hk Hl (Ha _ l Hl))
      as (cx & cy & xc & yc & _ & _ & _ & Hx & Hy & Fx & Fy & _).
    destruct i as [|i]; cbn in Hx, Hy; [|rewrite Nat.sub_0_r in Hx, Hy]; simplify_eq; by eexists. }
  exists fs. split; [done|]. split; [by rewrite <- (Forall2_length _ _ _ Hfs)|]. split; [done|].
  assert (Hf : forall i c f, cs !! i = Some c -> commit_of c f -> fs !!! i = f).
  { intros i c f Hc Hcf. destruct (Forall2_lookup_l _ _ _ _ _ Hfs Hc) as (f' & Hf' & Hcf').
    apply list_lookup_total_correct in Hf' as ->. unfold commit_of in *. congruence. }
  intros i l Hl. destruct (layer_accepted m pps vps wc cs proofs sid i l (conj Hlen Hls) Hk Hl (Ha i l Hl))
    as (cx & cy & xc & yc & pp & vp & proof & Hx & Hy & Fx & Fy & Hs & Hp & Hver).
  exists pp, vp, proof. by rewrite (Hf i cx xc), (Hf (S i) cy yc).
Qed.
End Acceptance.

(** ** What the prover makes is accepted *)

Section Completeness.
Context `{!Pasta, !PastaLaws, !PrimeField, !Halo2, !Halo2Laws} {R : Type}.
Context (m : Model) (pps : list LayerProverParams) (vps : list LayerVerifierParams) (input : list Fp).
Hypothesis Hm : model_wf m.
Hypothesis Hk : keygen_layers m (List.seq 0 NUM_LAYERS) = Some (pps, vps).
Hypothesis Hin : is_vec input.

(** The verifier of layer [i] accepts the proof for the trace on [input]. *)
Definition layer_ok (sid wc : bytes) (i : nat) (proof : bytes) : Prop :=
  exists x y vp, activations (Model_run m input) !! i = Some x /\ activations (Model_run m input) !! S i = Some y
    /\ vps !! i = Some vp
    /\ LayerVerifier_verify vp (poseidon_hash x) (poseidon_hash y) (Z.of_nat i) sid wc proof = Ok tt.

Lemma prove_layer_ok sid wc i (rng : R) :
  i < NUM_LAYERS ->
  exists proof rng', prove_layer {| pa_model := m; pa_params := pps |} (Model_run m input) sid wc i rng
                     = (Some proof, rng') /\ layer_ok sid wc i proof.
Proof.
  intros Hi. destruct (keygen_seq m NUM_LAYERS pps vps i Hk Hi) as ([ws bs] & pp & vp & Hl & Hs & Hpp & Hvp).
  destruct (run_layers_lookup (layers m) input i _ Hl) as (x & Ex & Ey).
  destruct (activations_vec m input Hm Hin) as [Hv _].
  assert (Hxv : is_vec x) by (by eapply Forall_lookup_1; [exact Hv|]).
  destruct (layer_prove_verify _ pp vp ws bs x (Z.of_nat i) sid wc rng
    (Forall_lookup_1 _ _ _ _ (proj2 Hm) Hl) Hxv Hs) as (proof & rng' & HP & HV).
  exists proof, rng'. split; [|by exists x, (layer_apply {| w := ws; b := bs |} x), vp].
  unfold prove_layer. cbn [pa_model pa_params]. change (activations _) with (input :: run_layers layer_apply (layers m) input).
  rewrite Nat.add_1_r, Ex, Ey, Hl, Hpp. exact HP.
Qed.

Lemma prove_layers_ok sid wc idxs (rng : R) :
  Forall (fun i => i < NUM_LAYERS) idxs ->
  exists proofs rng', prove_layers {| pa_model := m; pa_params := pps |} (Model_run m input) sid wc idxs rng
                      = (Some proofs, rng') /\ Forall2 (layer_ok sid wc) idxs proofs.
Proof.
  intros Hi. revert rng. induction Hi as [|i idxs Hi _ IH]; intros rng; cbn [prove_layers].
  { by exists [], rng. }
  destruct (prove_layer_ok sid wc i rng Hi) as (proof & r1 & -> & Ho).
  destruct (IH r1) as (proofs & r2 & -> & Hos). exists (proof :: proofs), r2. split; [done|]. by constructor.
Qed.

Lemma prove_trace_verifies sid wc (rng : R) tc :
  Trace_commits (Model_run m input) = Some tc ->
  exists proofs rng',
    prove_trace {| pa_model := m; pa_params := pps |} (Model_run m input) sid wc rng = (Some (Ok proofs), rng')
    /\ verify_layers {| va_params := vps; va_weight_commit := wc |} (commit_bytes tc) proofs sid wc = Some (Ok tt).
Proof.
  intros Htc. destruct (prove_layers_ok sid wc (List.seq 0 NUM_LAYERS) rng) as (proofs & rng' & Hp & Ho).
  { apply Forall_forall. intros i Hi%elem_of_seq. lia. }
  exists proofs, rng'. split; [unfold prove_trace; by rewrite Hp|].
  pose proof (Forall2_length _ _ _ Ho) as Hlen. rewrite length_seq in Hlen.
  destruct (activations_vec m input Hm Hin) as [_ Hlv].
  rewrite Trace_commits_run in Htc by done. apply (inj Some) in Htc as <-.
  apply verify_layers_Ok. cbn [commit_bytes]. rewrite !length_fmap, Hlv.
  split_and!; [done..|]. intros i Hi. apply verify_layer_Ok.
  destruct (Forall2_lookup_l _ _ _ i i Ho) as (proof & Hproof & x & y & vp & Hx & Hy & Hvp & Hver).
  { apply lookup_seq. lia. }
  exists (to_repr (poseidon_hash x)), (to_repr (poseidon_hash y)), (poseidon_hash x), (poseidon_hash y), vp, proof.
  unfold fp_from_bytes. rewrite !list_lookup_fmap, Nat.add_1_r, Hx, Hy, !from_to_repr. done.
Qed.
End Completeness.

(** ** The demo *)

(** On the arguments [std::env::args] yields (it panics on one that is not
    UTF-8); [None] is the exit after the help text. *)
Inductive Mode := Full | ServerOnly.

Fixpoint parse_mode (args : list bytes) : option Mode :=
  match args with
  | [] => Some Full
  | a :: args =>
      if decide (a = lit "--server-only") then Some ServerOnly
      else if decide (a = lit "--full") then Some Full
      else if decide (a = lit "-h") then None
      else if decide (a = lit "--help") then None
      else parse_mode args
  end.

Section Main.
Context {R : Type} `{!MlKem R, !X25519 R, !Rng R, !Ed25519, !Ed25519Gen R, !Hkdf, !Sha2, !Aead, !Bitflags, !Hex,
    !Subtle} `{!Pasta, !PrimeField, !Halo2}
  `{!Postcard ClientHello, !Postcard ServerHello, !Postcard PreKeyBundle, !Postcard Evidence,
    !Postcard Receipt, !Postcard ReceiptEnvelope} `{!DebugMessage}.

Record DemoServices := {
  demo_tee : AppState R EchoEngine;
  demo_tenants : TenantPool;
  demo_verifier : PerLayerVerifierAdapter;
}.

(** The TEE of the demo and the keys its client is given. *)
Definition demo_start (rng : R) : option (DemoServices * R) :=
  model ← Model_from_seed (replicate 32 Byte.x00);
  '(prover_params, verifier_params) ← keygen_layers model (List.seq 0 NUM_LAYERS);
  let '(identity, rng) := TeeIdentity_random rng (model_weight_commit model) in
  let '(receipt_key, rng) := ed25519_generate rng in
  let '(tenants, rng) := TenantPool_random rng in
  Some ({| demo_tee :=
             {| identity := identity; engine := exist _ 16 (Nat.lt_0_succ 15);
                receipt_signer := {| key := receipt_key |}; model_name := lit "mock-llama-3.1-70b";
                verifiable_model := model;
                layer_prover := Some (prove_trace {| pa_model := model; pa_params := prover_params |}) |};
           demo_tenants := tenants;
           demo_verifier := {| va_params := verifier_params; va_weight_commit := model_weight_commit model |} |}, rng).

Definition demo_prompt : bytes := lit "say hi to the world".

(** The client of the full mode, over TLS to the gateway: the TEE's key, the
    tokens it prints and the receipt. *)
Definition demo_client (hex_error : bytes -> bytes) (get : bytes -> Result bytes)
    (connect : bytes -> Result ClientSocket) (bundle_ns hs_ns : Z) (rng : R) (gw_url : bytes) (d : DemoServices)
  : option (Result (bytes * list bytes * SignedReceipt)) :=
  let tee := demo_tee d in
  match connect_with get connect bundle_ns hs_ns rng gw_url
          (MockIssuer_verifying_key (attest_issuer (identity tee))) (tee_verifying_key tee)
          (va_weight_commit (demo_verifier d)) true (Some (verify_layers (demo_verifier d))) with
  | (Err e, _) => Some (Err e)
  | (Ok session, _) =>
      match send session demo_prompt with
      | (Err e, _) => Some (Err e)
      | (Ok stream, _) =>
          '(tokens, stream) ← py_drain (S (length (reads (ws (stream_session stream))))) stream;
          match tokens with
          | Err e => Some (Err e)
          | Ok tokens => '(r, _) ← finalize hex_error stream; Some (let? receipt := r in Ok (tee_id_pk session, tokens, receipt))
          end
      end
  end.
End Main.

(** ** The client's conclusion, and the demo's session *)

Section Sessions.
Context {R : Type} `{!MlKem R, !MlKemLaws R, !X25519 R, !X25519Laws R, !Rng R, !RngLaws R, !Ed25519, !Ed25519Gen R,
    !Ed25519Laws, !Hkdf, !HkdfLaws, !Sha2, !Sha2Laws, !Aead, !AeadLaws, !Bitflags, !BitflagsLaws,
    !Hex, !HexLaws, !Subtle, !SubtleLaws} `{!Pasta, !PastaLaws, !PrimeField, !Halo2, !Halo2Laws}
  `{!Postcard ClientHello, !PostcardLaws ClientHello, !Postcard ServerHello, !PostcardLaws ServerHello,
    !Postcard PreKeyBundle, !PostcardLaws PreKeyBundle, !Postcard Evidence, !PostcardLaws Evidence,
    !Postcard Receipt, !PostcardLaws Receipt, !Postcard ReceiptEnvelope, !PostcardLaws ReceiptEnvelope}
  `{!DebugMessage}.

Lemma decode_commits_hex herr hs cs :
  decode_commits herr hs = Ok cs -> Forall2 (fun h c => hex_decode h = Some c) hs cs.
Proof.
  revert cs. induction hs as [|h hs IH]; cbn [decode_commits]; intros cs; [by intros [= <-]|].
  intros (c & Hc & (cs' & Hcs & [= <-])%result_bind_Ok)%result_bind_Ok. constructor; [|by apply IH].
  unfold decode_hex32 in Hc. apply result_bind_Ok in Hc as (c' & Hd%ok_or_Ok & Hc).
  case_decide; [|done]. by injection Hc as <-.
Qed.

(** A receipt that [finalize] returns passed the layer verifier. *)
Lemma finalize_verified herr ts signed s' verify :
  finalize herr ts = Some (Ok signed, s') -> layer_verifier (stream_session ts) = Some verify ->
  exists commits proofs, verify_receipt signed (tee_receipt_pk (stream_session ts)) = Some (Ok tt)
    /\ Forall2 (fun h c => hex_decode h = Some c) (activation_commits_hex (receipt signed)) commits
    /\ verify commits proofs (session (receipt signed)) (expected_weight_commit (stream_session ts)) = Some (Ok tt).
Proof.
  unfold finalize. destruct (read_binary _) as [r w0]. intros Hf Hlv.
  destruct (let? raw := r in _) as [envelope|]; [|done].
  destruct (verify_receipt _ _) as [[[]|]|] eqn:Hr; [|done..]. cbn [mbind option_bind result_bind] in Hf.
  destruct (check_weights _ _) as [[]|]; [|done]. unfold check_layers in Hf. cbn [layer_verifier set_ws] in Hf.
  rewrite Hlv in Hf. destruct (decode_commits herr _) as [commits|e] eqn:Hd; [|done].
  destruct (verify commits _ _ _) as [[[]|e]|] eqn:Hv; [|done..]. cbn in Hf. injection Hf as <- _.
  exists commits, (zk_layer_proofs envelope). split; [done|]. split; [by eapply decode_commits_hex|done].
Qed.

Lemma demo_start_spec (rng0 rng1 : R) d :
  demo_start rng0 = Some (d, rng1) ->
  identity_wf (identity (demo_tee d)) /\ model_wf (verifiable_model (demo_tee d))
  /\ length (weight_commit (identity (demo_tee d))) = 32
  /\ va_weight_commit (demo_verifier d) = weight_commit (identity (demo_tee d))
  /\ proj1_sig (engine (demo_tee d)) = 16
  /\ exists pps, keygen_layers (verifiable_model (demo_tee d)) (List.seq 0 NUM_LAYERS)
                  = Some (pps, va_params (demo_verifier d))
       /\ layer_prover (demo_tee d)
          = Some (prove_trace {| pa_model := verifiable_model (demo_tee d); pa_params := pps |}).
Proof.
  unfold demo_start. destruct (Model_from_seed_some (replicate 32 Byte.x00)) as (m & -> & Hwf & Hc).
  cbn [mbind option_bind]. destruct (keygen_layers m _) as [[pps vps]|] eqn:Hk; [|done]. cbn [mbind option_bind].
  pose proof (identity_random_wf rng0 (model_weight_commit m)) as Hid.
  destruct (TeeIdentity_random rng0 (model_weight_commit m)) as [idt r1] eqn:Ei.
  destruct (ed25519_generate r1) as [rk r2]. destruct (TenantPool_random r2) as [tp r3].
  intros [= <- _]. cbn [demo_tee demo_verifier identity verifiable_model va_weight_commit va_params engine
    layer_prover proj1_sig].
  assert (Hw : weight_commit idt = model_weight_commit m)
    by (unfold TeeIdentity_random in Ei; repeat case_match; by injection Ei as <- _).
  split_and!; [done|done|rewrite Hw, Hc; apply length_weight_commit|done|done|by exists pps].
Qed.

Lemma demo_proofs_accepted (rng0 rng1 : R) d sid prompt :
  demo_start rng0 = Some (d, rng1) ->
  proofs_accepted (demo_tee d) (Some (verify_layers (demo_verifier d))) sid prompt.
Proof.
  intros (_ & Hm & _ & Hw & _ & pps & Hk & Hp)%demo_start_spec r cs Hcs.
  destruct (prove_trace_verifies _ pps _ (encode_prompt_to_fp (sha256 prompt)) Hm Hk eq_refl sid
    (weight_commit (identity (demo_tee d))) r cs Hcs)
    as (proofs & r' & Hpt & Hv).
  exists proofs, r'. split.
  - unfold layer_proofs. rewrite Hp, Hpt. done.
  - rewrite <- Hv. f_equal. destruct (demo_verifier d). by cbn in Hw; subst.
Qed.

(** What the client does with the handler's answers. *)
Lemma demo_client_ok herr get connect bundle_ns hs_ns (rngc rngc' : R) gw_url d s ts s1 texts ts' signed s2 :
  connect_with get connect bundle_ns hs_ns rngc gw_url
    (MockIssuer_verifying_key (attest_issuer (identity (demo_tee d)))) (tee_verifying_key (demo_tee d))
    (va_weight_commit (demo_verifier d)) true (Some (verify_layers (demo_verifier d))) = (Ok s, rngc') ->
  send s demo_prompt = (Ok ts, s1) ->
  next_tokens (length texts + 1) ts = Some ((Ok ∘ Some <$> texts) ++ [Ok None], ts') ->
  finalize herr ts' = Some (Ok signed, s2) ->
  demo_client herr get connect bundle_ns hs_ns rngc gw_url d = Some (Ok (tee_id_pk s, texts, signed)).
Proof.
  intros Hc Hs Hn Hf. unfold demo_client. rewrite Hc, Hs. rewrite (py_drain_all herr [] texts ts ts' Hn). cbn. by rewrite Hf.
Qed.

(** C5. What a receipt accepted by a client with the layer verifier shows: if
    [finalize] returns a receipt, whatever the stream holds, then the verifier
    was made for the session's weight commitment; the receipt's signature
    verifies under the pinned receipt key; its activation commitments decode
    to nine field elements; and for each of the model's eight layers the
    envelope brought a proof that the key made from that layer's weights
    accepts for the two consecutive commitments, the layer's index, the
    receipt's session and the weight commitment.  The circuit statements of
    these eight proofs all hold exactly if the commitments have openings, and
    for all openings the commitments are those of the model run on the first
    vector, or two of the vectors concerned (a layer's output and the next
    opening) differ and have one Poseidon hash.  Nothing ties the first vector
    to the prompt. *)
Theorem accepted_receipt_traced herr ts signed s' m pps vps wc :
  model_wf m -> keygen_layers m (List.seq 0 NUM_LAYERS) = Some (pps, vps) ->
  layer_verifier (stream_session ts) = Some (verify_layers {| va_params := vps; va_weight_commit := wc |}) ->
  finalize herr ts = Some (Ok signed, s') ->
  expected_weight_commit (stream_session ts) = wc
  /\ verify_receipt signed (tee_receipt_pk (stream_session ts)) = Some (Ok tt)
  /\ exists commits proofs,
       Forall2 (fun h f => exists c, hex_decode h = Some c /\ fp_from_bytes c = Ok f)
         (activation_commits_hex (receipt signed)) commits
       /\ layer_proofs_accepted m commits proofs (session (receipt signed)) wc
       /\ ((exists xs, openings (layers m) commits xs) <->
           forall i l, layers m !! i = Some l -> layer_statement l
             (build_instance (commits !!! i) (commits !!! S i) (Z.of_nat i) (session (receipt signed)) wc))
       /\ forall xs, openings (layers m) commits xs ->
            traced m commits xs \/ exists i, chain_breaks (layers m) xs i.
Proof.
  intros Hm Hk Hlv Hf. destruct (finalize_verified _ _ _ _ _ Hf Hlv) as (cs & proofs & Hr & Hd & Hv).
  destruct (verify_layers_accepted _ _ _ _ _ _ _ _ Hm Hk Hv) as (Hw & commits & Hc & Ha).
  split; [done|]. split; [done|]. exists commits, proofs. pose proof (proj1 Ha) as Hlen. split_and!.
  - clear -Hd Hc. revert commits Hc. induction Hd as [|h c hs cs Hh _ IH]; intros fs Hc;
      inversion_clear Hc; constructor; [by exists c|by apply IH].
  - done.
  - by apply statements_open.
  - intros xs. by apply openings_traced.
Qed.

(** The demo's session: for the services it starts, a bundle its TEE answered
    to the client's nonce and clocks within the freshness limit, the handler
    finishes without error, whatever follows the client's two messages, and
    the client, reading what the handler sent, whatever follows, prints the
    engine's chunks and gets a receipt for that session, its layer verifier
    having accepted the proofs the TEE's prover made. *)
Lemma demo_session_runs (rng0 rng1 : R) d tenant nanos addr instant now_ns now (tee_rng rngc : R) origin instant0
    attest_ns attest_now reg' body get gw_url bundle_ns bundle_now hs_ns hs_now herr inc :
  let tee := demo_tee d in
  let nonce := (fill_bytes 32 rngc).1 in
  let chunks := engine_run (engine tee) demo_prompt in
  demo_start rng0 = Some (d, rng1) -> evidence_fits (identity tee) nonce attest_now ->
  attest tee origin instant0 attest_ns NonceRegistry_new (hex_encode nonce) = (Ok body, reg') ->
  get (trim_end_matches SLASH gw_url ++ lit "/v1/attest?nonce=" ++ hex_encode nonce) = Ok body ->
  now_unix attest_ns = Ok attest_now -> now_unix bundle_ns = Ok bundle_now ->
  now_unix now_ns = Ok now -> now_unix hs_ns = Ok hs_now ->
  (saturating_sub bundle_now attest_now <= NONCE_TTL_DEFAULT_SEC)%Z ->
  (saturating_sub hs_now now <= NONCE_TTL_DEFAULT_SEC)%Z ->
  exists hello prompt_frame w' signed,
    handle_session tee tenant nanos addr instant now_ns
      {| incoming := Ok (Binary hello) :: Ok (Binary prompt_frame) :: inc; outcomes := []; sent := [];
         rng := tee_rng; pool := demo_tenants d |} = (Ok tt, w')
    /\ receipt_for tee tenant (SessionId_random nanos addr) demo_prompt chunks (receipt signed)
    /\ forall connect rest,
       connect (ws_stream_url gw_url true)
         = Ok {| reads := (arrival <$> sent w') ++ rest; send_errors := []; written := [] |} ->
       demo_client herr get connect bundle_ns hs_ns rngc gw_url d
       = Some (Ok (TeeIdentity_id_pk (identity tee), text <$> chunks, signed)).
Proof.
  intros tee nonce chunks Hd Hfit Hatt Hget Han Hbn Hnow Hhn Hage1 Hage2.
  pose proof (demo_proofs_accepted rng0 rng1 d (SessionId_random nanos addr) demo_prompt Hd) as Hacc.
  destruct (demo_start_spec rng0 rng1 d Hd) as (Hid & Hm & Hwc & Hvw & He & _).
  assert (Hok : Forall chunk_ok chunks) by (apply echo_chunks_ok; unfold tee; by rewrite He).
  destruct (session_completes tee tenant nanos addr instant now_ns now tee_rng rngc (demo_tenants d) origin instant0
    attest_ns attest_now NonceRegistry_new reg' body get gw_url true bundle_ns bundle_now hs_ns hs_now
    (Some (verify_layers (demo_verifier d))) herr demo_prompt chunks inc)
    as (hello & frame & msgs & w' & signed & Hh & _ & Hs & Hrec & Hc); try done.
  exists hello, frame, w', signed. split_and!; [done|done|]. rewrite Hs. intros connect rest Hconn.
  destruct (Hc connect rest Hconn) as (s & r' & ts & s1 & ts' & s2 & Hc1 & <- & Hc3 & _ & Hc5 & Hc6).
  unfold tee in Hc1. rewrite <- Hvw in Hc1. eapply demo_client_ok; [exact Hc1|exact Hc3| |exact Hc6].
  by rewrite length_fmap.
Qed.
End Sessions.

(** ** Witnesses *)

Local Open Scope Z_scope.

(** Constant hashes keep the evaluation of the model's derivation small. *)
#[local] Instance flat_sha2 : Sha2 :=
  {| sha256 _ := replicate 32 Byte.x00; sha512 _ := replicate 64 Byte.x00 |}.
#[local] Instance flat_sha2_laws : Sha2Laws.
Proof. by split. Qed.
#[local] Instance flat_hkdf : Hkdf :=
  {| hkdf_extract _ _ := replicate 32 Byte.x00; hkdf_expand _ _ n := replicate n Byte.x00 |}.
#[local] Instance flat_hkdf_laws : HkdfLaws.
Proof. split; [done|]. intros. apply length_replicate. Qed.

Definition demo_attest (d : DemoServices) :=
  attest (demo_tee d) 0 demo_ns demo_ns NonceRegistry_new (hex_encode demo_nonce).

Lemma demo_tee_attests :
  exists d r body reg', demo_start 3 = Some (d, r) /\ demo_attest d = (Ok body, reg') /\ (32 <= length body)%nat
    /\ evidence_fits (identity (demo_tee d)) demo_nonce 1700000000.
Proof.
  assert (E : match demo_start 3 with
              | Some (d, _) =>
                  match (demo_attest d).1 with Ok body => (32 <=? length body)%nat | Err _ => false end
                  && match TeeIdentity_build_bundle (identity (demo_tee d)) demo_nonce 1700000000 with
                     | Some b => Z.of_nat (length (bundle_evidence b)) <=? MAX_ATTESTATION_EVIDENCE_LEN
                     | None => false
                     end
              | None => false
              end = true) by (vm_compute; reflexivity).
  destruct (demo_start 3) as [[d r]|]; [|discriminate E]. apply andb_prop in E as [Ea Eb]. exists d, r.
  destruct (demo_attest d) as [[body|] reg']; [|discriminate Ea]. exists body, reg'.
  split_and!; [done..|by apply Nat.leb_le|]. intros b Hb. rewrite Hb in Eb. by apply Z.leb_le.
Qed.

(** A stream that ends with a receipt for a run of the model of ones. *)
Definition ones_receipt : Receipt :=
  {| Receipts.tenant := lit "acme"; session := replicate 16 Byte.x11; Receipts.model := lit "ones";
     Receipts.input_tokens := 1; output_tokens := 1; Receipts.epoch := 0; Receipts.issued_at_unix := 0;
     kv_blocks_cloaked := 0; output_digest_hex := hex_encode (replicate 32 Byte.x00);
     output_string_digest_hex := hex_encode (replicate 32 Byte.x00);
     weight_commit_hex := hex_encode (replicate 32 Byte.x05);
     activation_commits_hex := hex_encode ∘ fp_to_bytes <$> ones_commits |}.

Definition ones_verifier : PerLayerVerifierAdapter :=
  {| va_params := (fun i => {| lv_params := {| v_params := tt; v_vk := tt |}; lv_layer_idx := Z.of_nat i |})
                    <$> List.seq 0 NUM_LAYERS;
     va_weight_commit := replicate 32 Byte.x05 |}.

Definition ones_stream (envelope : bytes) : TokenStream :=
  {| ended := true;
     stream_session :=
       {| ws := {| reads := [arrival envelope]; send_errors := []; written := [] |};
          Session.s2c := SymRatchet_new []; Session.nonce_salt := []; Session.epoch := 0;
          s2c_replay := ReplayWindow_new; Session.c2s := SymRatchet_new []; Session.c2s_seq := 1;
          Session.current_root := []; Session.server_ratchet_pk := []; Session.client_ratchet_sk := [];
          tee_id_pk := []; tee_receipt_pk := ed25519_public [Byte.x07];
          layer_verifier := Some (verify_layers ones_verifier);
          expected_weight_commit := replicate 32 Byte.x05 |} |}.

Definition ones_params : list LayerProverParams :=
  (fun i => {| lp_params := {| p_params := tt; p_pk := tt |}; lp_layer_idx := Z.of_nat i |}) <$> List.seq 0 NUM_LAYERS.

Lemma ones_keys :
  exists pps, keygen_layers ones_model (List.seq 0 NUM_LAYERS) = Some (pps, va_params ones_verifier).
Proof. by exists ones_params. Qed.

Lemma ones_finalized : exists env signed s', finalize (fun _ => []) (ones_stream env) = Some (Ok signed, s').
Proof.
  assert (Hl : Forall (fun c => length c = 32%nat) (fp_to_bytes <$> ones_commits)) by (repeat constructor).
  destruct (sign_ok {| key := [Byte.x07] |} ones_receipt) as (signed & _ & Hr & Hver).
  { by apply (validate_structural_hex _ (replicate 32 Byte.x00) (replicate 32 Byte.x00) (replicate 32 Byte.x05)
      (fp_to_bytes <$> ones_commits)). }
  destruct (postcard_ok {| signed_receipt := signed; zk_layer_proofs := replicate 8 [] |}) as (env & _ & Hd).
  exists env, signed. apply (finalize_ok _ _ (stream_session (ones_stream env)) env _ [] (fp_to_bytes <$> ones_commits) eq_refl Hd);
    cbn [signed_receipt]; by rewrite ?Hr.
Qed.

Lemma accepted_receipt_traced_witness :
  exists env signed s', finalize (fun _ => []) (ones_stream env) = Some (Ok signed, s')
    /\ verify_receipt signed (ed25519_public [Byte.x07]) = Some (Ok tt)
    /\ exists commits proofs,
         Forall2 (fun h f => exists c, hex_decode h = Some c /\ fp_from_bytes c = Ok f)
           (activation_commits_hex (receipt signed)) commits
         /\ layer_proofs_accepted ones_model commits proofs (session (receipt signed)) (replicate 32 Byte.x05).
Proof.
  destruct ones_finalized as (env & signed & s' & Hf). destruct ones_keys as (pps & Hk).
  exists env, signed, s'. split; [exact Hf|].
  destruct (accepted_receipt_traced (fun _ => []) (ones_stream env) signed s' ones_model pps (va_params ones_verifier)
    (va_weight_commit ones_verifier) ones_model_wf Hk eq_refl Hf) as (_ & Hr & commits & proofs & Hd & Ha & _).
  split; [exact Hr|]. exists commits, proofs. split; [exact Hd|exact Ha].
Defined.
