(* ===== verification/Deployment.v ===== *)
(** * A session through the gateway

    The deployment as it runs: the client asks the gateway for the bundle and
    speaks to the TEE through the gateway's relay.  [Gateway.proxy_attest] and
    the relay of [Relay] are put between the client of [Session] and the
    handler of [Service]; the sockets of the four WebSocket ends are matched
    message by message.

    Proved: an honest gateway costs the session nothing and leaves a trace.
    The bundle the client checks is the TEE's and is in the log; whatever the
    interleaving of the relay's loops, the rate limiter's other traffic, and
    whatever either side sends after its part, once the handler's messages
    have been forwarded the client has its tokens and its receipt. *)

From S2P Require Import Prelude RustStd RustText Core Crates Toy Merkle TreeHead Log Lru Float64 RateLimit Gateway Relay.
From S2P Require Import Crypto Frame Replay Control Handshake Attest Receipts KvCloak Model NonceRegistry TenantPool Service Engine Session EndToEnd.
From Stdlib Require Import Lia.

Local Open Scope Z_scope.

Section Wires.
Context `{!CloseCodes}.

(** What the TEE's socket yields for a message of the gateway's client half
    (which sends no raw frames), and the client's for one of its server half. *)
Definition tee_event (m : TMsg) : ws_event :=
  Ok (match m with
      | TText s => Text s
      | TBinary b => Binary b
      | TPing b => Ping b
      | TPong b => Pong b
      | TClose _ | TFrame _ => Close
      end).

Definition client_event (m : Message) : option ws_event :=
  Some (Ok (match m with
            | MText s => Text s
            | MBinary b => Binary b
            | MPing b => Ping b
            | MPong b => Pong b
            | MClose _ => Close
            end)).

Definition from_client (l : bytes) : result Message bytes := Ok (MBinary l).
Definition from_tee (l : bytes) : result TMsg bytes := Ok (TBinary l).

Lemma forwarded_from_client ls items :
  forwarded translate_axum_to_tungstenite is_tclose ((from_client <$> ls) ++ items)
  = (TBinary <$> ls) ++ forwarded translate_axum_to_tungstenite is_tclose items.
Proof. induction ls as [|l ls IH]; [done|]. cbn. by rewrite IH. Qed.

Lemma forwarded_from_tee ls items :
  forwarded translate_tungstenite_to_axum is_mclose ((from_tee <$> ls) ++ items)
  = (MBinary <$> ls) ++ forwarded translate_tungstenite_to_axum is_mclose items.
Proof. induction ls as [|l ls IH]; [done|]. cbn. by rewrite IH. Qed.

(** A relay that has forwarded as many messages as the handler sent has
    forwarded those. *)
Lemma relay_delivers tenant rl ins outs msgs tail s :
  limiter_inv rl -> Forall (item_ok msg_len) (items ins) -> Forall (item_ok tmsg_len) (items outs) ->
  items outs = (from_tee <$> msgs) ++ tail ->
  rtc (relay_step tenant) (relay_start rl ins outs) s ->
  (length msgs <= length (Relay.sent (outbound s)))%nat ->
  exists rest, client_event <$> Relay.sent (outbound s) = (arrival <$> msgs) ++ rest.
Proof.
  intros Hl Hi Ho Hout Hr Hn. destruct (relay_reachable_inv _ _ _ _ _ Hl Hi Ho Hr) as (_ & _ & (_ & _ & Hp) & _).
  rewrite Hout, forwarded_from_tee in Hp.
  assert (Ha : (MBinary <$> msgs) `prefix_of` Relay.sent (outbound s)).
  { destruct (prefix_weak_total _ _ _ Hp (prefix_app_r _ _ _ (reflexivity (MBinary <$> msgs)))) as [Hs|]; [|done].
    apply prefix_length_eq in Hs as ->; [done|by rewrite length_fmap]. }
  destruct Ha as [rest ->]. exists (client_event <$> rest). by rewrite fmap_app, <- list_fmap_compose.
Qed.
End Wires.

(** ** The bundle *)

Section Bundle.
Context `{!Sha2, !SerdeJson, !Ed25519, !Hex, !HexLaws, !LogEntryJson} (io_error_display : IoError -> bytes).

Lemma hex_nonce_ok nonce : length nonce = 32%nat -> is_hex_nonce (hex_encode nonce) = true.
Proof.
  intros Hl. pose proof (is_hex64_hex nonce Hl) as Hh. unfold is_hex64 in Hh. unfold is_hex_nonce.
  apply andb_prop in Hh as [Hn Hd]. rewrite Hd, andb_true_r. apply bool_decide_eq_true. lia.
Qed.

(** A charged request for a 32-byte nonce is answered with the TEE's body,
    which is in the log. *)
Lemma attest_relayed exchange g h nonce instant rl now_ns now io body n l :
  length nonce = 32%nat -> try_charge (rate_limiter g) (tenant_from_headers h) 4096 instant = Some (true, rl) ->
  http_get_passthrough exchange (attest_url g (hex_encode nonce)) = Ok (200, body) -> (32 <= length body)%nat ->
  now_unix now_ns = Ok now -> append (transparency g) (take 32 body) body now io = (Ok n, l) ->
  exists g', proxy_attest io_error_display exchange g h (hex_encode nonce) instant now_ns io = Some (Ok body, g')
    /\ rate_limiter g' = rl
    /\ entries (transparency g') = entries (transparency g)
       ++ [LogEntry_from_evidence (Z.of_nat (length (entries (transparency g)))) (take 32 body) body now].
Proof.
  intros Hn Hc Hx Hb Hnow Ha. unfold proxy_attest. rewrite Hc. cbn [mbind option_bind negb].
  rewrite (hex_nonce_ok nonce Hn). cbn [negb].
  change (attest_url (set_limiter g rl) ?x) with (attest_url g x). rewrite Hx. change (is_success 200) with true. cbn [negb].
  rewrite decide_True by done. rewrite Hnow. cbn [transparency set_limiter]. rewrite Ha.
  eexists. split; [done|]. split; [done|]. cbn. by apply append_ok_shape in Ha as [-> ->].
Qed.
End Bundle.

(** ** The session *)

Section Sessions.
Context {R : Type} `{!MlKem R, !MlKemLaws R, !X25519 R, !X25519Laws R, !Rng R, !RngLaws R, !Ed25519,
    !Ed25519Laws, !Hkdf, !HkdfLaws, !Sha2, !Sha2Laws, !Aead, !AeadLaws, !Bitflags, !BitflagsLaws,
    !Hex, !HexLaws, !Subtle, !SubtleLaws, !SerdeJson, !LogEntryJson} `{!Pasta, !PastaLaws}
  `{!Postcard ClientHello, !PostcardLaws ClientHello, !Postcard ServerHello, !PostcardLaws ServerHello,
    !Postcard PreKeyBundle, !PostcardLaws PreKeyBundle, !Postcard Evidence, !PostcardLaws Evidence,
    !Postcard Receipt, !PostcardLaws Receipt, !Postcard ReceiptEnvelope, !PostcardLaws ReceiptEnvelope}
  `{!InferenceEngine E} `{!DebugMessage} `{!CloseCodes} (io_error_display : IoError -> bytes).

(** C2. A session through an honest gateway.  Take a TEE and a client as for a
    direct session, and a gateway that charges the client's request for a
    bundle, gets the TEE's answer and can append to its log.  Then the gateway
    answers with the TEE's bundle, which is now the last entry of the log, and
    there are a hello and a prompt frame such that the handler, reading what
    the relay forwards of them and of anything the client sends [later],
    finishes without error; in every state of the relay, reached by any
    interleaving of its loops with each other and with other tenants'
    charges, the TEE has been sent a prefix of that, and as soon as the relay
    has forwarded as many messages as the handler sent (whatever the TEE's
    socket yields after them, and whether the sockets then end or stay open),
    the client that reads what it was sent opens
    the session, gets the engine's chunks in order and the end of turn, and a
    verified receipt for this session, prompt and output. *)
Theorem session_through_gateway (state : AppState R E) tenant nanos addr instant now_ns now (tee_rng rngc : R)
    tenants origin instant0 attest_ns attest_now reg reg' body exchange g h gw_instant rl gw_ns gw_now io n l
    get base tls bundle_ns bundle_now hs_ns hs_now lv herr prompt chunks later :
  let sid := SessionId_random nanos addr in
  let nonce := (fill_bytes 32 rngc).1 in
  identity_wf (identity state) -> evidence_fits (identity state) nonce attest_now ->
  model_wf (verifiable_model state) -> length (weight_commit (identity state)) = 32%nat ->
  Z.of_nat (length prompt) <= MAX_PLAINTEXT_PER_RECORD -> utf8_valid prompt = true ->
  engine_run (engine state) prompt = chunks -> Forall chunk_ok chunks ->
  attest state origin instant0 attest_ns reg (hex_encode nonce) = (Ok body, reg') -> (32 <= length body)%nat ->
  http_get_passthrough exchange (attest_url g (hex_encode nonce)) = Ok (200, body) ->
  try_charge (rate_limiter g) (tenant_from_headers h) 4096 gw_instant = Some (true, rl) ->
  now_unix gw_ns = Ok gw_now -> append (transparency g) (take 32 body) body gw_now io = (Ok n, l) ->
  get (trim_end_matches SLASH base ++ lit "/v1/attest?nonce=" ++ hex_encode nonce) = Ok body ->
  now_unix attest_ns = Ok attest_now -> now_unix bundle_ns = Ok bundle_now ->
  now_unix now_ns = Ok now -> now_unix hs_ns = Ok hs_now ->
  saturating_sub bundle_now attest_now <= NONCE_TTL_DEFAULT_SEC ->
  saturating_sub hs_now now <= NONCE_TTL_DEFAULT_SEC ->
  proofs_accepted state lv sid prompt ->
  exists g' hello prompt_frame w' signed,
    proxy_attest io_error_display exchange g h (hex_encode nonce) gw_instant gw_ns io = Some (Ok body, g')
    /\ entries (transparency g') = entries (transparency g)
       ++ [LogEntry_from_evidence (Z.of_nat (length (entries (transparency g)))) (take 32 body) body gw_now]
    /\ (let ins := (from_client <$> [hello; prompt_frame]) ++ later in
        let upstream := forwarded translate_axum_to_tungstenite is_tclose ins in
        handle_session state tenant nanos addr instant now_ns
          {| incoming := tee_event <$> upstream; outcomes := []; Service.sent := []; rng := tee_rng; pool := tenants |}
          = (Ok tt, w')
        /\ receipt_for state tenant sid prompt chunks (receipt signed)
        /\ forall rl0 tail client_closes tee_closes s,
           let outs := (from_tee <$> Service.sent w') ++ tail in
           limiter_inv rl0 -> Forall (item_ok msg_len) ins -> Forall (item_ok tmsg_len) outs ->
           rtc (relay_step (tenant_from_headers h)) (relay_start rl0 {| items := ins; closes := client_closes |}
             {| items := outs; closes := tee_closes |}) s ->
           Relay.sent (inbound s) `prefix_of` upstream
           /\ ((length (Service.sent w') <= length (Relay.sent (outbound s)))%nat ->
               forall connect,
               connect (ws_stream_url base tls)
                 = Ok {| reads := client_event <$> Relay.sent (outbound s); send_errors := []; written := [] |} ->
               exists sess rngc' ts s1 ts' s2,
                 connect_with get connect bundle_ns hs_ns rngc base
                   (MockIssuer_verifying_key (attest_issuer (identity state))) (tee_verifying_key state)
                   (weight_commit (identity state)) tls lv = (Ok sess, rngc')
                 /\ send sess prompt = (Ok ts, s1) /\ written (ws s1) = [hello; prompt_frame]
                 /\ next_tokens (length chunks + 1) ts = Some ((Ok ∘ Some <$> (text <$> chunks)) ++ [Ok None], ts')
                 /\ finalize herr ts' = Some (Ok signed, s2))).
Proof.
  intros sid nonce Hid Hfit Hm Hwc Hpl Hpu Hrun Hok Hatt Hb Hx Hc Hgn Ha Hget Han Hbn Hnow Hhn Hage1 Hage2 Hacc.
  destruct (attest_relayed io_error_display exchange g h nonce gw_instant rl gw_ns gw_now io body n l)
    as (g' & Hpx & _ & Hlog); [apply fill_bytes_len|done..|].
  destruct (session_completes state tenant nanos addr instant now_ns now tee_rng rngc tenants origin instant0
    attest_ns attest_now reg reg' body get base tls bundle_ns bundle_now hs_ns hs_now lv herr prompt chunks
    (tee_event <$> forwarded translate_axum_to_tungstenite is_tclose later))
    as (hello & frame & msgs & w' & signed & Hh & _ & Hs & Hrec & Hcl); [done..|].
  exists g', hello, frame, w', signed. split; [done|]. split; [done|]. cbv zeta. rewrite forwarded_from_client.
  split; [exact Hh|]. split; [done|]. rewrite Hs. intros rl0 tail cc tc s Hl Hi Ho Hr. split.
  - destruct (relay_reachable_inv _ _ {| items := _; closes := cc |} {| items := _; closes := tc |} _ Hl Hi Ho Hr)
      as (_ & (_ & _ & Hp) & _). cbn [items] in Hp. by rewrite forwarded_from_client in Hp.
  - intros Hn connect Hconn. destruct (relay_delivers _ _ {| items := _; closes := cc |} {| items := _; closes := tc |} _ tail _
      Hl Hi Ho eq_refl Hr Hn) as [rest Hrest]. rewrite Hrest in Hconn.
    destruct (Hcl connect rest Hconn) as (sess & r' & ts & s1 & ts' & s2 & Hc1 & _ & Hc2 & Hc3 & Hc4 & Hc5).
    by exists sess, r', ts, s1, ts', s2.
Qed.
End Sessions.

(** ** A witness *)

#[local] Existing Instance plain_codes.

Definition demo_upstream (_ : bytes) (_ : Z) (_ : bytes) : result bytes bytes :=
  Ok (lit "HTTP/1.1 200 OK" ++ CRLF ++ CRLF ++ demo_body).

Lemma upstream_answers body :
  parse_response (lit "HTTP/1.1 200 OK" ++ CRLF ++ CRLF ++ body) = Ok (200, body).
Proof. reflexivity. Qed.

Lemma demo_upstream_answers :
  http_get_passthrough demo_upstream (attest_url (demo_gateway demo_state) (hex_encode demo_nonce)) = Ok (200, demo_body).
Proof.
  unfold http_get_passthrough. destruct (parse_url _) as [u|e] eqn:E; [|vm_compute in E; discriminate E].
  cbn [result_bind]. unfold demo_upstream. cbn [result_bind]. apply upstream_answers.
Qed.

Lemma demo_bundle_appended : exists n l, append (transparency (demo_gateway demo_state)) (take 32 demo_body) demo_body 1700000000 io_fine = (Ok n, l).
Proof. eexists _, _. reflexivity. Qed.

Lemma demo_charge :
  exists rl, try_charge (rate_limiter (demo_gateway demo_state)) (tenant_from_headers None) 4096 5 = Some (true, rl).
Proof.
  assert (E : fst <$> try_charge (rate_limiter (demo_gateway demo_state)) (tenant_from_headers None) 4096 5 = Some true)
    by (vm_compute; reflexivity).
  destruct (try_charge _ _ _ _) as [[ok rl]|]; [|done]. injection E as ->. by exists rl.
Qed.

Lemma session_through_gateway_witness :
  exists g' hello prompt_frame w',
    proxy_attest io_text demo_upstream (demo_gateway demo_state) None (hex_encode demo_nonce) 5 demo_ns io_fine
      = Some (Ok demo_body, g')
    /\ length (entries (transparency g')) = 3%nat
    /\ handle_session demo_app (lit "acme") 5 6 7 demo_ns
         {| incoming := [Ok (Binary hello); Ok (Binary prompt_frame)]; outcomes := []; Service.sent := [];
            rng := 1000; pool := (TenantPool_random 9).1 |} = (Ok tt, w').
Proof.
  destruct demo_bundle_appended as (n & l & Ha). destruct demo_charge as (rl & Hc).
  destruct (session_through_gateway io_text demo_app (lit "acme") 5 6 7 demo_ns 1700000000 1000 77
    (TenantPool_random 9).1 0 demo_ns demo_ns 1700000000 NonceRegistry_new demo_answer.2 demo_body
    demo_upstream (demo_gateway demo_state) None 5 rl demo_ns 1700000000 io_fine n l
    (fun _ => Ok demo_body) (lit "http://gw") false demo_ns 1700000000 demo_ns 1700000000 None
    (fun _ => []) (lit "hi") demo_chunks []) as (g' & hello & frame & w' & signed & Hp & Hl & Hrun & _).
  - apply identity_random_wf.
  - exact demo_evidence_fits.
  - exact demo_model_wf.
  - vm_compute. reflexivity.
  - vm_compute. congruence.
  - vm_compute. reflexivity.
  - reflexivity.
  - exact demo_chunks_ok.
  - exact (eq_trans (surjective_pairing demo_answer) (f_equal2 pair demo_answer_ok eq_refl)).
  - apply Nat.leb_le. vm_compute. reflexivity.
  - exact demo_upstream_answers.
  - exact Hc.
  - vm_compute. reflexivity.
  - exact Ha.
  - reflexivity.
  - vm_compute. reflexivity.
  - vm_compute. reflexivity.
  - vm_compute. reflexivity.
  - vm_compute. reflexivity.
  - vm_compute. congruence.
  - vm_compute. congruence.
  - intros r cs Hcs. exists [], r. split; [reflexivity|exact I].
  - exists g', hello, frame, w'. split; [exact Hp|]. split; [rewrite Hl; reflexivity|exact Hrun].
Defined.
