(* ===== verification/DemoMain.v ===== *)
(** * ullm-demo: the services around the demo's session

    [tools/ullm-demo/src/main.rs] between the TEE and the client: the
    certificate, the gateway's state, the address its listener got, the line
    the server-only mode prints and the pin of the full mode's client.  The
    TEE and the session are in [Demo.v].  [None] is a panic; the listeners'
    addresses and axum-server's reading of the certificate are arguments.

    Proved: the demo completes through its gateway, under every interleaving of
    the relay, and prints the echo, the receipt and a log of one entry; the
    client's pin accepts a server exactly when it presents the certificate the
    gateway was started with, under either of its names; the line of the
    server-only mode determines the address and every key a driver needs. *)

From S2P Require Import Prelude RustStd RustText RustNet Core Crates Toy Merkle TreeHead Log RateLimit Gateway Relay Tls.
From S2P Require Import Crypto Control Handshake Attest Receipts Model Halo2 Zk NonceRegistry TenantPool Service Engine Session EndToEnd Deployment Demo.
From Stdlib Require Import Lia.

Local Open Scope nat_scope.

Section DemoMain.
Context {R : Type} `{!MlKem R, !X25519 R, !Rng R, !Ed25519, !Ed25519Gen R, !Hkdf, !Sha2, !Hex, !Rcgen R,
  !RustlsBuilder} `{!Pasta, !PrimeField, !Halo2} `{!Postcard Evidence}.

(** What can stop the start: a listener, its address, the certificate, the
    reading of it, the gateway's bind. *)
Inductive DemoError :=
| TeeListener (e : bytes)
| Certificate (e : TlsError)
| CertificateRead (e : bytes)
| GatewayUnbound.

Record DemoRunning := {
  dr_services : DemoServices (R := R);
  dr_gateway : GatewayState;
  dr_cert : SelfSignedCert;
  dr_gw_url : bytes;
}.

Definition demo_names : list bytes := [lit "localhost"; lit "127.0.0.1"].

(** The gateway's state: an empty log in memory, its id the key in hex. *)
Definition demo_gateway_state (tee_url key : bytes) : GatewayState :=
  {| tee_base_url := tee_url; rate_limiter := RateLimiter_new RateLimiterConfig_default;
     transparency := TransparencyLog_new; logger_signing_key := key;
     gw_log_id := hex_encode (ed25519_public key); sth_cache := None |}.

(** [main] up to the choice of the mode. *)
Definition demo_services (now : Z) (tee_addr : result SocketAddr bytes)
    (from_der : list bytes -> bytes -> result unit bytes) (listening : option SocketAddr) (rng : R) :
  option (result DemoRunning DemoError * R) :=
  '(services, rng) ← demo_start rng;
  match tee_addr with
  | Err e => Some (Err (TeeListener e), rng)
  | Ok tee_addr =>
      let tee_url := lit "http://" ++ socket_display tee_addr in
      '(cert, rng) ← generate demo_names now rng;
      match cert with
      | Err e => Some (Err (Certificate e), rng)
      | Ok cert =>
          let '(key, rng) := ed25519_generate rng in
          let gateway := demo_gateway_state tee_url key in
          Some (
            let? _ := map_err CertificateRead (from_der [cert_der cert] (key_der_pkcs8 cert)) in
            let? bound := ok_or listening GatewayUnbound in
            Ok {| dr_services := services; dr_gateway := gateway; dr_cert := cert;
                  dr_gw_url := lit "https://" ++ socket_display bound |}, rng)
      end
  end.

(** The line of the server-only mode; a quotation mark is a byte. *)
Definition quoted (s : bytes) : bytes := Byte.x22 :: s ++ [Byte.x22].

Definition server_only_json (gw_url fp trust_root receipt_pk weight_commit : bytes) : bytes :=
  lit "{" ++ quoted (lit "gateway_url") ++ lit ":" ++ quoted gw_url
  ++ lit "," ++ quoted (lit "fingerprint_hex") ++ lit ":" ++ quoted (hex_encode fp)
  ++ lit "," ++ quoted (lit "trust_root_hex") ++ lit ":" ++ quoted (hex_encode trust_root)
  ++ lit "," ++ quoted (lit "tee_receipt_pk_hex") ++ lit ":" ++ quoted (hex_encode receipt_pk)
  ++ lit "," ++ quoted (lit "weight_commit_hex") ++ lit ":" ++ quoted (hex_encode weight_commit) ++ lit "}".

Definition server_only_line (d : DemoRunning) : bytes :=
  let tee := demo_tee (dr_services d) in
  server_only_json (dr_gw_url d) (fingerprint (dr_cert d)) (MockIssuer_verifying_key (attest_issuer (identity tee)))
    (tee_verifying_key tee) (weight_commit (identity tee)).

(** The pin of the full mode's client. *)
Definition demo_tls (d : DemoRunning) : option TlsPinning :=
  pin_multi (lit "localhost") (fingerprint (dr_cert d)) (sans (dr_cert d)).

(** What the full mode prints on its way: the tokens on one line; the log as
    it is at the end. *)
Definition demo_lines (id_pk weight_commit : bytes) (tokens : list bytes) (r : Receipt) (log : LogStatus) : list bytes :=
  [lit "session established with TEE id_pk = " ++ hex_encode id_pk;
   lit "  weight commit cross-bound in attestation: " ++ hex_encode weight_commit;
   lit "→ " ++ demo_prompt;
   lit "← " ++ concat tokens;
   lit "✓ signed receipt: model=" ++ Receipts.model r ++ lit " input=" ++ fmt_dec (Receipts.input_tokens r)
   ++ lit " output=" ++ fmt_dec (output_tokens r) ++ lit " kv_blocks_cloaked=" ++ fmt_dec (kv_blocks_cloaked r);
   lit "✓ verifiable model: " ++ fmt_dec (Z.of_nat (length (activation_commits_hex r)))
   ++ lit " activation commits, weight_commit=" ++ weight_commit_hex r;
   lit "✓ Halo2 per-layer ZK proofs verified for all " ++ fmt_dec (Z.of_nat NUM_LAYERS) ++ lit " layers";
   lit "✓ transparency log: size=" ++ fmt_dec (status_size log) ++ lit " root=" ++ status_root_hex log].

Section FullMode.
Context `{!Aead, !Bitflags, !Subtle, !SerdeJson, !DebugMessage} `{!Postcard ClientHello, !Postcard ServerHello,
  !Postcard PreKeyBundle, !Postcard Receipt, !Postcard ReceiptEnvelope}.

(** The rest of [main] in the full mode: the client's session, then the log,
    which the gateway shares. *)
Definition demo_full (hex_error : bytes -> bytes) (get : bytes -> Result bytes)
    (connect : bytes -> Result ClientSocket) (bundle_ns hs_ns : Z) (rng : R) (d : DemoRunning) (log : Log.State) :
  option (Result (list bytes)) :=
  r ← demo_client hex_error get connect bundle_ns hs_ns rng (dr_gw_url d) (dr_services d);
  Some (let? (id_pk, tokens, signed) := r in
        Ok (demo_lines id_pk (va_weight_commit (demo_verifier (dr_services d))) tokens (receipt signed)
              (log_status log))).
End FullMode.

(** ** What has been started *)

Lemma demo_services_ok now tee_addr from_der listening rng d rng' :
  demo_services now tee_addr from_der listening rng = Some (Ok d, rng') ->
  fingerprint (dr_cert d) = sha256 (cert_der (dr_cert d)) /\ sans (dr_cert d) = demo_names
  /\ (exists r, demo_start rng = Some (dr_services d, r))
  /\ exists tee_addr' key, tee_addr = Ok tee_addr'
       /\ dr_gateway d = demo_gateway_state (lit "http://" ++ socket_display tee_addr') key.
Proof.
  unfold demo_services. destruct (demo_start rng) as [[services r1]|]; [|done]. cbn [mbind option_bind].
  destruct tee_addr as [a|e]; [|done]. unfold generate, generate_with_validity.
  destruct (Tls.params_new demo_names) as [params|]; [|done]. destruct (date_add _ _) as [na|]; [|done].
  cbn [mbind option_bind]. destruct (key_generate r1) as [kp r2]. cbn [mbind option_bind].
  destruct kp as [kp|]; [|done]. cbn [map_err result_bind].
  destruct (self_signed params _ now na kp) as [[der pem]|]; [|done]. cbn [map_err result_bind].
  destruct (ed25519_generate r2) as [key r3]. intros E. apply (inj Some) in E. injection E as E _.
  apply result_bind_Ok in E as (_ & _ & E). apply result_bind_Ok in E as (bound & _ & E).
  apply Ok_inj in E as <-. split_and!; [done|done|by eexists|by eexists _, _].
Qed.

(** The pin accepts exactly the gateway's certificate, whichever of the two
    names the client dials. *)
Theorem demo_pin_accepts `{!Sha2Laws} dbg now tee_addr from_der listening rng d rng' t :
  demo_services now tee_addr from_der listening rng = Some (Ok d, rng') -> demo_tls d = Some t ->
  exists v, verification (config t) = Pinned v
    /\ (forall n p at_, n = DnsName (lit "localhost") \/ n = IpAddress (V4 127 0 0 1) ->
        (pinned_accepts dbg v n at_ p = true <-> sha256 (pr_cert p) = sha256 (cert_der (dr_cert d))))
    /\ (forall n p at_, pinned_accepts dbg v n at_ p = true ->
        presented n = Some (lit "localhost") \/ presented n = Some (lit "127.0.0.1"))
    /\ entries (transparency (dr_gateway d)) = []
    /\ gw_log_id (dr_gateway d) = hex_encode (ed25519_public (logger_signing_key (dr_gateway d))).
Proof.
  intros (Hf & Hs & _ & a & key & _ & Hg)%demo_services_ok. unfold demo_tls, pin_multi, client_config_pinned, build_pinned.
  destruct (check_versions pq_provider); cbn; [|done]. intros [= <-]. eexists. split; [reflexivity|].
  assert (Hl : length (fingerprint (dr_cert d)) = 32) by (rewrite Hf; apply sha256_len).
  split_and!; [| |by rewrite Hg|by rewrite Hg].
  - intros n p at_ Hn. rewrite pinned_accepts_iff by done. cbn [expected expected_sans]. rewrite Hf, Hs.
    split; [by intros []|]. intros E. split; [done|]. right.
    destruct Hn as [-> | ->]; [exists (lit "localhost")|exists (lit "127.0.0.1")]; (split; [set_solver|reflexivity]).
  - intros n p at_. rewrite pinned_accepts_iff by done. cbn [expected expected_sans]. rewrite Hs.
    intros [_ [|(s & Hin & ->)]]; [done|]. unfold demo_names in Hin.
    rewrite !elem_of_cons in Hin. destruct Hin as [->|[->|[]%elem_of_nil]]; [by left|by right].
Qed.

(** ** The line a driver reads *)

Lemma quoted_inj_end `{!HexLaws} x y a b :
  length x = length y -> a ++ quoted (hex_encode x) = b ++ quoted (hex_encode y) -> a = b /\ x = y.
Proof.
  intros Hl E. apply app_inj_2 in E as [-> E]; [|unfold quoted; cbn; by rewrite !length_app, !hex_encode_len, Hl].
  split; [done|]. unfold quoted in E. injection E as E. by apply app_inv_tail, hex_encode_inj in E.
Qed.

(** The line determines the address and the keys: two lines are equal only for
    the same URL, fingerprint and keys. *)
Theorem server_only_line_inj `{!HexLaws} url1 fp1 tr1 pk1 wc1 url2 fp2 tr2 pk2 wc2 :
  length fp1 = length fp2 -> length tr1 = length tr2 -> length pk1 = length pk2 -> length wc1 = length wc2 ->
  server_only_json url1 fp1 tr1 pk1 wc1 = server_only_json url2 fp2 tr2 pk2 wc2 ->
  url1 = url2 /\ fp1 = fp2 /\ tr1 = tr2 /\ pk1 = pk2 /\ wc1 = wc2.
Proof.
  intros Lf Lt Lp Lw E. unfold server_only_json in E. rewrite !(assoc_L (++)) in E.
  apply app_inv_tail, quoted_inj_end in E as [E ->]; [|done].
  do 3 apply app_inv_tail in E. apply quoted_inj_end in E as [E ->]; [|done].
  do 3 apply app_inv_tail in E. apply quoted_inj_end in E as [E ->]; [|done].
  do 3 apply app_inv_tail in E. apply quoted_inj_end in E as [E ->]; [|done].
  do 3 apply app_inv_tail in E. rewrite <- !(assoc_L (++)) in E. do 3 apply app_inv_head in E.
  injection E as E. by apply app_inv_tail in E as ->.
Qed.
End DemoMain.

(** ** The whole run *)

Section WholeRun.
Context {R : Type} `{!MlKem R, !MlKemLaws R, !X25519 R, !X25519Laws R, !Rng R, !RngLaws R, !Ed25519, !Ed25519Gen R,
    !Ed25519Laws, !Hkdf, !HkdfLaws, !Sha2, !Sha2Laws, !Aead, !AeadLaws, !Bitflags, !BitflagsLaws,
    !Hex, !HexLaws, !Subtle, !SubtleLaws, !Rcgen R, !RustlsBuilder, !SerdeJson, !LogEntryJson}
  `{!Pasta, !PastaLaws, !PrimeField, !Halo2, !Halo2Laws}
  `{!Postcard ClientHello, !PostcardLaws ClientHello, !Postcard ServerHello, !PostcardLaws ServerHello,
    !Postcard PreKeyBundle, !PostcardLaws PreKeyBundle, !Postcard Evidence, !PostcardLaws Evidence,
    !Postcard Receipt, !PostcardLaws Receipt, !Postcard ReceiptEnvelope, !PostcardLaws ReceiptEnvelope}
  `{!DebugMessage, !CloseCodes} (io_error_display : IoError -> bytes).

(** C20. The demo completes: take the services it starts, an answer of its TEE
    to the client's nonce that the gateway's request gets, and clocks within
    the freshness limit.  Then the gateway, whose limiter is new, charges and
    relays the bundle and logs it as its first entry; there are a hello and a
    prompt frame such that the TEE's handler, reading what the relay forwards
    of them and of anything the client sends later, finishes without error;
    and under every interleaving of the relay's loops, once the relay has
    forwarded the handler's messages, the full mode's client prints the TEE's
    key, the echo of its prompt, the receipt of that session with all eight
    layer proofs verified, and a log of size one. *)
Theorem demo_run_completes now0 tee_addr from_der listening (rng0 rng1 : R) d tenant nanos addr instant now_ns now
    (tee_rng rngc : R) origin instant0 attest_ns attest_now reg' body exchange h gw_instant gw_ns gw_now io
    get bundle_ns bundle_now hs_ns hs_now herr later :
  let tee := demo_tee (dr_services d) in
  let nonce := (fill_bytes 32 rngc).1 in
  let g := dr_gateway d in
  demo_services now0 tee_addr from_der listening rng0 = Some (Ok d, rng1) ->
  evidence_fits (identity tee) nonce attest_now ->
  attest tee origin instant0 attest_ns NonceRegistry_new (hex_encode nonce) = (Ok body, reg') -> 32 <= length body ->
  http_get_passthrough exchange (attest_url g (hex_encode nonce)) = Ok (200%Z, body) ->
  get (trim_end_matches SLASH (dr_gw_url d) ++ lit "/v1/attest?nonce=" ++ hex_encode nonce) = Ok body ->
  now_unix gw_ns = Ok gw_now -> now_unix attest_ns = Ok attest_now -> now_unix bundle_ns = Ok bundle_now ->
  now_unix now_ns = Ok now -> now_unix hs_ns = Ok hs_now ->
  (saturating_sub bundle_now attest_now <= NONCE_TTL_DEFAULT_SEC)%Z ->
  (saturating_sub hs_now now <= NONCE_TTL_DEFAULT_SEC)%Z ->
  exists g' hello prompt_frame w' signed,
    proxy_attest io_error_display exchange g h (hex_encode nonce) gw_instant gw_ns io = Some (Ok body, g')
    /\ entries (transparency g') = [LogEntry_from_evidence 0 (take 32 body) body gw_now]
    /\ session (receipt signed) = SessionId_random nanos addr
    /\ let ins := (from_client <$> [hello; prompt_frame]) ++ later in
       handle_session tee tenant nanos addr instant now_ns
         {| incoming := tee_event <$> forwarded translate_axum_to_tungstenite is_tclose ins; outcomes := [];
            Service.sent := []; rng := tee_rng; pool := demo_tenants (dr_services d) |} = (Ok tt, w')
       /\ forall tail client_closes tee_closes s connect,
          let outs := (from_tee <$> Service.sent w') ++ tail in
          Forall (item_ok msg_len) ins -> Forall (item_ok tmsg_len) outs ->
          rtc (relay_step (tenant_from_headers h)) (relay_start (rate_limiter g')
            {| items := ins; closes := client_closes |} {| items := outs; closes := tee_closes |}) s ->
          length (Service.sent w') <= length (Relay.sent (outbound s)) ->
          connect (ws_stream_url (dr_gw_url d) true)
            = Ok {| reads := client_event <$> Relay.sent (outbound s); send_errors := []; written := [] |} ->
          exists lines, demo_full herr get connect bundle_ns hs_ns rngc d (transparency g') = Some (Ok lines)
            /\ lines !! 0 = Some (lit "session established with TEE id_pk = "
                                  ++ hex_encode (TeeIdentity_id_pk (identity tee)))
            /\ lines !! 3 = Some (lit "← echo: say hi to the world")
            /\ lines !! 5 = Some (lit "✓ verifiable model: "
                 ++ fmt_dec (Z.of_nat (length (activation_commits_hex (receipt signed))))
                 ++ lit " activation commits, weight_commit=" ++ hex_encode (weight_commit (identity tee)))
            /\ lines !! 7 = Some (lit "✓ transparency log: size=1 root="
                 ++ hex_encode (merkle_root (entries (transparency g')))).
Proof.
  intros tee nonce g Hd Hfit Hatt Hb Hx Hget Hgn Han Hbn Hnow Hhn Hage1 Hage2.
  apply demo_services_ok in Hd as (_ & _ & (r & Hstart) & a & key & _ & Hg).
  destruct (fresh_charge (tenant_from_headers h) gw_instant) as (rl & Hc & Hrl).
  destruct (attest_relayed io_error_display exchange g h nonce gw_instant rl gw_ns gw_now io body 0
              (push_entry TransparencyLog_new (LogEntry_from_evidence 0 (take 32 body) body gw_now)))
    as (g' & Hpx & Hlim & Hlog); [apply fill_bytes_len|unfold g; by rewrite Hg|done..|unfold g; by rewrite Hg|].
  destruct (demo_session_runs rng0 r (dr_services d) tenant nanos addr instant now_ns now tee_rng rngc origin instant0
    attest_ns attest_now reg' body get (dr_gw_url d) bundle_ns bundle_now hs_ns hs_now herr
    (tee_event <$> forwarded translate_axum_to_tungstenite is_tclose later))
    as (hello & frame & w' & signed & Hh & Hrec & Hcl); [done..|].
  assert (Hent : entries (transparency g') = [LogEntry_from_evidence 0 (take 32 body) body gw_now])
    by (rewrite Hlog; unfold g; by rewrite Hg).
  exists g', hello, frame, w', signed. split_and!; [done|done|apply Hrec|]. cbv zeta. rewrite forwarded_from_client.
  split; [exact Hh|]. intros tail cc tc s connect Hi Ho Hr Hn Hconn. rewrite Hlim in Hr.
  destruct (relay_delivers _ _ {| items := _; closes := cc |} {| items := _; closes := tc |} _ tail _
    Hrl Hi Ho eq_refl Hr Hn) as [rest Hrest]. rewrite Hrest in Hconn.
  eexists. split; [unfold demo_full; rewrite (Hcl connect rest Hconn); reflexivity|].
  split_and!; [done| | |].
  - cbn [demo_lines lookup list_lookup]. rewrite echo_text by (repeat constructor). done.
  - cbn [demo_lines lookup list_lookup]. by destruct Hrec as (_ & _ & -> & _).
  - cbn [demo_lines lookup list_lookup log_status status_size status_root_hex]. by rewrite Hent.
Qed.
End WholeRun.

(** ** A run *)

#[local] Existing Instance flat_sha2.
#[local] Existing Instance flat_sha2_laws.
#[local] Existing Instance flat_hkdf.
#[local] Existing Instance flat_hkdf_laws.
#[local] Existing Instance toy_rustls.
#[local] Existing Instance plain_codes.

#[local] Instance demo_rcgen : Rcgen Z := {|
  CertificateParams := list bytes;
  KeyPair := Z;
  Tls.params_new names := Ok names;
  key_generate r := (Ok r, (r + 1)%Z);
  self_signed names cn nb na kp := Ok (cn, cn);
  serialize_pem _ := [];
  serialize_der _ := [];
  date_add t s := Some (t + s)%Z;
|}.

Definition demo_tee_addr : SocketAddr := {| ip := V4 127 0 0 1; RustNet.port := 9001; scope_id := 0 |}.
Definition demo_bound : SocketAddr := {| ip := V4 127 0 0 1; RustNet.port := 9443; scope_id := 0 |}.

Lemma demo_services_start services (r : Z) :
  demo_start 3%Z = Some (services, r) ->
  exists d rng1, demo_services 0 (Ok demo_tee_addr) (fun _ _ => Ok tt) (Some demo_bound) 3%Z = Some (Ok d, rng1)
    /\ dr_services d = services /\ tee_base_url (dr_gateway d) = lit "http://127.0.0.1:9001".
Proof.
  intros Hs. unfold demo_services. rewrite Hs. cbn [mbind option_bind].
  unfold generate, generate_with_validity. cbn [Tls.params_new demo_rcgen date_add mbind option_bind key_generate
    map_err result_bind self_signed]. destruct (ed25519_generate (r + 1)%Z) as [key r2].
  eexists _, _. split; [reflexivity|]. by split.
Qed.

Definition demo_exchange (body : bytes) (_ : bytes) (_ : Z) (_ : bytes) : result bytes bytes :=
  Ok (lit "HTTP/1.1 200 OK" ++ CRLF ++ CRLF ++ body).

Lemma demo_exchange_answers g body :
  tee_base_url g = lit "http://127.0.0.1:9001" ->
  http_get_passthrough (demo_exchange body) (attest_url g (hex_encode demo_nonce)) = Ok (200%Z, body).
Proof.
  intros Hg. unfold http_get_passthrough, attest_url, upstream_url. rewrite Hg.
  destruct (parse_url _) as [u|e] eqn:E; [|vm_compute in E; discriminate E].
  cbn [result_bind]. unfold demo_exchange. cbn [result_bind]. apply upstream_answers.
Qed.

Lemma demo_run_completes_witness :
  exists d g' body hello prompt_frame w',
    proxy_attest io_text (demo_exchange body) (dr_gateway d) None (hex_encode demo_nonce) 5 demo_ns io_fine
      = Some (Ok body, g')
    /\ length (entries (transparency g')) = 1
    /\ handle_session (demo_tee (dr_services d)) (lit "acme") 5 6 7 demo_ns
         {| incoming := [Ok (Binary hello); Ok (Binary prompt_frame)]; outcomes := []; Service.sent := [];
            rng := 1000%Z; pool := demo_tenants (dr_services d) |} = (Ok tt, w').
Proof.
  destruct demo_tee_attests as (services & r & body & reg' & Hs & Ha & Hl & Hf).
  destruct (demo_services_start services r Hs) as (d & rng1 & Hd & <- & Hu).
  destruct (demo_run_completes io_text 0 (Ok demo_tee_addr) (fun _ _ => Ok tt) (Some demo_bound) 3%Z rng1 d
    (lit "acme") 5 6 7 demo_ns 1700000000 1000%Z 77%Z 0 demo_ns demo_ns 1700000000 reg' body (demo_exchange body) None 5
    demo_ns 1700000000 io_fine (fun _ => Ok body) demo_ns 1700000000 demo_ns 1700000000 (fun _ => []) [])
    as (g' & hello & frame & w' & signed & Hp & He & _ & Hh & _).
  - exact Hd.
  - exact Hf.
  - exact Ha.
  - exact Hl.
  - exact (demo_exchange_answers _ _ Hu).
  - reflexivity.
  - vm_compute. reflexivity.
  - vm_compute. reflexivity.
  - vm_compute. reflexivity.
  - vm_compute. reflexivity.
  - vm_compute. reflexivity.
  - vm_compute. congruence.
  - vm_compute. congruence.
  - exists d, g', body, hello, frame, w'. split; [exact Hp|]. split; [by rewrite He|]. exact Hh.
Defined.
