(* ===== verification/GatewayMain.v ===== *)
(** * ullm-gateway: the server binary, over its lifetimes

    [crates/ullm-gateway/src/bin/server.rs]: what [main] reads from the
    environment and checks before it listens, the state it starts with, and
    what it does once its listeners have drained.  The environment, the log
    file, the clock, the generator, the signal handlers and the bind are
    arguments; [Gateway.v] models what the listeners do in between.  The
    theorem follows one deployment through any number of starts, clean
    shutdowns and crashes. *)

From stdpp Require Import relations.
From S2P Require Import Prelude RustStd RustText RustNet Axum Shutdown Core Crates Toy Merkle TreeHead Log.
From S2P Require Import RateLimit Gateway Tls.
From Stdlib Require Import Lia.

Local Open Scope Z_scope.

(** ** The routers of [proxy.rs] *)

Inductive GatewayHandler :=
| Healthz | ProxyAttest | ProxyStream | TransparencyStatus | TransparencyLogDump | TransparencyHead
| TransparencyProof | ProxyDevkeys.

(** The public table, with the [dev-keys] feature or without. *)
Definition gateway_routes (dev_keys : bool) : list (bytes * GatewayHandler) :=
  [(lit "/v1/healthz", Healthz); (lit "/v1/attest", ProxyAttest); (lit "/v1/stream", ProxyStream);
   (lit "/v1/transparency", TransparencyStatus); (lit "/v1/transparency/log", TransparencyLogDump);
   (lit "/v1/transparency/head", TransparencyHead); (lit "/v1/transparency/proof", TransparencyProof)]
  ++ (if dev_keys then [(lit "/v1/devkeys", ProxyDevkeys)] else []).

Definition handler_of (routes : list (bytes * GatewayHandler)) (p : bytes) : option GatewayHandler :=
  '(_, r) ← list_find (fun r => r.1 = p) routes; Some r.2.

Section Routers.
Context `{!Axum} `{!Subtle}.

(** The handler a request reaches, or axum's own answer. *)
Definition gateway_router (dev_keys : bool) (req : Request) : GatewayHandler + Response :=
  match dispatch (fst <$> gateway_routes dev_keys) req with
  | Answered r => inr r
  | Matched p =>
      match handler_of (gateway_routes dev_keys) p with
      | Some h => inl h
      | None => inr (status_response 404)
      end
  end.

(** [proxy_stream]: the limits of the WebSocket and the tenant that
    [relay] is run for. *)
Definition proxy_stream (req : Request) : Z * Z * bytes :=
  (MAX_WS_MESSAGE_BYTES, MAX_WS_MESSAGE_BYTES, tenant_from_headers (header req (lit "x-ullm-tenant"))).

Definition gateway_metrics_router `{!Sha2, !SerdeJson, !Hex} (token_env : option bytes) (g : GatewayState)
    (req : Request) : Response :=
  match dispatch [lit "/metrics"; lit "/v1/healthz"] req with
  | Answered r => r
  | Matched p =>
      if decide (p = lit "/metrics") then
        match metrics_route token_env (header req (lit "authorization")) (metrics g) with
        | Ok text => {| status := 200; content_type := Some (lit "text/plain; version=0.0.4; charset=utf-8");
                        body := text |}
        | Err (code, _) => status_response code
        end
      else text_response 200 (lit "ok")
  end.

(** Without the token, [/metrics] answers as an unknown path does; without
    the feature, so does [/v1/devkeys] on the public port. *)
Lemma gateway_hidden_routes `{!Sha2, !SerdeJson, !Hex, !AxumLaws, !SubtleLaws} token g req unknown :
  token <> [] -> unknown ∉ [lit "/metrics"; lit "/v1/healthz"] -> unknown ∉ fst <$> gateway_routes true ->
  (Axum.path req = lit "/metrics" -> method req = GET ->
   default [] (h ← header req (lit "authorization"); parse_bearer_credential h) <> token ->
   gateway_metrics_router (Some token) g req = gateway_metrics_router (Some token) g (with_path req unknown))
  /\ gateway_router false (with_path req (lit "/v1/devkeys")) = gateway_router false (with_path req unknown)
  /\ (forall dev_keys, gateway_router dev_keys (with_path req (lit "/metrics"))
                       = gateway_router dev_keys (with_path req unknown)).
Proof.
  intros Ht Hm Hp. split_and!.
  - intros Hpath Hget Hno. unfold gateway_metrics_router.
    rewrite (dispatch_get _ req), (dispatch_unknown _ (with_path req unknown)); [|done|done|].
    2:{ rewrite Hpath. by left. }
    rewrite Hpath, decide_True by done. by rewrite metrics_route_token, decide_False by done.
  - unfold gateway_router. rewrite !dispatch_unknown; [done|..].
    + simpl in *. set_solver.
    + by apply (bool_decide_unpack _).
  - intros dev. unfold gateway_router. rewrite !dispatch_unknown; [done|..].
    + intros Hin. apply Hp. clear -Hin. destruct dev; simpl in *; set_solver.
    + destruct dev; by apply (bool_decide_unpack _).
Qed.
End Routers.

(** [std::env::var]: [None] when unset or not Unicode. *)
Abbreviation Env := (bytes -> option bytes).

(** How [main] ends before it listens: one constructor per fallible step. *)
Inductive StartError {IoErr : Type} :=
| AddrSyntax
| MetricsRefused (msg : bytes)
| LogOpen (e : IoError)
| FsyncEveryN
| SeedHex
| SeedLength
| LogIdLength (len : Z)
| CertFailed (e : TlsError)
| TlsFailed (e : TlsError)
| SignalsFailed (e : IoErr)
| BindFailed (e : IoErr).
Arguments StartError : clear implicits.

Section Start.
Context {R : Type} `{!Sha2, !SerdeJson, !Ed25519, !Ed25519Gen R, !Hex, !LogEntryJson, !Rcgen R, !RustlsBuilder, !Watch}.
Context {IoErr : Type}.

(** What [main] holds when it starts to serve. *)
Record Started := {
  public_addr : SocketAddr;
  mgmt_addr : SocketAddr;
  state : GatewayState;
  tls : ServerConfig;
  shutdown : Channel * HandlerTask * ShutdownBroadcaster;
}.

Definition parse_addr (text : bytes) : result SocketAddr (StartError IoErr) :=
  ok_or (parse_socket_addr text) AddrSyntax.

(** [ULLM_LOG_PATH]: [log_file] is the file at a path, if there is one. *)
Definition open_log (env : Env) (log_file : bytes -> option LogFile) : result Log.State (StartError IoErr) :=
  match env (lit "ULLM_LOG_PATH") with
  | Some path => map_err LogOpen (open_persistent (log_file path))
  | None => Ok TransparencyLog_new
  end.

Definition apply_fsync_policy (env : Env) (log : Log.State) : result Log.State (StartError IoErr) :=
  match env (lit "ULLM_LOG_FSYNC_EVERY_N") with
  | Some every =>
      match parse_uint 32 every with
      | Some n => if 1 <=? n then Ok (set_fsync_policy log (Periodic n)) else Err FsyncEveryN
      | None => Err FsyncEveryN
      end
  | None => Ok log
  end.

Definition logger_key (env : Env) (rng : R) : result bytes (StartError IoErr) * R :=
  match env (lit "ULLM_LOGGER_SEED") with
  | Some hex_seed =>
      (let? b := ok_or (hex_decode hex_seed) SeedHex in
       if (length b =? 32)%nat then Ok b else Err SeedLength, rng)
  | None => let '(k, rng) := ed25519_generate rng in (Ok k, rng)
  end.

Definition choose_log_id (env : Env) (key : bytes) : result bytes (StartError IoErr) :=
  let id := default (hex_encode (ed25519_public key)) (env (lit "ULLM_LOG_ID")) in
  if bool_decide (id = []) || (128 <? Z.of_nat (length id)) then Err (LogIdLength (Z.of_nat (length id)))
  else Ok id.

Definition tls_config (env : Env) (cert : SelfSignedCert) : result ServerConfig (StartError IoErr) :=
  map_err TlsFailed
    (if bool_decide (env (lit "ULLM_REQUIRE_PQ") = Some (lit "1")) then server_config_strict_pq cert
     else server_config cert).

(** [main] up to the point where the listeners serve; [None] is the panic of
    the certificate's date arithmetic.  The key is drawn first here, which
    only fixes the generator that the certificate uses after it. *)
Definition gateway_start (env : Env) (log_file : bytes -> option LogFile) (now : Z) (rng : R)
    (interrupt terminate : result unit IoErr) (bind : SocketAddr -> result unit IoErr) :
  option (result Started (StartError IoErr)) :=
  let '(key, rng) := logger_key env rng in
  match
    let? addr := parse_addr (default (lit "127.0.0.1:9000") (env (lit "ULLM_GATEWAY_ADDR"))) in
    let? metrics_addr := parse_addr (default (lit "127.0.0.1:9100") (env (lit "ULLM_GATEWAY_METRICS_ADDR"))) in
    let? metrics_addr := map_err MetricsRefused
      (validate_metrics_addr (env (lit "ULLM_METRICS_ALLOW_PUBLIC")) metrics_addr
         (lit "ULLM_GATEWAY_METRICS_ADDR")) in
    let? log := open_log env log_file in
    let? log := apply_fsync_policy env log in
    let? key := key in
    let? id := choose_log_id env key in
    Ok (addr, metrics_addr,
        {| tee_base_url := default (lit "http://127.0.0.1:9001") (env (lit "ULLM_TEE_URL"));
           rate_limiter := RateLimiter_new RateLimiterConfig_default; transparency := log;
           logger_signing_key := key; gw_log_id := id; sth_cache := None |})
  with
  | Err e => Some (Err e)
  | Ok (addr, metrics_addr, st) =>
      '(cert, rng) ← generate [lit "localhost"; lit "127.0.0.1"] now rng;
      Some (
        let? cert := map_err CertFailed cert in
        let? cfg := tls_config env cert in
        let? broadcaster := map_err SignalsFailed (install interrupt terminate) in
        let? _ := map_err BindFailed (bind metrics_addr) in
        Ok {| public_addr := addr; mgmt_addr := metrics_addr; state := st; tls := cfg;
              shutdown := broadcaster |})
  end.

(** After the listeners: when both ended without error the log is flushed;
    dropping the last handle syncs once more.  What remains is the file. *)
Definition gateway_stop (log : Log.State) (served flush_ok drop_ok : bool) : option LogFile :=
  let log := if served then (flush log flush_ok).2 else log in
  drop_log log drop_ok.

(** ** A successful start *)

Lemma gateway_start_ok env log_file now rng i t bind g :
  gateway_start env log_file now rng i t bind = Some (Ok g) ->
  (is_loopback (ip (mgmt_addr g)) = true
   \/ env (lit "ULLM_METRICS_ALLOW_PUBLIC") ∈ Some <$> [lit "1"; lit "true"; lit "yes"])
  /\ (env (lit "ULLM_REQUIRE_PQ") = Some (lit "1") -> kx_groups (server_provider (tls g)) = [X25519MLKEM768])
  /\ gw_log_id (state g) <> [] /\ (length (gw_log_id (state g)) <= 128)%nat
  /\ sth_cache (state g) = None
  /\ (forall id, env (lit "ULLM_LOG_ID") = Some id -> gw_log_id (state g) = id)
  /\ (forall seed, env (lit "ULLM_LOGGER_SEED") = Some seed ->
        hex_decode seed = Some (logger_signing_key (state g))
        /\ length (logger_signing_key (state g)) = 32%nat)
  /\ exists log, open_log env log_file = Ok log
     /\ apply_fsync_policy env log = Ok (transparency (state g)).
Proof.
  unfold gateway_start. destruct (logger_key env rng) as [key r1] eqn:Ek.
  destruct (let? addr := _ in _) as [[[addr maddr] st]|] eqn:E; [|done].
  repeat setoid_rewrite result_bind_Ok in E.
  destruct E as (a1 & _ & a2 & _ & a3 & Hm & log & Hlog & log' & Hlog' & k & -> & id & Hid & E).
  injection E as -> -> <-. apply map_err_Ok, validate_metrics_addr_Ok in Hm as [-> Hm].
  destruct (generate _ now r1) as [[cert r2]|]; simpl; [|done]. intros E. apply (inj Some) in E.
  repeat setoid_rewrite result_bind_Ok in E. destruct E as (c & _ & cfg & Hcfg & br & _ & ? & _ & [= <-]).
  simpl. unfold choose_log_id in Hid. case_bool_decide; [done|]. simpl in Hid.
  destruct (Z.ltb_spec 128 (Z.of_nat (length (default (hex_encode (ed25519_public k)) (env (lit "ULLM_LOG_ID"))))));
    [done|]. apply Ok_inj in Hid. rewrite Hid in *. split_and!; try done.
  - destruct Hm as [Hl|Hm]; [by left|]. right. set_solver.
  - intros Hpq. unfold tls_config in Hcfg. rewrite bool_decide_eq_true_2 in Hcfg by done.
    apply map_err_Ok in Hcfg. unfold server_config_strict_pq, build_server in Hcfg.
    repeat setoid_rewrite result_bind_Ok in Hcfg. by destruct Hcfg as (? & _ & ? & _ & [= <-]).
  - lia.
  - intros i' Hi'. by rewrite Hi' in Hid.
  - intros seed Hs. unfold logger_key in Ek. rewrite Hs in Ek. injection Ek as Ek _.
    apply result_bind_Ok in Ek as (b & Hb%ok_or_Ok & Hl).
    destruct (Nat.eqb_spec (length b) 32); [|done]. by apply Ok_inj in Hl as <-.
  - by exists log.
Qed.

End Start.

(** ** Lifetimes *)

Section Lives.
Context `{!Sha2, !SerdeJson, !Ed25519, !Hex, !LogEntryJson}.
Context `{!Sha2Laws, !HexLaws, !LogEntryJsonLaws}.
Context (io_error_display : IoError -> bytes).

(** What a step of a running gateway does to the log when no write or sync
    of an append fails: nothing, a flush, or an append that succeeds.  (An
    append that fails leaves a part of its line behind, see [append_spec].) *)
Definition log_step (l l' : Log.State) : Prop :=
  l' = l \/ (exists ok, l' = (flush l ok).2)
  \/ exists id_pk ev ts io n, append_args_ok l id_pk ts /\ append l id_pk ev ts io = (Ok n, l').

Definition live_step (s s' : Sys) : Prop :=
  sys_step io_error_display s s' /\ log_step (transparency (gw s)) (transparency (gw s')).

Lemma flush_inv l ok : log_inv l -> log_inv (flush l ok).2.
Proof.
  intros (Hn & Hp & Hf). unfold flush, sync_data. destruct (file l) as [f|] eqn:E; [|done].
  destruct Hf as [Hc Hd]. destruct ok; simpl; (split; [done|]; split; [done|]; split; [done|]); simpl.
  - unfold durable; simpl. rewrite Nat.sub_0_r, firstn_all, Hc. split_and!; [done|lia|lia|].
    destruct (fsync_policy l); lia.
  - exact Hd.
Qed.

Lemma append_policy l id_pk ev ts io n l' :
  append l id_pk ev ts io = (Ok n, l') -> fsync_policy l' = fsync_policy l /\ (file l <> None -> file l' <> None).
Proof. unfold append, write_all, sync_data. intros E. repeat case_match; by simplify_eq. Qed.

Lemma log_step_inv l l' :
  log_inv l -> log_step l l' ->
  log_inv l' /\ fsync_policy l' = fsync_policy l /\ (file l <> None -> file l' <> None).
Proof.
  intros Hl [->|[[ok ->]|(id & ev & ts & io & n & Ha & E)]]; [done| |].
  - split; [by apply flush_inv|]. unfold flush, sync_data.
    by destruct (file l), ok.
  - split; [by eapply append_ok_inv|]. by eapply append_policy.
Qed.

Lemma live_steps s s' :
  log_inv (transparency (gw s)) -> rtc live_step s s' ->
  log_inv (transparency (gw s')) /\ fsync_policy (transparency (gw s')) = fsync_policy (transparency (gw s))
  /\ (file (transparency (gw s)) <> None -> file (transparency (gw s')) <> None)
  /\ rtc (sys_step io_error_display) s s'.
Proof.
  intros Hl Hr. induction Hr as [s|s s1 s' [Hs Hls] _ IH]; [by split_and!; try done; apply rtc_refl|].
  apply log_step_inv in Hls as (Hl1 & Hp1 & Hf1); [|done].
  destruct (IH Hl1) as (? & Hp & Hf & ?). rewrite Hp, Hp1. split_and!; try done; [by auto|].
  by eapply rtc_l.
Qed.

(** What a machine that stops at any moment may leave in the file: its
    content and a part of the line being appended, cut anywhere after what
    is synced. *)
Definition crash_leaves (l : Log.State) (on_disk : bytes) : Prop :=
  exists f line k, file l = Some f
  /\ (line = [] \/ exists id_pk ev ts, append_args_ok l id_pk ts
        /\ line = entry_to_string (LogEntry_from_evidence (Z.of_nat (length (entries l))) id_pk ev ts)
                  ++ [Byte.x0a])
  /\ (synced f <= k <= length (content f ++ line))%nat /\ on_disk = take k (content f ++ line).

(** The file of a log that reopens to entries that extend [es]. *)
Definition reopens (on_disk : option LogFile) (es : list LogEntry) : Prop :=
  exists l, open_persistent on_disk = Ok l /\ entries l = es /\ log_inv l /\ file l <> None
            /\ fsync_policy l = Always /\ appends_since_sync l = 0.

Lemma reopens_opened d es : numbered 0 es -> open_persistent d = Ok (opened es) -> reopens d es.
Proof. intros Hn E. exists (opened es). split_and!; try done. by apply opened_inv. Qed.

Lemma reopens_fresh : reopens None [].
Proof. apply reopens_opened; [by split|done]. Qed.

(** Under [Always] no crash loses an entry. *)
Lemma crash_recovers l d :
  log_inv l -> fsync_policy l = Always -> crash_leaves l d ->
  exists es, reopens (Some (durably d)) es /\ entries l `prefix_of` es.
Proof.
  intros (Hn & _ & Hf) Hp (f & line & k & Ff & Hline & Hk & ->). rewrite Ff in Hf.
  destruct Hf as (Hc & Hs & _ & Ha). rewrite Hp in Ha. rewrite Ha, Nat.sub_0_r, firstn_all in Hs.
  assert (exists es, numbered 0 es /\ entries l `prefix_of` es /\ content f ++ line = text_of es)
    as (es & Hes & Hpre & Ht).
  { destruct Hline as [->|(id & ev & ts & (Hl & Hts & Hlen) & ->)].
    - exists (entries l). by rewrite app_nil_r.
    - eexists (entries l ++ [_]). rewrite Hc, <- text_of_snoc. split_and!; [|by eexists|done].
      apply numbered_snoc; [done|by apply from_evidence_ok|done]. }
  rewrite Ht in *. destruct (open_prefix es k Hes ltac:(lia)) as (m & Hm & Hopen & Hmax).
  exists (take m es). split; [apply reopens_opened; [by apply numbered_take|done]|].
  destruct Hpre as [tl ->]. rewrite length_app in Hm.
  assert (length (entries l) <= m)%nat.
  { apply Hmax; [rewrite length_app; lia|]. rewrite take_app_length. lia. }
  rewrite take_app_ge by done. by eexists.
Qed.

(** A clean shutdown leaves everything synced. *)
Lemma stop_keeps l drop_ok f :
  log_inv l -> gateway_stop l true true drop_ok = Some f ->
  f = durably (content f) /\ reopens (Some f) (entries l).
Proof.
  intros (Hn & _ & Hf). unfold gateway_stop, flush, drop_log, sync_data.
  destruct (file l) as [f0|] eqn:E; simpl; [|by rewrite ?E]. destruct Hf as [Hc _]. intros Hd.
  assert (f = durably (content f0)) as -> by (destruct drop_ok; by injection Hd as <-).
  split; [done|]. rewrite Hc. apply reopens_opened; [done|by apply open_whole].
Qed.

(** ** A deployment

    One seed, one log name and one log file; everything else in the
    environment may change from start to start. *)
Context {R : Type} `{!Ed25519Gen R, !Rcgen R, !RustlsBuilder, !Watch} {IoErr : Type}.
Context (seed id : bytes).

Definition configured (env : Env) : Prop :=
  env (lit "ULLM_LOGGER_SEED") = Some (hex_encode seed) /\ env (lit "ULLM_LOG_ID") = Some id
  /\ env (lit "ULLM_LOG_PATH") <> None.

Definition boot (g : GatewayState) : Sys := {| gw := g; flushed := 0; signed := []; published := [] |}.

(** A start from what is on disk. *)
Definition starts (env : Env) (disk : option LogFile) (g : Started) : Prop :=
  configured env /\ exists now (rng : R) (i t : result unit IoErr) bind,
    gateway_start env (fun _ => disk) now rng i t bind = Some (Ok g).

(** One lifetime, from the file it finds to the heads it answers and the
    file it leaves: it ends with a clean shutdown, or anywhere with a crash
    when the log syncs every append. *)
Inductive life (disk : option LogFile) : list SignedTreeHead -> option LogFile -> Prop :=
| life_stop env g s drop_ok f :
    starts env disk g -> rtc live_step (boot (state g)) s ->
    gateway_stop (transparency (gw s)) true true drop_ok = Some f ->
    life disk (published s) (Some f)
| life_crash env g s d :
    starts env disk g -> env (lit "ULLM_LOG_FSYNC_EVERY_N") = None ->
    rtc live_step (boot (state g)) s -> crash_leaves (transparency (gw s)) d ->
    life disk (published s) (Some (durably d)).

Inductive lives : option LogFile -> list SignedTreeHead -> option LogFile -> Prop :=
| lives_none disk : lives disk [] disk
| lives_next disk disk' disk'' pub pubs :
    life disk pub disk' -> lives disk' pubs disk'' -> lives disk (pub ++ pubs) disk''.

Lemma apply_fsync_inv (env : Env) l l' :
  log_inv l -> appends_since_sync l = 0 -> apply_fsync_policy (IoErr := IoErr) env l = Ok l' ->
  log_inv l' /\ entries l' = entries l /\ (file l <> None -> file l' <> None)
  /\ (env (lit "ULLM_LOG_FSYNC_EVERY_N") = None -> fsync_policy l' = fsync_policy l).
Proof.
  intros Hl Ha. unfold apply_fsync_policy. destruct (env _) as [every|]; [|by intros [= <-]].
  destruct (parse_uint 32 every) as [n|] eqn:En; [|done]. destruct (Z.leb_spec 1 n); [|done].
  intros [= <-]. destruct Hl as (Hn & _ & Hf). split; [|done].
  split; [done|]. split; [by apply (parse_uint_bound 32 every); [lia|]|]. simpl.
  destruct (file l) as [f|]; [|done]. destruct Hf as (Hc & Hs & Hb & _). split; [done|].
  unfold durable in *; simpl in *. rewrite Ha in *. split_and!; try done; lia.
Qed.

Lemma starts_log env disk g es :
  starts env disk g -> reopens disk es ->
  sys_init (boot (state g)) /\ logger_signing_key (state g) = seed /\ gw_log_id (state g) = id
  /\ log_inv (transparency (state g)) /\ entries (transparency (state g)) = es
  /\ (env (lit "ULLM_LOG_FSYNC_EVERY_N") = None -> fsync_policy (transparency (state g)) = Always).
Proof.
  intros ((Hseed & Hid & Hpath) & now & rng & i & t & bind & E) (l & Hopen & Hes & Hinv & _ & Hpol & Ha).
  apply gateway_start_ok in E as (_ & _ & _ & _ & Hcache & Hid' & Hseed' & log & Hlog & Hfs).
  destruct (Hseed' _ Hseed) as [Hk _]. rewrite hex_decode_encode in Hk. injection Hk as Hk.
  unfold open_log in Hlog. destruct (env (lit "ULLM_LOG_PATH")); [|done].
  apply map_err_Ok in Hlog. rewrite Hopen in Hlog. apply Ok_inj in Hlog as ->.
  destruct (apply_fsync_inv _ _ _ Hinv Ha Hfs) as (? & ? & _ & Hp).
  split_and!; try done; [by apply Hid'|congruence|]. intros Hn. by rewrite Hp.
Qed.

(** A lifetime answers heads of the log it leaves, which extends the log it
    found. *)
Lemma life_heads disk es pub disk' :
  reopens disk es -> life disk pub disk' ->
  exists es', reopens disk' es' /\ es `prefix_of` es' /\ Forall (true_head seed id es') pub.
Proof.
  intros Hd Hlife. destruct Hlife as [env g s drop_ok f Hs Hr Hstop|env g s d Hs Hn Hr Hc].
  all: destruct (starts_log _ _ _ _ Hs Hd) as (Hi & Hk & Hid & Hl & Hes & Hp).
  all: destruct (live_steps (boot (state g)) s Hl Hr) as (Hl' & Hp' & _ & Hr').
  all: apply sys_init_inv in Hi; cbn in Hi; rewrite Hk, Hid, Hes in Hi.
  all: pose proof (sys_inv_reachable io_error_display _ _ _ _ _ Hi Hr') as (_ & _ & Hpre & _ & _ & Hpub).
  - exists (entries (transparency (gw s))). split; [by eapply stop_keeps|]. done.
  - destruct (crash_recovers _ _ Hl' ltac:(by rewrite Hp'; apply Hp) Hc) as (es' & Hre & Hpre').
    exists es'. split; [done|]. split; [by etrans|].
    eapply Forall_impl; [exact Hpub|]. intros sth. by apply true_head_mono.
Qed.

Lemma lives_heads disk es pubs disk' :
  reopens disk es -> lives disk pubs disk' ->
  exists es', reopens disk' es' /\ es `prefix_of` es' /\ Forall (true_head seed id es') pubs.
Proof.
  intros Hd Hl. revert es Hd. induction Hl as [disk|disk d1 d2 pub pubs Hlife _ IH]; intros es Hd.
  - by exists es.
  - destruct (life_heads _ _ _ _ Hd Hlife) as (es1 & Hd1 & P1 & F1).
    destruct (IH _ Hd1) as (es2 & Hd2 & P2 & F2). exists es2. split; [done|]. split; [by etrans|].
    apply Forall_app. split; [|done]. eapply Forall_impl; [exact F1|]. intros sth. by apply true_head_mono.
Qed.

(** C10. A deployment never equivocates, across restarts and crashes: follow
    one seed, one log name and one log file through any number of lifetimes
    of the gateway, from an absent file on; within a lifetime any
    interleaving of requests in which no append's system call fails, its end
    a clean shutdown, or (with the default policy) a crash at any moment,
    even in the middle of an append.  The file it leaves can be opened again,
    and every head ever answered verifies under the seed's key, names the
    log and commits to a prefix of the log that is there; so two heads of
    one size, however far apart, carry one root. *)
Theorem deployment_never_forks `{!Ed25519Laws} pubs disk :
  lives None pubs disk ->
  exists l, open_persistent disk = Ok l
  /\ (forall sth, sth ∈ pubs ->
      SignedTreeHead_verify sth = true /\ logger_pk sth = ed25519_public seed /\ log_id (head sth) = id
      /\ exists n, (n <= length (entries l))%nat /\ size_ (head sth) = Z.of_nat n
         /\ root_hex (head sth) = hex_encode (merkle_root (take n (entries l))))
  /\ (forall h1 h2, h1 ∈ pubs -> h2 ∈ pubs ->
      size_ (head h1) = size_ (head h2) -> root_hex (head h1) = root_hex (head h2)).
Proof.
  intros Hl. destruct (lives_heads _ _ _ _ reopens_fresh Hl) as (es & (l & Ho & <- & _) & _ & F).
  exists l. split; [done|]. rewrite Forall_forall in F. split.
  - intros sth (n & now & Hn & ->)%F. cbn. split_and!; try done; [|by exists n].
    unfold SignedTreeHead_verify. cbn. by rewrite ed25519_public_valid, ed25519_sign_verify.
  - intros h1 h2 (n1 & t1 & _ & ->)%F (n2 & t2 & _ & ->)%F. cbn. by intros ->%Nat2Z.inj.
Qed.

End Lives.

(** ** A deployment of two lifetimes *)

#[local] Instance toy_rcgen : Rcgen Z := {|
  CertificateParams := list bytes;
  KeyPair := Z;
  params_new names := Ok names;
  key_generate r := (Ok r, r + 1);
  self_signed names cn nb na kp := Ok (cn, cn);
  serialize_pem _ := [];
  serialize_der _ := [];
  date_add t s := Some (t + s);
|}.

#[local] Instance toy_builder : RustlsBuilder := {|
  pq_default := {| kx_groups := [X25519MLKEM768; OtherGroup 29] |};
  check_versions _ := Ok tt; check_single_cert _ _ _ := Ok tt; check_root _ := Ok tt;
|}.

Definition demo_seed : bytes := replicate 32 Byte.x01.

Definition demo_env : Env := fun name =>
  if decide (name = lit "ULLM_LOGGER_SEED") then Some (hex_encode demo_seed)
  else if decide (name = lit "ULLM_LOG_ID") then Some (lit "log")
  else if decide (name = lit "ULLM_LOG_PATH") then Some (lit "/log") else None.

Definition demo_started (l : Log.State) : Started :=
  {| public_addr := {| ip := V4 127 0 0 1; RustNet.port := 9000; scope_id := 0 |};
     mgmt_addr := {| ip := V4 127 0 0 1; RustNet.port := 9100; scope_id := 0 |};
     state := {| tee_base_url := lit "http://127.0.0.1:9001";
                 rate_limiter := RateLimiter_new RateLimiterConfig_default; transparency := l;
                 logger_signing_key := demo_seed; gw_log_id := lit "log"; sth_cache := None |};
     tls := {| server_provider := pq_provider; server_certs := [lit "ullm-dev"]; server_key := [] |};
     shutdown := ((watch_channel false).1, Listening {| sigint := false; sigterm := false |},
                  {| rx := (watch_channel false).2 |}) |}.

Lemma demo_starts disk l :
  open_persistent disk = Ok l ->
  starts (R := Z) (IoErr := unit) demo_seed (lit "log") demo_env disk (demo_started l).
Proof.
  intros E. split; [by vm_compute|]. exists 0, 0, (Ok tt), (Ok tt), (fun _ => Ok tt).
  unfold gateway_start, open_log. cbn [logger_key]. rewrite E. vm_compute. reflexivity.
Qed.

(** One head request with nothing in between, and an append. *)
Definition demo_log : Log.State := (append (opened []) (replicate 32 Byte.x02) [] 9 io_fine).2.

Definition demo_state0 (l : Log.State) : GatewayState := state (demo_started l).

Definition answered (l : Log.State) (now : Z) : Sys :=
  {| gw := head_store (demo_state0 (flush l true).2) (head_sign (demo_state0 (flush l true).2) now) 3;
     flushed := 0; signed := []; published := [head_sign (demo_state0 (flush l true).2) now] |}.

Lemma demo_head es f a p now :
  let l := {| entries := es; file := Some f; appends_since_sync := a; fsync_policy := p |} in
  rtc (live_step io_text) (boot (demo_state0 l)) (answered l now).
Proof.
  intros l. eapply rtc_l.
  { split; [eapply (step_head_flush _ _ 0 true); reflexivity|]. right; left. by exists true. }
  eapply rtc_l.
  { split; [eapply (step_head_sign _ _ now 0); reflexivity|by left]. }
  eapply rtc_l; [split; [eapply (step_head_store _ _ 3 _ [] []); reflexivity|by left]|].
  apply (reflexive_eq (R := rtc _)). reflexivity.
Qed.

Lemma demo_append : live_step io_text (boot (demo_state0 (opened []))) (boot (demo_state0 demo_log)).
Proof.
  split.
  { exact (step_append io_text (boot (demo_state0 (opened []))) (replicate 32 Byte.x02) [] 9 io_fine
             (Ok 0) demo_log eq_refl). }
  right; right. exists (replicate 32 Byte.x02), [], 9, io_fine, 0.
  split; [split_and!; vm_compute; try split; congruence || lia|reflexivity].
Qed.

(** What the crash leaves: the first line, and forty bytes of a second. *)
Definition torn_disk : bytes :=
  take (length (text_of (entries demo_log)) + 40)
    (text_of (entries demo_log) ++ entry_to_string (LogEntry_from_evidence 1 (replicate 32 Byte.x03) [] 11)
     ++ [Byte.x0a]).

Lemma demo_lives :
  lives io_text (R := Z) (IoErr := unit) demo_seed (lit "log") None
    (published (answered demo_log 10) ++ published (answered (opened (entries demo_log)) 20) ++ [])
    (Some (durably torn_disk)).
Proof.
  assert (Ho : open_persistent (Some (durably (text_of (entries demo_log)))) = Ok (opened (entries demo_log)))
    by (vm_compute; reflexivity).
  eapply lives_next; [|eapply lives_next; [|apply lives_none]].
  - eapply (life_stop _ _ _ _ demo_env (demo_started (opened [])) (answered demo_log 10) true).
    + by apply demo_starts.
    + eapply rtc_l; [exact demo_append|]. apply demo_head.
    + reflexivity.
  - eapply (life_crash _ _ _ _ demo_env (demo_started (opened (entries demo_log)))).
    + by apply demo_starts.
    + reflexivity.
    + apply demo_head.
    + eexists _, _, _. split; [reflexivity|]. split; [|split; [|reflexivity]].
      * right. exists (replicate 32 Byte.x03), [], 11. split; [|reflexivity].
        split_and!; vm_compute; try split; congruence || lia.
      * vm_compute. lia.
Qed.

Lemma deployment_never_forks_witness :
  exists pubs disk, lives io_text (R := Z) (IoErr := unit) demo_seed (lit "log") None pubs disk
  /\ length pubs = 2%nat
  /\ forall sth, sth ∈ pubs -> SignedTreeHead_verify sth = true /\ log_id (head sth) = lit "log".
Proof.
  eexists _, _. split; [exact demo_lives|]. split; [reflexivity|].
  destruct (deployment_never_forks io_text demo_seed (lit "log") _ _ demo_lives) as (l & _ & Hv & _).
  intros sth Hs. destruct (Hv sth Hs) as (V & _ & I & _). by split.
Defined.
