(* ===== verification/Lifecycle.v ===== *)
(** * The two servers from the first poll of their listeners to the end of [main]

    [crates/ullm-tee/src/bin/server.rs] and
    [crates/ullm-gateway/src/bin/server.rs] from the listeners on: two
    listeners joined by [try_join!], the signal that drains them, the deadline
    of the TEE and the 30-second drain of the gateway's public listener, and
    the flush of the log at the end.

    A server is the shutdown process of [Shutdown.v], a clock and the state of
    its futures; a step is one of the process, the passing of time, or one
    poll of [main] (for the gateway also of the task that waits for the
    signal), with whatever connections are open then.  [axum::serve] and
    [axum_server] are interfaces.

    Proved: the TEE's [main] ends only after a signal, always successfully,
    and at the latest at its first poll 30 seconds after the poll that saw the
    signal; the gateway's [main] cannot end while a management connection
    stays open, however long that is, and so never reaches the final flush;
    with that connection closed it ends 30 seconds after its first poll that
    found the public listener told to drain. *)

From stdpp Require Import gmap relations.
From S2P Require Import Prelude RustStd Core Shutdown Log TeeServer GatewayMain.
From Stdlib Require Import Lia.

Local Open Scope Z_scope.

(** ** The listeners *)

(** [axum::serve(..).with_graceful_shutdown(signal)], polled with whether the
    signal future has completed and the number of connections open. *)
Class AxumServe (E : Type) := {
  GracefulServe : Type;
  graceful_poll : bool -> nat -> GracefulServe -> option (result unit E) * GracefulServe;
}.

(** It stops accepting when the signal completes, and then resolves, with
    [Ok], when every connection has ended; it never resolves with an error. *)
Class AxumServeLaws (E : Type) `{AxumServe E} : Prop := {
  graceful_poll_spec signalled open s o s' :
    graceful_poll signalled open s = (o, s') ->
    o = if signalled && (open =? 0)%nat then Some (Ok tt) else None;
}.

(** [axum_server::bind_rustls(..).handle(h).serve(..)]: the future as it is
    made, and its poll at a time, with the limit given to [graceful_shutdown]
    on its handle if that has been called, and the connections open.
    [tls_drain] is when it began to wait for the connections to end. *)
Class AxumServer (E : Type) := {
  TlsServe : Type;
  tls_new : TlsServe;
  tls_bound : TlsServe -> bool;
  tls_drain : TlsServe -> option Z;
  tls_poll : Z -> option (option Z) -> nat -> TlsServe -> option (result unit E) * TlsServe;
}.

(** It fails only while it binds.  Bound, the first poll that finds
    [graceful_shutdown] called starts the wait for the connections, and the
    sleep of the limit; it ends when no connection is left or the sleep is
    over. *)
Class AxumServerLaws (E : Type) `{AxumServer E} : Prop := {
  tls_poll_spec now h open s o s' :
    tls_poll now h open s = (o, s') ->
    let start := default now (tls_drain s) in
    match o with
    | Some (Err _) => tls_bound s = false
    | Some (Ok _) => exists limit, h = Some limit
        /\ (open = O \/ exists d, limit = Some d /\ start + d <= now)
    | None =>
        tls_drain s' = (if tls_bound s' && bool_decide (is_Some h) then Some start else tls_drain s)
        /\ (tls_bound s' = true -> forall limit, h = Some limit ->
              open <> O /\ forall d, limit = Some d -> now < start + d)
    end;
  tls_bound_stays now h open s : tls_bound s = true -> tls_bound (tls_poll now h open s).2 = true;
  tls_new_drain : tls_drain tls_new = None;
}.

(** ** Futures that are joined *)

(** A branch of a join: still running, or done with its output kept. *)
Inductive Branch (S E : Type) := Pending (s : S) | Ready (r : result unit E).
Arguments Pending {S E}.
Arguments Ready {S E}.

Definition poll_branch {S E} (f : S -> option (result unit E) * S) (x : Branch S E) : Branch S E :=
  match x with
  | Pending s => match f s with (Some r, _) => Ready r | (None, s) => Pending s end
  | Ready r => Ready r
  end.

Definition branch_failed {S E} (x : Branch S E) : option E :=
  match x with Ready (Err e) => Some e | _ => None end.
Definition branch_running {S E} (x : Branch S E) : bool :=
  match x with Pending _ => true | Ready _ => false end.
Definition branch_done {S E} (x : Branch S E) : bool :=
  match x with Ready (Ok _) => true | _ => false end.

(** [tokio::try_join!(x, y)], polled in either order: the first error ends it,
    without polling the other branch; otherwise it ends when both have. *)
Definition try_join_poll {S T E} (first : bool) (f : S -> option (result unit E) * S)
    (g : T -> option (result unit E) * T) (x : Branch S E) (y : Branch T E) :
  option (result unit E) * Branch S E * Branch T E :=
  let finish (x : Branch S E) (y : Branch T E) :=
    (if branch_done x && branch_done y then Some (Ok tt) else None, x, y) in
  if first then
    let x := poll_branch f x in
    match branch_failed x with
    | Some e => (Some (Err e), x, y)
    | None =>
        let y := poll_branch g y in
        match branch_failed y with Some e => (Some (Err e), x, y) | None => finish x y end
    end
  else
    let y := poll_branch g y in
    match branch_failed y with
    | Some e => (Some (Err e), x, y)
    | None =>
        let x := poll_branch f x in
        match branch_failed x with Some e => (Some (Err e), x, y) | None => finish x y end
    end.

(** ** The signal, as the futures see it *)

Section Signal.
Context `{WatchLaws}.

(** The [wait] of subscriber [i] has returned. *)
Definition signalled (p : Process) (i : nat) : bool :=
  match subs p !! i with Some (_, None) => true | _ => false end.

(** A step of the shutdown process that is not one of [main]'s own polls:
    the subscriber [own], which [main] polls itself, is left alone, and the
    [wait]s in [others], which tasks of the runtime poll, are only polled. *)
Definition runtime_step (own : list nat) (others : list nat) (p p' : Process) : Prop :=
  step p p'
  /\ (forall i, i ∈ own -> subs p' !! i = subs p !! i)
  /\ (forall i, i ∈ others -> subs p' !! i = subs p !! i
        \/ exists b w b' w', subs p !! i = Some (b, Some w) /\ wait_poll w (chan p) b = (w', b')
                             /\ subs p' !! i = Some (b', w')).

(** The process in which [wait] has been called on the clones [ids]. *)
Definition waiting (p : Process) (ids : list nat) : Prop :=
  forall i, i ∈ ids -> exists b, subs p !! i = Some (b, Some WaitStart).

(** Reachable from a successful installation, and the listed subscribers'
    [wait]s return only after the signal. *)
Definition signal_inv (ids : list nat) (p : Process) : Prop :=
  process_inv p
  /\ forall i, i ∈ ids -> exists b w, subs p !! i = Some (b, w) /\ (w = None -> fired p).

Lemma fired_step p p' : step p p' -> fired p -> fired p'.
Proof.
  intros Hs [s E]. exists s. rewrite (steps_final p p'); [done|by apply rtc_once|]. by rewrite E.
Qed.

Lemma waiting_inv {IoErr} (i t : result unit IoErr) o p ids :
  install i t = Ok o -> rtc step (spawned o) p -> waiting p ids -> signal_inv ids p.
Proof.
  intros Ho Hr Hw. split; [by eapply steps_inv, Hr; eapply install_inv|].
  intros j Hj. destruct (Hw j Hj) as [b Hb]. by exists b, (Some WaitStart).
Qed.

Lemma wait_poll_fired p i b w w' b' :
  process_inv p -> subs p !! i = Some (b, Some w) -> wait_poll w (chan p) b = (w', b') -> w' = None <-> fired p.
Proof. intros Hp Hi Ew. eapply wait_poll_spec; [done| |exact Ew]. by apply Hp in Hi. Qed.

Lemma runtime_step_inv own others p p' :
  signal_inv (own ++ others) p -> runtime_step own others p p' -> signal_inv (own ++ others) p'.
Proof.
  intros [Hp Hs] (Hstep & Hown & Hothers). split; [by eapply step_inv|].
  intros i Hi. destruct (Hs i Hi) as (b & w & Hb & Hw). apply elem_of_app in Hi as [Hi|Hi].
  - exists b, w. rewrite Hown by done. eauto using fired_step.
  - destruct (Hothers i Hi) as [E|(b0 & w0 & b' & w' & E & Ew & E')].
    + exists b, w. rewrite E. eauto using fired_step.
    + exists b', w'. split; [done|]. intros ->. eapply fired_step; [done|].
      by apply (wait_poll_fired _ _ _ _ _ _ Hp E Ew).
Qed.

(** One poll, by [main] itself, of a subscriber's [wait]. *)
Definition set_sub (p : Process) (i : nat) (b : ShutdownBroadcaster) (w : option WaitState) : Process :=
  {| chan := chan p; handler := handler p; subs := <[i := (b, w)]> (subs p) |}.

Lemma set_sub_signal ids p i b w w' b' :
  signal_inv ids p -> subs p !! i = Some (b, Some w) -> wait_poll w (chan p) b = (w', b') ->
  signal_inv ids (set_sub p i b' w').
Proof.
  intros [Hp Hs] Hi Ew. assert (Hstep : step p (set_sub p i b' w')) by by eapply step_poll.
  split; [by eapply step_inv|]. intros j Hj. cbn [set_sub subs].
  destruct (decide (j = i)) as [->|Hne].
  - rewrite lookup_insert_eq. exists b', w'. split; [done|]. intros ->.
    by apply (wait_poll_fired _ _ _ _ _ _ Hp Hi Ew).
  - rewrite lookup_insert_ne by done. destruct (Hs j Hj) as (b0 & w0 & E & Hw). by exists b0, w0.
Qed.

(** A subscriber whose [wait] is over. *)
Lemma set_sub_done ids p i b w :
  signal_inv ids p -> fired p -> subs p !! i = Some (b, w) -> signal_inv ids (set_sub p i b None).
Proof.
  intros [Hp Hs] Hf Hi. split.
  - eapply set_sub_inv; [done|exact Hi|]. cbn [fst snd]. apply Hp in Hi. destruct Hf as [s Hl].
    unfold sub_ok in *. rewrite Hl in *. naive_solver.
  - intros j Hj. cbn [set_sub subs]. destruct (decide (j = i)) as [->|Hne].
    + rewrite lookup_insert_eq. by exists b, None.
    + rewrite lookup_insert_ne by done. destruct (Hs j Hj) as (b0 & w0 & E & Hw). by exists b0, w0.
Qed.

Lemma signalled_fired ids p i : signal_inv ids p -> i ∈ ids -> signalled p i = true -> fired p.
Proof.
  intros [_ Hs] Hi. unfold signalled. destruct (Hs i Hi) as (b & [w|] & -> & Hw); [done|auto].
Qed.
End Signal.

(** ** The TEE *)

Section Tee.
Context `{WatchLaws} {E : Type} `{AxumServeLaws E}.

(** Subscribers 1 and 2 are the listeners' clones, 3 the deadline's. *)
Record TeeMain := {
  tee_proc : Process;
  tee_now : Z;
  protocol_serve : Branch GracefulServe E;
  tee_mgmt_serve : Branch GracefulServe E;
  tee_deadline : DeadlineState;
  tee_ended : option (result unit E);
}.

(** One poll of [serve_all]. *)
Definition serve_all_poll (first : bool) (n1 n2 : nat) (m : TeeMain) :
  option (result unit E) * Branch GracefulServe E * Branch GracefulServe E :=
  try_join_poll first (graceful_poll (signalled (tee_proc m) 1) n1) (graceful_poll (signalled (tee_proc m) 2) n2)
    (protocol_serve m) (tee_mgmt_serve m).

(** One poll of [deadline], with its broadcaster put back. *)
Definition tee_deadline_poll (m : TeeMain) : option DeadlineState * Process :=
  match subs (tee_proc m) !! 3%nat with
  | Some (b, w) =>
      let '(d, b') := deadline_poll (tee_now m) (tee_deadline m) (chan (tee_proc m)) b in
      (d, set_sub (tee_proc m) 3 b' (match d with Some (AwaitSignal w') => Some w' | _ => None end))
  | None => (Some (tee_deadline m), tee_proc m)
  end.

(** One poll of [main] in its [select!], whose branches are tried in either
    order. *)
Definition tee_poll (serve_first first : bool) (n1 n2 : nat) (m : TeeMain) : TeeMain :=
  let '(served, x, y) := serve_all_poll first n1 n2 m in
  let '(d, p) := tee_deadline_poll m in
  if serve_first then
    match served with
    | Some r => {| tee_proc := tee_proc m; tee_now := tee_now m; protocol_serve := x; tee_mgmt_serve := y;
                   tee_deadline := tee_deadline m; tee_ended := Some r |}
    | None => {| tee_proc := p; tee_now := tee_now m; protocol_serve := x; tee_mgmt_serve := y;
                 tee_deadline := default (tee_deadline m) d;
                 tee_ended := match d with None => Some (Ok tt) | Some _ => None end |}
    end
  else
    match d with
    | None => {| tee_proc := p; tee_now := tee_now m; protocol_serve := protocol_serve m;
                 tee_mgmt_serve := tee_mgmt_serve m; tee_deadline := tee_deadline m; tee_ended := Some (Ok tt) |}
    | Some d => {| tee_proc := p; tee_now := tee_now m; protocol_serve := x; tee_mgmt_serve := y;
                   tee_deadline := d; tee_ended := served |}
    end.

Inductive tee_step (m : TeeMain) : TeeMain -> Prop :=
| tee_step_runtime p :
    tee_ended m = None -> runtime_step [3%nat] [1%nat; 2%nat] (tee_proc m) p ->
    tee_step m {| tee_proc := p; tee_now := tee_now m; protocol_serve := protocol_serve m;
                  tee_mgmt_serve := tee_mgmt_serve m; tee_deadline := tee_deadline m; tee_ended := None |}
| tee_step_time t :
    tee_now m <= t ->
    tee_step m {| tee_proc := tee_proc m; tee_now := t; protocol_serve := protocol_serve m;
                  tee_mgmt_serve := tee_mgmt_serve m; tee_deadline := tee_deadline m; tee_ended := tee_ended m |}
| tee_step_poll serve_first first n1 n2 :
    tee_ended m = None -> tee_step m (tee_poll serve_first first n1 n2 m).

(** The futures made, [wait] called on the three clones. *)
Definition tee_launch (p : Process) (now : Z) (s1 s2 : GracefulServe) : TeeMain :=
  {| tee_proc := p; tee_now := now; protocol_serve := Pending s1; tee_mgmt_serve := Pending s2;
     tee_deadline := AwaitSignal WaitStart; tee_ended := None |}.

(** *** Invariant *)

Definition branch_ok (p : Process) {S} (x : Branch S E) : Prop :=
  branch_failed x = None /\ (branch_done x = true -> fired p).

Definition deadline_ok (m : TeeMain) : Prop :=
  match tee_deadline m with
  | AwaitSignal w => exists b, subs (tee_proc m) !! 3%nat = Some (b, Some w)
  | Sleeping _ => fired (tee_proc m)
  end.

Definition tee_inv (m : TeeMain) : Prop :=
  signal_inv [3%nat; 1%nat; 2%nat] (tee_proc m)
  /\ branch_ok (tee_proc m) (protocol_serve m) /\ branch_ok (tee_proc m) (tee_mgmt_serve m)
  /\ match tee_ended m with
     | None => deadline_ok m
     | Some r => r = Ok tt /\ fired (tee_proc m)
     end.

Lemma graceful_branch_ok p i n (x : Branch GracefulServe E) :
  (signalled p i = true -> fired p) -> branch_ok p x ->
  branch_ok p (poll_branch (graceful_poll (signalled p i) n) x).
Proof.
  intros Hi Hx. destruct x as [s|r]; [|done]. simpl.
  destruct (graceful_poll (signalled p i) n s) as [o s'] eqn:Eo. apply graceful_poll_spec in Eo as ->.
  destruct (signalled p i); simpl; [|done]. destruct (n =? 0)%nat; [|done]. split; [done|auto].
Qed.

(** Joining two listeners that cannot fail: it ends, successfully, when both
    have. *)
Lemma try_join_ok {S T} p first f g (x : Branch S E) (y : Branch T E) :
  branch_ok p (poll_branch f x) -> branch_ok p (poll_branch g y) ->
  try_join_poll first f g x y
  = (if branch_done (poll_branch f x) && branch_done (poll_branch g y) then Some (Ok tt) else None,
     poll_branch f x, poll_branch g y).
Proof. unfold try_join_poll. intros [-> _] [-> _]. by destruct first. Qed.

Lemma serve_all_spec first n1 n2 m served x y :
  tee_inv m -> serve_all_poll first n1 n2 m = (served, x, y) ->
  x = poll_branch (graceful_poll (signalled (tee_proc m) 1) n1) (protocol_serve m)
  /\ y = poll_branch (graceful_poll (signalled (tee_proc m) 2) n2) (tee_mgmt_serve m)
  /\ served = (if branch_done x && branch_done y then Some (Ok tt) else None)
  /\ branch_ok (tee_proc m) x /\ branch_ok (tee_proc m) y.
Proof.
  intros (Hs & Hx & Hy & _). unfold serve_all_poll.
  assert (Hx' := graceful_branch_ok _ 1 n1 _ (signalled_fired _ _ 1%nat Hs ltac:(set_solver)) Hx).
  assert (Hy' := graceful_branch_ok _ 2 n2 _ (signalled_fired _ _ 2%nat Hs ltac:(set_solver)) Hy).
  erewrite try_join_ok by done. intros [= <- <- <-]. done.
Qed.

(** A poll of the deadline: what it waits for, and that the process stays
    one in which the signal was seen or not. *)
Lemma deadline_poll_ok m d p :
  tee_inv m -> tee_ended m = None -> tee_deadline_poll m = (d, p) ->
  signal_inv [3%nat; 1%nat; 2%nat] p /\ (fired p <-> fired (tee_proc m))
  /\ match tee_deadline m with
     | AwaitSignal _ =>
         (~ fired p /\ exists w b, d = Some (AwaitSignal w) /\ subs p !! 3%nat = Some (b, Some w))
         \/ (fired p /\ d = Some (Sleeping (tee_now m + SHUTDOWN_DEADLINE)))
     | Sleeping u => fired p /\ d = if u <=? tee_now m then None else Some (Sleeping u)
     end.
Proof.
  intros (Hs & _ & _ & Hd) He. rewrite He in Hd. unfold deadline_ok in Hd. unfold tee_deadline_poll.
  destruct (tee_deadline m) as [w|u] eqn:Ed.
  - destruct Hd as [b Hb]. rewrite Hb. simpl. destruct (wait_poll w (chan (tee_proc m)) b) as [w' b'] eqn:Ew.
    pose proof (set_sub_signal _ _ _ _ _ _ _ Hs Hb Ew) as Hs'.
    pose proof (wait_poll_fired _ _ _ _ _ _ (proj1 Hs) Hb Ew) as Hf.
    destruct w' as [w'|]; simpl; intros [= <- <-]; (split; [done|]); (split; [done|]).
    + left. split; [intros Hn; by apply Hf in Hn|]. exists w', b'. cbn [set_sub subs]. by rewrite lookup_insert_eq.
    + right. split; [by apply Hf|done].
  - destruct (proj2 Hs 3%nat) as (b & w & Hb & Hw); [set_solver|]. rewrite Hb. simpl.
    destruct (u <=? tee_now m); intros [= <- <-]; split_and!; try done; by eapply set_sub_done.
Qed.

(** One poll of [main]: it ends exactly when the deadline has passed or both
    listeners are done, and then successfully. *)
Lemma tee_poll_spec serve_first first n1 n2 m :
  tee_inv m -> tee_ended m = None ->
  let m' := tee_poll serve_first first n1 n2 m in
  let x := poll_branch (graceful_poll (signalled (tee_proc m) 1) n1) (protocol_serve m) in
  let y := poll_branch (graceful_poll (signalled (tee_proc m) 2) n2) (tee_mgmt_serve m) in
  let due := match tee_deadline m with Sleeping u => u <=? tee_now m | _ => false end in
  tee_inv m' /\ tee_now m' = tee_now m /\ (fired (tee_proc m') <-> fired (tee_proc m))
  /\ tee_ended m' = (if due || branch_done x && branch_done y then Some (Ok tt) else None)
  /\ (tee_ended m' = None -> fired (tee_proc m) ->
      tee_deadline m' = match tee_deadline m with
                        | Sleeping u => Sleeping u
                        | AwaitSignal _ => Sleeping (tee_now m + SHUTDOWN_DEADLINE)
                        end).
Proof.
  intros Hm He m' x y due. pose proof Hm as (Hs & Hx0 & Hy0 & _). unfold m', tee_poll.
  destruct (serve_all_poll first n1 n2 m) as [[served x'] y'] eqn:Es.
  apply (serve_all_spec _ _ _ _ _ _ _ Hm) in Es as (-> & -> & -> & Hx & Hy). fold x y in Hx, Hy |- *.
  destruct (tee_deadline_poll m) as [d p] eqn:Ed. apply (deadline_poll_ok _ _ _ Hm He) in Ed as (Hp & Hf & Hd).
  assert (Hb : forall z : Branch GracefulServe E, branch_ok (tee_proc m) z -> branch_ok p z) by (intros z []; split; naive_solver).
  assert (Hdone : branch_done x && branch_done y = true -> fired (tee_proc m))
    by (intros [? _]%andb_true_iff; by apply Hx).
  unfold tee_inv, deadline_ok, due in *.
  destruct (tee_deadline m) as [w|u]; simpl.
  - destruct Hd as [(Hn & w' & b & -> & Hsub)|(Hn & ->)]; simpl;
      destruct serve_first, (branch_done x && branch_done y) eqn:Exy; simpl; naive_solver.
  - destruct Hd as (Hn & ->).
    destruct serve_first, (branch_done x && branch_done y) eqn:Exy, (u <=? tee_now m) eqn:Eu; simpl; naive_solver.
Qed.

Lemma tee_step_inv m m' : tee_inv m -> tee_step m m' -> tee_inv m'.
Proof.
  intros Hm [p He Hr|t Ht|sf f n1 n2 He].
  - destruct Hm as (Hs & Hx & Hy & Hd). pose proof (fired_step _ _ (proj1 Hr)) as Hf.
    rewrite He in Hd. split; [by eapply (runtime_step_inv [3%nat] [1%nat; 2%nat])|]. simpl.
    destruct Hx, Hy. split; [split; auto|]. split; [split; auto|].
    unfold deadline_ok in *. simpl. destruct (tee_deadline m); [|auto].
    destruct Hd as [b Hb]. exists b. rewrite (proj1 (proj2 Hr)); [done|set_solver].
  - exact Hm.
  - by apply tee_poll_spec.
Qed.

Lemma tee_launch_inv {IoErr} (i t : result unit IoErr) o p now s1 s2 :
  install i t = Ok o -> rtc step (spawned o) p -> waiting p [3%nat; 1%nat; 2%nat] ->
  tee_inv (tee_launch p now s1 s2).
Proof.
  intros Ho Hr Hw. split; [by eapply waiting_inv|]. split; [done|]. split; [done|]. apply Hw. set_solver.
Qed.

Lemma tee_steps_inv m m' : tee_inv m -> rtc tee_step m m' -> tee_inv m'.
Proof. intros Hm Hr. induction Hr; eauto using tee_step_inv. Qed.

(** Once the clock runs it keeps running, until [main] has ended. *)
Lemma tee_clock_runs m m' u :
  tee_inv m -> rtc tee_step m m' -> tee_deadline m = Sleeping u -> tee_ended m' = None -> tee_deadline m' = Sleeping u.
Proof.
  intros Hm Hr. revert Hm. induction Hr as [|m m1 m' Hs Hr IH]; [done|]. intros Hm Hu He.
  pose proof (tee_step_inv _ _ Hm Hs) as Hm1. apply IH; [done| |done].
  destruct Hs as [p He' _|t _|sf f n1 n2 He']; [done|done|].
  destruct (tee_poll_spec sf f n1 n2 m Hm He') as (_ & _ & _ & _ & Hd). rewrite Hu in Hd. apply Hd.
  - clear -He Hr. induction Hr as [|m1 m2 m' Hs _ IH]; [done|]. specialize (IH He). by destruct Hs.
  - destruct Hm as (_ & _ & _ & Hm). rewrite He' in Hm. unfold deadline_ok in Hm. by rewrite Hu in Hm.
Qed.

(** A listener is done, or is at a poll that sees no connection after its
    signal. *)
Definition drained (p : Process) (i open : nat) (x : Branch GracefulServe E) : bool :=
  branch_done x || branch_running x && signalled p i && (open =? 0)%nat.

Lemma poll_drained p i n (x : Branch GracefulServe E) :
  branch_done (poll_branch (graceful_poll (signalled p i) n) x) = drained p i n x.
Proof.
  unfold drained. destruct x as [s|[[]|e]]; [|done..]. simpl.
  destruct (graceful_poll (signalled p i) n s) as [o s'] eqn:Eo. apply graceful_poll_spec in Eo as ->.
  by destruct (signalled p i && (n =? 0)%nat).
Qed.

(** C38. The TEE's [main] drains for at most 30 seconds.  From a successful
    [install] and the launch of the two listeners and the deadline, through
    every interleaving of signals, tasks, time, connections and polls, whatever
    order [select!] and [try_join!] poll their branches in: when [main] has
    ended it ended with [Ok], after a signal.  A poll while the deadline has
    not seen the signal ends [main] exactly when both listeners are drained.
    If such a poll, at [t], comes after the signal and does not end [main],
    every later poll ends it exactly when both listeners are drained or it is
    [t + 30 s] or later, whatever the connections do. *)
Theorem tee_main_drains {IoErr} (i t : result unit IoErr) o p t0 s1 s2 m :
  install i t = Ok o -> rtc step (spawned o) p -> waiting p [3%nat; 1%nat; 2%nat] ->
  rtc tee_step (tee_launch p t0 s1 s2) m ->
  let done n1 n2 m := drained (tee_proc m) 1 n1 (protocol_serve m) && drained (tee_proc m) 2 n2 (tee_mgmt_serve m) in
  (forall r, tee_ended m = Some r -> r = Ok tt /\ fired (tee_proc m))
  /\ (forall w, tee_ended m = None -> tee_deadline m = AwaitSignal w -> forall sf f n1 n2,
       tee_ended (tee_poll sf f n1 n2 m) = (if done n1 n2 m then Some (Ok tt) else None)
       /\ (fired (tee_proc m) -> done n1 n2 m = false ->
           forall m', rtc tee_step (tee_poll sf f n1 n2 m) m' -> tee_ended m' = None -> forall sf' f' k1 k2,
             tee_ended (tee_poll sf' f' k1 k2 m')
             = if (tee_now m + SHUTDOWN_DEADLINE <=? tee_now m') || done k1 k2 m' then Some (Ok tt) else None)).
Proof.
  intros Ho Hp Hw Hr dn. pose proof (tee_steps_inv _ _ (tee_launch_inv _ _ _ _ t0 s1 s2 Ho Hp Hw) Hr) as Hm.
  split; [intros r Er; destruct Hm as (_ & _ & _ & Hm); by rewrite Er in Hm|].
  intros w He Hw' sf f n1 n2. pose proof (tee_poll_spec sf f n1 n2 m Hm He) as (Hm1 & _ & _ & Hend & Hd).
  rewrite Hw', !poll_drained in Hend. rewrite Hw' in Hd. simpl in Hend. split; [exact Hend|].
  intros Hf Hdn m' Hr' He' sf' f' k1 k2. unfold dn in Hdn. rewrite Hdn in Hend.
  pose proof (tee_clock_runs _ _ _ Hm1 Hr' (Hd Hend Hf) He') as Hu.
  pose proof (tee_poll_spec sf' f' k1 k2 m' (tee_steps_inv _ _ Hm1 Hr') He') as (_ & _ & _ & Hend' & _).
  by rewrite Hu, !poll_drained in Hend'.
Qed.
End Tee.

(** ** The gateway *)

Section GatewayLife.
Context `{WatchLaws} {E : Type} `{AxumServeLaws E} `{AxumServerLaws E}.

(** The limit of the public drain, in nanoseconds. *)
Definition PUBLIC_DRAIN : Z := 30 * 10 ^ 9.

(** Subscriber 1 is the clone of the spawned task, 2 the management
    listener's; [gr_handle] is the limit of the call made on the handle. *)
Record GatewayRun := {
  gr_proc : Process;
  gr_now : Z;
  gr_task_running : bool;
  gr_handle : option (option Z);
  gr_public : Branch TlsServe E;
  gr_mgmt : Branch GracefulServe E;
  gr_ended : option (result unit E);
}.

(** One poll of the spawned task: [wait], then [graceful_shutdown]. *)
Definition task_poll (m : GatewayRun) : GatewayRun :=
  match subs (gr_proc m) !! 1%nat with
  | Some (b, Some w) =>
      let '(w', b') := wait_poll w (chan (gr_proc m)) b in
      let running := match w' with Some _ => true | None => false end in
      {| gr_proc := set_sub (gr_proc m) 1 b' w'; gr_now := gr_now m; gr_task_running := running;
         gr_handle := if running then gr_handle m else Some (Some PUBLIC_DRAIN);
         gr_public := gr_public m; gr_mgmt := gr_mgmt m; gr_ended := gr_ended m |}
  | _ => m
  end.

(** One poll of [main] in its [try_join!], and the [?] on it. *)
Definition gateway_poll (first : bool) (n1 n2 : nat) (m : GatewayRun) : GatewayRun :=
  let '(served, x, y) :=
    try_join_poll first (tls_poll (gr_now m) (gr_handle m) n1) (graceful_poll (signalled (gr_proc m) 2) n2)
      (gr_public m) (gr_mgmt m) in
  {| gr_proc := gr_proc m; gr_now := gr_now m; gr_task_running := gr_task_running m; gr_handle := gr_handle m;
     gr_public := x; gr_mgmt := y; gr_ended := served |}.

(** What is left of the log after [main]: nothing to say while it runs. *)
Definition gateway_exit (m : GatewayRun) (log : Log.State) (flush_ok drop_ok : bool) : option (option LogFile) :=
  (fun r => gateway_stop log (is_ok r) flush_ok drop_ok) <$> gr_ended m.

Inductive Event := Runtime | Tick | TaskPoll | MainPoll (n1 n2 : nat).

Inductive gateway_step (m : GatewayRun) : Event -> GatewayRun -> Prop :=
| gw_runtime p :
    gr_ended m = None -> runtime_step [1%nat] [2%nat] (gr_proc m) p ->
    gateway_step m Runtime
      {| gr_proc := p; gr_now := gr_now m; gr_task_running := gr_task_running m; gr_handle := gr_handle m;
         gr_public := gr_public m; gr_mgmt := gr_mgmt m; gr_ended := None |}
| gw_tick t :
    gr_now m <= t ->
    gateway_step m Tick
      {| gr_proc := gr_proc m; gr_now := t; gr_task_running := gr_task_running m; gr_handle := gr_handle m;
         gr_public := gr_public m; gr_mgmt := gr_mgmt m; gr_ended := gr_ended m |}
| gw_task : gr_ended m = None -> gr_task_running m = true -> gateway_step m TaskPoll (task_poll m)
| gw_main first n1 n2 : gr_ended m = None -> gateway_step m (MainPoll n1 n2) (gateway_poll first n1 n2 m).

Definition any_step (m m' : GatewayRun) : Prop := exists ev, gateway_step m ev m'.

(** Steps during which some management connection is open. *)
Definition held_step (m m' : GatewayRun) : Prop :=
  exists ev, gateway_step m ev m' /\ forall n1 n2, ev = MainPoll n1 n2 -> n2 <> O.

Definition gateway_launch (p : Process) (now : Z) (s2 : GracefulServe) : GatewayRun :=
  {| gr_proc := p; gr_now := now; gr_task_running := true; gr_handle := None;
     gr_public := Pending tls_new; gr_mgmt := Pending s2; gr_ended := None |}.

(** *** Invariant *)

(** The wait for the public connections began no later than [t]. *)
Definition drain_before (x : Branch TlsServe E) (t : Z) : Prop :=
  forall s u, x = Pending s -> tls_drain s = Some u -> u <= t.

Definition gateway_inv (m : GatewayRun) : Prop :=
  signal_inv [1%nat; 2%nat] (gr_proc m)
  /\ (gr_task_running m = true -> gr_handle m = None
        /\ exists b w, subs (gr_proc m) !! 1%nat = Some (b, Some w))
  /\ (forall h, gr_handle m = Some h -> fired (gr_proc m) /\ h = Some PUBLIC_DRAIN)
  /\ drain_before (gr_public m) (gr_now m)
  /\ (branch_done (gr_public m) = true -> fired (gr_proc m))
  /\ branch_ok (gr_proc m) (gr_mgmt m)
  /\ match gr_ended m with
     | None => branch_failed (gr_public m) = None
               /\ branch_done (gr_public m) && branch_done (gr_mgmt m) = false
     | Some (Ok _) => branch_done (gr_public m) = true /\ branch_done (gr_mgmt m) = true
     | Some (Err e) => branch_failed (gr_public m) = Some e
     end.

Lemma gateway_launch_inv {IoErr} (i t : result unit IoErr) o p now s2 :
  install i t = Ok o -> rtc step (spawned o) p -> waiting p [1%nat; 2%nat] ->
  gateway_inv (gateway_launch p now s2).
Proof.
  intros Ho Hr Hw. split; [by eapply waiting_inv|]. split.
  - intros _. split; [done|]. destruct (Hw 1%nat) as [b Hb]; [set_solver|]. by exists b, WaitStart.
  - split; [done|]. split; [|done]. intros s u [= <-]. by rewrite tls_new_drain.
Qed.

(** The task calls [graceful_shutdown] at its first poll after the signal. *)
Lemma task_poll_spec m :
  gateway_inv m -> gr_task_running m = true ->
  gateway_inv (task_poll m)
  /\ gr_public (task_poll m) = gr_public m /\ gr_mgmt (task_poll m) = gr_mgmt m
  /\ gr_ended (task_poll m) = gr_ended m
  /\ (fired (gr_proc m) -> gr_handle (task_poll m) = Some (Some PUBLIC_DRAIN))
  /\ (~ fired (gr_proc m) -> gr_handle (task_poll m) = None).
Proof.
  intros (Hs & Ht & Hh & Hdr & Hx & Hy & He) Hrun. destruct (Ht Hrun) as (Hn & b & w & Hb).
  unfold task_poll. rewrite Hb. destruct (wait_poll w (chan (gr_proc m)) b) as [w' b'] eqn:Ew.
  pose proof (set_sub_signal _ _ _ _ _ _ _ Hs Hb Ew) as Hs'.
  pose proof (wait_poll_fired _ _ _ _ _ _ (proj1 Hs) Hb Ew) as Hf.
  assert (Hsub : subs (set_sub (gr_proc m) 1 b' w') !! 1%nat = Some (b', w')) by apply lookup_insert_eq.
  unfold gateway_inv. rewrite Hn. cbn [gr_proc gr_now gr_task_running gr_handle gr_public gr_mgmt gr_ended].
  destruct w' as [w'|]; naive_solver.
Qed.

(** The public listener, once bound, has ended at a poll exactly when it had
    before or is shutting down with no connection left or its limit passed. *)
Definition public_bound (x : Branch TlsServe E) : bool :=
  match x with Pending s => tls_bound s | Ready _ => true end.

Definition public_drained (now : Z) (h : option (option Z)) (open : nat) (x : Branch TlsServe E) : bool :=
  branch_done x
  || match x, h with
     | Pending s, Some limit =>
         (open =? 0)%nat
         || match limit with Some d => default now (tls_drain s) + d <=? now | None => false end
     | _, _ => false
     end.

Lemma poll_public now h n x :
  public_bound x = true -> branch_failed x = None ->
  let x' := poll_branch (tls_poll now h n) x in
  branch_failed x' = None /\ public_bound x' = true /\ branch_done x' = public_drained now h n x.
Proof.
  unfold public_drained. destruct x as [s|[[]|e]]; [|done..]. simpl. intros Hb _.
  destruct (tls_poll now h n s) as [o s'] eqn:Eo.
  pose proof (tls_bound_stays now h n s Hb) as Hb'. rewrite Eo in Hb'. simpl in Hb'.
  apply tls_poll_spec in Eo. cbn zeta in Eo. destruct o as [[[]|e]|]; simpl; [|congruence|].
  - destruct Eo as (limit & -> & [->|(d & -> & Hd)]); [done|].
    by rewrite (proj2 (Z.leb_le _ _) Hd), orb_true_r.
  - split; [done|]. split; [done|]. destruct h as [limit|]; [|done].
    destruct Eo as [_ Eo]. destruct (Eo Hb' _ eq_refl) as [Hn Hd]. rewrite (proj2 (Nat.eqb_neq _ _) Hn).
    destruct limit as [d|]; [|done]. symmetry. by apply Z.leb_gt, Hd.
Qed.

(** A poll leaves the start of the wait, or sets it to now. *)
Lemma poll_drain_before now h n x t :
  drain_before x t -> t <= now -> drain_before (poll_branch (tls_poll now h n) x) now.
Proof.
  intros Hx Ht s' u. destruct x as [s|r]; [|done]. simpl. destruct (tls_poll now h n s) as [o s1] eqn:Eo.
  apply tls_poll_spec in Eo. destruct o; [done|]. intros [= <-]. destruct Eo as [-> _].
  destruct (_ && _); [intros [= <-]|intros Hu; specialize (Hx s u eq_refl Hu); lia].
  destruct (tls_drain s) as [v|] eqn:Ev; simpl; [specialize (Hx s v eq_refl Ev); lia|lia].
Qed.

(** A public listener that has ended well was shutting down. *)
Lemma poll_public_done now h n (x : Branch TlsServe E) :
  branch_done (poll_branch (tls_poll now h n) x) = true -> branch_done x = true \/ h <> None.
Proof.
  destruct x as [s|r]; [|by left]. simpl. destruct (tls_poll now h n s) as [o s'] eqn:Eo.
  apply tls_poll_spec in Eo. destruct o as [[[]|e]|]; simpl; [|done..].
  intros _. right. by destruct Eo as (? & -> & _).
Qed.

(** One poll of [main]. *)
Lemma gateway_poll_inv first n1 n2 m :
  gateway_inv m -> gr_ended m = None -> gateway_inv (gateway_poll first n1 n2 m).
Proof.
  intros (Hs & Ht & Hh & Hdr & Hx & Hy & He) Hn. rewrite Hn in He. destruct He as [Hxf Hnd].
  unfold gateway_poll, try_join_poll.
  pose proof (poll_drain_before (gr_now m) (gr_handle m) n1 _ _ Hdr (Z.le_refl _)) as Hdr'.
  pose proof (graceful_branch_ok _ 2 n2 _ (signalled_fired _ _ 2%nat Hs ltac:(set_solver)) Hy) as Hy'.
  assert (Hx' : branch_done (poll_branch (tls_poll (gr_now m) (gr_handle m) n1) (gr_public m)) = true ->
                fired (gr_proc m)).
  { intros [|Hne]%poll_public_done; [auto|]. destruct (gr_handle m) as [h|]; [|done]. by apply (Hh h). }
  set (x := poll_branch (tls_poll _ _ _) _) in *. set (y := poll_branch (graceful_poll _ _) _) in *.
  rewrite (proj1 Hy'). destruct (branch_failed x) as [e|] eqn:Ex.
  - assert (branch_done x = false) by (by destruct x as [|[]]).
    destruct first; unfold gateway_inv; simpl; naive_solver.
  - destruct first; unfold gateway_inv; simpl;
      destruct (branch_done x) eqn:Edx, (branch_done y) eqn:Edy; simpl; naive_solver.
Qed.

Lemma gateway_step_inv m ev m' : gateway_inv m -> gateway_step m ev m' -> gateway_inv m'.
Proof.
  intros Hm [p He Hr|t Ht|He Hrun|first n1 n2 He].
  - destruct Hm as (Hs & Ht & Hh & Hdr & Hx & [Hyf Hy] & Hend). pose proof (fired_step _ _ (proj1 Hr)) as Hf.
    rewrite He in Hend. split; [by eapply (runtime_step_inv [1%nat] [2%nat])|].
    cbn [gr_proc gr_now gr_task_running gr_handle gr_public gr_mgmt gr_ended].
    rewrite (proj1 (proj2 Hr) 1%nat) by set_solver. split; [exact Ht|].
    split; [intros h Eh; destruct (Hh h Eh); auto|]. split; [done|]. split; [auto|]. split; [split; auto|done].
  - destruct Hm as (Hs & Htk & Hh & Hdr & Hrest). split; [exact Hs|]. split; [exact Htk|]. split; [exact Hh|].
    split; [|exact Hrest]. intros s u Es Eu. specialize (Hdr s u Es Eu). simpl. lia.
  - by apply task_poll_spec.
  - by apply gateway_poll_inv.
Qed.

Lemma gateway_steps_inv m m' : gateway_inv m -> rtc any_step m m' -> gateway_inv m'.
Proof. intros Hm Hr. induction Hr as [|m m1 m' [ev Hs] _ IH]; eauto using gateway_step_inv. Qed.

(** A poll of [main] with the public listener bound: exact. *)
Lemma gateway_poll_exact first n1 n2 m :
  gateway_inv m -> gr_ended m = None -> public_bound (gr_public m) = true ->
  let m' := gateway_poll first n1 n2 m in
  public_bound (gr_public m') = true
  /\ branch_done (gr_mgmt m') = drained (gr_proc m) 2 n2 (gr_mgmt m)
  /\ gr_ended m' = if public_drained (gr_now m) (gr_handle m) n1 (gr_public m)
                      && drained (gr_proc m) 2 n2 (gr_mgmt m) then Some (Ok tt) else None.
Proof.
  intros (Hs & Ht & Hh & Hdr & Hx & Hy & He) Hn Hb m'. rewrite Hn in He. destruct He as [Hxf _].
  destruct (poll_public (gr_now m) (gr_handle m) n1 _ Hb Hxf) as (Ef & Eb & Ed).
  pose proof (graceful_branch_ok _ 2 n2 _ (signalled_fired _ _ 2%nat Hs ltac:(set_solver)) Hy) as [Ey _].
  subst m'. unfold gateway_poll, try_join_poll.
  rewrite Ef, Ey. destruct first; cbn [gr_public gr_mgmt gr_ended]; by rewrite Ed, poll_drained.
Qed.
(** Nothing but the task's polls changes the handle, and only once. *)
Lemma handle_stays m m' h : gateway_inv m -> rtc any_step m m' -> gr_handle m = Some h -> gr_handle m' = Some h.
Proof.
  intros Hm Hr. revert Hm. induction Hr as [|m m1 m' [ev Hs] _ IH]; [done|]. intros Hm Hh.
  apply IH; [by eapply gateway_step_inv|]. destruct Hs as [p He Hr'|t Ht|He Hrun|first n1 n2 He]; try done.
  - destruct Hm as (_ & Ht & _). destruct (Ht Hrun). congruence.
  - unfold gateway_poll. by destruct (try_join_poll _ _ _ _ _) as [[? ?] ?].
Qed.

(** The public listener is bound, and done or waiting for its connections
    since [t] at the latest. *)
Definition draining_since (x : Branch TlsServe E) (t : Z) : Prop :=
  public_bound x = true /\ forall s, x = Pending s -> exists u, tls_drain s = Some u /\ u <= t.

Lemma poll_draining now h n x t :
  draining_since x t -> branch_failed x = None -> draining_since (poll_branch (tls_poll now h n) x) t.
Proof.
  intros [Hb Hx] Hf. destruct (poll_public now h n x Hb Hf) as (_ & Hb' & _). split; [done|].
  intros s'. destruct x as [s|r]; [|done]. simpl. destruct (tls_poll now h n s) as [o s1] eqn:Eo.
  apply tls_poll_spec in Eo. destruct o; [done|]. intros [= <-]. destruct Eo as [-> _].
  destruct (Hx s eq_refl) as (u & -> & Hu). exists u. split; [|done]. by destruct (_ && _).
Qed.

Lemma poll_starts_draining now h n x t :
  public_bound x = true -> branch_failed x = None -> drain_before x t -> t <= now -> is_Some h ->
  draining_since (poll_branch (tls_poll now h n) x) now.
Proof.
  intros Hb Hf Hd Ht Hh. destruct (poll_public now h n x Hb Hf) as (_ & Hb' & _). split; [done|].
  intros s' Es. pose proof (poll_drain_before now h n x t Hd Ht s') as Hdb. rewrite Es in Hb', Hdb.
  destruct x as [s|r]; [|done]. simpl in Es. destruct (tls_poll now h n s) as [o s1] eqn:Eo.
  apply tls_poll_spec in Eo. destruct o; [done|]. injection Es as ->. destruct Eo as [Eo _].
  simpl in Hb'. rewrite Hb', bool_decide_eq_true_2 in Eo by done. rewrite Eo.
  eexists. split; [done|]. by apply Hdb.
Qed.

Lemma gateway_poll_public first n1 n2 m :
  gateway_inv m -> gr_ended m = None -> public_bound (gr_public m) = true ->
  gr_public (gateway_poll first n1 n2 m) = poll_branch (tls_poll (gr_now m) (gr_handle m) n1) (gr_public m).
Proof.
  intros (Hs & Ht & Hh & Hdr & Hx & Hy & He) Hn Hb. rewrite Hn in He. destruct He as [Hxf _].
  destruct (poll_public (gr_now m) (gr_handle m) n1 _ Hb Hxf) as (Ef & _ & _).
  pose proof (graceful_branch_ok _ 2 n2 _ (signalled_fired _ _ 2%nat Hs ltac:(set_solver)) Hy) as [Ey _].
  unfold gateway_poll, try_join_poll. rewrite Ef, Ey. by destruct first.
Qed.

Lemma draining_stays m m' t :
  gateway_inv m -> rtc any_step m m' -> draining_since (gr_public m) t -> draining_since (gr_public m') t.
Proof.
  intros Hm Hr. revert Hm. induction Hr as [|m m1 m' [ev Hs] _ IH]; [done|]. intros Hm Hd.
  apply IH; [by eapply gateway_step_inv|]. destruct Hs as [p He Hr'|u Ht|He Hrun|first n1 n2 He]; try done.
  - by destruct (task_poll_spec m Hm Hrun) as (_ & -> & _).
  - rewrite gateway_poll_public by (done || apply Hd). apply poll_draining; [done|].
    destruct Hm as (_ & _ & _ & _ & _ & _ & Hm). rewrite He in Hm. apply Hm.
Qed.

(** Once the limit has passed the public listener is drained, whatever its
    connections do. *)
Lemma limit_passed x t now n :
  draining_since x t -> branch_failed x = None -> t + PUBLIC_DRAIN <= now ->
  public_drained now (Some (Some PUBLIC_DRAIN)) n x = true.
Proof.
  intros [_ Hx] Hf Ht. unfold public_drained. destruct x as [s|[[]|e]]; [|done..].
  destruct (Hx s eq_refl) as (u & -> & Hu). simpl. rewrite (proj2 (Z.leb_le _ _)) by lia. apply orb_true_r.
Qed.

(** C39. The gateway's [main] joins its listeners exactly.  From a successful
    [install] and the launch of both listeners, through every interleaving:
    when [main] has ended, it ended after the signal with both listeners done,
    or with the error of the public listener's bind.  Once that listener is
    bound, a poll of [main] ends it exactly when the public listener is done
    or shutting down with no connection left or its 30 seconds passed, and the
    management listener is done or sees no connection after its signal.  The
    task's first poll after the signal asks the public listener to drain; when
    [main] is polled after that, at [t], then from [t + 30 s] on a poll that
    sees no management connection ends [main], whatever the public connections
    do, and what the final flush then leaves of a well-formed log is synced to
    the end and reopens to its entries. *)
Theorem gateway_main_drains `{LogEntryJsonLaws} {IoErr} (i t : result unit IoErr) o p t0 s2 m :
  install i t = Ok o -> rtc step (spawned o) p -> waiting p [1%nat; 2%nat] ->
  rtc any_step (gateway_launch p t0 s2) m ->
  match gr_ended m with
  | Some (Ok _) => fired (gr_proc m) /\ branch_done (gr_public m) = true /\ branch_done (gr_mgmt m) = true
  | Some (Err e) => branch_failed (gr_public m) = Some e
  | None =>
      (public_bound (gr_public m) = true -> forall first n1 n2,
         gr_ended (gateway_poll first n1 n2 m)
         = if public_drained (gr_now m) (gr_handle m) n1 (gr_public m)
              && drained (gr_proc m) 2 n2 (gr_mgmt m) then Some (Ok tt) else None)
      /\ (gr_task_running m = true -> fired (gr_proc m) ->
          forall m1, rtc any_step (task_poll m) m1 -> gr_ended m1 = None -> public_bound (gr_public m1) = true ->
          forall first1 k1 k2 m', rtc any_step (gateway_poll first1 k1 k2 m1) m' ->
            gr_now m1 + PUBLIC_DRAIN <= gr_now m' -> gr_ended m' = None -> signalled (gr_proc m') 2 = true ->
            forall first n1, let m'' := gateway_poll first n1 0 m' in
              gr_ended m'' = Some (Ok tt)
              /\ forall log drop_ok f, log_inv log -> gateway_exit m'' log true drop_ok = Some (Some f) ->
                   f = durably (content f) /\ reopens (Some f) (entries log))
  end.
Proof.
  intros Ho Hp Hw Hr. pose proof (gateway_steps_inv _ _ (gateway_launch_inv _ _ _ _ t0 s2 Ho Hp Hw) Hr) as Hm.
  destruct (gr_ended m) as [[[]|e]|] eqn:He.
  - destruct Hm as (_ & _ & _ & _ & Hx & _ & Hm). rewrite He in Hm. destruct Hm as [Hd Hd']. auto.
  - destruct Hm as (_ & _ & _ & _ & _ & _ & Hm). by rewrite He in Hm.
  - split; [intros Hb first n1 n2; by apply gateway_poll_exact|].
    intros Hrun Hf m1 Hr1 He1 Hb1 first1 k1 k2 m' Hr' Ht He' Hsig first n1 m''.
    destruct (task_poll_spec m Hm Hrun) as (Hm0 & _ & _ & _ & Hh & _). specialize (Hh Hf).
    pose proof (gateway_steps_inv _ _ Hm0 Hr1) as Hm1. pose proof (handle_stays _ _ _ Hm0 Hr1 Hh) as Hh1.
    pose proof (gateway_step_inv _ _ _ Hm1 (gw_main _ first1 k1 k2 He1)) as Hm2.
    assert (Hd : draining_since (gr_public (gateway_poll first1 k1 k2 m1)) (gr_now m1)).
    { rewrite gateway_poll_public by done. destruct Hm1 as (_ & _ & _ & Hdr & _ & _ & Hx). rewrite He1 in Hx.
      apply (poll_starts_draining _ _ _ _ (gr_now m1)); [done|apply Hx|done|lia|by rewrite Hh1]. }
    pose proof (draining_stays _ _ _ Hm2 Hr' Hd) as Hd'. pose proof (gateway_steps_inv _ _ Hm2 Hr') as Hm'.
    assert (Hh2 : gr_handle (gateway_poll first1 k1 k2 m1) = Some (Some PUBLIC_DRAIN))
      by (unfold gateway_poll; by destruct (try_join_poll _ _ _ _ _) as [[? ?] ?]).
    assert (Hend : gr_ended m'' = Some (Ok tt)).
    { unfold m''. rewrite (proj2 (proj2 (gateway_poll_exact first n1 0 m' Hm' He' (proj1 Hd')))).
      rewrite (handle_stays _ _ _ Hm2 Hr' Hh2).
      destruct Hm' as (_ & _ & _ & _ & _ & [Hyf _] & Hm'). rewrite He' in Hm'. destruct Hm' as [Hxf _].
      rewrite (limit_passed _ _ _ _ Hd' Hxf Ht). unfold drained. rewrite Hsig.
      by destruct (gr_mgmt m') as [|[[]|]]. }
    split; [done|]. unfold gateway_exit. rewrite Hend. intros log drop_ok f Hl [= Hstop].
    by apply (stop_keeps log drop_ok f).
Qed.

Lemma held_steps m m' :
  gateway_inv m -> gr_ended m = None -> public_bound (gr_public m) = true -> branch_done (gr_mgmt m) = false ->
  rtc held_step m m' -> gr_ended m' = None /\ branch_done (gr_mgmt m') = false.
Proof.
  intros Hm He Hb Hd Hr. revert Hm He Hb Hd. induction Hr as [|m m1 m' (ev & Hs & Hopen) _ IH]; [done|].
  intros Hm He Hb Hd. pose proof (gateway_step_inv _ _ _ Hm Hs) as Hm1.
  destruct Hs as [p _ _|t _|_ Hrun|first n1 n2 _]; [by apply IH..| |].
  - destruct (task_poll_spec m Hm Hrun) as (_ & Ex & Ey & Ee & _). by apply IH; rewrite ?Ex, ?Ey, ?Ee.
  - destruct (gateway_poll_exact first n1 n2 m Hm He Hb) as (Hb' & Hd' & He').
    assert (Hdr : drained (gr_proc m) 2 n2 (gr_mgmt m) = false)
      by (unfold drained; rewrite Hd, (proj2 (Nat.eqb_neq _ _) (Hopen _ _ eq_refl)), andb_false_r; done).
    rewrite Hdr, ?andb_false_r in *. by apply IH.
Qed.

(** An open management connection holds the gateway: as long as every poll of
    [main] sees one, [main] does not end and the final flush is not reached,
    at whatever time, signal or not.  Such a run exists up to every time, with
    polls at that time, so nothing bounds the shutdown. *)
Theorem mgmt_connection_holds_exit {IoErr} (i t : result unit IoErr) o p t0 s2 m :
  install i t = Ok o -> rtc step (spawned o) p -> waiting p [1%nat; 2%nat] ->
  rtc any_step (gateway_launch p t0 s2) m ->
  gr_ended m = None -> public_bound (gr_public m) = true -> branch_done (gr_mgmt m) = false ->
  (forall m', rtc held_step m m' -> forall log fo d, gateway_exit m' log fo d = None)
  /\ (forall u, gr_now m <= u -> exists m', rtc held_step m m' /\ gr_now m' = u
                              /\ forall first n1 n2, held_step m' (gateway_poll first n1 (S n2) m')).
Proof.
  intros Ho Hp Hw Hr He Hb Hd.
  pose proof (gateway_steps_inv _ _ (gateway_launch_inv _ _ _ _ t0 s2 Ho Hp Hw) Hr) as Hm. split.
  - intros m' Hr' log fo d. unfold gateway_exit. by destruct (held_steps m m' Hm He Hb Hd Hr') as [-> _].
  - intros u Hu.
    exists {| gr_proc := gr_proc m; gr_now := u; gr_task_running := gr_task_running m; gr_handle := gr_handle m;
              gr_public := gr_public m; gr_mgmt := gr_mgmt m; gr_ended := gr_ended m |}.
    split; [apply rtc_once; exists Tick; by split; [apply gw_tick|]|]. split; [done|]. intros first n1 n2.
    exists (MainPoll n1 (S n2)). split; [by apply gw_main|]. intros ? ? [= <- <-]. done.
Qed.
End GatewayLife.

(** ** Concrete listeners *)

#[local] Instance toy_axum_serve : AxumServe unit := {|
  GracefulServe := unit;
  graceful_poll signalled open s := (if signalled && (open =? 0)%nat then Some (Ok tt) else None, s);
|}.

#[local] Instance toy_axum_serve_laws : AxumServeLaws unit.
Proof. split. by intros ? ? ? ? ? [= <- <-]. Qed.

(** Bound at once; the state is when the wait began. *)
#[local] Instance toy_axum_server : AxumServer unit := {|
  TlsServe := option Z;
  tls_new := None;
  tls_bound _ := true;
  tls_drain s := s;
  tls_poll now h open s :=
    match h with
    | Some limit =>
        if (open =? 0)%nat || match limit with Some d => default now s + d <=? now | None => false end
        then (Some (Ok tt), s) else (None, Some (default now s))
    | None => (None, s)
    end;
|}.

#[local] Instance toy_axum_server_laws : AxumServerLaws unit.
Proof.
  split; [|done|done]. intros now h open s o s'. unfold tls_poll, toy_axum_server.
  destruct h as [limit|]; [|by intros [= <- <-]].
  destruct (Nat.eqb_spec open 0) as [->|Hn]; simpl; [intros [= <- <-]; exists limit; auto|].
  destruct limit as [d|]; [destruct (Z.leb_spec (default now s + d) now)|]; intros [= <- <-].
  - exists (Some d). eauto 10.
  - split; [done|]. intros _ ? [= <-]. split; [done|]. by intros ? [= <-].
  - split; [done|]. by intros _ ? [= <-].
Qed.

(** The process with three clones waiting, before and after SIGTERM. *)
Definition launched (fired : bool) : Process (H := toy_watch) :=
  {| chan := {| tc_value := fired; tc_version := if fired then 1 else 0; tc_sender := negb fired; tc_receivers := 4 |};
     handler := if fired then Finished {| sigint := false; sigterm := true |}
                else Listening {| sigint := false; sigterm := false |};
     subs := <[3%nat := (demo_sub, Some WaitStart)]> (<[2%nat := (demo_sub, Some WaitStart)]>
               (<[1%nat := (demo_sub, Some WaitStart)]> {[0%nat := (demo_sub, None)]})) |}.

Lemma launched_reachable o :
  install (IoError := unit) (Ok tt) (Ok tt) = Ok o -> rtc step (spawned o) (launched false).
Proof.
  intros [= <-].
  eapply rtc_l; [eapply (step_clone _ 0 1); reflexivity|].
  eapply rtc_l; [eapply (step_clone _ 0 2); reflexivity|].
  eapply rtc_l; [eapply (step_clone _ 0 3); reflexivity|].
  eapply rtc_l; [eapply (step_wait _ 1); reflexivity|].
  eapply rtc_l; [eapply (step_wait _ 2); reflexivity|].
  eapply rtc_l; [eapply (step_wait _ 3); reflexivity|].
  apply (reflexive_eq (R := rtc step)). reflexivity.
Qed.

Lemma launched_waiting ids : Forall (fun i => i = 1 \/ i = 2 \/ i = 3)%nat ids -> waiting (launched false) ids.
Proof.
  intros Hids i Hi. rewrite Forall_forall in Hids. exists demo_sub.
  destruct (Hids i Hi) as [->|[->| ->]]; reflexivity.
Qed.

(** The two steps from the signal to the handler's end leave the subscribers
    alone. *)
Definition signalling : Process :=
  {| chan := chan (launched false); handler := Listening {| sigint := false; sigterm := true |};
     subs := subs (launched false) |}.

Lemma launched_signal own others : runtime_step own others (launched false) signalling.
Proof. split; [eapply step_signal; [reflexivity|right; reflexivity]|]. split; [done|by left]. Qed.

Lemma launched_fires own others : runtime_step own others signalling (launched true).
Proof. split; [eapply step_handler; reflexivity|]. split; [done|by left]. Qed.

Lemma tee_main_drains_witness :
  let m := tee_launch (launched true) 100 tt tt in
  let m' := {| tee_proc := tee_proc (tee_poll true true 1 0 m); tee_now := 100 + SHUTDOWN_DEADLINE;
               protocol_serve := Pending tt; tee_mgmt_serve := Pending tt;
               tee_deadline := Sleeping (100 + SHUTDOWN_DEADLINE); tee_ended := None |} in
  tee_ended (tee_poll true false 1 7 m') = Some (Ok tt).
Proof.
  intros m m'.
  assert (Hr : rtc tee_step (tee_launch (launched false) 100 tt tt) m).
  { eapply rtc_l; [apply tee_step_runtime; [done|apply launched_signal]|].
    eapply rtc_l; [apply tee_step_runtime; [done|apply launched_fires]|]. apply rtc_refl. }
  destruct (tee_main_drains (IoErr := unit) (Ok tt) (Ok tt) _ (launched false) 100 _ _ m eq_refl
              (launched_reachable _ eq_refl) ltac:(apply launched_waiting; repeat constructor; lia) Hr) as [_ Hd].
  destruct (Hd WaitStart eq_refl eq_refl true true 1%nat 0%nat) as [_ Hd'].
  apply (Hd' ltac:(by eexists) eq_refl m'); [|reflexivity].
  apply rtc_once. refine (tee_step_time _ (100 + SHUTDOWN_DEADLINE) _). done.
Defined.

(** The gateway after the signal: its task and its management listener have
    seen it, [main] was polled, 30 seconds have passed, and public connections
    are still open. *)
Definition gateway_fired : GatewayRun (E := unit) := gateway_launch (launched true) 100 tt.

Definition gateway_drained : GatewayRun (E := unit) :=
  let m := gateway_poll true 5 0 (task_poll gateway_fired) in
  {| gr_proc := set_sub (gr_proc m) 2 demo_sub None; gr_now := 100 + PUBLIC_DRAIN;
     gr_task_running := gr_task_running m; gr_handle := gr_handle m;
     gr_public := gr_public m; gr_mgmt := gr_mgmt m; gr_ended := None |}.

Lemma gateway_main_drains_witness :
  gr_ended (gateway_poll true 5 0 gateway_drained) = Some (Ok tt)
  /\ gateway_exit (gateway_poll true 5 0 gateway_drained) TransparencyLog_new true true = Some None.
Proof.
  assert (Hr : rtc any_step (gateway_launch (launched false) 100 tt) gateway_fired).
  { eapply rtc_l; [eexists; apply gw_runtime; [done|apply launched_signal]|].
    eapply rtc_l; [eexists; apply gw_runtime; [done|apply launched_fires]|]. apply rtc_refl. }
  destruct (gateway_main_drains (E := unit) (IoErr := unit) (Ok tt) (Ok tt) _ (launched false) 100 _ gateway_fired
              eq_refl (launched_reachable _ eq_refl) ltac:(apply launched_waiting; repeat constructor; lia) Hr)
    as [_ Hd].
  destruct (Hd eq_refl ltac:(by eexists) (task_poll gateway_fired) (rtc_refl _ _) eq_refl eq_refl true 5%nat 0%nat
              gateway_drained) with (first := true) (n1 := 5%nat) as [He _]; [|reflexivity..|].
  - eapply rtc_l; [eexists; apply gw_runtime; [reflexivity|]; split;
      [eapply (step_poll _ 2); reflexivity|split; [by intros i ->%list_elem_of_singleton|]]|].
    + intros i ->%list_elem_of_singleton. right. by eexists _, _, _, _.
    + apply rtc_once. eexists. refine (gw_tick _ (100 + PUBLIC_DRAIN) _). done.
  - split; [exact He|]. unfold gateway_exit. by rewrite He.
Defined.
