(* ===== verification/Browser.v ===== *)
(** * The browser client: bindings/ts

    [bindings/ts/src/lib.rs], the WebAssembly session of a page that owns its
    own socket.  It has four states; every method takes the state and returns
    its answer with the state it leaves.  [JsError] is the message it carries;
    the text of an invalid public key is the signature library's and an
    argument.

    Proved against [Session], the native client: opening a session accepts
    exactly the same bundles and hellos and arrives at the same keys, frames
    are decrypted with the same results and the same next state (except that
    the epoch in the header is not checked), and a session that fails while
    opening stays failed. *)

From S2P Require Import Prelude RustStd RustText Core Crates Toy Crypto Frame Replay Control Handshake Attest.
From S2P Require Import Receipts Model NonceRegistry TenantPool Service Engine Session EndToEnd.
From Stdlib Require Import Lia.

Local Open Scope Z_scope.

Abbreviation JsResult A := (result A bytes).

Definition js {A} (r : Result A) : JsResult A := map_err Error_display r.

(** ** States *)

Record PendingSession := {
  handshake : ClientHandshake;
  client_hello : bytes;
  pd_attestation_nonce : bytes;
  pd_trust_root : bytes;
  pd_tee_id_pk : bytes;
  pd_tee_receipt_pk : bytes;
  pd_now_unix : Z;
}.

Record OpenSession := {
  op_c2s : SymRatchet;
  op_s2c : SymRatchet;
  op_nonce_salt : NonceSalt;
  op_epoch : Epoch;
  op_c2s_seq : Z;
  op_s2c_replay : ReplayWindow;
  op_tee_receipt_pk : bytes;
  op_current_root : RootKey;
  op_client_ratchet_sk : bytes;
}.

Inductive SessionInner :=
| Replacing
| Poisoned (reason : bytes)
| Pending (p : PendingSession)
| Open (o : OpenSession).

Record DecryptResult := { dr_text : bytes; end_of_turn : bool }.

Record ReceiptJs := {
  js_model : bytes;
  js_input_tokens : Z;
  js_output_tokens : Z;
  js_epoch : Z;
  js_issued_at_unix : Z;
  js_session_id_hex : bytes;
}.

Section Browser.
Context {R : Type} `{!MlKem R, !X25519 R, !Rng R, !Ed25519, !Hkdf, !Sha2, !Aead, !Bitflags, !Hex, !Subtle}
  `{!Postcard ClientHello, !Postcard ServerHello, !Postcard PreKeyBundle, !Postcard Evidence,
    !Postcard Receipt, !Postcard SignedReceipt}.
Context (pk_error : bytes -> bytes).

Definition pk_from_bytes (b : bytes) : JsResult bytes :=
  if decide (length b <> 32%nat) then Err (lit "public key must be 32 bytes")
  else if ed25519_pk_valid b then Ok b else Err (pk_error b).

(** The mirror of the native bundle check. *)
Definition verify_bundle (bundle : PreKeyBundle)
    (expected_nonce expected_weight_commit trust_root : bytes) (now_unix max_age_sec : Z) : Result bytes :=
  if negb (ed25519_pk_valid (id_pk bundle)) then Err (AttestationFailed (lit "invalid id_pk")) else
  let buf := SIG_DOMAIN_BUNDLE ++ id_pk bundle ++ spk_pk_x25519 bundle ++ pq_pk_mlkem bundle
             ++ bundle_evidence bundle in
  if negb (ed25519_verify (id_pk bundle) buf (bundle_signature bundle)) then
    Err (AttestationFailed (lit "bad bundle signature"))
  else
  let? evidence := decode_evidence (bundle_evidence bundle) in
  let expected_report_data :=
    sha512 (lit "ULLM-v1 bundle-attest" ++ id_pk bundle ++ spk_pk_x25519 bundle ++ pq_pk_mlkem bundle
            ++ expected_nonce ++ expected_weight_commit) in
  let? _ := verify {| trust_root := trust_root |} evidence
              {| expected_report_data := expected_report_data; now_unix_ctx := now_unix;
                 max_age_sec := max_age_sec |} in
  Ok (id_pk bundle).

Definition to_array32 (l msg : bytes) : JsResult bytes :=
  if decide (length l = 32%nat) then Ok l else Err msg.

Definition start (bundle_bytes attestation_nonce trust_root_bytes tee_receipt_pk_bytes
    expected_weight_commit : bytes) (now_unix : Z) (rng : R) : JsResult SessionInner * R :=
  match
    let? bundle := postcard_from_bytes (T := PreKeyBundle) bundle_bytes in
    let? _ := js (PreKeyBundle_validate_structural bundle) in
    let? attestation_nonce := to_array32 attestation_nonce (lit "attestation_nonce must be 32 bytes") in
    let? weight_commit := to_array32 expected_weight_commit (lit "expected_weight_commit must be 32 bytes") in
    let? trust_root := pk_from_bytes trust_root_bytes in
    let? tee_receipt_pk := pk_from_bytes tee_receipt_pk_bytes in
    let? tee_id_pk := js (verify_bundle bundle attestation_nonce weight_commit trust_root now_unix 60) in
    Ok (bundle, attestation_nonce, trust_root, tee_receipt_pk, tee_id_pk)
  with
  | Err e => (Err e, rng)
  | Ok (bundle, attestation_nonce, trust_root, tee_receipt_pk, tee_id_pk) =>
      let '(r, rng) := ClientHandshake_initiate rng bundle in
      (let? (handshake, client_hello) := js r in
       Ok (Pending {| handshake := handshake; client_hello := client_hello;
                      pd_attestation_nonce := attestation_nonce; pd_trust_root := trust_root;
                      pd_tee_id_pk := tee_id_pk; pd_tee_receipt_pk := tee_receipt_pk;
                      pd_now_unix := now_unix |}), rng)
  end.

Definition client_hello_bytes (st : SessionInner) : JsResult bytes :=
  match st with
  | Pending p => Ok (client_hello p)
  | _ => Err (lit "session is not in Pending state")
  end.

Definition check_hello_sig (tee_id_pk pre_hash sig : bytes) : Result unit :=
  if ed25519_verify tee_id_pk (SIG_DOMAIN_HANDSHAKE ++ pre_hash) sig then Ok tt
  else Err (AttestationFailed (lit "bad ServerHello sig")).

Definition poison (msg : bytes) : JsResult unit * SessionInner := (Err msg, Poisoned msg).

(** The part of [complete] that only a pending session reaches. *)
Definition complete_pending (p : PendingSession) (server_hello : bytes) : Result OpenSession :=
  let? keys := ClientHandshake_complete (handshake p) server_hello (check_hello_sig (pd_tee_id_pk p)) in
  let? evidence := decode_evidence (server_attestation_evidence keys) in
  let? _ := verify {| trust_root := pd_trust_root p |} evidence
              {| expected_report_data := report_data keys; now_unix_ctx := pd_now_unix p;
                 max_age_sec := 60 |} in
  Ok {| op_c2s := SymRatchet_new (ek_c2s_chain keys);
        op_s2c := SymRatchet_new (ek_s2c_chain keys);
        op_nonce_salt := ek_nonce_salt keys;
        op_epoch := 0;
        op_c2s_seq := 0;
        op_s2c_replay := ReplayWindow_new;
        op_tee_receipt_pk := pd_tee_receipt_pk p;
        op_current_root := root keys;
        op_client_ratchet_sk := Handshake.client_ratchet_sk (handshake p) |}.

Definition complete (st : SessionInner) (server_hello : bytes) : JsResult unit * SessionInner :=
  match st with
  | Pending p =>
      match complete_pending p server_hello with
      | Ok o => (Ok tt, Open o)
      | Err e => poison (Error_display e)
      end
  | Poisoned reason => poison (lit "session poisoned: " ++ reason)
  | Replacing => poison (lit "complete() called concurrently with itself")
  | Open _ => poison (lit "complete() called when session was not Pending")
  end.

Definition encrypt (st : SessionInner) (plaintext : bytes) : JsResult bytes * SessionInner :=
  match st with
  | Open o =>
      let '(key, c2s) := SymRatchet_next_key (op_c2s o) in
      let set sq := Open {| op_c2s := c2s; op_s2c := op_s2c o; op_nonce_salt := op_nonce_salt o;
        op_epoch := op_epoch o; op_c2s_seq := sq; op_s2c_replay := op_s2c_replay o;
        op_tee_receipt_pk := op_tee_receipt_pk o; op_current_root := op_current_root o;
        op_client_ratchet_sk := op_client_ratchet_sk o |} in
      match encode_frame key (op_nonce_salt o) FrameType.Data 0 (op_epoch o) (op_c2s_seq o) plaintext with
      | Err e => (Err (Error_display e), set (op_c2s_seq o))
      | Ok out =>
          if u64_max <? op_c2s_seq o + 1 then (Err (lit "seq overflow"), set (op_c2s_seq o))
          else (Ok (wire out), set (op_c2s_seq o + 1))
      end
  | st => (Err (lit "session not Open"), st)
  end.

(** The state after the key and the replay check of one inbound frame. *)
Definition after_frame (o : OpenSession) (s2c : SymRatchet) (win : ReplayWindow) : OpenSession :=
  {| op_c2s := op_c2s o; op_s2c := s2c; op_nonce_salt := op_nonce_salt o; op_epoch := op_epoch o;
     op_c2s_seq := op_c2s_seq o; op_s2c_replay := win; op_tee_receipt_pk := op_tee_receipt_pk o;
     op_current_root := op_current_root o; op_client_ratchet_sk := op_client_ratchet_sk o |}.

Definition js_key_update (o : OpenSession) (new_pk : bytes) : OpenSession :=
  let '(new_root, new_keys) := DhRatchet_step (op_current_root o) (op_client_ratchet_sk o) new_pk in
  {| op_c2s := SymRatchet_new (c2s_chain new_keys); op_s2c := SymRatchet_new (s2c_chain new_keys);
     op_nonce_salt := Crypto.nonce_salt new_keys; op_epoch := wrapping_add 32 (op_epoch o) 1;
     op_c2s_seq := 0; op_s2c_replay := ReplayWindow_new; op_tee_receipt_pk := op_tee_receipt_pk o;
     op_current_root := new_root; op_client_ratchet_sk := op_client_ratchet_sk o |}.

(** What [decrypt] does with an authentic, fresh frame. *)
Definition dispatch_frame (o : OpenSession) (header : Header) (plaintext : bytes)
  : JsResult DecryptResult * OpenSession :=
  match frame_type header with
  | FrameType.Data =>
      (if utf8_valid plaintext
       then Ok {| dr_text := plaintext; end_of_turn := Z.land (flags header) END_OF_TURN =? END_OF_TURN |}
       else Err (lit "non-utf8 token chunk"), o)
  | FrameType.Control =>
      match Control_decode plaintext with
      | Err e => (Err (Error_display e), o)
      | Ok (Control.KeyUpdate new_pk) => (Ok {| dr_text := []; end_of_turn := false |}, js_key_update o new_pk)
      | Ok other => (Err (lit "unsupported control frame: " ++ Control_debug other), o)
      end
  | other => (Err (lit "unexpected frame type " ++ FrameType_debug other), o)
  end.

Definition decrypt (st : SessionInner) (frame : bytes) : JsResult DecryptResult * SessionInner :=
  match st with
  | Open o =>
      let '(key, s2c) := SymRatchet_next_key (op_s2c o) in
      match decode_frame key (op_nonce_salt o) frame with
      | Err e => (Err (Error_display e), Open (after_frame o s2c (op_s2c_replay o)))
      | Ok (header, plaintext) =>
          let '(seen, win) := check_and_update (op_s2c_replay o) (seq header) in
          let o := after_frame o s2c win in
          match seen with
          | Err e => (Err (Error_display e), Open o)
          | Ok _ => let '(r, o) := dispatch_frame o header plaintext in (r, Open o)
          end
      end
  | st => (Err (lit "session not Open"), st)
  end.

(** [None] is the panic inside the receipt check. *)
Definition verify_receipt_js (st : SessionInner) (raw : bytes) : option (JsResult ReceiptJs) :=
  match st with
  | Open o =>
      match postcard_from_bytes (T := SignedReceipt) raw with
      | Err e => Some (Err e)
      | Ok signed =>
          verified ← verify_receipt signed (op_tee_receipt_pk o);
          Some (
            let? _ := js verified in
            let r := receipt signed in
            Ok {| js_model := model r; js_input_tokens := input_tokens r; js_output_tokens := output_tokens r;
                  js_epoch := Receipts.epoch r; js_issued_at_unix := issued_at_unix r;
                  js_session_id_hex := hex_encode (session r) |})
      end
  | _ => Some (Err (lit "session not Open"))
  end.
End Browser.

(** ** The browser's view of a native session *)

Definition browser_view (s : Session) : OpenSession :=
  {| op_c2s := Session.c2s s; op_s2c := Session.s2c s; op_nonce_salt := Session.nonce_salt s;
     op_epoch := Session.epoch s; op_c2s_seq := Session.c2s_seq s; op_s2c_replay := Session.s2c_replay s;
     op_tee_receipt_pk := Session.tee_receipt_pk s; op_current_root := Session.current_root s;
     op_client_ratchet_sk := Session.client_ratchet_sk s |}.

(** How the native reader's step shows in the browser. *)
Definition browser_answer (r : step_result) (eot : bool) : option DecryptResult :=
  match r with
  | Return (Ok (Some t)) => Some {| dr_text := t; end_of_turn := eot |}
  | Return (Ok None) => Some {| dr_text := []; end_of_turn := true |}
  | Continue => Some {| dr_text := []; end_of_turn := false |}
  | Return (Err _) => None
  end.

Section Frames.
Context {R : Type} `{!X25519 R, !Hkdf, !Aead, !Bitflags, !DebugMessage}.

(** The native client refuses a frame for its epoch. *)
Definition wrong_epoch (s : Session) (l : bytes) : Prop :=
  exists header plaintext,
    decode_frame (SymRatchet_next_key (Session.s2c s)).1 (Session.nonce_salt s) l = Ok (header, plaintext)
    /\ Frame.epoch header <> Session.epoch s.

Lemma js_key_update_view s pk : js_key_update (browser_view s) pk = browser_view (apply_key_update s pk).
Proof.
  unfold js_key_update, apply_key_update. cbn [op_current_root op_client_ratchet_sk browser_view].
  by destruct (DhRatchet_step _ _ _).
Qed.

Lemma utf8_valid_nil : utf8_valid [] = true.
Proof. reflexivity. Qed.

(** Acting on a frame. *)
Lemma dispatch_handle s header plaintext r ts o a :
  handle_frame {| ended := false; stream_session := s |} header plaintext = (r, ts) ->
  dispatch_frame (browser_view s) header plaintext = (a, o) ->
  o = browser_view (stream_session ts)
  /\ match browser_answer r (ended ts) with Some d => a = Ok d | None => exists msg, a = Err msg end.
Proof.
  unfold handle_frame, dispatch_frame. cbn [stream_session ended orb].
  destruct (frame_type header); try by intros [= <- <-] [= <- <-]; split; [|eexists].
  - destruct (Z.land (flags header) END_OF_TURN =? END_OF_TURN) eqn:He; cbn [andb].
    + case_bool_decide as Hp; [subst plaintext; rewrite utf8_valid_nil; by intros [= <- <-] [= <- <-]|].
      destruct (utf8_valid plaintext); intros [= <- <-] [= <- <-]; split; cbn; eauto.
    + destruct (utf8_valid plaintext); intros [= <- <-] [= <- <-]; split; cbn; eauto.
  - destruct (Control_decode plaintext) as [[]|]; intros [= <- <-] [= <- <-];
      by (split; [try apply js_key_update_view|eexists]).
Qed.

End Frames.

(** A frame that the native client receives is dispatched by the browser. *)
Lemma receive_decrypt {R} `{!X25519 R, !Hkdf, !Aead, !Bitflags, !DebugMessage} s l rest header pt s' :
  reads (ws s) = arrival l :: rest -> receive_frame s = (Ok (header, pt), s') ->
  decrypt (Open (browser_view s)) l
  = let '(a, o) := dispatch_frame (browser_view s') header pt in (a, Open o).
Proof.
  intros Hr. unfold receive_frame, read_binary, decrypt. rewrite Hr.
  cbn [read_loop arrival Session.s2c set_ws browser_view op_s2c op_nonce_salt].
  destruct (SymRatchet_next_key (Session.s2c s)) as [key r2].
  cbn [Session.nonce_salt set_s2c set_ws Session.epoch s2c_replay op_s2c_replay].
  destruct (decode_frame key (Session.nonce_salt s) l) as [[h p]|e]; [|done]. case_decide; [done|].
  change (op_s2c_replay (browser_view s)) with (s2c_replay s).
  destruct (check_and_update (s2c_replay s) (seq h)) as [[[]|e] win]; [|done]. by intros [= <- <- <-].
Qed.

(** ** Opening a session *)

Section Opening.
Context {R : Type} `{!MlKem R, !X25519 R, !Rng R, !RngLaws R, !Ed25519, !Hkdf, !Sha2, !Aead, !Bitflags,
    !Hex, !Subtle}
  `{!Postcard ClientHello, !Postcard ServerHello, !Postcard PreKeyBundle, !Postcard Evidence,
    !Postcard Receipt, !Postcard SignedReceipt} `{!DebugMessage}.

Lemma verify_bundle_mirror bundle nonce wc tr now age :
  verify_bundle bundle nonce wc tr now age = Attest.verify_bundle bundle nonce wc tr now age.
Proof. reflexivity. Qed.

(** Only the text of the signature error differs. *)
Lemma complete_callback c hello (f g : bytes -> bytes -> Result unit) keys :
  (forall x y, f x y = Ok tt <-> g x y = Ok tt) ->
  ClientHandshake_complete c hello f = Ok keys <-> ClientHandshake_complete c hello g = Ok keys.
Proof.
  intros Hfg. unfold ClientHandshake_complete.
  destruct (decode_msg hello) as [sh|e]; [|done]. cbn [result_bind].
  destruct (decide (sh_version sh <> PROTOCOL_VERSION)); [done|].
  specialize (Hfg (Transcript_hash (transcript c)) (Handshake.signature sh)).
  destruct (f _ _) as [[]|], (g _ _) as [[]|]; cbn [result_bind]; try done.
  - destruct Hfg as [Hfg _]. by specialize (Hfg eq_refl).
  - destruct Hfg as [_ Hfg]. by specialize (Hfg eq_refl).
Qed.

Lemma hello_checks id_pk x y : check_hello_sig id_pk x y = Ok tt <-> check_server_hello id_pk x y = Ok tt.
Proof. unfold check_hello_sig, check_server_hello. by destruct (ed25519_verify _ _ _). Qed.

(** The key schedule of a completed native handshake, as the browser stores it. *)
Definition keys_view (client_sk receipt_pk : bytes) (keys : EstablishedKeys) : OpenSession :=
  {| op_c2s := SymRatchet_new (ek_c2s_chain keys); op_s2c := SymRatchet_new (ek_s2c_chain keys);
     op_nonce_salt := ek_nonce_salt keys; op_epoch := 0; op_c2s_seq := 0;
     op_s2c_replay := ReplayWindow_new; op_tee_receipt_pk := receipt_pk; op_current_root := root keys;
     op_client_ratchet_sk := client_sk |}.

Lemma complete_pending_iff p hello o :
  complete_pending p hello = Ok o <->
  exists keys evidence,
    ClientHandshake_complete (handshake p) hello (check_server_hello (pd_tee_id_pk p)) = Ok keys
    /\ decode_evidence (server_attestation_evidence keys) = Ok evidence
    /\ verify {| trust_root := pd_trust_root p |} evidence
         {| expected_report_data := report_data keys; now_unix_ctx := pd_now_unix p;
            max_age_sec := NONCE_TTL_DEFAULT_SEC |} = Ok tt
    /\ o = keys_view (Handshake.client_ratchet_sk (handshake p)) (pd_tee_receipt_pk p) keys.
Proof.
  unfold complete_pending. split.
  - intros (keys & Hk & (ev & He & ([] & Hv & [= <-])%result_bind_Ok)%result_bind_Ok)%result_bind_Ok.
    exists keys, ev. split_and!; [|done..].
    eapply complete_callback; [|exact Hk]. intros. symmetry. apply hello_checks.
  - intros (keys & ev & Hk & He & Hv & ->).
    rewrite (proj2 (complete_callback _ _ _ _ keys (hello_checks (pd_tee_id_pk p))) Hk).
    cbn [result_bind]. rewrite He. cbn [result_bind]. change 60 with NONCE_TTL_DEFAULT_SEC. by rewrite Hv.
Qed.

Context (pk_error : bytes -> bytes).

Record opening (get : bytes -> Result bytes) (connect : bytes -> Result ClientSocket) (base_url : bytes)
    (tls : bool) (nonce bundle_bytes server_hello tr rpk wc : bytes) (t1 t2 now : Z) : Prop := {
  op_get : get (trim_end_matches SLASH base_url ++ lit "/v1/attest?nonce=" ++ hex_encode nonce) = Ok bundle_bytes;
  op_connect : exists sock rest, connect (ws_stream_url base_url tls) = Ok sock
    /\ head (send_errors sock) = None /\ reads sock = Some (Ok (Binary server_hello)) :: rest;
  op_clock : now_unix t1 = Ok now /\ now_unix t2 = Ok now;
  op_roots : length tr = 32%nat /\ ed25519_pk_valid tr = true;
  op_receipts : length rpk = 32%nat /\ ed25519_pk_valid rpk = true;
  op_commit : length wc = 32%nat;
}.

Lemma start_pending bundle_bytes nonce tr rpk wc now rng st rng' :
  length nonce = 32%nat -> length tr = 32%nat -> ed25519_pk_valid tr = true ->
  length rpk = 32%nat -> ed25519_pk_valid rpk = true -> length wc = 32%nat ->
  start pk_error bundle_bytes nonce tr rpk wc now rng = (Ok st, rng') <->
  exists bundle id_pk hs hello,
    postcard_from_bytes (T := PreKeyBundle) bundle_bytes = Ok bundle
    /\ PreKeyBundle_validate_structural bundle = Ok tt
    /\ Attest.verify_bundle bundle nonce wc tr now NONCE_TTL_DEFAULT_SEC = Ok id_pk
    /\ ClientHandshake_initiate rng bundle = (Ok (hs, hello), rng')
    /\ st = Pending {| handshake := hs; client_hello := hello; pd_attestation_nonce := nonce;
                       pd_trust_root := tr; pd_tee_id_pk := id_pk; pd_tee_receipt_pk := rpk;
                       pd_now_unix := now |}.
Proof.
  intros Hn Ht Htv Hr Hrv Hw. unfold start, to_array32, pk_from_bytes.
  rewrite Htv, Hrv, !(decide_True _ _) by done.
  rewrite !(decide_False (P := length _ <> 32%nat)) by (intros Hx; by apply Hx).
  destruct (postcard_from_bytes bundle_bytes) as [bundle|e]; cbn [result_bind];
    [|split; [done|intros (? & ? & ? & ? & [=] & _)]].
  destruct (PreKeyBundle_validate_structural bundle) as [[]|e] eqn:Hs; cbn [result_bind js map_err];
    [|split; [done|intros (? & ? & ? & ? & [= <-] & ? & _); congruence]].
  change 60 with NONCE_TTL_DEFAULT_SEC. rewrite verify_bundle_mirror.
  destruct (Attest.verify_bundle bundle nonce wc tr now NONCE_TTL_DEFAULT_SEC) as [idp|e] eqn:Hv;
    cbn [result_bind js map_err]; [|split; [done|intros (? & ? & ? & ? & [= <-] & _ & ? & _); congruence]].
  destruct (ClientHandshake_initiate rng bundle) as [[[hs hello]|e] r] eqn:Hi; cbn [result_bind js map_err].
  - split.
    + intros [= <- <-]. by exists bundle, idp, hs, hello.
    + intros (b' & i' & h' & l' & [= <-] & _ & E & E' & ->). rewrite Hv in E. rewrite Hi in E'.
      injection E as <-. by injection E' as <- <- <-.
  - split; [done|]. intros (b' & i' & h' & l' & [= <-] & _ & _ & E' & _). rewrite Hi in E'.
    discriminate E'.
Qed.

(** The native session that a handshake leaves. *)
Definition native_session (sock : ClientSocket) (hs : ClientHandshake) (keys : EstablishedKeys)
    (idp rpk wc : bytes) (lv : option LayerVerifier) : Session :=
  {| ws := sock; Session.s2c := SymRatchet_new (ek_s2c_chain keys); Session.nonce_salt := ek_nonce_salt keys;
     Session.epoch := 0; s2c_replay := ReplayWindow_new; Session.c2s := SymRatchet_new (ek_c2s_chain keys);
     Session.c2s_seq := 0; Session.current_root := root keys;
     Session.server_ratchet_pk := Handshake.server_ratchet_pk keys;
     Session.client_ratchet_sk := Handshake.client_ratchet_sk hs; tee_id_pk := idp; tee_receipt_pk := rpk;
     layer_verifier := lv; expected_weight_commit := wc |}.

Lemma connect_with_Ok get connect base_url tls lv rng bundle_bytes server_hello tr rpk wc t1 t2 now s rng' :
  opening get connect base_url tls (fill_bytes 32 rng).1 bundle_bytes server_hello tr rpk wc t1 t2 now ->
  connect_with get connect t1 t2 rng base_url tr rpk wc tls lv = (Ok s, rng') ->
  exists bundle idp hs hello keys evidence,
    postcard_from_bytes (T := PreKeyBundle) bundle_bytes = Ok bundle
    /\ PreKeyBundle_validate_structural bundle = Ok tt
    /\ Attest.verify_bundle bundle (fill_bytes 32 rng).1 wc tr now NONCE_TTL_DEFAULT_SEC = Ok idp
    /\ ClientHandshake_initiate (fill_bytes 32 rng).2 bundle = (Ok (hs, hello), rng')
    /\ ClientHandshake_complete hs server_hello (check_server_hello idp) = Ok keys
    /\ decode_evidence (server_attestation_evidence keys) = Ok evidence
    /\ verify {| trust_root := tr |} evidence
         {| expected_report_data := report_data keys; now_unix_ctx := now;
            max_age_sec := NONCE_TTL_DEFAULT_SEC |} = Ok tt
    /\ exists sock, s = native_session sock hs keys idp rpk wc lv.
Proof.
  intros [Hget (sock & rest & Hc & Hse & Hrd) [Hn1 Hn2] _ _ _].
  unfold connect_with. destruct (fill_bytes 32 rng) as [nonce rng1]. cbn [fst snd] in *.
  unfold fetch_bundle. rewrite Hget, Hn1. cbn [result_bind].
  destruct (postcard_from_bytes bundle_bytes) as [bundle|e]; [|done]. cbn [result_bind map_err].
  destruct (PreKeyBundle_validate_structural bundle) as [[]|e] eqn:Hs; [|done]. cbn [result_bind].
  destruct (Attest.verify_bundle _ _ _ _ _ _) as [idp|e] eqn:Hv; [|done]. cbn [result_bind].
  destruct (ClientHandshake_initiate rng1 bundle) as [[[hs hello]|e] r] eqn:Hi; [|done]. cbn [result_bind].
  rewrite Hc. unfold ws_send, read_binary. cbn [result_bind]. rewrite Hse. cbn [reads].
  rewrite Hrd. cbn [read_loop result_bind]. rewrite Hn2. cbn [result_bind].
  intros [= HE <-].
  apply result_bind_Ok in HE as (keys & Hk & HE). apply result_bind_Ok in HE as (ev & He & HE).
  apply result_bind_Ok in HE as ([] & Hvv & [= <-]).
  exists bundle, idp, hs, hello, keys, ev. split_and!; try done. by eexists.
Qed.

(** Browser and native client, given the same peer, the same randomness and the
    same clock, open exactly the same sessions. *)
Lemma connect_iff get connect base_url tls lv rng bundle_bytes server_hello tr rpk wc t1 t2 now o rng' :
  opening get connect base_url tls (fill_bytes 32 rng).1 bundle_bytes server_hello tr rpk wc t1 t2 now ->
  (exists st, start pk_error bundle_bytes (fill_bytes 32 rng).1 tr rpk wc now (fill_bytes 32 rng).2 = (Ok st, rng')
     /\ complete st server_hello = (Ok tt, Open o))
  <-> exists s, connect_with get connect t1 t2 rng base_url tr rpk wc tls lv = (Ok s, rng')
        /\ browser_view s = o.
Proof.
  intros Hop. pose proof (fill_bytes_len 32 rng) as Hnl. split.
  - intros (st & Hst & Hco).
    destruct Hop as [Hget (sock & rest & Hc & Hse & Hrd) [Hn1 Hn2] [Ht Htv] [Hr Hrv] Hw].
    apply start_pending in Hst as (bundle & idp & hs & hello & Hp & Hs & Hv & Hi & ->); [|done..].
    unfold complete in Hco. destruct (complete_pending _ _) as [o'|e] eqn:Hcp; [|done].
    injection Hco as ->. apply complete_pending_iff in Hcp as (keys & ev & Hk & He & Hvv & ->).
    cbn [handshake pd_tee_id_pk pd_trust_root pd_now_unix pd_tee_receipt_pk] in *.
    unfold connect_with. destruct (fill_bytes 32 rng) as [nonce rng1]. cbn [fst snd] in *.
    unfold fetch_bundle. rewrite Hget, Hn1. cbn [result_bind]. rewrite Hp. cbn [result_bind map_err].
    rewrite Hs. cbn [result_bind]. rewrite Hv. cbn [result_bind]. rewrite Hi. cbn [result_bind].
    rewrite Hc. unfold ws_send, read_binary. cbn [result_bind]. rewrite Hse. cbn [reads]. rewrite Hrd.
    cbn [read_loop result_bind]. rewrite Hk. cbn [result_bind]. rewrite He, Hn2. cbn [result_bind].
    rewrite Hvv. cbn [result_bind]. eexists. split; [reflexivity|]. reflexivity.
  - intros (s & Hs & <-).
    destruct (connect_with_Ok _ _ _ _ _ _ _ _ _ _ _ _ _ _ _ _ Hop Hs)
      as (bundle & idp & hs & hello & keys & ev & Hp & Hst & Hv & Hi & Hk & He & Hvv & sock & ->).
    destruct Hop as [_ _ _ [Ht Htv] [Hr Hrv] Hw]. eexists. split.
    { apply start_pending; [done..|]. by exists bundle, idp, hs, hello. }
    unfold complete.
    rewrite (proj2 (complete_pending_iff _ _ (browser_view (native_session sock hs keys idp rpk wc lv)))); [done|].
    by exists keys, ev.
Qed.
End Opening.

(** ** A whole session in the browser *)

(** The frames that arrive, decrypted one by one. *)
Fixpoint decrypt_all {R} `{!X25519 R, !Hkdf, !Aead, !Bitflags} (st : SessionInner) (frames : list bytes)
  : list (JsResult DecryptResult) * SessionInner :=
  match frames with
  | [] => ([], st)
  | l :: frames =>
      let '(a, st) := decrypt st l in
      let '(answers, st) := decrypt_all st frames in
      (a :: answers, st)
  end.

(** All answers are there, and together they are this text. *)
Definition shown (answers : list (JsResult DecryptResult)) (t : bytes) (ends : bool) : Prop :=
  exists ds, answers = Ok <$> ds /\ concat (dr_text <$> ds) = t
    /\ Forall (fun d => end_of_turn d = ends) ds.

Section Stream.
Context {R : Type} `{!MlKem R, !X25519 R, !X25519Laws R, !Rng R, !Ed25519, !Hkdf, !Sha2, !Aead, !AeadLaws,
    !Bitflags, !BitflagsLaws, !Hex} `{!DebugMessage}.

Lemma decrypt_all_app st fs1 fs2 :
  decrypt_all st (fs1 ++ fs2)
  = let '(a1, st1) := decrypt_all st fs1 in
    let '(a2, st2) := decrypt_all st1 fs2 in (a1 ++ a2, st2).
Proof.
  revert st. induction fs1 as [|l fs1 IH]; intros st; cbn [decrypt_all app].
  - by destruct (decrypt_all st fs2).
  - destruct (decrypt st l) as [a st1]. rewrite IH.
    destruct (decrypt_all st1 fs1) as [a1 st2]. by destruct (decrypt_all st2 fs2).
Qed.

Lemma shown_app a1 a2 t1 t2 ends : shown a1 t1 ends -> shown a2 t2 ends -> shown (a1 ++ a2) (t1 ++ t2) ends.
Proof.
  intros (d1 & -> & <- & H1') (d2 & -> & <- & H2'). exists (d1 ++ d2).
  by rewrite !fmap_app, concat_app, Forall_app.
Qed.

(** The session with only this frame to read: the browser's view is the same. *)
Definition facing (s : Session) (l : bytes) : Session :=
  set_ws s {| reads := [arrival l]; send_errors := []; written := [] |}.

Lemma synced_facing c s l : synced c s -> synced c (facing s l).
Proof. by intros []. Qed.

(** A frame that the handler encoded at its position is dispatched. *)
Lemma frame_decrypted c s ft fl pt frame k :
  synced c s -> Service.s2c_seq c + 1 < 2 ^ 63 -> is_u16 fl ->
  encode_frame (SymRatchet_next_key (Service.s2c c)).1 (ch_salt c) ft fl (ch_epoch c)
    (Service.s2c_seq c) pt = Ok frame ->
  exists s', synced (advance c k) s'
    /\ decrypt (Open (browser_view s)) (wire frame)
       = let '(a, o) := dispatch_frame (browser_view s')
                          (Header_new ft (Z.land fl FrameFlags_all) (ch_epoch c) (Service.s2c_seq c)) pt in
         (a, Open o).
Proof.
  intros Sy Hs Hfl He.
  destruct (receive_frame_ok c (facing s (wire frame)) ft fl pt frame [] (advance c k)
    (synced_facing _ _ _ Sy) Hfl He eq_refl) as (s' & Hrf & Sy' & _); [done..|].
  exists s'. split; [done|]. by rewrite <- (receive_decrypt (facing s (wire frame)) (wire frame) [] _ _ _ eq_refl Hrf).
Qed.

Lemma chunk_decrypted c chunk frames c' s :
  chunk_frames c chunk frames c' -> chunk_ok chunk -> loop_inv c -> synced c s ->
  exists answers s', decrypt_all (Open (browser_view s)) frames = (answers, Open (browser_view s'))
    /\ shown answers (text chunk) false /\ synced c' s'.
Proof.
  intros HF [_ Hu] [Hinv Hseq] Sy.
  assert (HD : forall f, encode_frame (SymRatchet_next_key (Service.s2c c)).1 (ch_salt c) FrameType.Data 0
      (ch_epoch c) (Service.s2c_seq c) (text chunk) = Ok f ->
    exists s', synced (advance c (chunks_since_update c + 1)) s'
      /\ decrypt (Open (browser_view s)) (wire f)
         = (Ok {| dr_text := text chunk; end_of_turn := false |}, Open (browser_view s'))).
  { intros f Hf.
    destruct (frame_decrypted c s _ _ _ f (chunks_since_update c + 1) Sy ltac:(lia)
      (conj (Z.le_refl 0) eq_refl) Hf) as (s' & Sy' & Hd).
    exists s'. split; [done|]. rewrite Hd. unfold dispatch_frame. cbn [frame_type Header_new]. by rewrite Hu. }
  destruct HF as [f Hf|f g sk c1 Hf Hg].
  - destruct (HD f Hf) as (s' & Sy' & Hd). cbn [decrypt_all]. rewrite Hd.
    eexists _, s'. split_and!; [reflexivity| |done]. exists [{| dr_text := text chunk; end_of_turn := false |}].
    cbn. rewrite app_nil_r. by repeat constructor.
  - destruct (HD f Hf) as (s1 & Sy1 & Hd).
    destruct (frame_decrypted c1 s1 _ _ _ g 0 Sy1 ltac:(cbn; lia) (conj (Z.le_refl 0) eq_refl) Hg)
      as (s2 & Sy2 & Hd2).
    cbn [decrypt_all]. rewrite Hd, Hd2. unfold dispatch_frame. cbn [frame_type Header_new].
    rewrite Control_decode_encode by apply x25519_public_len. rewrite js_key_update_view.
    eexists _, _. split_and!; [reflexivity| |].
    + exists [{| dr_text := text chunk; end_of_turn := false |}; {| dr_text := []; end_of_turn := false |}].
      cbn. rewrite app_nil_r. by repeat constructor.
    + by eapply synced_rotated.
Qed.

Lemma stream_decrypted c chunks frames c' s :
  stream_frames c chunks frames c' -> synced c s ->
  exists answers s', decrypt_all (Open (browser_view s)) frames = (answers, Open (browser_view s'))
    /\ shown answers (concat (text <$> chunks)) false /\ synced c' s'.
Proof.
  intros HF. revert s. induction HF as [c|c chunk chunks fs1 fs c1 c' Hc Hi Hf HF IH]; intros s Sy.
  { exists [], s. split_and!; [done| |done]. by exists []. }
  destruct (chunk_decrypted _ _ _ _ s Hf Hc Hi Sy) as (a1 & s1 & H1' & Hs1 & Sy1).
  destruct (IH s1 Sy1) as (a2 & s2 & H2' & Hs2 & Sy2).
  exists (a1 ++ a2), s2. rewrite decrypt_all_app, H1', H2'. split_and!; [done| |done].
  cbn [fmap list_fmap concat]. by apply shown_app.
Qed.

Lemma eot_decrypted c s frame :
  synced c s -> loop_inv c ->
  encode_frame (SymRatchet_next_key (Service.s2c c)).1 (ch_salt c) FrameType.Data END_OF_TURN (ch_epoch c)
    (Service.s2c_seq c) [] = Ok frame ->
  exists s', decrypt (Open (browser_view s)) (wire frame)
    = (Ok {| dr_text := []; end_of_turn := true |}, Open (browser_view s')).
Proof.
  intros Sy [Hinv Hseq] He.
  destruct (frame_decrypted c s _ _ _ frame 0 Sy ltac:(lia) (conj Z.le_0_1 eq_refl) He) as (s' & _ & Hd).
  exists s'. by rewrite Hd.
Qed.
End Stream.

(** The fields of a struct are encoded one after the other, and decoding reads
    from the front: an envelope can be read as the receipt it starts with. *)
Class EnvelopePrefix `{!Postcard ReceiptEnvelope, !Postcard SignedReceipt} : Prop := {
  envelope_prefix env l :
    postcard_to_allocvec env = Ok l -> postcard_from_bytes (T := SignedReceipt) l = Ok (signed_receipt env);
}.

(** The frame that [encrypt] makes is the one that the native client sends. *)
Lemma browser_encrypt {R} `{!X25519 R, !Hkdf, !Aead, !Bitflags} s prompt frame ts s' :
  send_errors (ws s) = [] -> Session.c2s_seq s = 0 ->
  encode_frame (SymRatchet_next_key (Session.c2s s)).1 (Session.nonce_salt s) FrameType.Data 0
    (Session.epoch s) 0 prompt = Ok frame ->
  send s prompt = (Ok ts, s') ->
  encrypt (Open (browser_view s)) prompt = (Ok (wire frame), Open (browser_view s')).
Proof.
  intros Hse Hq Hf. unfold send, encrypt. cbn [op_c2s browser_view].
  destruct (SymRatchet_next_key (Session.c2s s)) as [key r2]. cbn [fst] in Hf.
  cbn [Session.nonce_salt Session.epoch Session.c2s_seq set_c2s op_nonce_salt op_epoch op_c2s_seq].
  rewrite Hq, Hf. cbn [ws set_c2s]. unfold ws_send. rewrite Hse. cbn [head].
  cbn [Session.c2s_seq set_c2s set_ws]. change (u64_max <? 0 + 1) with false.
  intros [= _ <-]. unfold browser_view. cbn [op_nonce_salt op_epoch op_c2s_seq]. rewrite Hq, Hf. done.
Qed.

Section Whole.
Context {R : Type} `{!MlKem R, !MlKemLaws R, !X25519 R, !X25519Laws R, !Rng R, !RngLaws R, !Ed25519,
    !Ed25519Laws, !Hkdf, !HkdfLaws, !Sha2, !Sha2Laws, !Aead, !AeadLaws, !Bitflags, !BitflagsLaws,
    !Hex, !HexLaws, !Subtle, !SubtleLaws} `{!Pasta, !PastaLaws}
  `{!Postcard ClientHello, !PostcardLaws ClientHello, !Postcard ServerHello, !PostcardLaws ServerHello,
    !Postcard PreKeyBundle, !PostcardLaws PreKeyBundle, !Postcard Evidence, !PostcardLaws Evidence,
    !Postcard Receipt, !PostcardLaws Receipt, !Postcard ReceiptEnvelope, !PostcardLaws ReceiptEnvelope,
    !Postcard SignedReceipt, !EnvelopePrefix}
  `{!InferenceEngine E} `{!DebugMessage}.
Context (pk_error : bytes -> bytes).

Lemma dispatch_keeps_pk o h pt a o' :
  dispatch_frame o h pt = (a, o') -> op_tee_receipt_pk o' = op_tee_receipt_pk o.
Proof.
  unfold dispatch_frame, js_key_update. destruct (frame_type h); try by intros [= _ <-].
  destruct (Control_decode pt) as [[]|]; try destruct (DhRatchet_step _ _ _); by intros [= _ <-].
Qed.

Lemma decrypt_keeps_pk o l a o' :
  decrypt (Open o) l = (a, Open o') -> op_tee_receipt_pk o' = op_tee_receipt_pk o.
Proof.
  unfold decrypt. destruct (SymRatchet_next_key _) as [key s2c].
  destruct (decode_frame _ _ _) as [[h pt]|e]; [|by intros [= _ <-]].
  destruct (check_and_update _ _) as [[[]|e] win]; [|by intros [= _ <-]].
  destruct (dispatch_frame _ _ _) as [a' o1] eqn:Hd. intros [= _ <-].
  by rewrite (dispatch_keeps_pk _ _ _ _ _ Hd).
Qed.

Lemma decrypt_open o l : exists a o', decrypt (Open o) l = (a, Open o').
Proof.
  unfold decrypt. destruct (SymRatchet_next_key _) as [key s2c].
  destruct (decode_frame _ _ _) as [[h pt]|e]; [|by eexists _, _].
  destruct (check_and_update _ _) as [[[]|e] win]; [|by eexists _, _].
  destruct (dispatch_frame _ _ _) as [a' o1]. by eexists _, _.
Qed.

Lemma decrypt_all_keeps_pk frames o answers o' :
  decrypt_all (Open o) frames = (answers, Open o') -> op_tee_receipt_pk o' = op_tee_receipt_pk o.
Proof.
  revert o answers. induction frames as [|l frames IH]; intros o answers; cbn [decrypt_all].
  { by intros [= _ <-]. }
  destruct (decrypt_open o l) as (a & o1 & Hd). rewrite Hd.
  destruct (decrypt_all (Open o1) frames) as [as' st] eqn:Ha. intros [= _ ->].
  rewrite (IH _ _ Ha). by eapply decrypt_keeps_pk.
Qed.

(** C3. A whole session works in the browser.  For a TEE (whose layer
    prover, if any, does not panic), prompt and engine as
    in the native case and a page that trusts the TEE's keys, whose one reading
    of the clock is within the freshness limit of both pieces of evidence:
    [start] accepts the bundle the TEE answered, [complete] accepts the
    handler's hello, the handler accepts the frame [encrypt] makes of the
    prompt, [decrypt] answers on every frame the handler sends, the answers
    together are the engine's output across all key rotations, the last is the
    end of turn, and [verify_receipt] accepts the envelope and shows the
    id of the session. *)
Theorem browser_session (state : AppState R E) tenant nanos addr instant now_ns now (tee_rng rng1 : R)
    tenants origin instant0 attest_ns attest_now reg reg' body nonce page_now prompt chunks :
  let sid := SessionId_random nanos addr in
  length nonce = 32%nat ->
  identity_wf (identity state) -> evidence_fits (identity state) nonce attest_now ->
  model_wf (verifiable_model state) -> length (weight_commit (identity state)) = 32%nat ->
  Z.of_nat (length prompt) <= MAX_PLAINTEXT_PER_RECORD -> utf8_valid prompt = true ->
  engine_run (engine state) prompt = chunks -> Forall chunk_ok chunks ->
  attest state origin instant0 attest_ns reg (hex_encode nonce) = (Ok body, reg') ->
  now_unix attest_ns = Ok attest_now -> now_unix now_ns = Ok now ->
  saturating_sub page_now attest_now <= NONCE_TTL_DEFAULT_SEC ->
  saturating_sub page_now now <= NONCE_TTL_DEFAULT_SEC ->
  proofs_accepted state None sid prompt ->
  exists hello prompt_frame sh frames env w' st rng2 st1 st2 answers st3 r,
    handle_session state tenant nanos addr instant now_ns
      {| incoming := [Ok (Binary hello); Ok (Binary prompt_frame)]; outcomes := []; sent := [];
         rng := tee_rng; pool := tenants |} = (Ok tt, w')
    /\ incoming w' = [] /\ sent w' = sh :: frames ++ [env]
    /\ start pk_error body nonce (MockIssuer_verifying_key (attest_issuer (identity state)))
         (tee_verifying_key state) (weight_commit (identity state)) page_now rng1 = (Ok st, rng2)
    /\ client_hello_bytes st = Ok hello
    /\ complete st sh = (Ok tt, st1)
    /\ encrypt st1 prompt = (Ok prompt_frame, st2)
    /\ decrypt_all st2 frames = (answers ++ [Ok {| dr_text := []; end_of_turn := true |}], st3)
    /\ shown answers (concat (text <$> chunks)) false
    /\ verify_receipt_js st3 env = Some (Ok r)
    /\ js_session_id_hex r = hex_encode sid.
Proof.
  intros sid Hn Hid Hfit Hm Hwc Hpl Hpu Hrun Hok Hatt Han Hnow Hage1 Hage2 Hpr.
  destruct (bundle_fetched state origin instant0 attest_ns attest_now reg reg' nonce body (fun _ => Ok body) []
    Hatt Hfit Han eq_refl) as (b & Hfetch & Hb & Hver).
  unfold fetch_bundle in Hfetch. cbn [result_bind] in Hfetch.
  apply result_bind_Ok in Hfetch as (b' & Hdec & Hfetch). apply map_err_Ok in Hdec.
  apply result_bind_Ok in Hfetch as ([] & Hval & [= ->]).
  destruct (session_runs state tenant nanos addr instant now_ns now tee_rng rng1 tenants nonce attest_now b
    prompt chunks []) as (client & hello & rng2 & sh & keys & sk & frame & msgs & signed & w' & Hi & Hrun' & Hin
    & Hsent & Hcomp & Hev & Hpk & Hframe & Hans & Hrec & _); [done..|].
  destruct Hans as [c1 fs c2 f envelope env Hsy Hfs Hi2 Heot Henc Hsig Hvr].
  set (s := opened {| reads := []; send_errors := []; written := [] |} client keys
    (TeeIdentity_id_pk (identity state)) (tee_verifying_key state) (weight_commit (identity state)) None).
  destruct (opened_synced {| reads := []; send_errors := []; written := [] |} client keys
    (TeeIdentity_id_pk (identity state)) (tee_verifying_key state) (weight_commit (identity state)) None sk Hpk)
    as [Sy _]. fold s in Sy.
  destruct (send_prompt_ok s prompt frame eq_refl eq_refl Hframe) as (s1 & Hsend & Sc1 & _ & Hsync).
  destruct (stream_decrypted c1 chunks fs c2 s1 Hfs (Hsy _ (Hsync _ Sy))) as (answers & s2 & Hda & Hsh & Sy2).
  destruct (eot_decrypted c2 s2 f Sy2 Hi2 Heot) as (s3 & Hde).
  set (p := {| handshake := client; client_hello := hello; pd_attestation_nonce := nonce;
    pd_trust_root := MockIssuer_verifying_key (attest_issuer (identity state));
    pd_tee_id_pk := TeeIdentity_id_pk (identity state); pd_tee_receipt_pk := tee_verifying_key state;
    pd_now_unix := page_now |}).
  assert (Hall : decrypt_all (Open (browser_view s1)) (fs ++ [wire f])
    = (answers ++ [Ok {| dr_text := []; end_of_turn := true |}], Open (browser_view s3))).
  { rewrite decrypt_all_app, Hda. cbn [decrypt_all]. by rewrite Hde. }
  eexists hello, (wire frame), sh, (fs ++ [wire f]), env, w', (Pending p), rng2, (Open (browser_view s)),
    (Open (browser_view s1)), answers, (Open (browser_view s3)), _.
  split_and!; [done|done|by rewrite Hsent, <- app_assoc| |done| |by eapply browser_encrypt|done|done| |].
  - apply start_pending; try done; first [apply ed25519_public_len | apply ed25519_public_valid | idtac].
    exists b, (TeeIdentity_id_pk (identity state)), client, hello. split_and!; try done. by apply Hver.
  - unfold complete. rewrite (proj2 (complete_pending_iff p sh (browser_view s))); [done|].
    eexists keys, _. split_and!; [exact Hcomp|exact Hev| |done].
    change (verify ?v) with (MockVerifier_verify v). by rewrite (proj2 (verify_issued _ _ _ _ _)).
  - unfold verify_receipt_js. rewrite (envelope_prefix _ _ Henc), Hsig.
    rewrite (decrypt_all_keeps_pk _ _ _ _ Hall). cbn [op_tee_receipt_pk browser_view].
    rewrite (sc_receipt_pk _ _ _ Sc1). cbn [tee_receipt_pk opened s]. rewrite Hvr. reflexivity.
  - cbn [js_session_id_hex]. destruct Hrec as (_ & -> & _). done.
Qed.
End Whole.

(** ** Failures are final *)

(** The methods of the page's session. *)
Inductive Method :=
| CallHello
| CallComplete (server_hello : bytes)
| CallEncrypt (plaintext : bytes)
| CallDecrypt (frame : bytes)
| CallReceipt (raw : bytes).

Section Final.
Context {R : Type} `{!MlKem R, !X25519 R, !Rng R, !Ed25519, !Hkdf, !Sha2, !Aead, !Bitflags, !Hex, !Subtle}
  `{!Postcard ServerHello, !Postcard Evidence, !Postcard Receipt, !Postcard SignedReceipt}.

(** Whether a call succeeds, and the state after it. *)
Definition call (st : SessionInner) (m : Method) : bool * SessionInner :=
  match m with
  | CallHello => (is_ok (client_hello_bytes st), st)
  | CallComplete l => let '(r, st) := complete st l in (is_ok r, st)
  | CallEncrypt l => let '(r, st) := encrypt st l in (is_ok r, st)
  | CallDecrypt l => let '(r, st) := decrypt st l in (is_ok r, st)
  | CallReceipt l => (match verify_receipt_js st l with Some (Ok _) => true | _ => false end, st)
  end.

Fixpoint calls (st : SessionInner) (ms : list Method) : list bool * SessionInner :=
  match ms with
  | [] => ([], st)
  | m :: ms => let '(ok, st) := call st m in let '(oks, st) := calls st ms in (ok :: oks, st)
  end.

Definition at_rest (st : SessionInner) : Prop :=
  match st with Replacing => False | _ => True end.

Lemma call_at_rest st m : at_rest st -> at_rest (call st m).2.
Proof.
  destruct m as [|l|l|l|l]; cbn [call]; try done.
  - destruct st as [| |p|o]; try done. cbn. by destruct (complete_pending p l).
  - destruct st as [| |p|o]; try done. unfold encrypt. destruct (SymRatchet_next_key _).
    destruct (encode_frame _ _ _ _ _ _ _); [by destruct (u64_max <? op_c2s_seq o + 1)|done].
  - destruct st as [| |p|o]; try done. by destruct (decrypt_open o l) as (a & o' & ->).
Qed.

Lemma call_poisoned reason m :
  exists reason', call (Poisoned reason) m = (false, Poisoned reason').
Proof. destruct m; by eexists. Qed.

(** Whatever a page calls, the session is never left between two states, and
    once [complete] has failed every call fails. *)
Lemma browser_fail_stop st ms :
  at_rest st ->
  at_rest (calls st ms).2
  /\ forall hello msg, (complete st hello).1 = Err msg ->
     exists oks reason, calls (complete st hello).2 ms = (oks, Poisoned reason)
       /\ Forall (fun ok => ok = false) oks.
Proof.
  intros Hst. split.
  - revert st Hst. induction ms as [|m ms IH]; intros st Hst; [done|]. cbn [calls].
    pose proof (call_at_rest st m Hst) as Hc. destruct (call st m) as [ok st1]. cbn [snd] in Hc.
    specialize (IH st1 Hc). by destruct (calls st1 ms).
  - intros hello msg Hf.
    assert (exists reason, (complete st hello).2 = Poisoned reason) as [reason ->].
    { destruct st as [|re|p|o]; cbn in *; try by eexists. destruct (complete_pending p hello); [done|by eexists]. }
    clear Hf. revert reason. induction ms as [|m ms IH]; intros reason; cbn [calls]; [by eexists [], _|].
    destruct (call_poisoned reason m) as (re & ->). destruct (IH re) as (oks & re' & -> & Hoks).
    eexists _, re'. split; [reflexivity|]. by constructor.
Qed.
End Final.

(** ** Claims *)

(** C21. The browser decrypts as the native client does: on every frame whose
    header does not name a wrong epoch, the two end in the same state, and
    the page gets the token, the end of turn, the silent answer to a key
    update, or an error exactly when the native reader returns the token, ends
    the turn, goes on reading, or fails. *)
Theorem browser_decrypt_refines {R} `{!X25519 R, !Hkdf, !Aead, !Bitflags, !DebugMessage} s l rest r ts a st :
  reads (ws s) = Some (Ok (Binary l)) :: rest ->
  next_token_step {| ended := false; stream_session := s |} = (r, ts) ->
  decrypt (Open (browser_view s)) l = (a, st) -> ~ wrong_epoch s l ->
  st = Open (browser_view (stream_session ts))
  /\ match browser_answer r (ended ts) with Some d => a = Ok d | None => exists msg, a = Err msg end.
Proof.
  intros Hr. unfold next_token_step, receive_frame, read_binary, decrypt, wrong_epoch.
  cbn [stream_session]. rewrite Hr. cbn [read_loop Session.s2c set_ws browser_view op_s2c op_nonce_salt].
  destruct (SymRatchet_next_key (Session.s2c s)) as [key r2]. cbn [fst].
  cbn [Session.nonce_salt set_s2c set_ws].
  destruct (decode_frame key (Session.nonce_salt s) l) as [[header pt]|e].
  - intros Hn Hd Hw. cbn [Session.epoch set_s2c set_ws s2c_replay op_s2c_replay] in *.
    rewrite decide_False in Hn by (intros Hne; apply Hw; by exists header, pt).
    change (op_s2c_replay (browser_view s)) with (s2c_replay s) in Hd.
    destruct (check_and_update (s2c_replay s) (seq header)) as [[[]|e] win].
    + set (s' := set_replay _ _) in Hn.
      change (after_frame _ _ _) with (browser_view s') in Hd.
      destruct (dispatch_frame (browser_view s') header pt) as [a' o'] eqn:Hdf.
      destruct (dispatch_handle s' header pt r ts o' a' Hn Hdf) as [-> Ha]. by injection Hd as <- <-.
    + injection Hn as <- <-. injection Hd as <- <-. split; [done|]. by eexists.
  - intros [= <- <-] [= <- <-] _. split; [done|]. by eexists.
Qed.

(** ** Witnesses *)

(** A decoder that reads the receipt at the front of an envelope. *)
#[local] Instance front_receipt : Postcard SignedReceipt := {|
  postcard_to_allocvec _ := Err [];
  postcard_from_bytes l :=
    match postcard_from_bytes (T := ReceiptEnvelope) l with
    | Ok e => Ok (signed_receipt e)
    | Err e => Err e
    end;
|}.

#[local] Instance front_receipt_prefix : EnvelopePrefix.
Proof.
  split. intros env l Hl.
  change (match postcard_from_bytes (T := ReceiptEnvelope) l with
          | Ok e => Ok (signed_receipt e) | Err e => Err e end = @Ok _ bytes (signed_receipt env)).
  by rewrite (postcard_roundtrip _ _ Hl).
Qed.

Lemma browser_session_witness :
  exists hello prompt_frame sh frames env w' st rng2,
    handle_session demo_app (lit "acme") 5 6 7 demo_ns
      {| incoming := [Ok (Binary hello); Ok (Binary prompt_frame)]; outcomes := []; sent := [];
         rng := 1000; pool := (TenantPool_random 9).1 |} = (Ok tt, w')
    /\ incoming w' = [] /\ sent w' = sh :: frames ++ [env]
    /\ start (fun _ => []) demo_body demo_nonce (MockIssuer_verifying_key (attest_issuer (identity demo_app)))
         (tee_verifying_key demo_app) (weight_commit (identity demo_app)) 1700000000 78 = (Ok st, rng2).
Proof.
  destruct (browser_session (fun _ => []) demo_app (lit "acme") 5 6 7 demo_ns 1700000000 1000 78
    (TenantPool_random 9).1 0 demo_ns demo_ns 1700000000 NonceRegistry_new demo_answer.2 demo_body
    demo_nonce 1700000000 (lit "hi") demo_chunks)
    as (hello & frame & sh & frames & env & w' & st & rng2 & st1 & st2 & answers & st3 & r
        & Hrun & Hin & Hsent & Hstart & _).
  - vm_compute. reflexivity.
  - apply identity_random_wf.
  - exact demo_evidence_fits.
  - exact demo_model_wf.
  - vm_compute. reflexivity.
  - vm_compute. congruence.
  - vm_compute. reflexivity.
  - reflexivity.
  - exact demo_chunks_ok.
  - exact (eq_trans (surjective_pairing demo_answer) (f_equal2 pair demo_answer_ok eq_refl)).
  - vm_compute. reflexivity.
  - vm_compute. reflexivity.
  - vm_compute. congruence.
  - vm_compute. congruence.
  - intros r' cs Hcs. exists [], r'. split; [reflexivity|exact I].
  - exists hello, frame, sh, frames, env, w', st, rng2. split_and!; [exact Hrun|exact Hin|exact Hsent|exact Hstart].
Defined.

Definition demo_open : Session :=
  {| ws := {| reads := []; send_errors := []; written := [] |};
     Session.s2c := SymRatchet_new (replicate 32 Byte.x01); Session.nonce_salt := replicate 8 Byte.x02;
     Session.epoch := 0; s2c_replay := ReplayWindow_new; Session.c2s := SymRatchet_new (replicate 32 Byte.x03);
     Session.c2s_seq := 0; Session.current_root := replicate 32 Byte.x04;
     Session.server_ratchet_pk := []; Session.client_ratchet_sk := replicate 32 Byte.x05;
     tee_id_pk := []; tee_receipt_pk := []; layer_verifier := None; expected_weight_commit := [] |}.

Definition demo_frame : bytes :=
  match encode_frame (SymRatchet_next_key (Session.s2c demo_open)).1 (Session.nonce_salt demo_open)
          FrameType.Data 0 0 0 (lit "hi") with
  | Ok f => wire f
  | Err _ => []
  end.

Lemma browser_decrypt_refines_witness :
  exists st, decrypt (Open (browser_view demo_open)) demo_frame
    = (Ok {| dr_text := lit "hi"; end_of_turn := false |}, st).
Proof.
  set (s := facing demo_open demo_frame).
  destruct (next_token_step {| ended := false; stream_session := s |}) as [r ts] eqn:Hs.
  destruct (decrypt (Open (browser_view s)) demo_frame) as [a st] eqn:Hd.
  destruct (browser_decrypt_refines s demo_frame [] r ts a st eq_refl Hs Hd) as [_ Ha].
  - intros (h & pt & Hdec & Hne).
    assert (HE : (match decode_frame (SymRatchet_next_key (Session.s2c s)).1 (Session.nonce_salt s) demo_frame
                  with Ok (h, _) => Frame.epoch h =? 0 | Err _ => true end) = true) by (vm_compute; reflexivity).
    rewrite Hdec in HE. apply Z.eqb_eq in HE. contradiction.
  - assert (HR : browser_answer (next_token_step {| ended := false; stream_session := s |}).1
        (ended (next_token_step {| ended := false; stream_session := s |}).2)
      = Some {| dr_text := lit "hi"; end_of_turn := false |}) by (vm_compute; reflexivity).
    rewrite Hs in HR. cbn [fst snd] in HR. rewrite HR in Ha. exists st. rewrite <- Ha. exact Hd.
Defined.
